(* ===== verification/_CoqProject ===== *)
-Q . S2P
Prelude.v
Tx.v
Bytes.v
Text.v
Serialize.v
LogFiles.v
Log1.v
TxState.v
Chain.v
Log1Producer.v
BlockTs.v
MemRepo.v
Db.v
Log2.v
Crash.v
Log2Refine.v
Log2Claims.v
Notify.v
Ledger.v
LedgerSpec.v
LedgerRefine.v
ParserTx.v
ParserRefine.v
ParserBlock.v
Balances.v
Utxo.v
ParserSpec.v
ParserHistory.v
ParserSteps.v
ParserTables.v
ParserClaims.v
ParserFacts.v
ParserErrors.v
ParserChain.v
ChainFacts.v
BoundedBuffer.v
BufferLock.v
TxLogs.v
KVDB.v
Codec.v
Json.v
Base58.v
Script.v
ScriptSolver.v
RecognizeBlock.v
HttpApi.v
HttpApiFacts.v
RecognizeFacts.v
HttpAddress.v
HttpClaims.v
HttpDemo.v
ScriptFacts.v
Notifyd.v
NotifyFiles.v
NotifydFacts.v
NotifydSubs.v
NotifydPull.v
NotifydClaims.v
NotifyCompose.v
NotifydDemo.v
ParserMain.v
MainFacts.v
TxLogsFacts.v
Pipeline.v
PipelineFacts.v
Threads.v
ThreadsClaims.v
Stamps.v
Log2Init.v
Log2InitFacts.v
ComposeRows.v
Compose.v
ComposeFacts.v
ComposeBlocks.v
ComposeRun.v
ComposeRestart.v
ComposeDemo.v
ComposeClaims.v
