(* ===== verification/Prelude.v ===== *)
(** * Explorer-KV: a verification development

    The program (src/jiexi/src) turns what a Bitcoin node announces into the
    tables of a block explorer.  Its processes form a pipeline, and each hands
    its records to the next through a log:

      bitcoind --log0 files--> log1producer --log1 files--> log2producer
               --MySQL 0_txlogs2--> tparser --rocksdb--> HTTP API
                                            --notification files--> notifyd

    A patched bitcoind appends accepted transactions and blocks to log0.
    log1producer copies what fits its window of blocks and, after a restart of
    bitcoind, inserts the missing steps.  log2producer keeps the pool of
    unconfirmed transactions and turns each record into a batch of rows: a
    transaction is accepted, confirmed, unconfirmed, rejected (docs/TXLOGS.md).
    tparser applies the rows one by one to the key-value store, which the HTTP API
    reads, and writes notification lines, which notifyd books for the applications
    that subscribed.

    ** The library

    Shared
    - [Prelude]: the state-and-error monad (an exception, a failed assertion,
      undefined behaviour and an endless loop are values), reasoning rules for
      it, machine integers with their wrap-around, sorted and filtered lists,
      trimmed maps.
    - [Tx] (bitcoin/core.h, core.cpp): transactions, blocks, their predicates.
      The class [Hashing] stands for the double SHA-256 of OpenSSL.
    - [Bytes], [Text] (Util.cc, bitcoin/util.cpp, uint256.h): numbers and hashes
      as text, splitting, hexadecimal, the order of strings.
    - [Serialize] (bitcoin/serialize.h, core.h, Util.cc): the wire format as
      pairs of directions; the class [CodecOk] is their contract.
    - [Codec] (Common.cc, Util.cc): base 64, URL and JSON text.

    log0 and log1
    - [LogFiles] (tryReadLog0/1, tryRemoveOldLog0/1): one poll of numbered log
      files, next to a writer that may append a byte or switch files between
      any two steps of the reader ([System]).
    - [Log1] (class Log1): a line taken apart and decoded, and the lines written.
    - [Chain] (class Chain): the window of blocks, and [Spec], the list it stands
      for.
    - [Log1Producer] (class Log1Producer): start, synchronisation with bitcoind
      over RPC (a parameter), one turn of the main loop.

    log2producer
    - [TxState] (docs/TXLOGS.md): the life of a transaction as a partial
      function on states; [tx_run] of a list of events.
    - [BlockTs] (class BlockTimestamp), [MemRepo] (class MemTxRepository).
    - [Db] (MySQLConnection.cc, Util.cc): the tables and a session on them; the
      session lists every state a crash could leave on disk.
    - [Log2] (class Log2Producer): the handlers, the batch commit, the loop and
      the restart; [Crash] follows what is published through a whole handler;
      [Log2Refine], [Log2Claims]: the handlers implement runs of [TxState].

    tparser
    - [Ledger] (Parser.cc, keys 20 to 24, AddressInfo and its cache),
      [LedgerSpec], [LedgerRefine]: an address as an account, and the simulation.
    - [ParserTx] (acceptTx, confirmTx, unconfirmTx, rejectTx; keys 01 to 03, 90),
      [ParserBlock] (acceptBlock, rejectBlock; keys 10 to 14).
    - [ParserRefine], [Balances], [Utxo]: what a handler does to the accounts.
    - [ParserSpec]: the world (the confirmed transactions in order, the
      unconfirmed ones), its legal steps, and [shows]: the tables are those of a
      world.  [ParserHistory], [ParserSteps], [ParserTables], [ParserClaims] prove
      that each handler keeps it; [ParserChain] does the same for blocks.
    - [ParserFacts], [ChainFacts], [ParserErrors]: the claims.
    - [KVDB] (KVDB.cc): ranges of the store; [RecognizeBlock], [RecognizeFacts]
      (RecognizeBlock.cc): naming the miner of a block.
    - [Notify] (NotifyLog.cc, class NotifyItem): the notification records.
    - [BoundedBuffer] (Util.h): the class [Queue] is what its clients rely on;
      [BufferLock]: its calls statement by statement, with the mutex that both
      unlock twice.
    - [TxLogs], [TxLogsFacts] (class TxInfoCache, tryFetchTxLog2FromDB): the next
      row and its raw transaction.
    - [ParserMain], [MainFacts] (threadHandleTxlogs): a handler's turn on the
      whole store, and histories of turns and restarts.
    - [Pipeline], [PipelineFacts]: a specification in which log2producer, the two
      threads, with a queue between them, and restarts interleave; [Threads]
      (threadProduceTxlogs, the buffer, threadHandleTxlogs): the threads as they
      are, with the statements of the buffer's calls as steps, and how far they
      implement the specification; [ThreadsClaims]: the claims.

    log2producer and tparser together
    - [ComposeRows]: when a list of rows is legal for the parser; the lists that
      the handlers of log2producer write are.
    - [Compose]: [agrees] relates log2producer between two lines to the view its
      rows give the parser; [line_step] says which lines of log1 a node may write
      next.  [Stamps]: the time stamps in the parser's store are those of the blocks.
    - [Log2Init], [Log2InitFacts] (init, initLog2): the start of log2producer, which
      reads the last block and the recent time stamps from the parser's store.
    - [ComposeFacts] (pool lines), [ComposeBlocks] (blocks put on top, blocks
      taken back), [ComposeRun] (a run over many lines, and the parser's events
      that handle its rows), [ComposeRestart] (a
      restart of log2producer), [ComposeDemo], [ComposeClaims].

    HTTP API
    - [Json]: JSON values, their text and a reader of it, in which the claims
      about the API are stated.
    - [Base58] (bitcoin/base58.h): which texts are addresses.
    - [HttpApi] (HttpAPI.cc): the two services, /kv and /api; [HttpApiFacts],
      [HttpAddress]: what the appended text of a reply is a JSON value of;
      [HttpClaims]: the claims, [HttpDemo]: requests on which they are tried.

    Scripts
    - [Script] (bitcoin/script.h, script.cpp, key.h): reading and printing a
      script, Solver with its templates, ExtractDestinations; [ScriptSolver]: the
      grammar of the scripts that have destinations.  [ScriptFacts] makes them an
      instance of [Scripts], the class the parser and the HTTP API are proved
      against, and discharges what these ask of a transaction's scripts.

    notifyd
    - [Notifyd] (NotifyLog.cc): NotifyProducer, through which the parser writes
      the lines of [Notify]; class Notify, which follows them, books events in the
      table of each application and keeps its subscriptions; the HTTP handlers
      cb_address and cb_pull_events.
    - [NotifyFiles]: the producer's files.  [NotifydFacts]: the invariant [sound]
      and a line, [NotifydSubs]: subscriptions and the start, [NotifydPull]: what a
      polling client reads, [NotifydClaims]: the claims, [NotifyCompose]: the parser
      and notifyd together, [NotifydDemo]: a state on which they are tried.

    ** What the theorems show

    - The logs lose nothing: a reader of log files delivers the complete lines
      once and in order; records and the wire format are read back; log1 is log0
      filtered by the window; synchronisation reaches bitcoind's best chain.
    - log2producer refines docs/TXLOGS.md: from a state that satisfies [inv] every
      handler completes, publishes exactly the described events as one batch and
      restores [inv]; a crash at any point shows the state before or after the
      line, and a restart continues from it.
    - tparser refines the world: every legal row is handled without an exception
      or a failed assertion and takes all tables to the next view; addresses show
      their history, their unspent outputs and a balance that is their sum.  The
      one exception, in every theorem about rows, is a rejection of a transaction
      with an address ([disturbed]), which formats an object with %s
      (Parser.cc:1661): it is covered when that prints anything but the hash of
      another transaction.
    - Its threads hand every published row to the handler, in order and once, and
      never get stuck, as long as they are not both inside the buffer: the second
      unlock of its calls (Util.h:92) may let them, and a row may then come twice
      and another never ([second_unlock_repeats]).
    - Together: lines that a node may write are handled by log2producer, every
      row it publishes can be read, and whatever the parser's schedule its tables
      then show the chain and the pool after the last line.
    - The HTTP API tells what the tables show: a reader of its JSON gets back the
      transaction or the address, a client of /kv the stored values.
    - Scripts have exactly the destinations of a grammar, and every address the
      tables list is valid and read back to its destination.
    - notifyd books every event once for everyone who asked for it, wherever it is
      stopped if no subscription changed since its cursor was stored, and a polling
      client reads each once: for a transaction of the
      parser, what it changes for each subscribed address; the files of the parser
      hold all it wrote; subscriptions in memory and database agree, as long as
      addresses are removed as they are spelled.
    - The limits of the code are theorems too: an output that repeats an address
      cannot be spent, a full cache forgets, a row handled twice counts twice, a
      block that claims too little stops the parser, a request for a hash that is
      not stored ends the HTTP server, an output that repeats a key stops the
      parser, a subscription removed under another spelling stays in memory.

    ** Conventions, bounds and fuel

    - Machine integers are [Z] with the wrap-around written out ([i32], [u32],
      [i64], ...).  Theorems state the range they need: pool sizes and indices
      below [2^31], money below [2^64], heights below [10^10] where they are
      printed with ten digits.
    - Loops without a structural argument carry fuel and raise [Diverge] without
      it.  [confirm_loop] and [reject_loop] need two rounds; the pool's walks need
      at most the size of the pool, for an acyclic pool ([ranked]); [clear_loop]
      and [evict_loop] remove a transaction per round; the fuel of [sync_back] and
      [sync_forward] is the distance to go.  The theorems that a handler completes
      show that the fuel suffices.
    - [C] is a set of addresses that fits the cache of 5,000,000 objects: within
      it nothing is evicted ([eviction_forgets] shows what happens beyond).
      [w_work] counts index records ever made for an address and stays below
      [2^31].
    - [body] gives the transaction behind a hash and [rank] orders transactions so
      that none spends its own descendant: what a collision-free hash gives.
    - [varargs] stands for what passing an object to a C format does, which is
      undefined: print some text, or not come back.  No theorem assumes anything of
      it; where the outcome depends on it the conclusion says how.
    - The second unlock of a [std::mutex] is undefined, too; [BufferLock] takes it
      as the manual page of glibc's default mutex has it, as making the mutex free.

    ** Parameters

    Hashes ([Hashing], [Hash], [Hash160]: SHA-256 and RIPEMD-160 of OpenSSL), the
    class [Scripts] in the parser (with [bitcoin_scripts] as its instance), the RPC
    answers of bitcoind, the clock, the configuration, the pools of miners, what
    libevhtp finds in a request, and the interleaving of processes.  Columns of
    MySQL compare texts byte by byte here; the default collation of the schema
    would also take two addresses for equal that differ in case only.

    ** Not modelled

    Sockets, threads' start and stop, inotify, the URL called on new blocks, the
    lock files and directories (I/O); the evaluation of scripts and signatures
    (commented out in this copy of bitcoind's code), private keys; rocksdb and
    flatbuffers (libraries: a table is a map, an object a record);
    double-precision difficulty; the one-off bootstrap importer, an older copy of
    the same code.

    ** Plan

    The conversions of the difficulty; the byte buffer of the sockets; a step
    relation for notifyd's threads next to the parser, as [Threads] has it. *)
From stdpp Require Export base gmap sets list strings numbers fin_maps sorting.
From Stdlib Require Export ZArith Lia.

#[global] Open Scope Z_scope.

(** ** Outcomes and the state-and-error monad

    A C++ statement either completes or stops the run of the handler it is in:
    - [Throw w]: [THROW_EXCEPTION_*] with message skeleton [w] (nothing in the
      modelled code catches it: the process stops);
    - [AssertFail]: a failing [assert];
    - [Undefined]: behaviour the C++ standard leaves undefined;
    - [Diverge]: a loop or recursion that never ends.
    The state survives the failure: effects done before it stay visible. *)

Inductive fault :=
  | Throw (what : string)
  | AssertFail
  | Undefined
  | Diverge.

#[export] Instance fault_eq_dec : EqDecision fault.
Proof. solve_decision. Defined.

Inductive outcome (A : Type) :=
  | Done (a : A)
  | Raise (e : fault).
Arguments Done {A} a.
Arguments Raise {A} e.

Definition M (S A : Type) : Type := S → outcome A * S.

#[export] Instance outcome_ret : MRet outcome := λ A a, Done a.
#[export] Instance outcome_bind : MBind outcome := λ A B f m,
  match m with Done a => f a | Raise e => Raise e end.

#[export] Instance M_ret {S} : MRet (M S) := λ A a s, (Done a, s).
#[export] Instance M_bind {S} : MBind (M S) := λ A B f m s,
  match m s with
  | (Done a, s') => f a s'
  | (Raise e, s') => (Raise e, s')
  end.

Section monad.
Context {S : Type}.

Definition raise {A} (e : fault) : M S A := λ s, (Raise e, s).
Definition get : M S S := λ s, (Done s, s).
Definition gets {A} (f : S → A) : M S A := λ s, (Done (f s), s).
Definition modify (f : S → S) : M S unit := λ s, (Done tt, f s).
Definition assertM (b : bool) : M S unit := if b then mret tt else raise AssertFail.
Definition lift_outcome {A} (o : outcome A) : M S A := λ s, (o, s).

(** [for (auto &x : l) { f(x); }] *)
Fixpoint forM {A} (l : list A) (f : A → M S unit) : M S unit :=
  match l with
  | [] => mret tt
  | x :: l => f x ;; forM l f
  end.
End monad.

(** A component's method run on the part of a larger state that it owns. *)
Definition zoom {S T A} (proj : S → T) (upd : T → S → S) (m : M T A) : M S A := λ s,
  let (r, t) := m (proj s) in (r, upd t s).

Section monad_lemmas.
Context {S : Type}.
Implicit Types s : S.

Lemma bind_Done {A B} (m : M S A) (k : A → M S B) s a s' :
  m s = (Done a, s') → (m ≫= k) s = k a s'.
Proof. intros H. unfold mbind, M_bind. by rewrite H. Qed.

Lemma bind_Raise {A B} (m : M S A) (k : A → M S B) s e s' :
  m s = (Raise e, s') → (m ≫= k) s = (Raise e, s').
Proof. intros H. unfold mbind, M_bind. by rewrite H. Qed.

Lemma bind_inv {A B} (m : M S A) (k : A → M S B) s b s'' :
  (m ≫= k) s = (Done b, s'') → ∃ a s', m s = (Done a, s') ∧ k a s' = (Done b, s'').
Proof.
  unfold mbind, M_bind. destruct (m s) as [[a|e] s'] eqn:E; [eauto|discriminate].
Qed.

Lemma bind_assoc {A B C} (m : M S A) (f : A → M S B) (g : B → M S C) s :
  ((m ≫= f) ≫= g) s = (m ≫= λ a, f a ≫= g) s.
Proof. unfold mbind, M_bind. by destruct (m s) as [[]]. Qed.

Lemma ret_inv {A} (a b : A) s s' : (mret a : M S A) s = (Done b, s') → a = b ∧ s = s'.
Proof. unfold mret, M_ret. by intros [= -> ->]. Qed.

Lemma assertM_true s b : b = true → assertM b s = (Done tt, s).
Proof. by intros ->. Qed.

Lemma assertM_inv s b u s' : assertM b s = (Done u, s') → b = true ∧ s = s'.
Proof. unfold assertM. destruct b; intros H; [by injection H | discriminate]. Qed.

Lemma assertM_false s b : b = false → assertM b s = (Raise AssertFail, s).
Proof. by intros ->. Qed.

Lemma forM_app {A} (l1 l2 : list A) (f : A → M S unit) s :
  forM (l1 ++ l2) f s = (forM l1 f ;; forM l2 f) s.
Proof.
  revert s. induction l1 as [|x l1 IH]; intros s; [done|].
  simpl. unfold mbind, M_bind in *. destruct (f x s) as [[[]|e] s'] eqn:E; [|done].
  apply IH.
Qed.

(** The loop rule: an invariant [I] indexed by the part of the list already
    visited, kept by every iteration. *)
Lemma forM_ind {A} (I : list A → S → Prop) (f : A → M S unit) (l : list A) s :
  I [] s →
  (∀ l1 x l2 s1, l = l1 ++ x :: l2 → I l1 s1 →
     ∃ s2, f x s1 = (Done tt, s2) ∧ I (l1 ++ [x]) s2) →
  ∃ s', forM l f s = (Done tt, s') ∧ I l s'.
Proof.
  intros H0 Hstep.
  enough (∀ l1 l2 s1, l = l1 ++ l2 → I l1 s1 →
    ∃ s', forM l2 f s1 = (Done tt, s') ∧ I l s') as Hgen by by apply (Hgen [] l).
  intros l1 l2. revert l1. induction l2 as [|x l2 IH]; intros l1 s1 Hl HI.
  - exists s1. split; [done|]. by rewrite app_nil_r in Hl; subst.
  - destruct (Hstep l1 x l2 s1 Hl HI) as (s2 & Hf & HI2).
    destruct (IH (l1 ++ [x]) s2) as (s' & Hrun & HI').
    { by rewrite <-app_assoc. }
    { done. }
    exists s'. split; [|done]. simpl. unfold mbind, M_bind. by rewrite Hf.
Qed.

(** The same rule for a run that is known to have completed. *)
Lemma forM_inv {A} (I : list A → S → Prop) (f : A → M S unit) (l : list A) s u s' :
  forM l f s = (Done u, s') →
  I [] s →
  (∀ l1 x l2 s1 v s2, l = l1 ++ x :: l2 → I l1 s1 → f x s1 = (Done v, s2) →
     I (l1 ++ [x]) s2) →
  I l s'.
Proof.
  intros Hrun H0 Hstep.
  enough (∀ l1 l2 s1, l = l1 ++ l2 → I l1 s1 →
    forM l2 f s1 = (Done u, s') → I l s') as Hgen by by apply (Hgen [] l s).
  clear H0 Hrun. intros l1 l2. revert l1. induction l2 as [|x l2 IH]; intros l1 s1 Hl HI Hr.
  - apply ret_inv in Hr as [_ <-]. by rewrite app_nil_r in Hl; subst.
  - apply bind_inv in Hr as ([] & s2 & Hf & Hr).
    eapply (IH (l1 ++ [x])); [by rewrite <-app_assoc | by eapply Hstep | done].
Qed.

Lemma zoom_Done {T A} (proj : S → T) (upd : T → S → S) (m : M T A) s a t :
  m (proj s) = (Done a, t) → zoom proj upd m s = (Done a, upd t s).
Proof. intros H. unfold zoom. by rewrite H. Qed.

Lemma zoom_inv {T A} (proj : S → T) (upd : T → S → S) (m : M T A) s a s' :
  zoom proj upd m s = (Done a, s') → ∃ t, m (proj s) = (Done a, t) ∧ s' = upd t s.
Proof.
  unfold zoom. destruct (m (proj s)) as [r t] eqn:E. intros [= -> <-]. eauto.
Qed.
End monad_lemmas.

(** ** Computations that keep a relation *)
Definition Keeps {S T A} (R : relation T) (π : S → T) (m : M S A) : Prop :=
  ∀ s r s', m s = (r, s') → R (π s) (π s').

Section keeps.
Context {S T : Type} (R : relation T) `{!PreOrder R} (π : S → T).

Lemma keeps_ret {A} (a : A) : Keeps R π (mret a).
Proof. intros s r s' [= _ <-]. done. Qed.
Lemma keeps_raise {A} e : Keeps (A := A) R π (raise e).
Proof. intros s r s' [= _ <-]. done. Qed.
Lemma keeps_get : Keeps R π get.
Proof. intros s r s' [= _ <-]. done. Qed.
Lemma keeps_lift {A} (o : outcome A) : Keeps R π (lift_outcome o).
Proof. intros s r s' [= _ <-]. done. Qed.
Lemma keeps_assert b : Keeps R π (assertM b).
Proof. unfold assertM. destruct b; [apply keeps_ret|apply keeps_raise]. Qed.
Lemma keeps_bind {A B} (m : M S A) (k : A → M S B) :
  Keeps R π m → (∀ a, Keeps R π (k a)) → Keeps R π (m ≫= k).
Proof.
  intros Hm Hk s r s'. unfold mbind, M_bind. destruct (m s) as [[a|e] s1] eqn:E.
  - intros Hr. transitivity (π s1); [by eapply Hm|by eapply Hk].
  - intros [= _ <-]. by eapply Hm.
Qed.
Lemma keeps_forM_in {A} (l : list A) (f : A → M S unit) :
  (∀ x, x ∈ l → Keeps R π (f x)) → Keeps R π (forM l f).
Proof.
  induction l as [|x l IH]; intros Hf; simpl; [apply keeps_ret|].
  apply keeps_bind; [apply Hf; left|]. intros _. apply IH. intros y Hy. apply Hf. by right.
Qed.
Lemma keeps_forM {A} (l : list A) (f : A → M S unit) :
  (∀ x, Keeps R π (f x)) → Keeps R π (forM l f).
Proof. intros Hf. apply keeps_forM_in. intros. apply Hf. Qed.
Lemma keeps_modify f : (∀ s, π (f s) = π s) → Keeps R π (modify f).
Proof. intros Hf s r s' [= _ <-]. by rewrite Hf. Qed.
Lemma keeps_modify_rel f : (∀ s, R (π s) (π (f s))) → Keeps R π (modify f).
Proof. intros Hf s r s' [= _ <-]. apply Hf. Qed.
Lemma keeps_zoom_same {U A} (proj : S → U) upd (m : M U A) :
  (∀ t s, π (upd t s) = π s) → Keeps R π (zoom proj upd m).
Proof.
  intros Hu s r s'. unfold zoom. destruct (m (proj s)) as [r1 t]. intros [= _ <-]. by rewrite Hu.
Qed.
Lemma keeps_zoom {A} upd (m : M T A) :
  (∀ t s, π (upd t s) = t) → Keeps R id m → Keeps R π (zoom π upd m).
Proof.
  intros Hu Hm s r s'. unfold zoom. destruct (m (π s)) as [r1 t] eqn:E. intros [= _ <-].
  rewrite Hu. by apply (Hm _ _ _ E).
Qed.
End keeps.

Create HintDb keeps.
(** follow the computation through binds, loops and branches *)
Ltac keeps_tac :=
  intros; cbv beta zeta;
  lazymatch goal with
  | |- Keeps _ _ (mret _) => apply keeps_ret; apply _
  | |- Keeps _ _ (raise _) => apply keeps_raise; apply _
  | |- Keeps _ _ get => apply keeps_get; apply _
  | |- Keeps _ _ (lift_outcome _) => apply keeps_lift; apply _
  | |- Keeps _ _ (assertM _) => apply keeps_assert; apply _
  | |- Keeps _ _ (modify _) => apply keeps_modify; [apply _|done]
  | |- Keeps _ _ (_ ≫= _) => apply keeps_bind; [apply _|keeps_tac|keeps_tac]
  | |- Keeps _ _ (forM _ _) => apply keeps_forM; [apply _|keeps_tac]
  | |- Keeps _ _ (zoom _ _ _) =>
      first [ apply keeps_zoom_same; [apply _|done]
            | apply keeps_zoom; [done|keeps_tac] ]
  | |- Keeps _ _ (match ?x with _ => _ end) => destruct x; keeps_tac
  | |- _ => auto with keeps nocore
  end.

(** Take a completed run apart, one statement at a time; the names of the
    states before a step survive. *)
Ltac inj_pair H :=
  injection H; clear H;
  repeat match goal with
  | |- ?x = ?y → _ =>
      let E := fresh "E" in intros E;
      first [is_var y; subst y | is_var x; subst x | idtac]
  end.

Ltac minv :=
  repeat match goal with
  | H : (_ ≫= _) _ = (Done _, _) |- _ =>
      let a := fresh "a" in let s := fresh "s" in let H1 := fresh "Hm" in
      apply bind_inv in H as (a & s & H1 & H)
  | H : mret _ _ = (Done _, _) |- _ => unfold mret, M_ret in H; inj_pair H
  | H : assertM ?b _ = (Done _, _) |- _ =>
      let E := fresh "Ha" in let E2 := fresh "E" in
      apply assertM_inv in H as [E E2]; first [subst | idtac]
  | H : get _ = (Done _, _) |- _ => unfold get in H; inj_pair H
  | H : gets _ _ = (Done _, _) |- _ => unfold gets in H; inj_pair H
  | H : modify _ _ = (Done _, _) |- _ => unfold modify in H; inj_pair H
  | H : raise _ _ = (Done _, _) |- _ => unfold raise in H; discriminate
  | H : zoom _ _ _ _ = (Done _, _) |- _ =>
      let t := fresh "t" in let H1 := fresh "Hz" in let E := fresh "E" in
      apply zoom_inv in H as (t & H1 & E); first [subst | idtac]
  end.

(** ** Machine integers *)

Definition wrapU (w : Z) (z : Z) : Z := z mod 2 ^ w.
Definition wrapS (w : Z) (z : Z) : Z := (z + 2 ^ (w - 1)) mod 2 ^ w - 2 ^ (w - 1).
Abbreviation u8 := (wrapU 8).
Abbreviation u16 := (wrapU 16).
Abbreviation u32 := (wrapU 32).
Abbreviation u64 := (wrapU 64).
Abbreviation i8 := (wrapS 8).
Abbreviation i32 := (wrapS 32).
Abbreviation i64 := (wrapS 64).

Definition in_u (w z : Z) : Prop := 0 ≤ z < 2 ^ w.
Definition in_s (w z : Z) : Prop := - 2 ^ (w - 1) ≤ z < 2 ^ (w - 1).

Lemma wrapU_range w z : 0 ≤ w → in_u w (wrapU w z).
Proof. intros. unfold in_u, wrapU. apply Z.mod_pos_bound. lia. Qed.

Lemma wrapU_id w z : in_u w z → wrapU w z = z.
Proof. intros. by apply Z.mod_small. Qed.

Lemma wrapS_id w z : 0 < w → in_s w z → wrapS w z = z.
Proof.
  intros Hw Hz. unfold wrapS, in_s in *.
  assert (2 ^ w = 2 * 2 ^ (w - 1)) as E.
  { rewrite <-Z.pow_succ_r by lia. f_equal. lia. }
  rewrite Z.mod_small; lia.
Qed.

Lemma wrapS_range w z : 0 < w → in_s w (wrapS w z).
Proof.
  intros Hw. unfold wrapS, in_s.
  assert (2 ^ w = 2 * 2 ^ (w - 1)) as E.
  { rewrite <-Z.pow_succ_r by lia. f_equal. lia. }
  pose proof (Z.mod_pos_bound (z + 2 ^ (w - 1)) (2 ^ w)). lia.
Qed.

Lemma wrapS_wrapU w z : 0 < w → wrapS w z mod 2 ^ w = z mod 2 ^ w.
Proof.
  intros. unfold wrapS. rewrite Zminus_mod_idemp_l. f_equal. lia.
Qed.

Lemma wrapS_mod w z : 0 < w → wrapS w (z mod 2 ^ w) = wrapS w z.
Proof. intros. unfold wrapS. by rewrite Zplus_mod_idemp_l. Qed.

(** ** Ordered containers

    [std::map<K, V>] and [std::set<K>] are [gmap] and [gset]; where the code
    depends on the iteration order, the ordered view is [map_items]. *)

Section ordered.
Context {K : Type} `{Countable K} (R : relation K) `{!RelDecision R}.

Definition key_le {A} (x y : K * A) : Prop := R x.1 y.1.
#[export] Instance key_le_dec {A} : RelDecision (@key_le A).
Proof. intros x y. unfold key_le. apply _. Defined.

(** iteration from [begin()] to [end()] *)
Definition map_items {A} (m : gmap K A) : list (K * A) :=
  merge_sort key_le (map_to_list m).
Definition set_items (X : gset K) : list K := merge_sort R (elements X).

Context `{!Transitive R, !Total R, !AntiSymm (=) R}.

#[export] Instance key_le_trans {A} : Transitive (@key_le A).
Proof. intros x y z. unfold key_le. by etransitivity. Qed.
#[export] Instance key_le_total {A} : Total (@key_le A).
Proof. intros x y. unfold key_le. apply (total R). Qed.

Lemma map_items_perm {A} (m : gmap K A) : map_items m ≡ₚ map_to_list m.
Proof. apply merge_sort_Permutation. Qed.

Lemma elem_of_map_items {A} (m : gmap K A) k v : (k, v) ∈ map_items m ↔ m !! k = Some v.
Proof. rewrite map_items_perm. apply elem_of_map_to_list. Qed.

Lemma NoDup_map_items {A} (m : gmap K A) : NoDup (map_items m).*1.
Proof. rewrite map_items_perm. apply NoDup_fst_map_to_list. Qed.

Lemma map_items_sorted {A} (m : gmap K A) : StronglySorted key_le (map_items m).
Proof. apply StronglySorted_merge_sort; apply _. Qed.

(** A sorted association list without repeated keys is the item list of the
    map it describes. *)
Lemma map_items_unique {A} (m : gmap K A) (l : list (K * A)) :
  NoDup l.*1 → StronglySorted key_le l → (∀ k v, (k, v) ∈ l ↔ m !! k = Some v) →
  map_items m = l.
Proof.
  intros Hnd Hs Hl.
  apply (StronglySorted_unique_strong key_le); [| apply map_items_sorted | done |].
  - intros [k1 v1] [k2 v2] H1 H2 HR1 HR2. unfold key_le in *; simpl in *.
    assert (k1 = k2) as -> by by apply (anti_symm R).
    apply elem_of_map_items in H1. apply Hl in H2. congruence.
  - apply NoDup_Permutation.
    + eapply NoDup_fmap_1, NoDup_map_items.
    + by eapply NoDup_fmap_1.
    + intros [k v]. by rewrite elem_of_map_items, Hl.
Qed.

Lemma set_items_perm (X : gset K) : set_items X ≡ₚ elements X.
Proof. apply merge_sort_Permutation. Qed.

Lemma elem_of_set_items (X : gset K) k : k ∈ set_items X ↔ k ∈ X.
Proof. rewrite set_items_perm. apply elem_of_elements. Qed.

Lemma NoDup_set_items (X : gset K) : NoDup (set_items X).
Proof. rewrite set_items_perm. apply NoDup_elements. Qed.

Lemma length_set_items (X : gset K) : length (set_items X) = size X.
Proof. by rewrite set_items_perm. Qed.
End ordered.

#[export] Instance Z_le_total : Total Z.le.
Proof. intros x y. lia. Qed.

Abbreviation zitems := (map_items Z.le).

(** [m.erase(m.begin())] and [m.erase(std::prev(m.end()))]. *)
Definition erase_first {A} (m : gmap Z A) : gmap Z A :=
  match zitems m with [] => m | (k, _) :: _ => delete k m end.
Definition erase_last {A} (m : gmap Z A) : gmap Z A :=
  match last (zitems m) with None => m | Some (k, _) => delete k m end.

(** [while (m.size() > limit) { m.erase(m.begin()); }], the [int32_t] limit
    converted to [size_t] by the comparison. *)
Fixpoint trim_first {A} (fuel : nat) (limit : Z) (m : gmap Z A) : gmap Z A :=
  match fuel with
  | O => m
  | S fuel => if u64 limit <? Z.of_nat (size m) then trim_first fuel limit (erase_first m) else m
  end.

(** ** Maps whose keys are consecutive heights

    [heights lo l] numbers the elements of [l] from [lo] on; both block windows
    of the program (the chain of block hashes and the block time stamps) are
    maps of this shape. *)
Fixpoint heights {A} (lo : Z) (l : list A) : list (Z * A) :=
  match l with [] => [] | x :: l => (lo, x) :: heights (lo + 1) l end.

Section heights.
Context {A : Type}.
Implicit Types (l : list A) (m : gmap Z A).

Definition window m (lo : Z) l : Prop := m = list_to_map (heights lo l).

Lemma heights_app lo l1 l2 :
  heights lo (l1 ++ l2) = heights lo l1 ++ heights (lo + Z.of_nat (length l1)) l2.
Proof.
  revert lo. induction l1 as [|x l1 IH]; intros lo; simpl.
  - by rewrite Z.add_0_r.
  - rewrite IH. do 3 f_equal. lia.
Qed.

Lemma length_heights lo l : length (heights lo l) = length l.
Proof. revert lo. induction l; intros; simpl; auto. Qed.

Lemma elem_of_heights lo l h x :
  (h, x) ∈ heights lo l ↔ lo ≤ h ∧ l !! Z.to_nat (h - lo) = Some x.
Proof.
  revert lo. induction l as [|y l IH]; intros lo; simpl.
  - rewrite elem_of_nil, lookup_nil. naive_solver.
  - rewrite elem_of_cons, IH. split.
    + intros [[= -> ->] | [Hle Hl]].
      * split; [lia|]. by rewrite Z.sub_diag.
      * split; [lia|]. replace (Z.to_nat (h - lo)) with (S (Z.to_nat (h - (lo + 1)))) by lia. done.
    + intros [Hle Hl]. destruct (decide (h = lo)) as [->|].
      * left. rewrite Z.sub_diag in Hl. simpl in Hl. congruence.
      * right. split; [lia|].
        replace (Z.to_nat (h - lo)) with (S (Z.to_nat (h - (lo + 1)))) in Hl by lia. done.
Qed.

Lemma NoDup_heights lo l : NoDup (heights lo l).*1.
Proof.
  revert lo. induction l as [|x l IH]; intros lo; simpl; constructor; [|done].
  intros Hin. apply list_elem_of_fmap in Hin as ([h y] & Heq & Hin).
  simpl in Heq. subst. apply elem_of_heights in Hin. lia.
Qed.

Lemma heights_sorted lo l : StronglySorted (key_le Z.le) (heights lo l).
Proof.
  revert lo. induction l as [|x l IH]; intros lo; simpl; constructor; [done|].
  apply Forall_forall. intros [h y] Hin. apply elem_of_heights in Hin. unfold key_le. simpl. lia.
Qed.

Lemma window_lookup m lo l h :
  window m lo l → m !! h = if bool_decide (lo ≤ h) then l !! Z.to_nat (h - lo) else None.
Proof.
  intros ->. case_bool_decide as Hle.
  - destruct (l !! Z.to_nat (h - lo)) as [x|] eqn:E.
    + apply elem_of_list_to_map; [apply NoDup_heights|]. by apply elem_of_heights.
    + apply not_elem_of_list_to_map_1. intros Hin.
      apply list_elem_of_fmap in Hin as ([h' y] & Heq & Hin). simpl in Heq; subst.
      apply elem_of_heights in Hin as [_ Hin]. congruence.
  - apply not_elem_of_list_to_map_1. intros Hin.
    apply list_elem_of_fmap in Hin as ([h' y] & Heq & Hin). simpl in Heq; subst.
    apply elem_of_heights in Hin. lia.
Qed.

Lemma window_intro m lo l :
  (∀ h, m !! h = if bool_decide (lo ≤ h) then l !! Z.to_nat (h - lo) else None) → window m lo l.
Proof.
  intros Hm. apply map_eq. intros h. rewrite Hm. symmetry. by apply (window_lookup _ lo l).
Qed.

Lemma window_items m lo l : window m lo l → zitems m = heights lo l.
Proof.
  intros Hw. apply map_items_unique; [apply _.. | apply NoDup_heights | apply heights_sorted |].
  intros h x. rewrite elem_of_heights, (window_lookup _ _ _ _ Hw).
  case_bool_decide; naive_solver.
Qed.

Lemma window_size m lo l : window m lo l → size m = length l.
Proof.
  intros Hw. rewrite <-length_map_to_list, <-(map_items_perm Z.le m),
    (window_items _ _ _ Hw). apply length_heights.
Qed.

Lemma last_heights lo l :
  last (heights lo l) = (λ x, (lo + Z.of_nat (length l) - 1, x)) <$> last l.
Proof.
  destruct l as [|x l _] using rev_ind; [done|].
  rewrite heights_app, last_snoc, length_app. simpl. rewrite last_snoc.
  replace (lo + Z.of_nat (length l + 1) - 1) with (lo + Z.of_nat (length l)) by lia. done.
Qed.

Lemma window_push m lo l x :
  window m lo l → window (<[lo + Z.of_nat (length l) := x]> m) lo (l ++ [x]).
Proof.
  intros Hw. apply window_intro. intros h. rewrite lookup_insert. case_decide as Hh.
  - subst h. rewrite bool_decide_true by lia.
    replace (Z.to_nat _) with (length l) by lia. by rewrite list_lookup_middle.
  - rewrite (window_lookup _ _ _ _ Hw). case_bool_decide; [|done].
    destruct (decide (Z.to_nat (h - lo) < length l)%nat).
    + by rewrite lookup_app_l.
    + rewrite (lookup_ge_None_2 l) by lia.
      rewrite lookup_ge_None_2; [done|]. rewrite length_app. simpl. lia.
Qed.

Lemma window_pop m lo l x : window m lo (l ++ [x]) → window (erase_last m) lo l.
Proof.
  intros Hw. unfold erase_last. rewrite (window_items _ _ _ Hw), last_heights, last_snoc. simpl.
  apply window_intro. intros h. rewrite lookup_delete, (window_lookup _ _ _ _ Hw), length_app.
  simpl. case_decide as Hh.
  - case_bool_decide; [|done]. rewrite lookup_ge_None_2; [done|lia].
  - case_bool_decide; [|done]. destruct (decide (Z.to_nat (h - lo) < length l)%nat).
    + by rewrite lookup_app_l.
    + rewrite (lookup_ge_None_2 l) by lia.
      rewrite lookup_ge_None_2; [done|]. rewrite length_app. simpl. lia.
Qed.

Lemma window_drop_first m lo x l : window m lo (x :: l) → window (erase_first m) (lo + 1) l.
Proof.
  intros Hw. unfold erase_first. rewrite (window_items _ _ _ Hw). simpl.
  apply window_intro. intros h. rewrite lookup_delete, (window_lookup _ _ _ _ Hw).
  case_decide as Hh.
  - subst. by rewrite bool_decide_false by lia.
  - repeat case_bool_decide; try lia; [|done].
    replace (Z.to_nat (h - lo)) with (S (Z.to_nat (h - (lo + 1)))) by lia. done.
Qed.

(** Trimming keeps the newest [limit] entries. *)
Lemma window_trim fuel limit m lo l :
  0 ≤ limit < 2 ^ 64 → window m lo l → (length l - Z.to_nat limit ≤ fuel)%nat →
  window (trim_first fuel limit m) (lo + Z.of_nat (length l - Z.to_nat limit))
    (drop (length l - Z.to_nat limit) l).
Proof.
  intros Hlim. revert m lo l. induction fuel as [|fuel IH]; intros m lo l Hw Hf; simpl.
  - replace (length l - Z.to_nat limit)%nat with 0%nat by lia. by rewrite Z.add_0_r.
  - rewrite wrapU_id by (unfold in_u; lia). rewrite (window_size _ _ _ Hw).
    destruct (Z.ltb_spec limit (Z.of_nat (length l))) as [Hlt|Hge].
    + destruct l as [|x l]; [simpl in *; lia|].
      specialize (IH (erase_first m) (lo + 1) l). simpl in *.
      replace (S (length l) - Z.to_nat limit)%nat with (S (length l - Z.to_nat limit)) by lia.
      replace (lo + Z.of_nat (S (length l - Z.to_nat limit)))
        with (lo + 1 + Z.of_nat (length l - Z.to_nat limit)) by lia.
      apply IH; [|lia]. by eapply window_drop_first.
    + replace (length l - Z.to_nat limit)%nat with 0%nat by lia. by rewrite Z.add_0_r.
Qed.
End heights.

(** Inserting above every key appends to the ordered view. *)
Section zmap_top.
Context {A : Type}.
Implicit Types m : gmap Z A.

Lemma StronglySorted_snoc {B} (R : relation B) (l : list B) x :
  StronglySorted R l → Forall (λ y, R y x) l → StronglySorted R (l ++ [x]).
Proof.
  induction 1 as [|y l Hs IH Hy]; intros Hf; simpl; [repeat constructor|].
  apply Forall_cons in Hf as [Hyx Hf]. constructor; [by apply IH|].
  apply Forall_app. split; [done|]. by constructor.
Qed.

Lemma zitems_insert_max m h x :
  (∀ k, is_Some (m !! k) → k < h) → zitems (<[h := x]> m) = zitems m ++ [(h, x)].
Proof.
  intros Hmax. apply map_items_unique; [apply _.. | | |].
  - rewrite fmap_app. apply NoDup_app. split_and!; [apply NoDup_map_items | | repeat constructor; set_solver].
    intros k Hk Hin. simpl in Hin. apply list_elem_of_singleton in Hin as ->.
    apply list_elem_of_fmap in Hk as ([k y] & ? & Hk). simpl in *; subst.
    apply elem_of_map_items in Hk. specialize (Hmax k). rewrite Hk in Hmax.
    assert (k < k) by eauto. lia.
  - apply StronglySorted_snoc; [apply map_items_sorted; apply _|].
    apply Forall_forall. intros [k y] Hk. apply elem_of_map_items in Hk.
    unfold key_le. simpl. assert (k < h) by (apply Hmax; eauto). lia.
  - intros k y. rewrite elem_of_app, list_elem_of_singleton, elem_of_map_items, lookup_insert.
    case_decide; split; intros Hk; [destruct Hk as [Hk|Hk]|..]; simplify_eq; eauto.
    + assert (k < k) by (apply Hmax; eauto). lia.
    + destruct Hk; [done|]. simplify_eq.
Qed.

Lemma erase_last_insert_max m h x :
  (∀ k, is_Some (m !! k) → k < h) → erase_last (<[h := x]> m) = m.
Proof.
  intros Hmax. unfold erase_last. rewrite zitems_insert_max, last_snoc by done.
  apply delete_insert_id. destruct (m !! h) eqn:E; [|done].
  assert (h < h) by (apply Hmax; eauto). lia.
Qed.

(** Writing the greatest key. *)
Lemma zitems_insert_top m h x :
  (∀ k, is_Some (m !! k) → k ≤ h) → zitems (<[h := x]> m) = zitems (delete h m) ++ [(h, x)].
Proof.
  intros Hmax. rewrite <-insert_delete_eq. apply zitems_insert_max.
  intros k [y Hk]. apply lookup_delete_Some in Hk as [Hne Hk].
  assert (k ≤ h) by (apply Hmax; eauto). lia.
Qed.

Lemma trim_first_small fuel limit m :
  Z.of_nat (size m) ≤ u64 limit → trim_first fuel limit m = m.
Proof. intros H. destruct fuel; simpl; [done|]. by replace (u64 limit <? _) with false by lia. Qed.

Lemma erase_first_subseteq m : erase_first m ⊆ m.
Proof. unfold erase_first. destruct (zitems m) as [|[k x] l]; [done|]. apply delete_subseteq. Qed.

Lemma trim_first_subseteq fuel limit m : trim_first fuel limit m ⊆ m.
Proof.
  revert m. induction fuel as [|fuel IH]; intros m; simpl; [done|].
  case_match; [|done]. etransitivity; [apply IH | apply erase_first_subseteq].
Qed.

Lemma size_erase_first m : size (erase_first m) = (size m - 1)%nat.
Proof.
  unfold erase_first. destruct (zitems m) as [|[k x] l] eqn:E.
  - assert (m = ∅) as ->; [|by rewrite map_size_empty].
    apply map_empty. intros k. destruct (m !! k) as [x|] eqn:Ek; [|done].
    apply (elem_of_map_items Z.le) in Ek. rewrite E in Ek. set_solver.
  - assert (m !! k = Some x) as Hk.
    { apply (elem_of_map_items Z.le). rewrite E. set_solver. }
    rewrite map_size_delete_Some; [lia|eauto].
Qed.

Lemma size_trim_first fuel limit m :
  0 ≤ limit < 2 ^ 64 → (size m ≤ fuel)%nat → Z.of_nat (size (trim_first fuel limit m)) ≤ limit.
Proof.
  intros Hl. revert m. induction fuel as [|fuel IH]; intros m Hf; simpl; [lia|].
  rewrite wrapU_id by (unfold in_u; lia).
  destruct (Z.ltb_spec limit (Z.of_nat (size m))); [|lia].
  apply IH. rewrite size_erase_first. lia.
Qed.
End zmap_top.

(** ** Guarded options *)
Lemma guard_inv {P : Prop} `{Decision P} {A} (o : option A) y :
  (guard P ;; o) = Some y → P ∧ o = Some y.
Proof. intros E. destruct (decide P) as [HP|HP]; case_guard; done. Qed.

Lemma guard_intro {P : Prop} `{Decision P} {A} (o : option A) : P → (guard P ;; o) = o.
Proof. intros HP. case_guard; done. Qed.

(** ** Filters of ordered lists *)
Section filters.
Context {A : Type}.
Implicit Types (l : list A) (R : relation A).

Lemma filter_nothing (P : A → Prop) `{∀ x, Decision (P x)} l :
  (∀ x, x ∈ l → ¬ P x) → filter P l = [].
Proof.
  induction l as [|x l IH]; intros Hl; [done|]. rewrite filter_cons_False by (apply Hl; left).
  apply IH. intros y Hy. apply Hl. by right.
Qed.

Lemma filter_everything (P : A → Prop) `{∀ x, Decision (P x)} l :
  (∀ x, x ∈ l → P x) → filter P l = l.
Proof.
  induction l as [|x l IH]; intros Hl; [done|]. rewrite filter_cons_True by (apply Hl; left).
  f_equal. apply IH. intros y Hy. apply Hl. by right.
Qed.

Lemma sorted_filter R (P : A → Prop) `{∀ x, Decision (P x)} l :
  StronglySorted R l → StronglySorted R (filter P l).
Proof.
  induction 1 as [|x l Hs IH Hx]; [constructor|]. rewrite filter_cons. case_decide; [|done].
  constructor; [done|]. apply Forall_forall. intros y Hy. apply list_elem_of_filter in Hy as [_ Hy].
  rewrite Forall_forall in Hx. by apply Hx.
Qed.

(** a sorted list splits where a downward closed property ends *)
Lemma sorted_split R (P : A → Prop) `{∀ x, Decision (P x)} l :
  StronglySorted R l → (∀ x y, x ∈ l → y ∈ l → R x y → P y → P x) →
  l = filter P l ++ filter (λ x, ¬ P x) l.
Proof.
  induction 1 as [|x l Hs IH Hx]; intros Hdown; [done|]. rewrite !filter_cons. rewrite Forall_forall in Hx.
  assert (l = filter P l ++ filter (λ x, ¬ P x) l) as E.
  { apply IH. intros y z Hy Hz. apply Hdown; by right. }
  assert (∀ y, y ∈ l → P y → P x) as Hl by (intros y Hy; apply Hdown; [left|by right|by apply Hx]).
  destruct (decide (P x)) as [HP|HP].
  - rewrite decide_False by tauto. simpl. by rewrite <-E.
  - rewrite decide_True by done. rewrite (filter_nothing P), (filter_everything (λ x, ¬ P x)); [done| |];
      intros y Hy HPy; apply HP; by eapply Hl.
Qed.

Lemma sorted_by_index R l :
  (∀ (i j : nat) x y, (i < j)%nat → l !! i = Some x → l !! j = Some y → R x y) → StronglySorted R l.
Proof.
  induction l as [|x l IH]; intros Hl; [constructor|]. constructor.
  - apply IH. intros i j y z Hij Hy Hz. by apply (Hl (S i) (S j)); [lia| |].
  - apply Forall_forall. intros y (j & Hj)%list_elem_of_lookup. by apply (Hl 0%nat (S j)); [lia| |].
Qed.

Lemma sorted_app R l1 l2 : StronglySorted R l1 → StronglySorted R l2 →
  (∀ x y, x ∈ l1 → y ∈ l2 → R x y) → StronglySorted R (l1 ++ l2).
Proof.
  intros H1 H2. induction H1 as [|x l1 H1 IH Hx]; intros Hc; [done|]. simpl. constructor.
  - apply IH. intros y z Hy. apply Hc. by right.
  - apply Forall_app. split; [done|]. apply Forall_forall. intros y Hy. apply Hc; [left|done].
Qed.

Lemma sorted_reverse R l :
  StronglySorted R l → StronglySorted (flip R) (reverse l).
Proof.
  induction 1 as [|x l Hs IH Hx]; [constructor|]. rewrite reverse_cons. apply StronglySorted_snoc; [done|].
  apply Forall_reverse. exact Hx.
Qed.
End filters.
