(* ===== verification/Tx.v ===== *)
(** * Transactions and blocks (src/jiexi/src/bitcoin/core.h, core.cpp)

    The data the log pipeline carries: out points, inputs, outputs,
    transactions, block headers and blocks, with the predicates the explorer
    calls on them.  A [uint256] is the integer its little-endian words denote
    (its [operator<] compares those integers); scripts are lists of bytes.  The
    double SHA-256 behind [GetHash] is OpenSSL's and is a parameter, declared by
    the class [Hashing]. *)
From S2P Require Import Prelude.

Abbreviation uint256 := Z.

Record COutPoint := { hash : uint256; n : Z }.
Record CTxIn := { prevout : COutPoint; scriptSig : list Z; nSequence : Z }.
Record CTxOut := { nValue : Z; scriptPubKey : list Z }.
Record CTransaction := {
  nVersion : Z;
  vin : list CTxIn;
  vout : list CTxOut;
  nLockTime : Z }.
Record CBlockHeader := {
  hdr_nVersion : Z;
  hashPrevBlock : uint256;
  hashMerkleRoot : uint256;
  nTime : Z;
  nBits : Z;
  nNonce : Z }.
Record CBlock := { header : CBlockHeader; vtx : list CTransaction }.

#[export] Instance COutPoint_eq_dec : EqDecision COutPoint.
Proof. solve_decision. Defined.
#[export] Instance CTxIn_eq_dec : EqDecision CTxIn.
Proof. solve_decision. Defined.
#[export] Instance CTxOut_eq_dec : EqDecision CTxOut.
Proof. solve_decision. Defined.
#[export] Instance CTransaction_eq_dec : EqDecision CTransaction.
Proof. solve_decision. Defined.
#[export] Instance CBlockHeader_eq_dec : EqDecision CBlockHeader.
Proof. solve_decision. Defined.
#[export] Instance CBlock_eq_dec : EqDecision CBlock.
Proof. solve_decision. Defined.

(** [COutPoint::IsNull]: hash 0 and index [(unsigned int) -1]. *)
Definition COutPoint_IsNull (o : COutPoint) : bool :=
  (hash o =? 0) && (n o =? u32 (-1)).

(** [CTransaction::SetNull], also the default constructor. *)
Definition nullTx : CTransaction :=
  {| nVersion := 1; vin := []; vout := []; nLockTime := 0 |}.

Definition CTransaction_IsNull (tx : CTransaction) : bool :=
  match vin tx, vout tx with [], [] => true | _, _ => false end.

(** [vin.size() == 1 && vin[0].prevout.IsNull()] *)
Definition IsCoinBase (tx : CTransaction) : bool :=
  match vin tx with [i] => COutPoint_IsNull (prevout i) | _ => false end.

Definition nullHeader : CBlockHeader :=
  {| hdr_nVersion := 2; hashPrevBlock := 0; hashMerkleRoot := 0;
     nTime := 0; nBits := 0; nNonce := 0 |}.
Definition nullBlock : CBlock := {| header := nullHeader; vtx := [] |}.

(** [CBlockHeader::IsNull] *)
Definition CBlock_IsNull (b : CBlock) : bool := nBits (header b) =? 0.

Definition GetBlockTime (b : CBlock) : Z := nTime (header b).

Definition COIN : Z := 100000000.
Definition MAX_MONEY : Z := 21000000 * COIN.
Definition MoneyRange (v : Z) : bool := (0 <=? v) && (v <=? MAX_MONEY).

(** [CTransaction::GetValueOut]: the running total is an [int64_t]; the check
    comes after the addition. *)
Fixpoint GetValueOut_from (total : Z) (outs : list CTxOut) : outcome Z :=
  match outs with
  | [] => Done total
  | o :: outs =>
      let total := i64 (total + nValue o) in
      if negb (MoneyRange (nValue o)) || negb (MoneyRange total)
      then Raise (Throw "CTransaction::GetValueOut() : value out of range")
      else GetValueOut_from total outs
  end.
Definition GetValueOut (tx : CTransaction) : outcome Z := GetValueOut_from 0 (vout tx).

(** The hashes of transactions and blocks. *)
Class Hashing := {
  TxHash : CTransaction → uint256;
  BlockHash : CBlock → uint256 }.

(** ** Concrete data for the witnesses of the development

    A hash function that reads the hash off the lock time, so that concrete
    transactions can name each other. *)
Module Demo.
Definition hashing : Hashing :=
  {| TxHash := λ tx, nLockTime tx; BlockHash := λ b, nNonce (header b) |}.
(** transaction [h] spending [ins], with [k] outputs of one coin each *)
Definition tx (h : uint256) (ins : list (uint256 * Z)) (k : nat) : CTransaction :=
  {| nVersion := 1;
     vin := (λ p, {| prevout := {| hash := p.1; n := p.2 |}; scriptSig := []; nSequence := 0 |}) <$> ins;
     vout := replicate k {| nValue := COIN; scriptPubKey := [] |};
     nLockTime := h |}.
Definition coinbase (h : uint256) : CTransaction := tx h [(0, u32 (-1))] 1.
Definition block (h prev t : uint256) (txs : list CTransaction) : CBlock :=
  {| header := {| hdr_nVersion := 2; hashPrevBlock := prev; hashMerkleRoot := 0;
                  nTime := t; nBits := 1; nNonce := h |};
     vtx := txs |}.
End Demo.

Section value_out.
Definition sum_values (outs : list CTxOut) : Z := foldr (λ o s, nValue o + s) 0 outs.

Lemma MoneyRange_true v : MoneyRange v = true ↔ 0 ≤ v ≤ MAX_MONEY.
Proof. unfold MoneyRange. rewrite andb_true_iff, !Z.leb_le. done. Qed.

Lemma GetValueOut_from_spec total outs v :
  0 ≤ total ≤ MAX_MONEY →
  GetValueOut_from total outs = Done v ↔
  v = total + sum_values outs ∧ v ≤ MAX_MONEY ∧
  Forall (λ o, 0 ≤ nValue o ≤ MAX_MONEY) outs.
Proof.
  revert total. induction outs as [|o outs IH]; intros total Ht; simpl.
  - split; [intros [= <-]; split_and!; [lia|lia|constructor] | intros (-> & _ & _); f_equal; lia].
  - destruct (MoneyRange (nValue o)) eqn:Ho; simpl.
    2:{ split; [discriminate|]. intros (_ & _ & Hf). inversion Hf; subst.
        apply MoneyRange_true in H1. congruence. }
    apply MoneyRange_true in Ho.
    assert (i64 (total + nValue o) = total + nValue o) as ->.
    { apply wrapS_id; [lia|]. unfold in_s, MAX_MONEY, COIN in *. lia. }
    assert (∀ l, Forall (λ o, 0 ≤ nValue o ≤ MAX_MONEY) l → 0 ≤ sum_values l) as Hnn.
    { induction 1; simpl; lia. }
    destruct (MoneyRange (total + nValue o)) eqn:Hs; simpl.
    + apply MoneyRange_true in Hs. rewrite IH by done. rewrite Forall_cons.
      split; intros (-> & ? & ?); split_and!; try done; try lia; tauto.
    + split; [discriminate|]. intros (-> & Hmax & Hf). apply Forall_cons in Hf as [_ Hf].
      apply Hnn in Hf. exfalso.
      assert (MoneyRange (total + nValue o) = true) by (apply MoneyRange_true; lia). congruence.
Qed.
End value_out.
