(* ===== verification/Bytes.v ===== *)
(** * Byte strings, numbers as text, hexadecimal (src/jiexi/src/Util.cc,
      bitcoin/util.cpp, bitcoin/util.h, bitcoin/uint256.h, bitcoin/serialize.h)

    A [std::string], a vector of bytes and the contents of a file are lists of
    byte values.  This file holds the conversions the log formats are made of:
    decimal numbers ([%d], [atoi]), splitting at a separator, hexadecimal
    strings, the hexadecimal form of a [uint256] and the little-endian memory
    image of an integer. *)
From S2P Require Import Prelude Tx.

Abbreviation bytes := (list Z).
Definition byte_ok (b : Z) : Prop := 0 ≤ b < 256.

(** A C string literal. *)
Definition lit (s : string) : bytes :=
  (λ a, Z.of_N (Ascii.N_of_ascii a)) <$> String.list_ascii_of_string s.
Coercion lit : string >-> list.

(** ** Character classes (the "C" locale) *)
Definition isspace (c : Z) : bool := (c =? 32) || ((9 <=? c) && (c <=? 13)).
Definition isdigit (c : Z) : bool := (48 <=? c) && (c <=? 57).

(** [HexDigit], the table [p_util_hexdigit] *)
Definition HexDigit (c : Z) : Z :=
  if (48 <=? c) && (c <=? 57) then c - 48
  else if (65 <=? c) && (c <=? 70) then c - 55
  else if (97 <=? c) && (c <=? 102) then c - 87
  else -1.

(** ** Numbers as text *)

(** the digits of a number that is not negative, before [acc] *)
Fixpoint digits_of (fuel : nat) (z : Z) (acc : bytes) : bytes :=
  match fuel with
  | O => acc
  | S fuel =>
      let acc := (48 + z mod 10) :: acc in
      if z <? 10 then acc else digits_of fuel (z / 10) acc
  end.
(** [%u], [%llu] *)
Definition fmt_u (z : Z) : bytes := digits_of (S (Z.to_nat (Z.log2 z))) z [].
(** [%d], [%lld] *)
Definition fmt_d (z : Z) : bytes := if z <? 0 then 45 :: fmt_u (- z) else fmt_u z.

(** [strtol], [strtoll] in base 10: blanks, a sign, digits, saturating; what
    follows the digits is ignored. *)
Fixpoint skip_space (s : bytes) : bytes :=
  match s with c :: s' => if isspace c then skip_space s' else s | [] => [] end.
Fixpoint digits_val (acc : Z) (s : bytes) : Z :=
  match s with
  | c :: s => if isdigit c then digits_val (10 * acc + (c - 48)) s else acc
  | [] => acc
  end.
Definition clamp64 (z : Z) : Z := Z.max (- 2 ^ 63) (Z.min z (2 ^ 63 - 1)).
Definition strtol (s : bytes) : Z :=
  clamp64 match skip_space s with
          | 45 :: s => - digits_val 0 s
          | 43 :: s => digits_val 0 s
          | s => digits_val 0 s
          end.
(** glibc's [atoi] is [(int) strtol] *)
Definition atoi (s : bytes) : Z := i32 (strtol s).
Definition atoi64 (s : bytes) : Z := strtol s.

(** ** Splitting and joining (Util.cc) *)

(** [std::getline(ss, item, delim)] repeated, [cur] the reversed item so far:
    a last item that is empty is not delivered, and [limit] items end the loop. *)
Fixpoint split_go (delim limit : Z) (count : Z) (cur : bytes) (s : bytes) : list bytes :=
  match s with
  | [] => match cur with [] => [] | _ => [reverse cur] end
  | c :: s =>
      if c =? delim then
        reverse cur ::
        (if negb (limit =? -1) && (count + 1 =? limit) then []
         else split_go delim limit (count + 1) [] s)
      else split_go delim limit count (c :: cur) s
  end.
Definition split (s : bytes) (delim : Z) : list bytes := split_go delim (-1) 0 [] s.
Definition split_limit (s : bytes) (delim limit : Z) : list bytes := split_go delim limit 0 [] s.

Definition implode (arr : list bytes) (glue : bytes) : bytes :=
  match arr with
  | [] => []
  | _ => let s := foldl (λ s it, s ++ it ++ glue) [] arr in
         take (length s - length glue) s
  end.

(** ** Hexadecimal *)

Definition hexmap (d : Z) : Z := if d <? 10 then 48 + d else 87 + d.
Definition HexStr (l : bytes) : bytes :=
  flat_map (λ v, [hexmap (Z.shiftr v 4); hexmap (Z.land v 15)]) l.

Definition IsHex (s : bytes) : bool :=
  forallb (λ c, negb (HexDigit c <? 0)) s &&
  (0 <? Z.of_nat (length s)) && (Z.of_nat (length s) mod 2 =? 0).

(** The string ends with a NUL, which is no hex digit. *)
Fixpoint ParseHex (s : bytes) : bytes :=
  match s with
  | [] => []
  | c :: s' =>
      if isspace c then ParseHex s'
      else if HexDigit c =? -1 then []
      else match s' with
           | [] => []
           | c' :: s'' =>
               if HexDigit c' =? -1 then []
               else Z.lor (u8 (Z.shiftl (HexDigit c) 4)) (HexDigit c') :: ParseHex s''
           end
  end.

(** ** Integers in memory (little endian) *)
Fixpoint le_bytes (n : nat) (z : Z) : bytes :=
  match n with O => [] | S n => z mod 256 :: le_bytes n (z / 256) end.
Fixpoint le_val (l : bytes) : Z :=
  match l with [] => 0 | b :: l => b + 256 * le_val l end.

(** ** uint256 as text *)
Definition GetHex (u : uint256) : bytes := HexStr (reverse (le_bytes 32 u)).
Abbreviation ToString := GetHex.

Definition skip_0x (s : bytes) : bytes :=
  match s with 48 :: x :: s' => if (x =? 120) || (x =? 88) then s' else s | _ => s end.
Fixpoint take_hex (s : bytes) : bytes :=
  match s with
  | c :: s => if HexDigit c =? -1 then [] else HexDigit c :: take_hex s
  | [] => []
  end.
(** the value of nibbles, least significant first, of which at most [k] fit *)
Fixpoint nibbles_val (k : nat) (ds : list Z) : Z :=
  match k, ds with S k, d :: ds => d + 16 * nibbles_val k ds | _, _ => 0 end.
(** [SetHex], also the constructor of [uint256] from a string *)
Definition SetHex (s : bytes) : uint256 :=
  nibbles_val 64 (reverse (take_hex (skip_0x (skip_space s)))).

(** ** Lemmas *)

Section decimal.
Definition digit_ok (c : Z) : Prop := isdigit c = true.

Lemma isdigit_iff c : isdigit c = true ↔ 48 ≤ c ≤ 57.
Proof. unfold isdigit. rewrite andb_true_iff, !Z.leb_le. lia. Qed.

Lemma digits_val_stop a s : (∀ c s', s = c :: s' → isdigit c = false) → digits_val a s = a.
Proof. destruct s as [|c s]; [done|]. intros H. simpl. by rewrite (H c s). Qed.

Lemma digits_val_of fuel z acc a :
  0 ≤ z → (Z.to_nat (Z.log2 z) < fuel)%nat →
  ∃ p, 0 < p ∧ digits_val a (digits_of fuel z acc) = digits_val (a * p + z) acc.
Proof.
  revert z acc a. induction fuel as [|fuel IH]; intros z acc a Hz Hf; [lia|].
  assert (0 ≤ z mod 10 < 10) by (apply Z.mod_pos_bound; lia).
  simpl. destruct (Z.ltb_spec z 10) as [Hlt|Hge].
  - exists 10. split; [lia|]. simpl.
    replace (isdigit (48 + z mod 10)) with true by (symmetry; apply isdigit_iff; lia).
    f_equal. rewrite Z.mod_small by lia. lia.
  - destruct (IH (z / 10) (48 + z mod 10 :: acc) a) as (p & Hp & E).
    + apply Z.div_pos; lia.
    + assert (Z.log2 (z / 10) < Z.log2 z).
      { assert (z / 10 <= z / 2) by (apply Z.div_le_compat_l; lia).
        pose proof (Z.log2_le_mono (z / 10) (z / 2) ltac:(lia)).
        assert (Z.log2 (z / 2) = Z.log2 z - 1).
        { replace (z / 2) with (Z.shiftr z 1) by (rewrite Z.shiftr_div_pow2 by lia; done).
          rewrite Z.log2_shiftr by lia. pose proof (Z.log2_pos z ltac:(lia)). lia. }
        lia. }
      pose proof (Z.log2_nonneg (z / 10)). lia.
    + exists (10 * p). split; [lia|]. rewrite E. simpl.
      replace (isdigit (48 + z mod 10)) with true by (symmetry; apply isdigit_iff; lia).
      f_equal. pose proof (Z.div_mod z 10). lia.
Qed.

Lemma digits_of_digits fuel z acc :
  0 ≤ z → Forall digit_ok acc → Forall digit_ok (digits_of fuel z acc).
Proof.
  revert z acc. induction fuel as [|fuel IH]; intros z acc Hz Ha; simpl; [done|].
  assert (Forall digit_ok (48 + z mod 10 :: acc)).
  { constructor; [|done]. apply isdigit_iff. pose proof (Z.mod_pos_bound z 10). lia. }
  case_match; [done|]. apply IH; [apply Z.div_pos; lia|done].
Qed.

Lemma digits_of_app fuel z acc l : digits_of fuel z (acc ++ l) = digits_of fuel z acc ++ l.
Proof.
  revert z acc. induction fuel as [|fuel IH]; intros z acc; simpl; [done|].
  case_match; [done|]. by rewrite <-IH.
Qed.

Lemma fmt_u_digits z : 0 ≤ z → Forall digit_ok (fmt_u z).
Proof. intros. by apply digits_of_digits. Qed.

Lemma fmt_u_cons z : 0 ≤ z → ∃ c s, fmt_u z = c :: s ∧ digit_ok c.
Proof.
  intros Hz. pose proof (fmt_u_digits z Hz) as Hd. unfold fmt_u in *.
  destruct (digits_of _ z []) as [|c s] eqn:E.
  - exfalso. revert E. simpl. case_match; [done|].
    assert (∀ f x a, a ≠ [] → digits_of f x a ≠ []) as Hne.
    { induction f as [|f IH]; intros x a Ha; simpl; [done|]. case_match; [done|]. by apply IH. }
    by apply Hne.
  - apply Forall_cons in Hd as [? _]. eauto.
Qed.

(** Reading back what [%d] printed, whatever follows it. *)
Lemma digits_val_fmt_u z rest :
  0 ≤ z → (∀ c s', rest = c :: s' → isdigit c = false) → digits_val 0 (fmt_u z ++ rest) = z.
Proof.
  intros Hz Hr. unfold fmt_u. rewrite <-(digits_of_app _ _ []). simpl app.
  destruct (digits_val_of (S (Z.to_nat (Z.log2 z))) z rest 0 Hz ltac:(lia)) as (p & _ & ->).
  rewrite digits_val_stop by done. lia.
Qed.

Lemma strtol_fmt_d z rest :
  in_s 64 z → (∀ c s', rest = c :: s' → isdigit c = false) → strtol (fmt_d z ++ rest) = z.
Proof.
  intros Hz Hr. unfold in_s in Hz. change (2 ^ (64 - 1)) with (2 ^ 63) in Hz.
  assert (∀ x, - 2 ^ 63 ≤ x < 2 ^ 63 → clamp64 x = x) as Hc by (unfold clamp64; lia).
  unfold strtol, fmt_d. destruct (Z.ltb_spec z 0) as [Hneg|Hpos].
  - simpl. rewrite digits_val_fmt_u by (done || lia). rewrite Hc; lia.
  - pose proof (digits_val_fmt_u z rest Hpos Hr) as E.
    destruct (fmt_u_cons z Hpos) as (c & s & Ef & Hd%isdigit_iff). rewrite Ef in *. simpl in *.
    assert (isspace c = false) as -> by (unfold isspace; lia).
    destruct (decide (c = 45)); [lia|]. destruct (decide (c = 43)); [lia|].
    assert (clamp64 (digits_val 0 (c :: s ++ rest)) = z) as E2.
    { simpl. rewrite E. apply Hc. lia. }
    destruct c as [|c|c]; try lia. do 6 (destruct c; try exact E2; try lia).
Qed.

Lemma atoi_fmt_d z : in_s 32 z → atoi (fmt_d z) = z.
Proof.
  intros Hz. unfold atoi. rewrite <-(app_nil_r (fmt_d z)), strtol_fmt_d.
  - by apply wrapS_id.
  - unfold in_s in *. lia.
  - done.
Qed.

Lemma atoi64_fmt_d z : in_s 64 z → atoi64 (fmt_d z) = z.
Proof. intros Hz. unfold atoi64. by rewrite <-(app_nil_r (fmt_d z)), strtol_fmt_d. Qed.
End decimal.

Section splitting.
Lemma split_go_item delim limit count cur x s :
  delim ∉ x →
  split_go delim limit count cur (x ++ delim :: s) =
    (reverse cur ++ x) ::
    (if negb (limit =? -1) && (count + 1 =? limit) then []
     else split_go delim limit (count + 1) [] s).
Proof.
  revert cur. induction x as [|c x IH]; intros cur Hx; simpl.
  - by rewrite Z.eqb_refl, app_nil_r.
  - assert ((c =? delim) = false) as -> by (apply Z.eqb_neq; set_solver).
    rewrite IH by set_solver. f_equal. by rewrite reverse_cons, <-app_assoc.
Qed.

Lemma split_go_last delim limit count cur x :
  delim ∉ x → reverse cur ++ x ≠ [] → split_go delim limit count cur x = [reverse cur ++ x].
Proof.
  revert cur. induction x as [|c x IH]; intros cur Hx Hne; simpl.
  - rewrite app_nil_r in *. destruct cur; [done|]. done.
  - assert ((c =? delim) = false) as -> by (apply Z.eqb_neq; set_solver).
    rewrite IH; [| set_solver |]; rewrite reverse_cons, <-app_assoc; done.
Qed.

Lemma split_item delim count x s :
  delim ∉ x →
  split_go delim (-1) count [] (x ++ delim :: s) = x :: split_go delim (-1) (count + 1) [] s.
Proof. intros. by rewrite split_go_item. Qed.

Lemma split_last delim limit count x :
  delim ∉ x → x ≠ [] → split_go delim limit count [] x = [x].
Proof. intros. by rewrite split_go_last. Qed.

(** what is left when no delimiter occurs *)
Lemma split_one delim x : delim ∉ x → x ≠ [] → split x delim = [x].
Proof. intros. unfold split. by rewrite split_go_last. Qed.
End splitting.

Section hex.
(** Every value of a half byte, checked by evaluation. *)
Lemma nibble_cases (P : Z → bool) : forallb P (seqZ 0 16) = true → ∀ d, 0 ≤ d < 16 → P d = true.
Proof.
  intros H d Hd. rewrite forallb_forall in H. apply H.
  apply list_elem_of_In, elem_of_seqZ. lia.
Qed.

Lemma HexDigit_hexmap d : 0 ≤ d < 16 → HexDigit (hexmap d) = d.
Proof.
  intros Hd. apply Z.eqb_eq. by apply (nibble_cases (λ d, HexDigit (hexmap d) =? d)).
Qed.

Definition hex_char (c : Z) : Prop := ∃ d, 0 ≤ d < 16 ∧ c = hexmap d.

Lemma hex_char_hexmap d : 0 ≤ d < 16 → hex_char (hexmap d).
Proof. exists d. done. Qed.

Lemma hex_char_facts c :
  hex_char c → isspace c = false ∧ HexDigit c ≠ -1 ∧ c ≠ 44 ∧ c ≠ 124 ∧ c ≠ 10 ∧ c ≠ 120 ∧ c ≠ 88 ∧ 0 < c < 128.
Proof.
  intros (d & Hd & ->). rewrite HexDigit_hexmap by done. unfold hexmap, isspace.
  case_match; lia.
Qed.

Lemma byte_nibbles v : byte_ok v → 0 ≤ Z.shiftr v 4 < 16 ∧ 0 ≤ Z.land v 15 < 16.
Proof.
  unfold byte_ok. intros Hv. rewrite Z.shiftr_div_pow2 by lia. change 15 with (Z.ones 4).
  rewrite Z.land_ones by lia. change (2 ^ 4) with 16.
  pose proof (Z.mod_pos_bound v 16). pose proof (Z.div_lt_upper_bound v 16 16).
  pose proof (Z.div_pos v 16). lia.
Qed.

Lemma byte_split v : byte_ok v → v = 16 * Z.shiftr v 4 + Z.land v 15.
Proof.
  intros Hv. rewrite Z.shiftr_div_pow2 by lia. change 15 with (Z.ones 4).
  rewrite Z.land_ones by lia. change (2 ^ 4) with 16. apply Z.div_mod. lia.
Qed.

Lemma byte_join v : byte_ok v → Z.lor (u8 (Z.shiftl (Z.shiftr v 4) 4)) (Z.land v 15) = v.
Proof.
  intros Hv. destruct (byte_nibbles v Hv). rewrite wrapU_id.
  - rewrite Z.lor_comm. apply Z.bits_inj'. intros i Hi.
    rewrite Z.lor_spec, Z.shiftl_spec, Z.land_spec by lia. change 15 with (Z.ones 4).
    rewrite Z.testbit_ones by lia. replace (0 <=? i) with true by lia. simpl.
    destruct (Z.ltb_spec i 4); simpl.
    + rewrite andb_true_r, (Z.testbit_neg_r _ (i - 4)) by lia. apply orb_false_r.
    + rewrite andb_false_r, Z.shiftr_spec by lia. simpl. f_equal. lia.
  - rewrite Z.shiftl_mul_pow2 by lia. unfold in_u. change (2 ^ 8) with 256. lia.
Qed.

Lemma HexStr_cons v l :
  HexStr (v :: l) = hexmap (Z.shiftr v 4) :: hexmap (Z.land v 15) :: HexStr l.
Proof. done. Qed.

Lemma HexStr_app l1 l2 : HexStr (l1 ++ l2) = HexStr l1 ++ HexStr l2.
Proof. apply flat_map_app. Qed.

Lemma length_HexStr l : length (HexStr l) = (2 * length l)%nat.
Proof. induction l as [|v l IH]; [done|]. rewrite HexStr_cons. simpl. lia. Qed.

Lemma HexStr_chars l : Forall byte_ok l → Forall hex_char (HexStr l).
Proof.
  induction 1 as [|v l Hv Hl IH]; [constructor|]. rewrite HexStr_cons.
  destruct (byte_nibbles v Hv). unfold hex_char. repeat constructor; eauto.
Qed.

Lemma IsHex_HexStr l : Forall byte_ok l → l ≠ [] → IsHex (HexStr l) = true.
Proof.
  intros Hl Hne. unfold IsHex. rewrite length_HexStr.
  assert (forallb (λ c, negb (HexDigit c <? 0)) (HexStr l) = true) as ->.
  { apply forallb_forall. intros c Hc%list_elem_of_In.
    apply (proj1 (Forall_forall _ _) (HexStr_chars l Hl)) in Hc as (d & Hd & ->).
    rewrite HexDigit_hexmap by done. lia. }
  replace (Z.of_nat (2 * length l) mod 2) with 0.
  - destruct l; [done|]. simpl. lia.
  - rewrite Nat2Z.inj_mul, Z.mul_comm. symmetry. by apply Z_mod_mult.
Qed.

Lemma ParseHex_HexStr l : Forall byte_ok l → ParseHex (HexStr l) = l.
Proof.
  induction 1 as [|v l Hv Hl IH]; [done|]. rewrite HexStr_cons. simpl.
  destruct (byte_nibbles v Hv) as [H1 H2].
  destruct (hex_char_facts _ (hex_char_hexmap _ H1)) as (-> & Hd1 & _).
  destruct (hex_char_facts _ (hex_char_hexmap _ H2)) as (_ & Hd2 & _).
  rewrite HexDigit_hexmap in * by done. rewrite HexDigit_hexmap in * by done.
  replace (Z.shiftr v 4 =? -1) with false by lia. replace (Z.land v 15 =? -1) with false by lia.
  by rewrite byte_join, IH.
Qed.

Lemma HexDigit_range c : -1 ≤ HexDigit c < 16.
Proof. unfold HexDigit. repeat case_match; lia. Qed.

Lemma join_byte d1 d2 : 0 ≤ d1 < 16 → 0 ≤ d2 < 16 → byte_ok (Z.lor (u8 (Z.shiftl d1 4)) d2).
Proof.
  intros H1 H2. unfold byte_ok.
  pose (P d1 d2 := (0 <=? Z.lor (u8 (Z.shiftl d1 4)) d2) && (Z.lor (u8 (Z.shiftl d1 4)) d2 <? 256)).
  assert (P d1 d2 = true) as HP; [|unfold P in HP; lia].
  apply (nibble_cases (P d1)); [|done].
  by apply (nibble_cases (λ d1, forallb (P d1) (seqZ 0 16))).
Qed.

Lemma ParseHex_bytes s : Forall byte_ok (ParseHex s).
Proof.
  enough (∀ k s, (length s ≤ k)%nat → Forall byte_ok (ParseHex s)) as H by (by eapply H).
  clear s. induction k as [|k IH]; intros [|c s] Hl; simpl in *; try constructor; [lia|].
  destruct (isspace c); [apply IH; lia|].
  pose proof (HexDigit_range c). destruct (Z.eqb_spec (HexDigit c) (-1)); [constructor|].
  destruct s as [|c2 s]; [constructor|].
  pose proof (HexDigit_range c2). destruct (Z.eqb_spec (HexDigit c2) (-1)); [constructor|].
  constructor; [apply join_byte; lia|]. apply IH. simpl in Hl. lia.
Qed.
End hex.

Section little_endian.
Lemma length_le_bytes k z : length (le_bytes k z) = k.
Proof. revert z. induction k; intros; simpl; auto. Qed.

Lemma le_bytes_ok k z : Forall byte_ok (le_bytes k z).
Proof.
  revert z. induction k; intros; simpl; constructor; [|done].
  unfold byte_ok. apply Z.mod_pos_bound. lia.
Qed.

Lemma le_val_bytes k z : le_val (le_bytes k z) = z mod 2 ^ (8 * Z.of_nat k).
Proof.
  revert z. induction k as [|k IH]; intros z.
  - simpl. by rewrite Z.mod_1_r.
  - cbn [le_bytes le_val]. rewrite IH.
    replace (8 * Z.of_nat (S k)) with (8 + 8 * Z.of_nat k) by lia.
    rewrite Z.pow_add_r by lia. change (2 ^ 8) with 256.
    rewrite (Z.rem_mul_r z 256); [done | lia | lia].
Qed.

Lemma le_val_bytes_id k z : 0 ≤ z < 2 ^ (8 * Z.of_nat k) → le_val (le_bytes k z) = z.
Proof. intros. rewrite le_val_bytes. by apply Z.mod_small. Qed.

Lemma le_val_range l : Forall byte_ok l → 0 ≤ le_val l < 2 ^ (8 * Z.of_nat (length l)).
Proof.
  induction 1 as [|b l Hb Hl IH]; [simpl; lia|]. cbn [le_val length].
  replace (8 * Z.of_nat (S (length l))) with (8 + 8 * Z.of_nat (length l)) by lia.
  rewrite Z.pow_add_r by lia. change (2 ^ 8) with 256. unfold byte_ok in Hb. lia.
Qed.

Lemma le_bytes_val l : Forall byte_ok l → le_bytes (length l) (le_val l) = l.
Proof.
  induction 1 as [|b l Hb Hl IH]; [done|]. cbn [le_val length le_bytes].
  rewrite (Z.mul_comm 256), Z.mod_add, Z.div_add by lia. unfold byte_ok in Hb.
  by rewrite Z.mod_small, Z.div_small, Z.add_0_l, IH.
Qed.

(** The memory image depends on the value modulo the width only. *)
Lemma le_bytes_mod k x y :
  x mod 2 ^ (8 * Z.of_nat k) = y mod 2 ^ (8 * Z.of_nat k) → le_bytes k x = le_bytes k y.
Proof.
  intros E. rewrite <-!le_val_bytes in E.
  rewrite <-(le_bytes_val (le_bytes k x)), <-(le_bytes_val (le_bytes k y)) by apply le_bytes_ok.
  by rewrite !length_le_bytes, E.
Qed.
End little_endian.

Section uint256_text.
Lemma take_hex_HexStr l :
  Forall byte_ok l → take_hex (HexStr l) = flat_map (λ v, [Z.shiftr v 4; Z.land v 15]) l.
Proof.
  induction 1 as [|v l Hv Hl IH]; [done|]. rewrite HexStr_cons. simpl.
  destruct (byte_nibbles v Hv) as [H1 H2]. rewrite !HexDigit_hexmap by done.
  replace (Z.shiftr v 4 =? -1) with false by lia. replace (Z.land v 15 =? -1) with false by lia.
  by rewrite IH.
Qed.

Lemma reverse_nibbles l :
  reverse (flat_map (λ v, [Z.shiftr v 4; Z.land v 15]) (reverse l)) =
  flat_map (λ v, [Z.land v 15; Z.shiftr v 4]) l.
Proof.
  induction l as [|v l IH]; [done|].
  rewrite reverse_cons, flat_map_app, reverse_app, IH. done.
Qed.

Lemma nibbles_val_bytes k l :
  Forall byte_ok l → (2 * length l ≤ k)%nat →
  nibbles_val k (flat_map (λ v, [Z.land v 15; Z.shiftr v 4]) l) = le_val l.
Proof.
  intros Hl. revert k. induction Hl as [|v l Hv Hl IH]; intros k Hk.
  - by destruct k.
  - destruct k as [|[|k]]; simpl in Hk; try lia. simpl. rewrite IH by lia.
    pose proof (byte_split v Hv). lia.
Qed.

Lemma length_GetHex u : length (GetHex u) = 64%nat.
Proof. unfold GetHex. by rewrite length_HexStr, length_reverse, length_le_bytes. Qed.

Lemma GetHex_chars u : Forall hex_char (GetHex u).
Proof. apply HexStr_chars, Forall_reverse, le_bytes_ok. Qed.

Lemma SetHex_GetHex u rest :
  in_u 256 u → (∀ c s', rest = c :: s' → HexDigit c = -1) → SetHex (GetHex u ++ rest) = u.
Proof.
  intros Hu Hrest. unfold SetHex.
  pose proof (GetHex_chars u) as Hc. pose proof (length_GetHex u) as Hlen.
  assert (skip_0x (skip_space (GetHex u ++ rest)) = GetHex u ++ rest) as ->.
  { destruct (GetHex u) as [|a [|b s]]; try done.
    apply Forall_cons in Hc as [Ha Hc]. apply Forall_cons in Hc as [Hb _].
    simpl. destruct (hex_char_facts a Ha) as (-> & _).
    destruct (hex_char_facts b Hb) as (_ & _ & _ & _ & _ & Hb1 & Hb2 & _).
    unfold skip_0x. replace (b =? 120) with false by lia. replace (b =? 88) with false by lia.
    destruct a as [|a|]; try done. do 6 (destruct a; try done). }
  assert (take_hex (GetHex u ++ rest) = take_hex (GetHex u)) as ->.
  { clear Hlen. induction Hc as [|c s Hc Hs IH]; simpl.
    - destruct rest as [|c s]; [done|]. simpl. by rewrite (Hrest c s).
    - case_match; [done|]. by rewrite IH. }
  unfold GetHex. rewrite take_hex_HexStr by apply Forall_reverse, le_bytes_ok.
  rewrite reverse_nibbles, nibbles_val_bytes by (try apply le_bytes_ok; rewrite length_le_bytes; lia).
  apply le_val_bytes_id. exact Hu.
Qed.

Lemma GetHex_inj u v : in_u 256 u → in_u 256 v → GetHex u = GetHex v → u = v.
Proof.
  intros Hu Hv E. rewrite <-(SetHex_GetHex u []), <-(SetHex_GetHex v []) by done. by rewrite E.
Qed.
End uint256_text.
