(* ===== verification/Text.v ===== *)
(** * Strings as ordered keys

    [std::map<string, _>] and [std::set<string>] iterate in the order of
    [std::string::compare]: the bytes as unsigned numbers, a proper prefix
    first.  The same order is rocksdb's bytewise comparator. *)
From S2P Require Import Prelude Bytes.

Fixpoint text_leb (s t : bytes) : bool :=
  match s, t with
  | [], _ => true
  | _ :: _, [] => false
  | a :: s, b :: t => (a <? b) || ((a =? b) && text_leb s t)
  end.
Definition text_le (s t : bytes) : Prop := text_leb s t = true.
Definition text_lt (s t : bytes) : Prop := text_le s t ∧ s ≠ t.

#[export] Instance text_le_dec : RelDecision text_le.
Proof. intros s t. unfold text_le. apply _. Defined.

Abbreviation text_items := (map_items text_le).
Abbreviation text_sorted := (set_items text_le).

Section text_order.
Implicit Types s t u : bytes.

Lemma text_le_cons a b s t : text_le (a :: s) (b :: t) ↔ a < b ∨ (a = b ∧ text_le s t).
Proof.
  unfold text_le. simpl. rewrite orb_true_iff, andb_true_iff, Z.ltb_lt, Z.eqb_eq. done.
Qed.

Lemma text_le_nil s : text_le [] s.
Proof. done. Qed.

Lemma text_le_cons_nil a s : ¬ text_le (a :: s) [].
Proof. done. Qed.

#[export] Instance text_le_refl : Reflexive text_le.
Proof. intros s. induction s; [done|]. apply text_le_cons. auto. Qed.

#[export] Instance text_le_trans : Transitive text_le.
Proof.
  intros s. induction s as [|a s IH]; intros [|b t] [|c u] Hst Htu;
    try done.
  apply text_le_cons in Hst as [?|[-> ?]], Htu as [?|[-> ?]];
    apply text_le_cons; [left; lia | by left | by left | right; eauto].
Qed.

#[export] Instance text_le_total : Total text_le.
Proof.
  intros s. induction s as [|a s IH]; intros [|b t]; [by left | by left | by right |].
  rewrite !text_le_cons. destruct (Z.lt_trichotomy a b) as [?|[->|?]]; [by left; left | | by right; left].
  destruct (IH t); [left | right]; right; auto.
Qed.

#[export] Instance text_le_antisymm : AntiSymm (=) text_le.
Proof.
  intros s. induction s as [|a s IH]; intros [|b t] Hst Hts; try done.
  apply text_le_cons in Hst, Hts.
  destruct Hst as [?|[-> Hst]], Hts as [?|[? Hts]]; try lia. f_equal. by apply IH.
Qed.

(** A common prefix does not matter. *)
Lemma text_le_app p s t : text_le (p ++ s) (p ++ t) ↔ text_le s t.
Proof.
  induction p as [|a p IH]; [done|]. simpl. rewrite text_le_cons, IH.
  split; [intros [?|[_ ?]]; [lia|done] | auto].
Qed.

(** Strings of one length compare by their first difference, whatever follows. *)
Lemma text_lt_app s t s' t' :
  length s = length t → text_lt s t → text_le (s ++ s') (t ++ t').
Proof.
  revert t. induction s as [|a s IH]; intros [|b t] Hl [Hle Hne]; try done.
  simpl. apply text_le_cons in Hle. apply text_le_cons.
  destruct Hle as [?|[-> Hle]]; [by left|]. right. split; [done|].
  apply IH; [by injection Hl|]. split; [done|]. congruence.
Qed.
End text_order.
