(* ===== verification/Serialize.v ===== *)
(** * Wire format of transactions and blocks (src/jiexi/src/bitcoin/serialize.h,
      bitcoin/core.h, Util.cc)

    [CDataStream] is the list of the bytes not yet read; a failing read throws.
    A [codec] pairs the two directions of the serialisation templates, and the
    class [CodecOk] states their contract: what was written is read back, and
    whatever is read was written in exactly one way.  The codecs of compound
    types inherit it from their parts.  On top stand the hexadecimal forms the
    logs carry ([EncodeHexTx], [DecodeHexTx], [EncodeHexBlock], [DecodeHexBlk]). *)
From S2P Require Import Prelude Tx Bytes.

(** ** Reading and writing *)

Definition stream_read (k : nat) : M bytes bytes := λ s,
  if Nat.ltb (length s) k then (Raise (Throw "CDataStream::read() : end of data"), s)
  else (Done (take k s), drop k s).

Record codec (A : Type) := { ser : A → bytes; unser : M bytes A }.
Arguments ser {A} _ _.
Arguments unser {A} _ _.

(** [WRITEDATA], [READDATA] of an unsigned or signed integer of [k] bytes *)
Definition uint_codec (k : nat) : codec Z :=
  {| ser := le_bytes k; unser := l ← stream_read k; mret (le_val l) |}.
Definition sint_codec (k : nat) : codec Z :=
  {| ser := le_bytes k;
     unser := l ← stream_read k; mret (wrapS (8 * Z.of_nat k) (le_val l)) |}.

Definition MAX_SIZE : Z := 33554432.  (* 0x02000000 *)

Definition WriteCompactSize (nSize : Z) : bytes :=
  if nSize <? 253 then le_bytes 1 nSize
  else if nSize <=? 65535 then 253 :: le_bytes 2 nSize
  else if nSize <=? 4294967295 then 254 :: le_bytes 4 nSize
  else 255 :: le_bytes 8 nSize.

Definition ReadCompactSize : M bytes Z :=
  chSize ← unser (uint_codec 1);
  nSizeRet ←
    (if chSize <? 253 then mret chSize
     else if chSize =? 253 then
       x ← unser (uint_codec 2);
       if x <? 253 then raise (Throw "non-canonical ReadCompactSize()") else mret x
     else if chSize =? 254 then
       x ← unser (uint_codec 4);
       if x <? 65536 then raise (Throw "non-canonical ReadCompactSize()") else mret x
     else
       x ← unser (uint_codec 8);
       if x <? 4294967296 then raise (Throw "non-canonical ReadCompactSize()") else mret x);
  if MAX_SIZE <? nSizeRet then raise (Throw "ReadCompactSize() : size too large")
  else mret nSizeRet.

Definition size_codec : codec Z := {| ser := WriteCompactSize; unser := ReadCompactSize |}.

(** [std::vector<unsigned char>] and [CScript]; the reading in blocks of five
    million bytes is a read of all of them. *)
Definition blob_codec : codec bytes :=
  {| ser := λ l, WriteCompactSize (Z.of_nat (length l)) ++ l;
     unser := nSize ← ReadCompactSize; stream_read (Z.to_nat nSize) |}.

Fixpoint unser_n {A} (c : codec A) (k : nat) : M bytes (list A) :=
  match k with
  | O => mret []
  | S k => x ← unser c; l ← unser_n c k; mret (x :: l)
  end.

(** [std::vector<T>] *)
Definition vec_codec {A} (c : codec A) : codec (list A) :=
  {| ser := λ l, WriteCompactSize (Z.of_nat (length l)) ++ flat_map (ser c) l;
     unser := nSize ← ReadCompactSize; unser_n c (Z.to_nat nSize) |}.

(** ** The data of core.h *)

(** [FLATDATA( *this )]: the hash, then the index *)
Definition outpoint_codec : codec COutPoint :=
  {| ser := λ o, ser (uint_codec 32) (hash o) ++ ser (uint_codec 4) (n o);
     unser := h ← unser (uint_codec 32);
              i ← unser (uint_codec 4);
              mret {| hash := h; n := i |} |}.

Definition txin_codec : codec CTxIn :=
  {| ser := λ i, ser outpoint_codec (prevout i) ++ ser blob_codec (scriptSig i) ++
                 ser (uint_codec 4) (nSequence i);
     unser := p ← unser outpoint_codec;
              sg ← unser blob_codec;
              sq ← unser (uint_codec 4);
              mret {| prevout := p; scriptSig := sg; nSequence := sq |} |}.

Definition txout_codec : codec CTxOut :=
  {| ser := λ o, ser (sint_codec 8) (nValue o) ++ ser blob_codec (scriptPubKey o);
     unser := v ← unser (sint_codec 8);
              pk ← unser blob_codec;
              mret {| nValue := v; scriptPubKey := pk |} |}.

Definition tx_codec : codec CTransaction :=
  {| ser := λ tx, ser (sint_codec 4) (nVersion tx) ++ ser (vec_codec txin_codec) (vin tx) ++
                  ser (vec_codec txout_codec) (vout tx) ++ ser (uint_codec 4) (nLockTime tx);
     unser := v ← unser (sint_codec 4);
              ins ← unser (vec_codec txin_codec);
              outs ← unser (vec_codec txout_codec);
              lt ← unser (uint_codec 4);
              mret {| nVersion := v; vin := ins; vout := outs; nLockTime := lt |} |}.

Definition header_codec : codec CBlockHeader :=
  {| ser := λ h, ser (sint_codec 4) (hdr_nVersion h) ++ ser (uint_codec 32) (hashPrevBlock h) ++
                 ser (uint_codec 32) (hashMerkleRoot h) ++ ser (uint_codec 4) (nTime h) ++
                 ser (uint_codec 4) (nBits h) ++ ser (uint_codec 4) (nNonce h);
     unser := v ← unser (sint_codec 4);
              pb ← unser (uint_codec 32);
              mr ← unser (uint_codec 32);
              t ← unser (uint_codec 4);
              b ← unser (uint_codec 4);
              nn ← unser (uint_codec 4);
              mret {| hdr_nVersion := v; hashPrevBlock := pb; hashMerkleRoot := mr;
                      nTime := t; nBits := b; nNonce := nn |} |}.

Definition block_codec : codec CBlock :=
  {| ser := λ b, ser header_codec (header b) ++ ser (vec_codec tx_codec) (vtx b);
     unser := h ← unser header_codec;
              txs ← unser (vec_codec tx_codec);
              mret {| header := h; vtx := txs |} |}.

(** ** The hexadecimal forms (Util.cc) *)

Definition EncodeHexTx (tx : CTransaction) : bytes := HexStr (ser tx_codec tx).
Definition EncodeHexBlock (b : CBlock) : bytes := HexStr (ser block_codec b).

(** [None] is the answer [false]; bytes after the object are ignored. *)
Definition decode_hex {A} (c : codec A) (s : bytes) : option A :=
  if negb (IsHex s) then None
  else match unser c (ParseHex s) with
       | (Done a, _) => Some a
       | (Raise _, _) => None
       end.
Definition DecodeHexTx (s : bytes) : option CTransaction := decode_hex tx_codec s.
Definition DecodeHexBlk (s : bytes) : option CBlock := decode_hex block_codec s.

(** [CTransaction::GetHash], [CBlock::GetHash]: double SHA-256 of the wire form,
    of the header only for a block.  The digest function is the parameter. *)
Definition hashing_of (sha256d : bytes → uint256) : Hashing :=
  {| TxHash := λ tx, sha256d (ser tx_codec tx);
     BlockHash := λ b, sha256d (ser header_codec (header b)) |}.

(** ** The contract of a codec *)

Class CodecOk {A} (c : codec A) (ok : A → Prop) := {
  codec_bytes a : ok a → Forall byte_ok (ser c a);
  codec_rt a rest : ok a → unser c (ser c a ++ rest) = (Done a, rest);
  codec_canon s a rest :
    Forall byte_ok s → unser c s = (Done a, rest) → ok a ∧ s = ser c a ++ rest }.

Definition blob_ok (l : bytes) : Prop :=
  Forall byte_ok l ∧ Z.of_nat (length l) ≤ MAX_SIZE.
Definition vec_ok {A} (ok : A → Prop) (l : list A) : Prop :=
  Forall ok l ∧ Z.of_nat (length l) ≤ MAX_SIZE.
Definition outpoint_ok (o : COutPoint) : Prop := in_u 256 (hash o) ∧ in_u 32 (n o).
Definition txin_ok (i : CTxIn) : Prop :=
  outpoint_ok (prevout i) ∧ blob_ok (scriptSig i) ∧ in_u 32 (nSequence i).
Definition txout_ok (o : CTxOut) : Prop := in_s 64 (nValue o) ∧ blob_ok (scriptPubKey o).
Definition tx_ok (tx : CTransaction) : Prop :=
  in_s 32 (nVersion tx) ∧ vec_ok txin_ok (vin tx) ∧ vec_ok txout_ok (vout tx) ∧
  in_u 32 (nLockTime tx).
Definition header_ok (h : CBlockHeader) : Prop :=
  in_s 32 (hdr_nVersion h) ∧ in_u 256 (hashPrevBlock h) ∧ in_u 256 (hashMerkleRoot h) ∧
  in_u 32 (nTime h) ∧ in_u 32 (nBits h) ∧ in_u 32 (nNonce h).
Definition block_ok (b : CBlock) : Prop := header_ok (header b) ∧ vec_ok tx_ok (vtx b).

Section codecs.
Lemma stream_read_app k l rest : length l = k → stream_read k (l ++ rest) = (Done l, rest).
Proof.
  intros <-. unfold stream_read. rewrite length_app.
  replace (Nat.ltb (length l + length rest) (length l)) with false
    by (symmetry; apply Nat.ltb_ge; lia).
  by rewrite take_app_length, drop_app_length.
Qed.

Lemma stream_read_inv k s l rest :
  stream_read k s = (Done l, rest) → s = l ++ rest ∧ length l = k.
Proof.
  unfold stream_read. destruct (Nat.ltb_spec (length s) k); [discriminate|].
  intros [= <- <-]. split; [by rewrite take_drop|]. by rewrite length_take_le.
Qed.

#[export] Instance uint_codec_ok k : CodecOk (uint_codec k) (in_u (8 * Z.of_nat k)).
Proof.
  constructor.
  - intros. apply le_bytes_ok.
  - intros a rest Ha. simpl.
    rewrite (bind_Done _ _ _ _ _ (stream_read_app k _ rest (length_le_bytes k a))).
    unfold mret, M_ret. by rewrite le_val_bytes_id.
  - simpl. intros s a rest Hs Hr. apply bind_inv in Hr as (l & s1 & Hl & Hr).
    apply ret_inv in Hr as [<- ->]. apply stream_read_inv in Hl as [-> Hlen].
    apply Forall_app in Hs as [Hl _]. pose proof (le_val_range l Hl) as Hr. rewrite Hlen in Hr.
    split; [done|]. f_equal. by rewrite <-Hlen, le_bytes_val.
Qed.

#[export] Instance sint_codec_ok k : (0 < k)%nat → CodecOk (sint_codec k) (in_s (8 * Z.of_nat k)).
Proof.
  intros Hk. assert (0 < 8 * Z.of_nat k) as Hw by lia. constructor.
  - intros. apply le_bytes_ok.
  - intros a rest Ha. simpl.
    rewrite (bind_Done _ _ _ _ _ (stream_read_app k _ rest (length_le_bytes k a))).
    unfold mret, M_ret. rewrite le_val_bytes. by rewrite wrapS_mod, wrapS_id.
  - simpl. intros s a rest Hs Hr. apply bind_inv in Hr as (l & s1 & Hl & Hr).
    apply ret_inv in Hr as [<- ->]. apply stream_read_inv in Hl as [-> Hlen].
    apply Forall_app in Hs as [Hl _].
    split; [by apply wrapS_range|]. f_equal.
    rewrite <-(le_bytes_val l Hl) at 1. rewrite Hlen.
    apply le_bytes_mod. by rewrite wrapS_wrapU.
Qed.

Lemma uint_rt k z rest :
  in_u (8 * Z.of_nat k) z → unser (uint_codec k) (le_bytes k z ++ rest) = (Done z, rest).
Proof. apply (codec_rt (c := uint_codec k) z rest). Qed.

Lemma size_cases z rest :
  0 ≤ z ≤ MAX_SIZE → ReadCompactSize (WriteCompactSize z ++ rest) = (Done z, rest).
Proof.
  intros Hz. unfold ReadCompactSize, WriteCompactSize, MAX_SIZE in *.
  assert (∀ b s, 0 ≤ b < 256 → unser (uint_codec 1) (b :: s) = (Done b, s)) as H1.
  { intros b s Hb. rewrite <-(uint_rt 1 b s Hb). simpl. by rewrite Z.mod_small. }
  destruct (Z.ltb_spec z 253); [|destruct (Z.leb_spec z 65535); [|destruct (Z.leb_spec z 4294967295); [|lia]]].
  - rewrite (bind_Done _ _ _ _ _ (uint_rt 1 z rest ltac:(change (0 ≤ z < 256); lia))).
    replace (z <? 253) with true by lia. unfold mbind, M_bind, mret, M_ret.
    by replace (33554432 <? z) with false by lia.
  - cbn [app]. rewrite (bind_Done _ _ _ _ _ (H1 253 _ ltac:(lia))). cbn [Z.ltb Z.eqb Z.compare].
    cbv beta iota.
    etransitivity.
    { apply bind_Done. etransitivity;
        [apply bind_Done, (uint_rt 2 z rest ltac:(change (0 ≤ z < 65536); lia))|].
      replace (z <? 253) with false by lia. reflexivity. }
    by replace (33554432 <? z) with false by lia.
  - cbn [app]. rewrite (bind_Done _ _ _ _ _ (H1 254 _ ltac:(lia))). cbn [Z.ltb Z.eqb Z.compare].
    cbv beta iota.
    etransitivity.
    { apply bind_Done. etransitivity;
        [apply bind_Done, (uint_rt 4 z rest ltac:(change (0 ≤ z < 4294967296); lia))|].
      replace (z <? 65536) with false by lia. reflexivity. }
    by replace (33554432 <? z) with false by lia.
Qed.

Lemma uint_canon k s z rest :
  Forall byte_ok s → unser (uint_codec k) s = (Done z, rest) →
  0 ≤ z < 2 ^ (8 * Z.of_nat k) ∧ s = le_bytes k z ++ rest.
Proof. apply (codec_canon (c := uint_codec k) (ok := in_u (8 * Z.of_nat k)) s z rest). Qed.

Lemma WriteCompactSize_bytes z : Forall byte_ok (WriteCompactSize z).
Proof.
  unfold WriteCompactSize. repeat case_match; repeat constructor; try apply le_bytes_ok;
    unfold byte_ok; try lia; apply Z.mod_pos_bound; lia.
Qed.

Lemma size_canon s z rest :
  Forall byte_ok s → ReadCompactSize s = (Done z, rest) →
  0 ≤ z ≤ MAX_SIZE ∧ s = WriteCompactSize z ++ rest.
Proof.
  intros Hs Hr. unfold ReadCompactSize in Hr.
  apply bind_inv in Hr as (ch & s1 & H1 & Hr). apply uint_canon in H1 as [Hch ->]; [|done].
  apply Forall_app in Hs as [_ Hs1]. change (2 ^ (8 * Z.of_nat 1)) with 256 in Hch.
  apply bind_inv in Hr as (z' & s2 & H2 & Hr).
  destruct (Z.ltb_spec MAX_SIZE z'); [discriminate|]. apply ret_inv in Hr as [-> ->].
  unfold MAX_SIZE in *.
  assert (∀ b s, 0 ≤ b < 256 → le_bytes 1 b ++ s = b :: s) as Hb.
  { intros b s Hb. simpl. by rewrite Z.mod_small. }
  unfold WriteCompactSize.
  destruct (Z.ltb_spec ch 253) as [Hlt|Hge].
  { apply ret_inv in H2 as [-> ->]. replace (z <? 253) with true by lia. split; [lia|done]. }
  rewrite Hb by lia.
  destruct (Z.eqb_spec ch 253) as [->|]; [|destruct (Z.eqb_spec ch 254) as [->|]];
    apply bind_inv in H2 as (x & s3 & H3 & H2); apply uint_canon in H3 as [Hx ->]; try done.
  - destruct (Z.ltb_spec x 253); [discriminate|]. apply ret_inv in H2 as [-> ->].
    change (2 ^ (8 * Z.of_nat 2)) with 65536 in Hx.
    replace (z <? 253) with false by lia. replace (z <=? 65535) with true by lia. split; [lia|done].
  - destruct (Z.ltb_spec x 65536); [discriminate|]. apply ret_inv in H2 as [-> ->].
    replace (z <? 253) with false by lia. replace (z <=? 65535) with false by lia.
    replace (z <=? 4294967295) with true by lia. split; [lia|done].
  - destruct (Z.ltb_spec x 4294967296); [discriminate|]. apply ret_inv in H2 as [-> ->]. lia.
Qed.

#[export] Instance size_codec_ok : CodecOk size_codec (λ z, 0 ≤ z ≤ MAX_SIZE).
Proof.
  constructor; intros.
  - apply WriteCompactSize_bytes.
  - by apply size_cases.
  - by apply size_canon.
Qed.

#[export] Instance blob_codec_ok : CodecOk blob_codec blob_ok.
Proof.
  constructor.
  - intros l [Hl _]. apply Forall_app. split; [apply WriteCompactSize_bytes|done].
  - intros l rest [Hl Hsz]. simpl. rewrite <-app_assoc.
    rewrite (bind_Done _ _ _ _ _ (size_cases (Z.of_nat (length l)) _ ltac:(lia))).
    apply stream_read_app. lia.
  - intros s l rest Hs Hr. simpl in Hr. apply bind_inv in Hr as (z & s1 & Hz & Hr).
    apply size_canon in Hz as [Hz ->]; [|done]. apply Forall_app in Hs as [_ Hs].
    apply stream_read_inv in Hr as [-> Hlen]. apply Forall_app in Hs as [Hl _].
    replace (Z.of_nat (length l)) with z by lia.
    split; [split; [done|lia]|]. simpl.
    replace (Z.of_nat (length l)) with z by lia. by rewrite <-app_assoc.
Qed.

Lemma unser_n_rt {A} (c : codec A) ok `{!CodecOk c ok} l rest :
  Forall ok l → unser_n c (length l) (flat_map (ser c) l ++ rest) = (Done l, rest).
Proof.
  induction 1 as [|x l Hx Hl IH]; [done|]. simpl. rewrite <-app_assoc.
  rewrite (bind_Done _ _ _ _ _ (codec_rt x _ Hx)).
  by rewrite (bind_Done _ _ _ _ _ IH).
Qed.

Lemma unser_n_canon {A} (c : codec A) ok `{!CodecOk c ok} k s l rest :
  Forall byte_ok s → unser_n c k s = (Done l, rest) →
  Forall ok l ∧ length l = k ∧ s = flat_map (ser c) l ++ rest.
Proof.
  revert s l. induction k as [|k IH]; intros s l Hs Hr; simpl in Hr.
  - apply ret_inv in Hr as [<- ->]. done.
  - apply bind_inv in Hr as (x & s1 & Hx & Hr). apply codec_canon in Hx as [Hx ->]; [|done].
    apply Forall_app in Hs as [_ Hs].
    apply bind_inv in Hr as (l' & s2 & Hl & Hr). apply ret_inv in Hr as [<- ->].
    destruct (IH _ _ Hs Hl) as (? & <- & ->). split_and!; [by constructor|done|].
    simpl. by rewrite <-app_assoc.
Qed.

#[export] Instance vec_codec_ok {A} (c : codec A) ok :
  CodecOk c ok → CodecOk (vec_codec c) (vec_ok ok).
Proof.
  intros Hc. constructor.
  - intros l [Hl _]. apply Forall_app. split; [apply WriteCompactSize_bytes|].
    induction Hl; simpl; [constructor|]. apply Forall_app. split; [by apply codec_bytes|done].
  - intros l rest [Hl Hsz]. simpl. rewrite <-app_assoc.
    rewrite (bind_Done _ _ _ _ _ (size_cases (Z.of_nat (length l)) _ ltac:(lia))).
    rewrite Nat2Z.id. by eapply unser_n_rt.
  - intros s l rest Hs Hr. simpl in Hr. apply bind_inv in Hr as (z & s1 & Hz & Hr).
    apply size_canon in Hz as [Hz ->]; [|done]. apply Forall_app in Hs as [_ Hs].
    apply (unser_n_canon c ok) in Hr as (Hl & Hlen & ->); [|done].
    split; [split; [done|lia]|]. simpl.
    replace (Z.of_nat (length l)) with z by lia. by rewrite <-app_assoc.
Qed.
End codecs.

(** A record codec inherits the contract field by field. *)
Lemma unser_field {A B} (c : codec A) ok `{!CodecOk c ok} (k : A → M bytes B) a rest :
  ok a → (unser c ≫= k) (ser c a ++ rest) = k a rest.
Proof. intros Ha. apply bind_Done. by apply (codec_rt (ok := ok)). Qed.

Lemma unser_field_inv {A B} (c : codec A) ok `{!CodecOk c ok} (k : A → M bytes B) s b rest :
  Forall byte_ok s → (unser c ≫= k) s = (Done b, rest) →
  ∃ a s', ok a ∧ s = ser c a ++ s' ∧ Forall byte_ok s' ∧ k a s' = (Done b, rest).
Proof.
  intros Hs Hr. apply bind_inv in Hr as (a & s' & Ha & Hr).
  apply (codec_canon (ok := ok)) in Ha as [Ha ->]; [|done].
  apply Forall_app in Hs as [_ Hs]. by exists a, s'.
Qed.

#[export] Instance int32_codec_ok : CodecOk (sint_codec 4) (in_s 32).
Proof. apply (sint_codec_ok 4). lia. Qed.
#[export] Instance int64_codec_ok : CodecOk (sint_codec 8) (in_s 64).
Proof. apply (sint_codec_ok 8). lia. Qed.
#[export] Instance uint32_codec_ok : CodecOk (uint_codec 4) (in_u 32).
Proof. apply (uint_codec_ok 4). Qed.
#[export] Instance uint256_codec_ok : CodecOk (uint_codec 32) (in_u 256).
Proof. apply (uint_codec_ok 32). Qed.

Ltac record_canon H :=
  repeat match type of H with
  | (unser ?c ≫= _) _ = (Done _, _) =>
      let a := fresh "f" in let s := fresh "s" in let Ha := fresh "Hf" in
      let Hs := fresh "Hs" in
      apply (unser_field_inv c _) in H as (a & s & Ha & -> & Hs & H); [|assumption]
  end;
  apply ret_inv in H as [<- ->].

(** [record_codec c ok]: the codec [c] of a record, [ok] its well-formedness. *)
Ltac record_codec c ok :=
  unfold c, ok; constructor; cbn [ser unser];
  [ intros ? ?; destruct_and?; rewrite ?Forall_app; split_and?; by eapply codec_bytes
  | intros ? rest ?; destruct_and?; rewrite <-?app_assoc;
    repeat (erewrite (unser_field _ _) by eassumption);
    match goal with |- _ = (Done ?a, _) => destruct a; reflexivity end
  | intros ? ? ? ? Hr; record_canon Hr;
    split; [by split_and? | by rewrite <-?app_assoc] ].

#[export] Instance outpoint_codec_ok : CodecOk outpoint_codec outpoint_ok.
Proof. record_codec outpoint_codec outpoint_ok. Qed.
#[export] Instance txin_codec_ok : CodecOk txin_codec txin_ok.
Proof. record_codec txin_codec txin_ok. Qed.
#[export] Instance txout_codec_ok : CodecOk txout_codec txout_ok.
Proof. record_codec txout_codec txout_ok. Qed.
#[export] Instance tx_codec_ok : CodecOk tx_codec tx_ok.
Proof. record_codec tx_codec tx_ok. Qed.
#[export] Instance header_codec_ok : CodecOk header_codec header_ok.
Proof. record_codec header_codec header_ok. Qed.
#[export] Instance block_codec_ok : CodecOk block_codec block_ok.
Proof. record_codec block_codec block_ok. Qed.

Section hex_codec.
Lemma decode_hex_rt {A} (c : codec A) ok `{!CodecOk c ok} a :
  ok a → ser c a ≠ [] → decode_hex c (HexStr (ser c a)) = Some a.
Proof.
  intros Ha Hne. pose proof (codec_bytes a Ha) as Hb. unfold decode_hex.
  rewrite IsHex_HexStr, ParseHex_HexStr by done. simpl.
  rewrite <-(app_nil_r (ser c a)). by rewrite codec_rt.
Qed.

Lemma decode_hex_canon {A} (c : codec A) ok `{!CodecOk c ok} s a :
  decode_hex c s = Some a →
  IsHex s = true ∧ ok a ∧ ∃ rest, ParseHex s = ser c a ++ rest.
Proof.
  unfold decode_hex. destruct (IsHex s); [|discriminate]. simpl.
  destruct (unser c (ParseHex s)) as [[a'|e] rest] eqn:E; [|discriminate]. intros [= ->].
  apply codec_canon in E as [Ha E]; [eauto|]. apply ParseHex_bytes.
Qed.

Lemma ser_tx_cons tx : ser tx_codec tx ≠ [].
Proof. intros E. apply (f_equal length) in E. simpl in E. discriminate. Qed.

Lemma ser_block_cons b : ser block_codec b ≠ [].
Proof. intros E. apply (f_equal length) in E. simpl in E. discriminate. Qed.

Lemma DecodeHexTx_EncodeHexTx tx : tx_ok tx → DecodeHexTx (EncodeHexTx tx) = Some tx.
Proof. intros. apply (decode_hex_rt tx_codec tx_ok); [done|apply ser_tx_cons]. Qed.

Lemma DecodeHexBlk_EncodeHexBlock b : block_ok b → DecodeHexBlk (EncodeHexBlock b) = Some b.
Proof. intros. apply (decode_hex_rt block_codec block_ok); [done|apply ser_block_cons]. Qed.
End hex_codec.

(** ** Claims *)

(** C29 — the wire format round trip.  Every transaction and every block whose
    fields fit their machine types and whose vectors do not exceed [MAX_SIZE]
    is read back unchanged from its hexadecimal form, and from its bytes followed
    by anything else, leaving exactly what follows. *)
Theorem wire_roundtrip (tx : CTransaction) (b : CBlock) (Htx : tx_ok tx) (Hb : block_ok b) :
  DecodeHexTx (EncodeHexTx tx) = Some tx ∧ DecodeHexBlk (EncodeHexBlock b) = Some b ∧
  (∀ rest, unser tx_codec (ser tx_codec tx ++ rest) = (Done tx, rest)) ∧
  (∀ rest, unser block_codec (ser block_codec b ++ rest) = (Done b, rest)).
Proof.
  split_and!; [by apply DecodeHexTx_EncodeHexTx | by apply DecodeHexBlk_EncodeHexBlock | |];
    intros rest; by apply codec_rt.
Qed.

(** the wire format is canonical.  Whatever hexadecimal string decodes is
    well formed and starts with the one encoding of the decoded object: sizes
    in a longer form than needed, sizes above [MAX_SIZE] and truncated data are
    all refused.  So two strings that decode to the same transaction agree on
    its bytes. *)
Theorem wire_canonical (s1 s2 : bytes) (tx : CTransaction)
    (H1 : DecodeHexTx s1 = Some tx) (H2 : DecodeHexTx s2 = Some tx) :
  tx_ok tx ∧ IsHex s1 = true ∧ (0 < length (ser tx_codec tx))%nat ∧
  take (length (ser tx_codec tx)) (ParseHex s1) = ser tx_codec tx ∧
  take (length (ser tx_codec tx)) (ParseHex s2) = ser tx_codec tx.
Proof.
  apply (decode_hex_canon tx_codec tx_ok) in H1 as (Hh & Hok & r1 & ->).
  apply (decode_hex_canon tx_codec tx_ok) in H2 as (_ & _ & r2 & ->).
  rewrite !take_app_length. split_and!; try done.
  pose proof (ser_tx_cons tx). destruct (ser tx_codec tx); [done|simpl; lia].
Qed.

Definition w_tx : CTransaction :=
  {| nVersion := 1;
     vin := [ {| prevout := {| hash := 2 ^ 255 + 7; n := 3 |}; scriptSig := [81; 82];
                 nSequence := 4294967295 |} ];
     vout := [ {| nValue := 5000000000; scriptPubKey := [118; 169] |};
               {| nValue := -1; scriptPubKey := [] |} ];
     nLockTime := 400000 |}.
Definition w_block : CBlock :=
  {| header := {| hdr_nVersion := 2; hashPrevBlock := 77; hashMerkleRoot := 88;
                  nTime := 1438387200; nBits := 404196666; nNonce := 12345 |};
     vtx := [w_tx] |}.

Lemma w_tx_ok : tx_ok w_tx.
Proof.
  unfold tx_ok, vec_ok, txin_ok, txout_ok, outpoint_ok, blob_ok, byte_ok, in_u, in_s, MAX_SIZE.
  simpl. repeat (split || constructor || simpl); lia.
Qed.

Lemma w_block_ok : block_ok w_block.
Proof.
  split; [unfold header_ok, in_u, in_s; simpl; lia|].
  split; [repeat constructor; apply w_tx_ok | unfold MAX_SIZE; simpl; lia].
Qed.

Lemma wire_roundtrip_witness :
  DecodeHexTx (EncodeHexTx w_tx) = Some w_tx ∧ DecodeHexBlk (EncodeHexBlock w_block) = Some w_block ∧
  length (EncodeHexTx w_tx) = 146%nat.
Proof.
  destruct (wire_roundtrip w_tx w_block w_tx_ok w_block_ok) as (H1 & H2 & _).
  split; [exact H1|]. split; [exact H2|]. vm_compute. reflexivity.
Defined.

Lemma wire_canonical_witness :
  take 73 (ParseHex (EncodeHexTx w_tx ++ [48; 48])) = ser tx_codec w_tx.
Proof.
  refine (proj2 (proj2 (proj2 (proj2
    (wire_canonical (EncodeHexTx w_tx) (EncodeHexTx w_tx ++ [48; 48]) w_tx _ _)))));
    vm_compute; reflexivity.
Defined.
