(* ===== verification/LogFiles.v ===== *)
(** * Numbered log files, written at the end and followed from the start
      (Log1Producer.cc [tryReadLog0], [tryRemoveOldLog0]; Log2Producer.cc
      [tryReadLog1], [tryRemoveOldLog1])

    Each stage of the program hands its records to the next through files
    0.log, 1.log, ... of lines.  This file models the reading side: the
    [getline] loop of one poll, the switch to the next file and the removal of
    old files.  [System] puts a poll, with its existence test and its read as
    separate steps, next to a writer that appends single bytes at any moment;
    [follow_exact] shows that no line is lost, repeated, reordered or delivered
    half written. *)
From S2P Require Import Prelude Tx Bytes.

(** The loop [while (getline(fin, line))] from position [pos]: each line that
    ends in a newline, with the position after it; at most 501 of them.  A last
    line without a newline meets [eof()] and is left for the next poll.  [cur]
    is the reversed line so far, [count] the number of lines before. *)
Fixpoint getlines (s cur : bytes) (pos : Z) (count : nat) : list (bytes * Z) :=
  match s with
  | [] => []
  | c :: s =>
      if c =? 10 then
        (reverse cur, pos + 1) ::
        (if Nat.ltb 500 (S count) then [] else getlines s [] (pos + 1) (S count))
      else getlines s (c :: cur) (pos + 1) count
  end.

Record follower := { f_files : gmap Z bytes; f_idx : Z; f_off : Z }.

(** [tryRemoveOldLog0], [tryRemoveOldLog1]: from [idx - keep] down to the first
    file that is not there. *)
Fixpoint remove_from (fuel : nat) (i : Z) (files : gmap Z bytes) : gmap Z bytes :=
  match fuel with
  | O => files
  | S fuel =>
      if i <? 0 then files
      else match files !! i with
           | None => files
           | Some _ => remove_from fuel (i - 1) (delete i files)
           end
  end.
Definition tryRemoveOld (keep idx : Z) (files : gmap Z bytes) : gmap Z bytes :=
  remove_from (S (Z.to_nat (idx - keep))) (idx - keep) files.

(** One poll after the test whether the next file exists. *)
Definition read_log (isNextExist : bool) (keep : Z) : M follower (list (bytes * Z)) :=
  r ← get;
  match f_files r !! f_idx r with
  | None => raise (Throw "open file failure")
  | Some content =>
      let ls := getlines (drop (Z.to_nat (f_off r)) content) [] (f_off r) 0 in
      match last ls with
      | Some (_, off) =>
          modify (λ r, {| f_files := f_files r; f_idx := f_idx r; f_off := off |}) ;; mret ls
      | None =>
          (if isNextExist then
             modify (λ r, {| f_files := tryRemoveOld keep (f_idx r + 1) (f_files r);
                             f_idx := f_idx r + 1; f_off := 0 |})
           else mret tt) ;; mret []
      end
  end.

(** [fs::exists(nextFile)], asked before the current file is read *)
Definition next_exists (r : follower) : bool := bool_decide (is_Some (f_files r !! (f_idx r + 1))).

(** [Log2Producer::tryReadLog1] *)
Definition tryReadLog1 (keep : Z) : M follower (list (bytes * Z)) := λ r,
  read_log (next_exists r) keep r.

(** ** Lines *)

(** the text of lines *)
Definition render (ls : list bytes) : bytes := flat_map (λ l, l ++ [10]) ls.

(** the complete lines of a text that continues the reversed line [cur], and
    the reversed line it leaves open *)
Fixpoint lines_of (s cur : bytes) : list bytes :=
  match s with
  | [] => []
  | c :: s => if c =? 10 then reverse cur :: lines_of s [] else lines_of s (c :: cur)
  end.
Fixpoint open_line (s cur : bytes) : bytes :=
  match s with
  | [] => cur
  | c :: s => if c =? 10 then open_line s [] else open_line s (c :: cur)
  end.

Section lines.
Lemma lines_of_app s1 s2 cur :
  lines_of (s1 ++ s2) cur = lines_of s1 cur ++ lines_of s2 (open_line s1 cur).
Proof. revert cur. induction s1 as [|c s1 IH]; intros cur; simpl; [done|]. case_match; by rewrite IH. Qed.

Lemma open_line_app s1 s2 cur : open_line (s1 ++ s2) cur = open_line s2 (open_line s1 cur).
Proof. revert cur. induction s1 as [|c s1 IH]; intros cur; simpl; [done|]. case_match; by rewrite IH. Qed.

Lemma lines_of_line l cur s :
  10 ∉ l → lines_of (l ++ 10 :: s) cur = (reverse cur ++ l) :: lines_of s [].
Proof.
  revert cur. induction l as [|c l IH]; intros cur Hl; simpl; [by rewrite app_nil_r|].
  replace (c =? 10) with false by (symmetry; apply Z.eqb_neq; set_solver).
  rewrite IH by set_solver. by rewrite reverse_cons, <-app_assoc.
Qed.

(** What a poll returns is an initial part of the complete lines. *)
Lemma getlines_spec s cur pos count :
  ∃ k, (k ≤ length s)%nat ∧
    (getlines s cur pos count).*1 = lines_of (take k s) cur ∧
    match last (getlines s cur pos count) with
    | Some (_, off) => off = pos + Z.of_nat k ∧ open_line (take k s) cur = []
    | None => k = 0%nat ∧ lines_of s cur = []
    end.
Proof.
  revert cur pos count. induction s as [|c s IH]; intros cur pos count; simpl; [by exists 0%nat|].
  destruct (Z.eqb_spec c 10) as [->|Hc].
  - destruct (Nat.ltb 500 (S count)).
    + exists 1%nat. simpl. split_and!; try done; lia.
    + destruct (IH [] (pos + 1) (S count)) as (k & Hk & Hl & Hoff).
      destruct (last (getlines s [] (pos + 1) (S count))) as [[l off]|] eqn:E.
      * exists (S k). simpl. split_and!; [lia|f_equal; exact Hl|].
        rewrite last_cons, E. destruct Hoff as [-> Ho]. split; [lia|done].
      * exists 1%nat. apply last_None in E. rewrite E. simpl. split_and!; try done; lia.
  - destruct (IH (c :: cur) (pos + 1) count) as (k & Hk & Hl & Hoff).
    destruct (last (getlines s (c :: cur) (pos + 1) count)) as [[l off]|] eqn:E.
    + exists (S k). simpl. replace (c =? 10) with false by lia.
      destruct Hoff as [-> Ho]. split_and!; [lia|exact Hl|lia|done].
    + destruct Hoff as [-> Ho]. exists 0%nat. split_and!; try done; lia.
Qed.

Lemma getlines_nil s pos : getlines s [] pos 0 = [] → lines_of s [] = [].
Proof.
  intros E. destruct (getlines_spec s [] pos 0) as (k & _ & _ & Hl). rewrite E in Hl. by destruct Hl.
Qed.
End lines.

(** ** Removal of old files *)
Lemma remove_from_keeps fuel i files j : i < j → remove_from fuel i files !! j = files !! j.
Proof.
  revert i files. induction fuel as [|fuel IH]; intros i files Hj; simpl; [done|].
  case_match; [done|]. case_match; [|done]. rewrite IH by lia. apply lookup_delete_ne. lia.
Qed.

Lemma tryRemoveOld_keeps keep idx files j :
  idx - keep < j → tryRemoveOld keep idx files !! j = files !! j.
Proof. apply remove_from_keeps. Qed.

(** ** Writer and reader together *)
Module System.
Record sys := {
  hist : list bytes;          (** all files ever written, never removed *)
  rd : follower;              (** the reader's view of the directory *)
  seen : option bool;         (** the poll's test of the next file, when made *)
  delivered : list bytes }.

Definition init : sys :=
  {| hist := [[]]; rd := {| f_files := {[0 := []]}; f_idx := 0; f_off := 0 |};
     seen := None; delivered := [] |}.

Definition last_idx (s : sys) : Z := Z.of_nat (length (hist s)) - 1.

(** write [x] to the last file *)
Definition append (x : bytes) (s : sys) : sys :=
  {| hist := alter (.++ x) (length (hist s) - 1)%nat (hist s);
     rd := {| f_files := alter (.++ x) (last_idx s) (f_files (rd s));
              f_idx := f_idx (rd s); f_off := f_off (rd s) |};
     seen := seen s; delivered := delivered s |}.

(** open the next file *)
Definition rotate (s : sys) : sys :=
  {| hist := hist s ++ [[]];
     rd := {| f_files := <[last_idx s + 1 := []]> (f_files (rd s));
              f_idx := f_idx (rd s); f_off := f_off (rd s) |};
     seen := seen s; delivered := delivered s |}.

Inductive step (keep : Z) : sys → sys → Prop :=
  | step_append x s : step keep s (append x s)
  | step_rotate s :
      open_line (default [] (last (hist s))) [] = [] → step keep s (rotate s)
  | step_check s :
      seen s = None →
      step keep s {| hist := hist s; rd := rd s; seen := Some (next_exists (rd s));
                     delivered := delivered s |}
  | step_read s b ls r' :
      seen s = Some b → read_log b keep (rd s) = (Done ls, r') →
      step keep s {| hist := hist s; rd := r'; seen := None; delivered := delivered s ++ ls.*1 |}.

(** every complete line written so far *)
Definition written (s : sys) : list bytes := flat_map (λ c, lines_of c []) (hist s).

Record inv (s : sys) : Prop := {
  inv_files i : f_idx (rd s) ≤ i → f_files (rd s) !! i = hist s !! Z.to_nat i;
  inv_complete i c c' : hist s !! i = Some c → hist s !! S i = Some c' → open_line c [] = [];
  inv_idx : 0 ≤ f_idx (rd s) ≤ last_idx s;
  inv_seen : seen s = Some true → f_idx (rd s) < last_idx s;
  inv_delivered : ∃ c, hist s !! Z.to_nat (f_idx (rd s)) = Some c ∧
    0 ≤ f_off (rd s) ∧ (Z.to_nat (f_off (rd s)) ≤ length c)%nat ∧
    open_line (take (Z.to_nat (f_off (rd s))) c) [] = [] ∧
    delivered s = flat_map (λ c, lines_of c []) (take (Z.to_nat (f_idx (rd s))) (hist s)) ++
                  lines_of (take (Z.to_nat (f_off (rd s))) c) [] }.

Lemma init_inv : inv init.
Proof.
  constructor; simpl.
  - intros i Hi. rewrite lookup_singleton. case_decide as Hd; [by subst|].
    rewrite lookup_ge_None_2; [done|]. simpl. lia.
  - intros [|i] c c' H1 H2; simpl in *; [done|]. by rewrite lookup_nil in H1.
  - unfold last_idx. simpl. lia.
  - done.
  - exists []. simpl. split_and!; done.
Qed.

Lemma hist_pos s : inv s → (0 < length (hist s))%nat.
Proof. intros [_ _ Hi _ _]. unfold last_idx in Hi. lia. Qed.

Lemma lines_app_flat (h : list bytes) (k : nat) c :
  h !! k = Some c →
  flat_map (λ c, lines_of c []) h =
  flat_map (λ c, lines_of c []) (take k h) ++ lines_of c [] ++
  flat_map (λ c, lines_of c []) (drop (S k) h).
Proof.
  intros Hk. rewrite <-(take_drop_middle _ _ _ Hk) at 1. by rewrite flat_map_app.
Qed.

Lemma append_inv x s : inv s → inv (append x s).
Proof.
  intros Hinv. pose proof (hist_pos _ Hinv) as Hpos. destruct Hinv as [Hf Hc Hi Hs Hd].
  unfold last_idx in *. constructor; simpl.
  - intros i Hle. unfold last_idx. destruct (decide (i = Z.of_nat (length (hist s)) - 1)) as [->|Hne].
    + rewrite lookup_alter_eq, Hf by lia.
      replace (Z.to_nat _) with (length (hist s) - 1)%nat by lia. by rewrite list_lookup_alter_eq.
    + rewrite lookup_alter_ne, Hf by lia. rewrite list_lookup_alter_ne by lia. done.
  - intros i c c' H1 H2. assert (S i < length (hist s))%nat as Hlt.
    { apply lookup_lt_Some in H2. by rewrite length_alter in H2. }
    rewrite list_lookup_alter_ne in H1 by lia.
    destruct (lookup_lt_is_Some_2 (hist s) (S i) Hlt) as [c'' H3]. by eapply Hc.
  - unfold last_idx. simpl. by rewrite length_alter.
  - unfold last_idx. simpl. by rewrite length_alter.
  - destruct Hd as (c & Hk & Hoff & Hlen & Ho & Hdl).
    set (k := Z.to_nat (f_idx (rd s))) in *.
    assert (take k (alter (.++ x) (length (hist s) - 1)%nat (hist s)) = take k (hist s)) as ->.
    { rewrite take_alter_ge; [done|]. lia. }
    destruct (decide (k = length (hist s) - 1)%nat) as [Ek|Hk'].
    + exists (c ++ x). rewrite <-Ek, list_lookup_alter_eq, Hk. split_and!; [done|done| | |].
      * rewrite length_app. lia.
      * by rewrite take_app_le.
      * by rewrite take_app_le.
    + exists c. rewrite list_lookup_alter_ne by lia. done.
Qed.

Lemma rotate_inv s :
  inv s → open_line (default [] (last (hist s))) [] = [] → inv (rotate s).
Proof.
  intros Hinv Hl. pose proof (hist_pos _ Hinv) as Hpos. destruct Hinv as [Hf Hc Hi Hs Hd].
  unfold last_idx in *. constructor; simpl.
  - intros i Hle. unfold last_idx.
    destruct (decide (i = Z.of_nat (length (hist s)) - 1 + 1)) as [->|Hne].
    + rewrite lookup_insert_eq. replace (Z.to_nat _) with (length (hist s)) by lia.
      by rewrite list_lookup_middle.
    + rewrite lookup_insert_ne, Hf by lia.
      destruct (decide (Z.to_nat i < length (hist s))%nat).
      * by rewrite lookup_app_l.
      * rewrite !lookup_ge_None_2; [done| |lia]. rewrite length_app. simpl. lia.
  - intros i c c' H1 H2.
    assert (i < length (hist s))%nat as Hlt.
    { apply lookup_lt_Some in H2. rewrite length_app in H2. simpl in H2. lia. }
    rewrite lookup_app_l in H1 by done.
    destruct (decide (S i < length (hist s))%nat).
    + rewrite lookup_app_l in H2 by done. by eapply Hc.
    + rewrite last_lookup in Hl. replace (Init.Nat.pred (length (hist s))) with i in Hl by lia.
      by rewrite H1 in Hl.
  - unfold last_idx. simpl. rewrite length_app. simpl. lia.
  - unfold last_idx. simpl. rewrite length_app. simpl. intros H. specialize (Hs H). lia.
  - destruct Hd as (c & Hk & Hoff & Hlen & Ho & Hdl).
    exists c. rewrite lookup_app_l by lia. rewrite take_app_le by lia. done.
Qed.

Lemma check_inv s :
  inv s →
  inv {| hist := hist s; rd := rd s; seen := Some (next_exists (rd s)); delivered := delivered s |}.
Proof.
  intros [Hf Hc Hi Hs Hd]. constructor; simpl; try done.
  intros Hn. injection Hn as Hn. apply bool_decide_eq_true in Hn as [c' Hn].
  rewrite Hf in Hn by lia. apply lookup_lt_Some in Hn. unfold last_idx in *. simpl. lia.
Qed.

Lemma read_inv keep s b ls r' :
  1 ≤ keep → inv s → seen s = Some b → read_log b keep (rd s) = (Done ls, r') →
  inv {| hist := hist s; rd := r'; seen := None; delivered := delivered s ++ ls.*1 |}.
Proof.
  intros Hkeep [Hf Hc Hi Hs Hd] Hb Hr. destruct Hd as (c & Hk & Hoff & Hlen & Ho & Hdl).
  unfold read_log, mbind, M_bind, get in Hr. cbv beta zeta iota in Hr.
  rewrite Hf, Hk in Hr by lia.
  set (o := Z.to_nat (f_off (rd s))) in *.
  destruct (getlines_spec (drop o c) [] (f_off (rd s)) 0) as (k & Hkl & Hls & Hlast).
  rewrite length_drop in Hkl.
  destruct (last (getlines (drop o c) [] (f_off (rd s)) 0)) as [[l off]|] eqn:E.
  - destruct Hlast as [-> Hopen]. unfold modify, mret, M_ret in Hr. simplify_eq.
    assert (take (Z.to_nat (f_off (rd s) + Z.of_nat k)) c = take o c ++ take k (drop o c)) as Et.
    { rewrite take_take_drop. f_equal. lia. }
    constructor; simpl; try done. exists c. rewrite Et, open_line_app, Ho.
    split_and!; [done|lia|lia|done|].
    rewrite Hdl, <-app_assoc. f_equal. rewrite lines_of_app, Ho. f_equal. exact Hls.
  - destruct Hlast as [-> Hnone]. apply last_None in E. rewrite E in *.
    destruct b.
    + specialize (Hs Hb). unfold modify, mret, M_ret in Hr. simplify_eq.
      unfold last_idx in *. constructor; simpl; try done.
      * intros i Hle. rewrite tryRemoveOld_keeps by lia. apply Hf. lia.
      * unfold last_idx. simpl. lia.
      * destruct (lookup_lt_is_Some_2 (hist s) (Z.to_nat (f_idx (rd s) + 1)) ltac:(lia)) as [c' Hc'].
        exists c'. change (Z.to_nat 0) with 0%nat. split_and!; [done|lia|lia|done|].
        replace (Z.to_nat (f_idx (rd s) + 1)) with (S (Z.to_nat (f_idx (rd s)))) by lia.
        rewrite (take_S_r _ _ _ Hk), flat_map_app. simpl. rewrite !app_nil_r, Hdl. f_equal.
        rewrite <-(take_drop o c) at 2. by rewrite lines_of_app, Ho, Hnone, app_nil_r.
    + unfold mret, M_ret in Hr. simplify_eq. constructor; simpl; try done.
      exists c. rewrite app_nil_r. done.
Qed.

Lemma step_inv keep s s' : 1 ≤ keep → step keep s s' → inv s → inv s'.
Proof.
  intros Hkeep Hst Hi. destruct Hst; eauto using append_inv, rotate_inv, check_inv, read_inv.
Qed.

Lemma steps_inv keep s s' : 1 ≤ keep → rtc (step keep) s s' → inv s → inv s'.
Proof. intros Hkeep. induction 1; eauto using step_inv. Qed.

(** What the reader has still to deliver. *)
Definition pending (s : sys) : list bytes :=
  match hist s !! Z.to_nat (f_idx (rd s)) with
  | None => []
  | Some c => lines_of (drop (Z.to_nat (f_off (rd s))) c) []
  end ++ flat_map (λ c, lines_of c []) (drop (S (Z.to_nat (f_idx (rd s)))) (hist s)).

Lemma inv_split s : inv s → written s = delivered s ++ pending s.
Proof.
  intros [_ _ _ _ (c & Hk & Hoff & Hlen & Ho & Hdl)]. unfold written, pending.
  rewrite Hk, (lines_app_flat _ _ _ Hk), Hdl, <-!app_assoc. f_equal.
  rewrite <-(take_drop (Z.to_nat (f_off (rd s))) c) at 1.
  by rewrite lines_of_app, Ho, <-app_assoc.
Qed.

(** A complete poll, nothing written meanwhile. *)
Definition poll (keep : Z) (s : sys) : outcome sys :=
  match tryReadLog1 keep (rd s) with
  | (Done ls, r') =>
      Done {| hist := hist s; rd := r'; seen := None; delivered := delivered s ++ ls.*1 |}
  | (Raise e, _) => Raise e
  end.

Lemma poll_progress keep s :
  1 ≤ keep → inv s → seen s = None →
  ∃ s', poll keep s = Done s' ∧ rtc (step keep) s s' ∧
    (delivered s' = written s' ∨ (length (delivered s) < length (delivered s'))%nat ∨
     f_idx (rd s) < f_idx (rd s')).
Proof.
  intros Hkeep Hinv Hseen. pose proof Hinv as [Hf Hc Hi Hs Hd].
  destruct Hd as (c & Hk & Hoff & Hlen & Ho & Hdl).
  unfold poll, tryReadLog1. destruct (read_log (next_exists (rd s)) keep (rd s)) as [[ls|e] r'] eqn:Hr.
  - eexists. split; [done|]. split.
    { eapply rtc_l; [by apply step_check|]. eapply rtc_l; [by eapply step_read|]. constructor. }
    pose proof Hr as Hr2. unfold read_log, mbind, M_bind, get in Hr2. cbv beta zeta iota in Hr2.
    rewrite Hf, Hk in Hr2 by lia.
    destruct (last (getlines _ [] _ 0)) as [[l off]|] eqn:E.
    + right; left. unfold modify, mret, M_ret in Hr2. simplify_eq. simpl.
      rewrite length_app, length_fmap. destruct (getlines _ _ _ _); [done|simpl; lia].
    + apply last_None in E. apply getlines_nil in E.
      destruct (next_exists (rd s)) eqn:En; unfold modify, mret, M_ret in Hr2; simplify_eq; simpl.
      * right; right. lia.
      * left. rewrite app_nil_r. symmetry.
        etransitivity; [apply (inv_split s Hinv)|]. unfold pending. rewrite Hk, E.
        rewrite drop_ge; [by rewrite !app_nil_r|].
        apply bool_decide_eq_false in En. rewrite Hf in En by lia.
        replace (Z.to_nat (f_idx (rd s) + 1)) with (S (Z.to_nat (f_idx (rd s)))) in En by lia.
        apply lookup_ge_None. by apply eq_None_not_Some.
  - exfalso. unfold read_log, mbind, M_bind, get in Hr. cbv beta zeta iota in Hr.
    rewrite Hf, Hk in Hr by lia. repeat case_match; done.
Qed.
End System.

(** ** Claims *)
Import System.

(** C19 — following the log is exact.  However the writer's appended bytes and
    file switches interleave with the two halves of the reader's polls, and
    however old files are removed (one file or more being kept), what the reader
    has been given is an initial part of the complete lines written, in order
    and each once; the rest is what [pending] computes from the cursor.  A poll
    never fails, and unless everything has been delivered it delivers a line or
    moves on to the next file. *)
Theorem follow_exact (keep : Z) (s : sys) (Hkeep : 1 ≤ keep) (Hr : rtc (step keep) init s) :
  written s = delivered s ++ pending s ∧
  (seen s = None →
   ∃ s', poll keep s = Done s' ∧ rtc (step keep) init s' ∧
     (delivered s' = written s' ∨ (length (delivered s) < length (delivered s'))%nat ∨
      f_idx (rd s) < f_idx (rd s'))).
Proof.
  pose proof (steps_inv _ _ _ Hkeep Hr init_inv) as Hinv.
  split; [by apply inv_split|]. intros Hseen.
  destruct (poll_progress keep s Hkeep Hinv Hseen) as (s' & Hp & Hst & Hor).
  exists s'. split; [done|]. split; [by etransitivity|done].
Qed.

(** "a\nb" written, polled, "\n" added, next file opened, polled again. *)
Definition w_sys : sys :=
  rotate (append [10] {| hist := [[97; 10; 98]];
                         rd := {| f_files := {[0 := [97; 10; 98]]}; f_idx := 0; f_off := 2 |};
                         seen := None; delivered := [[97]] |}).

Lemma follow_exact_witness :
  delivered w_sys = [[97]] ∧ pending w_sys = [[98]] ∧ written w_sys = [[97]] ++ [[98]].
Proof.
  split; [reflexivity|]. split; [reflexivity|].
  refine (proj1 (follow_exact 72 w_sys ltac:(lia) _)).
  eapply rtc_l; [exact (step_append 72 [97; 10; 98] init)|].
  eapply rtc_l; [by apply step_check|].
  eapply rtc_l.
  { eapply (step_read 72 _ false [([97], 2)]
      {| f_files := {[0 := [97; 10; 98]]}; f_idx := 0; f_off := 2 |}); reflexivity. }
  eapply rtc_l; [exact (step_append 72 [10] _)|].
  eapply rtc_l; [by apply step_rotate|]. constructor.
Defined.
