(* ===== verification/Log1.v ===== *)
(** * The log1 record (Log1Producer.{h,cc}: class Log1, the line formats of
      writeLog1, writeLog1Tx, writeLog1Block)

    A log1 (and log0) line is "<time>,<type>,<payload>".  [parse] takes a line
    apart, [getTx] and [getBlock] decode the payload on first use and compare
    the decoded object with the hash written next to it. *)
From S2P Require Import Prelude Tx Bytes Serialize.

Definition TYPE_BLOCK : Z := 1.
Definition TYPE_ACCEPT_TX : Z := 2.
Definition TYPE_CLEAR_MEMTXS : Z := 3.
Definition TYPE_REMOVE_TX : Z := 4.

Record Log1 := {
  tx_ : CTransaction;
  block_ : CBlock;
  type_ : Z;
  content_ : bytes;
  blockHeight_ : Z }.

(** [reset], and the constructor *)
Definition newLog1 : Log1 :=
  {| tx_ := nullTx; block_ := nullBlock; type_ := -1; content_ := []; blockHeight_ := -1 |}.

(** [arr[i]]: out of range is undefined *)
Definition at_ (arr : list bytes) (i : nat) : outcome bytes :=
  match arr !! i with Some x => Done x | None => Raise Undefined end.

(** [content_.substr(64)] throws when the string is shorter. *)
Definition substr_from (s : bytes) (k : nat) : outcome bytes :=
  if Nat.ltb (length s) k then Raise (Throw "basic_string::substr") else Done (drop k s).

Definition parse (line : bytes) : M Log1 unit :=
  modify (λ _, newLog1) ;;
  let arr1 := split_limit line 44 3 in
  a1 ← lift_outcome (at_ arr1 1);
  let type := atoi a1 in
  if type =? TYPE_CLEAR_MEMTXS then
    modify (λ l, {| tx_ := tx_ l; block_ := block_ l; type_ := type;
                    content_ := content_ l; blockHeight_ := blockHeight_ l |})
  else
    a2 ← lift_outcome (at_ arr1 2);
    let arr2 := split a2 124 in
    if type =? TYPE_BLOCK then
      assertM (Nat.eqb (length arr2) 3) ;;
      b0 ← lift_outcome (at_ arr2 0);
      b1 ← lift_outcome (at_ arr2 1);
      b2 ← lift_outcome (at_ arr2 2);
      modify (λ l, {| tx_ := tx_ l; block_ := block_ l; type_ := type;
                      content_ := b1 ++ b2; blockHeight_ := atoi b0 |})
    else if (type =? TYPE_ACCEPT_TX) || (type =? TYPE_REMOVE_TX) then
      assertM (Nat.eqb (length arr2) 2) ;;
      b0 ← lift_outcome (at_ arr2 0);
      b1 ← lift_outcome (at_ arr2 1);
      modify (λ l, {| tx_ := tx_ l; block_ := block_ l; type_ := type;
                      content_ := b0 ++ b1; blockHeight_ := blockHeight_ l |})
    else raise (Throw "[Log1::parse] invalid log1 type").

Definition isAcceptTx (l : Log1) : bool := type_ l =? TYPE_ACCEPT_TX.
Definition isBlock (l : Log1) : bool := type_ l =? TYPE_BLOCK.
Definition isClearMemtxs (l : Log1) : bool := type_ l =? TYPE_CLEAR_MEMTXS.
Definition isRemoveTx (l : Log1) : bool := type_ l =? TYPE_REMOVE_TX.

Section log1.
Context `{Hashing}.

Definition getBlock : M Log1 CBlock :=
  l ← get;
  if CBlock_IsNull (block_ l) then
    hex ← lift_outcome (substr_from (content_ l) 64);
    match DecodeHexBlk hex with
    | None => raise (Throw "decode block failure")
    | Some b =>
        if negb (bool_decide (ToString (BlockHash b) = take 64 (content_ l)))
        then raise (Throw "decode block failure, hash not match")
        else modify (λ l, {| tx_ := tx_ l; block_ := b; type_ := type_ l;
                             content_ := content_ l; blockHeight_ := blockHeight_ l |}) ;; mret b
    end
  else mret (block_ l).

Definition getTx : M Log1 CTransaction :=
  l ← get;
  if CTransaction_IsNull (tx_ l) then
    hex ← lift_outcome (substr_from (content_ l) 64);
    match DecodeHexTx hex with
    | None => raise (Throw "decode tx failure")
    | Some tx =>
        if negb (bool_decide (ToString (TxHash tx) = take 64 (content_ l)))
        then raise (Throw "decode tx failure, hash not match")
        else modify (λ l, {| tx_ := tx; block_ := block_ l; type_ := type_ l;
                             content_ := content_ l; blockHeight_ := blockHeight_ l |}) ;; mret tx
    end
  else mret (tx_ l).

(** [Log1::toString] *)
Definition toString : M Log1 bytes :=
  l ← get;
  if (type_ l =? TYPE_ACCEPT_TX) || (type_ l =? TYPE_REMOVE_TX) then
    tx ← getTx; mret (lit "(tx: " ++ ToString (TxHash tx) ++ lit ")")
  else if type_ l =? TYPE_BLOCK then
    b ← getBlock;
    mret (lit "(block: " ++ fmt_d (blockHeight_ l) ++ lit ", " ++ ToString (BlockHash b) ++ lit ")")
  else if type_ l =? TYPE_CLEAR_MEMTXS then mret (lit "(clear mempool txs)")
  else mret (lit "(null)").

(** The formats written: [writeLog1]'s line, without its newline, and the
    payloads of [writeLog1Tx] and [writeLog1Block]. *)
Definition log_line (date : bytes) (type : Z) (line : bytes) : bytes :=
  date ++ lit "," ++ fmt_d type ++ lit "," ++ line.
Definition tx_payload (tx : CTransaction) : bytes :=
  ToString (TxHash tx) ++ lit "|" ++ EncodeHexTx tx.
Definition block_payload (height : Z) (b : CBlock) : bytes :=
  fmt_d height ++ lit "|" ++ ToString (BlockHash b) ++ lit "|" ++ EncodeHexBlock b.

(** ** Reading what was written *)

(** no separator and no newline *)
Definition plain (c : Z) : Prop := c ≠ 44 ∧ c ≠ 124 ∧ c ≠ 10.

Lemma hex_plain l : Forall hex_char l → Forall plain l.
Proof.
  intros Hl. eapply Forall_impl; [exact Hl|]. intros c Hc.
  destruct (hex_char_facts c Hc) as (_ & _ & ? & ? & ? & _). done.
Qed.

Lemma fmt_d_plain z : Forall plain (fmt_d z).
Proof.
  unfold fmt_d. assert (∀ z, 0 ≤ z → Forall plain (fmt_u z)) as Hu.
  { intros x Hx. eapply Forall_impl; [by apply fmt_u_digits|].
    intros c Hc%isdigit_iff. unfold plain. lia. }
  destruct (Z.ltb_spec z 0); [constructor; [unfold plain; lia|]|]; apply Hu; lia.
Qed.

Lemma plain_not_in x l : Forall plain l → x = 44 ∨ x = 124 ∨ x = 10 → x ∉ l.
Proof.
  intros Hl Hx Hin. rewrite Forall_forall in Hl. destruct (Hl x Hin) as (? & ? & ?).
  destruct Hx as [?|[?|?]]; done.
Qed.

Lemma EncodeHexTx_plain tx : tx_ok tx → Forall plain (EncodeHexTx tx).
Proof. intros. by apply hex_plain, HexStr_chars, codec_bytes. Qed.

Lemma EncodeHexBlock_plain b : block_ok b → Forall plain (EncodeHexBlock b).
Proof. intros. by apply hex_plain, HexStr_chars, codec_bytes. Qed.

Lemma GetHex_plain u : Forall plain (GetHex u).
Proof. apply hex_plain, GetHex_chars. Qed.

Lemma split_line date type line :
  44 ∉ date → 44 ∉ line → line ≠ [] →
  split_limit (log_line date type line) 44 3 = [date; fmt_d type; line].
Proof.
  intros Hd Hl Hne. unfold split_limit, log_line. change (lit ",") with [44]. cbn [app].
  rewrite (split_go_item 44 3 0 [] date) by done. simpl. f_equal.
  rewrite (split_go_item 44 3 1 [] (fmt_d type)) by (apply plain_not_in; [apply fmt_d_plain|auto]).
  simpl. f_equal. by apply (split_go_last 44 3 2 [] line).
Qed.

Lemma split_line_clear date type :
  44 ∉ date → split_limit (log_line date type []) 44 3 = [date; fmt_d type].
Proof.
  intros Hd. unfold split_limit, log_line. change (lit ",") with [44]. cbn [app].
  rewrite (split_go_item 44 3 0 [] date) by done. simpl. f_equal.
  rewrite (split_go_item 44 3 1 [] (fmt_d type)) by (apply plain_not_in; [apply fmt_d_plain|auto]).
  done.
Qed.

Lemma HexStr_ser_cons (l : bytes) : l ≠ [] → HexStr l ≠ [].
Proof. intros Hne E. apply (f_equal length) in E. rewrite length_HexStr in E. by destruct l. Qed.

Lemma split_tx_payload tx :
  tx_ok tx → split (tx_payload tx) 124 = [ToString (TxHash tx); EncodeHexTx tx].
Proof.
  intros Hok. unfold split, tx_payload. change (lit "|") with [124]. cbn [app].
  rewrite split_item by (apply plain_not_in; [apply GetHex_plain|auto]). f_equal.
  apply split_last; [|apply HexStr_ser_cons, ser_tx_cons].
  apply plain_not_in; [by apply EncodeHexTx_plain|auto].
Qed.

Lemma split_block_payload h b :
  block_ok b →
  split (block_payload h b) 124 = [fmt_d h; ToString (BlockHash b); EncodeHexBlock b].
Proof.
  intros Hok. unfold split, block_payload. change (lit "|") with [124]. cbn [app].
  rewrite split_item by (apply plain_not_in; [apply fmt_d_plain|auto]). f_equal.
  rewrite split_item by (apply plain_not_in; [apply GetHex_plain|auto]). f_equal.
  apply split_last; [|apply HexStr_ser_cons, ser_block_cons].
  apply plain_not_in; [by apply EncodeHexBlock_plain|auto].
Qed.

Lemma log_line_clean x date t payload :
  x = 10 → x ∉ date → x ∉ payload → x ∉ log_line date t payload.
Proof.
  intros -> Hd Hp. unfold log_line. rewrite !elem_of_app.
  change (lit ",") with [44]. rewrite !list_elem_of_singleton.
  pose proof (plain_not_in 10 (fmt_d t) (fmt_d_plain t) ltac:(auto)). naive_solver lia.
Qed.

(** the record a line parses to *)
Definition tx_item (type : Z) (tx : CTransaction) : Log1 :=
  {| tx_ := nullTx; block_ := nullBlock; type_ := type;
     content_ := ToString (TxHash tx) ++ EncodeHexTx tx; blockHeight_ := -1 |}.
Definition block_item (height : Z) (b : CBlock) : Log1 :=
  {| tx_ := nullTx; block_ := nullBlock; type_ := TYPE_BLOCK;
     content_ := ToString (BlockHash b) ++ EncodeHexBlock b; blockHeight_ := height |}.
Definition clear_item : Log1 :=
  {| tx_ := nullTx; block_ := nullBlock; type_ := TYPE_CLEAR_MEMTXS;
     content_ := []; blockHeight_ := -1 |}.

Lemma tx_payload_clean x tx : tx_ok tx → x = 44 ∨ x = 10 → x ∉ tx_payload tx.
Proof.
  intros Hok Hx. unfold tx_payload. change (lit "|") with [124].
  rewrite !elem_of_app, list_elem_of_singleton. intros [Hin|[->|Hin]].
  - revert Hin. apply plain_not_in; [apply GetHex_plain|tauto].
  - lia.
  - revert Hin. apply plain_not_in; [by apply EncodeHexTx_plain|tauto].
Qed.

Lemma block_payload_clean x h b : block_ok b → x = 44 ∨ x = 10 → x ∉ block_payload h b.
Proof.
  intros Hok Hx. unfold block_payload. change (lit "|") with [124].
  rewrite !elem_of_app, !list_elem_of_singleton. intros [Hin|[->|[Hin|[->|Hin]]]].
  - revert Hin. apply plain_not_in; [apply fmt_d_plain|tauto].
  - lia.
  - revert Hin. apply plain_not_in; [apply GetHex_plain|tauto].
  - lia.
  - revert Hin. apply plain_not_in; [by apply EncodeHexBlock_plain|tauto].
Qed.

Lemma payload_cons (s1 s2 : bytes) : s1 ++ [124] ++ s2 ≠ [].
Proof. by destruct s1. Qed.

Lemma parse_tx date type tx l :
  44 ∉ date → type = TYPE_ACCEPT_TX ∨ type = TYPE_REMOVE_TX → tx_ok tx →
  parse (log_line date type (tx_payload tx)) l = (Done tt, tx_item type tx).
Proof.
  intros Hd Ht Hok. unfold parse, mbind, M_bind, modify, lift_outcome. cbv beta zeta iota.
  rewrite split_line; [| done | by apply tx_payload_clean; auto | apply payload_cons].
  cbn [at_ lookup list_lookup].
  rewrite atoi_fmt_d by (unfold in_s, TYPE_ACCEPT_TX, TYPE_REMOVE_TX in *; simpl; lia).
  rewrite split_tx_payload by done.
  destruct Ht as [-> | ->]; reflexivity.
Qed.

Lemma parse_block date h b l :
  44 ∉ date → block_ok b → in_s 32 h →
  parse (log_line date TYPE_BLOCK (block_payload h b)) l = (Done tt, block_item h b).
Proof.
  intros Hd Hok Hh. unfold parse, mbind, M_bind, modify, lift_outcome. cbv beta zeta iota.
  rewrite split_line; [| done | by apply block_payload_clean; auto | apply payload_cons].
  cbn [at_ lookup list_lookup].
  rewrite atoi_fmt_d by (unfold in_s, TYPE_BLOCK; simpl; lia).
  rewrite split_block_payload by done. cbn [at_ lookup list_lookup length Nat.eqb].
  transitivity (@Done unit tt, block_item (atoi (fmt_d h)) b); [reflexivity|].
  by rewrite atoi_fmt_d.
Qed.

Lemma parse_clear date l :
  44 ∉ date → parse (log_line date TYPE_CLEAR_MEMTXS []) l = (Done tt, clear_item).
Proof.
  intros Hd. unfold parse, mbind, M_bind, modify, lift_outcome. cbv beta zeta iota.
  rewrite split_line_clear by done. reflexivity.
Qed.

Lemma take_ToString u s : take 64 (ToString u ++ s) = ToString u ∧ drop 64 (ToString u ++ s) = s.
Proof. pose proof (length_GetHex u) as E. rewrite <-E. by rewrite take_app_length, drop_app_length. Qed.

Lemma substr_ToString u s : substr_from (ToString u ++ s) 64 = Done s.
Proof.
  unfold substr_from. destruct (take_ToString u s) as [_ ->].
  destruct (Nat.ltb_spec (length (ToString u ++ s)) 64); [|done].
  rewrite length_app, length_GetHex in *. lia.
Qed.

Lemma getTx_item type tx :
  tx_ok tx → ∃ l', getTx (tx_item type tx) = (Done tx, l') ∧ type_ l' = type.
Proof.
  intros Hok. unfold getTx, mbind, M_bind, get, lift_outcome. cbn [tx_ tx_item CTransaction_IsNull
    vin vout nullTx content_]. rewrite substr_ToString, DecodeHexTx_EncodeHexTx by done.
  destruct (take_ToString (TxHash tx) (EncodeHexTx tx)) as [-> _].
  rewrite bool_decide_true by done. simpl. eexists. split; reflexivity.
Qed.

Lemma getBlock_item h b :
  block_ok b → ∃ l', getBlock (block_item h b) = (Done b, l') ∧ blockHeight_ l' = h.
Proof.
  intros Hok. unfold getBlock, mbind, M_bind, get, lift_outcome.
  change (CBlock_IsNull (block_ (block_item h b))) with true. cbn [content_ block_item].
  rewrite substr_ToString, DecodeHexBlk_EncodeHexBlock by done.
  destruct (take_ToString (BlockHash b) (EncodeHexBlock b)) as [-> _].
  rewrite bool_decide_true by done. simpl. eexists. split; reflexivity.
Qed.

Lemma getTx_inv l tx l' :
  tx_ l = nullTx → getTx l = (Done tx, l') →
  ∃ hex, content_ l = ToString (TxHash tx) ++ hex ∧ DecodeHexTx hex = Some tx ∧
         content_ l' = content_ l ∧ tx_ l' = tx.
Proof.
  intros Hn Hr. unfold getTx, mbind, M_bind, get, lift_outcome in Hr. rewrite Hn in Hr.
  cbn [CTransaction_IsNull vin vout nullTx] in Hr. unfold substr_from in Hr.
  destruct (Nat.ltb_spec (length (content_ l)) 64); [discriminate|].
  destruct (DecodeHexTx (drop 64 (content_ l))) as [tx'|] eqn:E; [|discriminate].
  case_bool_decide as Hh; [|discriminate]. simpl in Hr. injection Hr as -> <-.
  exists (drop 64 (content_ l)). rewrite Hh, take_drop. done.
Qed.

Lemma parse_fresh line l l' : parse line l = (Done tt, l') → tx_ l' = nullTx ∧ block_ l' = nullBlock.
Proof.
  intros Hr. unfold parse, mbind, M_bind, modify, lift_outcome in Hr. cbv beta zeta iota in Hr.
  destruct (at_ _ 1) as [a1|]; [|discriminate]. case_match; [by simplify_eq|].
  destruct (at_ _ 2) as [a2|]; [|discriminate]. case_match.
  - unfold assertM in Hr. destruct (Nat.eqb _ 3); [|discriminate]. cbn [mret M_ret] in Hr.
    repeat (case_match; try discriminate). by simplify_eq.
  - case_match; [|discriminate].
    unfold assertM in Hr. destruct (Nat.eqb _ 2); [|discriminate]. cbn [mret M_ret] in Hr.
    repeat (case_match; try discriminate). by simplify_eq.
Qed.
End log1.

(** ** Claims *)

(** C28 — what the producer writes, the consumer reads.  A line written by
    [writeLog1Tx], [writeLog1Block] or the clear instruction, with a time that
    has no comma, parses to its type, and the transaction, or the height and the
    block, are recovered exactly; and no line contains a newline, so the lines
    of a file are the lines written. *)
Theorem log1_roundtrip `{Hashing} (date : bytes) (l : Log1) (type h : Z)
    (tx : CTransaction) (b : CBlock)
    (Hdate : 44 ∉ date ∧ 10 ∉ date) (Htx : tx_ok tx) (Hb : block_ok b) (Hh : in_s 32 h)
    (Htype : type = TYPE_ACCEPT_TX ∨ type = TYPE_REMOVE_TX) :
  let line1 := log_line date type (tx_payload tx) in
  let line2 := log_line date TYPE_BLOCK (block_payload h b) in
  let line3 := log_line date TYPE_CLEAR_MEMTXS [] in
  (∃ l1 l1', parse line1 l = (Done tt, l1) ∧ getTx l1 = (Done tx, l1') ∧ type_ l1 = type) ∧
  (∃ l2 l2', parse line2 l = (Done tt, l2) ∧ getBlock l2 = (Done b, l2') ∧
     isBlock l2 = true ∧ blockHeight_ l2 = h) ∧
  (∃ l3, parse line3 l = (Done tt, l3) ∧ isClearMemtxs l3 = true) ∧
  10 ∉ line1 ∧ 10 ∉ line2 ∧ 10 ∉ line3.
Proof.
  destruct Hdate as [Hd Hnl]. cbv zeta.
  split_and!.
  - destruct (getTx_item type tx Htx) as (l1' & Hg & _).
    exists (tx_item type tx), l1'. by rewrite parse_tx.
  - destruct (getBlock_item h b Hb) as (l2' & Hg & _).
    exists (block_item h b), l2'. by rewrite parse_block.
  - exists clear_item. by rewrite parse_clear.
  - by apply log_line_clean, tx_payload_clean; auto.
  - by apply log_line_clean, block_payload_clean; auto.
  - apply log_line_clean; set_solver.
Qed.

Lemma w_date : 44 ∉ [50; 48] ∧ 10 ∉ [50; 48].
Proof. split; set_solver. Qed.

Lemma log1_roundtrip_witness :
  ∃ l1 l1', parse (log_line [50; 48] TYPE_ACCEPT_TX (tx_payload (H := Demo.hashing) w_tx)) newLog1 =
           (Done tt, l1) ∧
         getTx (H := Demo.hashing) l1 = (Done w_tx, l1') ∧ type_ l1 = 2.
Proof.
  exact (proj1 (log1_roundtrip (H := Demo.hashing) [50; 48] newLog1 TYPE_ACCEPT_TX 400000
    w_tx w_block w_date w_tx_ok w_block_ok
    ltac:(unfold in_s; simpl; lia) (or_introl eq_refl))).
Defined.

(** A record is authentic.  Whatever line parses, the transaction that
    [getTx] then hands out is well formed, was decoded from the hexadecimal part
    of the line, and hashes to the hash the line carries; asking again gives the
    same transaction. *)
Theorem log1_authentic `{Hashing} (line : bytes) (l0 l l' : Log1) (tx : CTransaction)
    (Hp : parse line l0 = (Done tt, l)) (Hg : getTx l = (Done tx, l')) :
  tx_ok tx ∧
  (∃ hex, content_ l = ToString (TxHash tx) ++ hex ∧ DecodeHexTx hex = Some tx) ∧
  fst (getTx l') = Done tx.
Proof.
  destruct (parse_fresh _ _ _ Hp) as [Hn _].
  destruct (getTx_inv _ _ _ Hn Hg) as (hex & Hc & Hdec & Hc' & Ht').
  split_and!; [| by exists hex |].
  - by apply (decode_hex_canon tx_codec tx_ok) in Hdec as (_ & ? & _).
  - unfold getTx, mbind, M_bind, get, lift_outcome. rewrite Ht'.
    destruct (CTransaction_IsNull tx) eqn:En; [|done].
    rewrite Hc', Hc, substr_ToString, Hdec.
    destruct (take_ToString (TxHash tx) hex) as [-> _]. by rewrite bool_decide_true.
Qed.
