(* ===== verification/TxState.v ===== *)
(** * The life of a transaction (src/docs/TXLOGS.md, Log2Producer.h)

    The abstract contract between log2producer and the parser.  Four events
    move a transaction between three states; log2 is a sequence of events, and
    it is well formed when every event finds its transaction in the state the
    event requires. *)
From S2P Require Import Prelude Tx.

Definition LOG2TYPE_TX_ACCEPT : Z := 100.
Definition LOG2TYPE_TX_CONFIRM : Z := 200.
Definition LOG2TYPE_TX_UNCONFIRM : Z := 300.
Definition LOG2TYPE_TX_REJECT : Z := 400.

(** unknown transactions are absent *)
Inductive status := Unconfirmed | Confirmed.
#[export] Instance status_eq_dec : EqDecision status.
Proof. solve_decision. Defined.

Abbreviation states := (gmap uint256 status).
Record event := Event { ev_type : Z; ev_hash : uint256 }.

Definition Accept := Event LOG2TYPE_TX_ACCEPT.
Definition Confirm := Event LOG2TYPE_TX_CONFIRM.
Definition Unconfirm := Event LOG2TYPE_TX_UNCONFIRM.
Definition Reject := Event LOG2TYPE_TX_REJECT.

Definition tx_step (e : event) (st : states) : option states :=
  let h := ev_hash e in
  if ev_type e =? LOG2TYPE_TX_ACCEPT then
    match st !! h with None => Some (<[h := Unconfirmed]> st) | _ => None end
  else if ev_type e =? LOG2TYPE_TX_CONFIRM then
    match st !! h with Some Unconfirmed => Some (<[h := Confirmed]> st) | _ => None end
  else if ev_type e =? LOG2TYPE_TX_UNCONFIRM then
    match st !! h with Some Confirmed => Some (<[h := Unconfirmed]> st) | _ => None end
  else if ev_type e =? LOG2TYPE_TX_REJECT then
    match st !! h with Some Unconfirmed => Some (delete h st) | _ => None end
  else None.

Fixpoint tx_run (es : list event) (st : states) : option states :=
  match es with [] => Some st | e :: es => tx_step e st ≫= tx_run es end.

Section tx_run.
Implicit Types st : states.

Lemma tx_run_app es1 es2 st : tx_run (es1 ++ es2) st = tx_run es1 st ≫= tx_run es2.
Proof.
  revert st. induction es1 as [|e es1 IH]; intros st; simpl; [done|].
  destruct (tx_step e st); simpl; [apply IH|done].
Qed.

Lemma step_accept h st : st !! h = None → tx_step (Accept h) st = Some (<[h := Unconfirmed]> st).
Proof. intros E. unfold tx_step. simpl. by rewrite E. Qed.
Lemma step_confirm h st :
  st !! h = Some Unconfirmed → tx_step (Confirm h) st = Some (<[h := Confirmed]> st).
Proof. intros E. unfold tx_step. simpl. by rewrite E. Qed.
Lemma step_unconfirm h st :
  st !! h = Some Confirmed → tx_step (Unconfirm h) st = Some (<[h := Unconfirmed]> st).
Proof. intros E. unfold tx_step. simpl. by rewrite E. Qed.
Lemma step_reject h st : st !! h = Some Unconfirmed → tx_step (Reject h) st = Some (delete h st).
Proof. intros E. unfold tx_step. simpl. by rewrite E. Qed.

(** Rejecting distinct unconfirmed transactions removes them. *)
Lemma run_rejects hs st :
  NoDup hs → (∀ h, h ∈ hs → st !! h = Some Unconfirmed) →
  ∃ st', tx_run (Reject <$> hs) st = Some st' ∧
    ∀ k, st' !! k = if bool_decide (k ∈ hs) then None else st !! k.
Proof.
  intros Hnd. revert st. induction Hnd as [|h hs Hh Hnd IH]; intros st Hu; simpl.
  - exists st. done.
  - rewrite step_reject by (apply Hu; set_solver). simpl.
    destruct (IH (delete h st)) as (st' & Hr & Hk).
    { intros k Hk. rewrite lookup_delete_ne by set_solver. apply Hu. set_solver. }
    exists st'. split; [done|]. intros k. rewrite Hk, lookup_delete.
    repeat case_bool_decide; repeat case_decide; try done; set_solver.
Qed.

(** Unconfirming distinct confirmed transactions, in any order. *)
Lemma run_unconfirms hs st :
  NoDup hs → (∀ h, h ∈ hs → st !! h = Some Confirmed) →
  ∃ st', tx_run (Unconfirm <$> hs) st = Some st' ∧
    ∀ k, st' !! k = if bool_decide (k ∈ hs) then Some Unconfirmed else st !! k.
Proof.
  intros Hnd. revert st. induction Hnd as [|h hs Hh Hnd IH]; intros st Hu; simpl.
  - exists st. done.
  - rewrite step_unconfirm by (apply Hu; set_solver). simpl.
    destruct (IH (<[h := Unconfirmed]> st)) as (st' & Hr & Hk).
    { intros k Hk. rewrite lookup_insert_ne by set_solver. apply Hu. set_solver. }
    exists st'. split; [done|]. intros k. rewrite Hk, lookup_insert.
    repeat case_bool_decide; repeat case_decide; try done; set_solver.
Qed.

(** The transactions of a block: accepted first unless already unconfirmed. *)
Definition confirm_events (already : uint256 → bool) (h : uint256) : list event :=
  if already h then [Confirm h] else [Accept h; Confirm h].

Lemma run_confirms (already : uint256 → bool) hs st :
  NoDup hs →
  (∀ h, h ∈ hs → st !! h = if already h then Some Unconfirmed else None) →
  ∃ st', tx_run (flat_map (confirm_events already) hs) st = Some st' ∧
    ∀ k, st' !! k = if bool_decide (k ∈ hs) then Some Confirmed else st !! k.
Proof.
  intros Hnd. revert st. induction Hnd as [|h hs Hh Hnd IH]; intros st Hu; simpl.
  - exists st. done.
  - assert (tx_run (confirm_events already h) st = Some (<[h := Confirmed]> st)) as E.
    { specialize (Hu h ltac:(set_solver)). unfold confirm_events. destruct (already h); simpl.
      - by rewrite step_confirm.
      - rewrite step_accept by done. simpl.
        rewrite step_confirm by apply lookup_insert_eq. simpl. by rewrite insert_insert_eq. }
    destruct (IH (<[h := Confirmed]> st)) as (st' & Hr & Hk).
    { intros k Hk. rewrite lookup_insert_ne by set_solver. apply Hu. set_solver. }
    exists st'. rewrite tx_run_app, E. split; [done|]. intros k. rewrite Hk, lookup_insert.
    repeat case_bool_decide; repeat case_decide; try done; set_solver.
Qed.
End tx_run.
