(* ===== verification/Chain.v ===== *)
(** * The block chain window of log1producer (src/jiexi/src/Log1Producer.{h,cc}, class Chain)

    [Chain] keeps the last [limit_] blocks, height to hash, and accepts one
    step forward or one step back.  The operations are translated on the
    ordered map the code uses; [Spec] describes the same window as the list of
    its hashes, and [push_refines] shows that every branch of [push] does what
    the list says. *)
From S2P Require Import Prelude Tx.

Record Chain := { limit_ : Z; blocks_ : gmap Z uint256 }.

Definition set_blocks (m : gmap Z uint256) (c : Chain) : Chain :=
  {| limit_ := limit_ c; blocks_ := m |}.

Definition newChain (limit : Z) : Chain := {| limit_ := limit; blocks_ := ∅ |}.

Definition getCurHeight (c : Chain) : Z :=
  match last (zitems (blocks_ c)) with None => -1 | Some (h, _) => h end.

(** an empty chain answers [uint256()], zero *)
Definition getCurHash (c : Chain) : uint256 :=
  match last (zitems (blocks_ c)) with None => 0 | Some (_, x) => x end.

Definition chain_size (c : Chain) : nat := size (blocks_ c).

Definition pushFirst (height : Z) (hash : uint256) : M Chain unit :=
  c ← get;
  if Nat.eqb (chain_size c) 0
  then modify (set_blocks (<[height := hash]> (blocks_ c)))
  else raise (Throw "blocks_ is not empty").

(** [*(++ ++ blocks_.rbegin())]: the third entry from the end. *)
Definition third_last (m : gmap Z uint256) : option uint256 :=
  snd <$> reverse (zitems m) !! 2%nat.

Definition push (height : Z) (hash prevHash : uint256) : M Chain unit :=
  c ← get;
  let curHeight := getCurHeight c in
  let curHash := getCurHash c in
  (if height =? curHeight + 1 then
     if negb (prevHash =? curHash) then raise (Throw "prev hash not match curHash")
     else modify (set_blocks (<[height := hash]> (blocks_ c)))
   else if height + 1 =? curHeight then
     if Nat.leb (chain_size c) 3 then raise (Throw "blocks should more than 3")
     else match third_last (blocks_ c) with
          | None => raise Undefined
          | Some x =>
              if negb (prevHash =? x) then raise (Throw "prev hash not match -3 block hash")
              else modify (set_blocks (erase_last (blocks_ c)))
          end
   else raise (Throw "invalid block height")) ;;
  modify (λ c, set_blocks (trim_first (size (blocks_ c)) (limit_ c) (blocks_ c)) c).

Definition pop : M Chain unit :=
  c ← get;
  if Nat.eqb (chain_size c) 0 then mret tt
  else modify (set_blocks (erase_last (blocks_ c))).

(** ** The window as a list of hashes *)
Module Spec.
(** lowest height and the hashes from there up *)
Record view := { lo : Z; hashes : list uint256 }.

Definition top (v : view) : Z := lo v + Z.of_nat (length (hashes v)) - 1.
Definition top_hash (v : view) : uint256 := default 0 (last (hashes v)).

(** keep the newest [limit] blocks *)
Definition keep (limit : Z) (v : view) : view :=
  let k := (length (hashes v) - Z.to_nat limit)%nat in
  {| lo := lo v + Z.of_nat k; hashes := drop k (hashes v) |}.

Definition forward (limit : Z) (x : uint256) (v : view) : view :=
  keep limit {| lo := lo v; hashes := hashes v ++ [x] |}.
Definition back (v : view) : view :=
  {| lo := lo v; hashes := removelast (hashes v) |}.

(** what [push] promises *)
Definition step (limit height : Z) (x prev : uint256) (v : view) : option view :=
  if height =? top v + 1 then
    if prev =? top_hash v then Some (forward limit x v) else None
  else if (height =? top v - 1) && (3 <? Z.of_nat (length (hashes v))) &&
          bool_decide (hashes v !! (length (hashes v) - 3)%nat = Some prev)
  then Some (back v) else None.
End Spec.
Import Spec.

(** A chain shows a view: its map is the view's window, not empty, within the limit. *)
Definition shows (c : Chain) (v : view) : Prop :=
  window (blocks_ c) (lo v) (hashes v) ∧ hashes v ≠ [] ∧
  0 < limit_ c < 2 ^ 64 ∧ (length (hashes v) <= Z.to_nat (limit_ c))%nat.

Section chain_lemmas.
Implicit Types (c : Chain) (v : view).

Lemma shows_last c v :
  shows c v → last (zitems (blocks_ c)) = Some (top v, top_hash v).
Proof.
  intros (Hw & Hne & _). rewrite (window_items _ _ _ Hw), last_heights.
  unfold top, top_hash. destruct (last (hashes v)) as [x|] eqn:E; [done|].
  apply last_None in E. done.
Qed.

Lemma shows_cur c v : shows c v → getCurHeight c = top v ∧ getCurHash c = top_hash v.
Proof. intros H. unfold getCurHeight, getCurHash. by rewrite (shows_last _ _ H). Qed.

Lemma shows_size c v : shows c v → chain_size c = length (hashes v).
Proof. intros (Hw & _). by apply (window_size _ _ _ Hw). Qed.

Lemma third_last_window m l0 l :
  window m l0 l → (3 ≤ length l)%nat → third_last m = l !! (length l - 3)%nat.
Proof.
  intros Hw Hl. unfold third_last. rewrite (window_items _ _ _ Hw).
  pose proof (length_heights l0 l) as Hlen.
  rewrite reverse_lookup by lia. rewrite Hlen.
  replace (length l - S 2)%nat with (length l - 3)%nat by lia.
  destruct (l !! (length l - 3)%nat) as [x|] eqn:E.
  - destruct (heights l0 l !! (length l - 3)%nat) as [[h y]|] eqn:E2.
    2:{ apply lookup_ge_None in E2. lia. }
    simpl. rewrite <-E. clear E.
    clear Hlen. revert E2. generalize (length l - 3)%nat as i. clear Hw Hl. intros i. revert l0 i.
    induction l as [|z l IH]; intros l0 [|i]; simpl; [done.. | by intros [= -> ->] | apply IH].
  - apply lookup_ge_None in E. lia.
Qed.

Lemma shows_third c v :
  shows c v → (3 ≤ length (hashes v))%nat →
  third_last (blocks_ c) = hashes v !! (length (hashes v) - 3)%nat.
Proof. intros (Hw & _) ?. by eapply third_last_window. Qed.

Lemma keep_all limit v :
  (length (hashes v) <= Z.to_nat limit)%nat → keep limit v = v.
Proof.
  intros H. unfold keep. destruct v as [l0 l]; simpl in *.
  replace (length l - Z.to_nat limit)%nat with 0%nat by lia. by rewrite Z.add_0_r.
Qed.

(** The trimming loop, on the view. *)
Lemma trim_shows c v :
  window (blocks_ c) (lo v) (hashes v) → hashes v ≠ [] → 0 < limit_ c < 2 ^ 64 →
  shows (set_blocks (trim_first (size (blocks_ c)) (limit_ c) (blocks_ c)) c)
    (keep (limit_ c) v).
Proof.
  intros Hw Hne Hlim. unfold shows, keep; simpl. split_and!; [| | lia.. |].
  - apply window_trim; [lia | done |]. rewrite (window_size _ _ _ Hw). lia.
  - destruct (hashes v) as [|x l]; [done|]. intros Hd.
    apply (f_equal length) in Hd. rewrite length_drop in Hd. simpl in Hd. lia.
  - rewrite length_drop. lia.
Qed.

Lemma push_top m v x :
  window m (lo v) (hashes v) → window (<[top v + 1 := x]> m) (lo v) (hashes v ++ [x]).
Proof.
  intros Hw. replace (top v + 1) with (lo v + Z.of_nat (length (hashes v)))
    by (unfold top; lia). by apply window_push.
Qed.

Lemma removelast_last (l : list uint256) x :
  last l = Some x → l = removelast l ++ [x].
Proof.
  destruct l as [|y l _] using rev_ind; [done|]. rewrite last_snoc. intros [= ->].
  by rewrite removelast_last.
Qed.

Lemma length_removelast (l : list uint256) : length (removelast l) = (length l - 1)%nat.
Proof.
  destruct l as [|y l _] using rev_ind; [done|]. rewrite List.removelast_last, length_app. simpl. lia.
Qed.

Lemma pop_shows c v :
  shows c v → (2 ≤ length (hashes v))%nat →
  shows (set_blocks (erase_last (blocks_ c)) c) (back v).
Proof.
  intros (Hw & Hne & Hlim & Hle) H2. unfold shows, back; simpl.
  destruct (last (hashes v)) as [x|] eqn:E; [|by apply last_None in E].
  pose proof (removelast_last _ _ E) as Hl. split_and!; [| | lia.. |].
  - rewrite Hl in Hw. by eapply window_pop.
  - intros Hnil. rewrite Hnil in Hl. rewrite Hl in H2. simpl in H2. lia.
  - rewrite length_removelast. lia.
Qed.
End chain_lemmas.

Lemma top_hash_lookup v :
  hashes v ≠ [] → hashes v !! (length (hashes v) - 1)%nat = Some (top_hash v).
Proof.
  intros Hne. unfold top_hash. rewrite last_lookup.
  replace (Init.Nat.pred (length (hashes v))) with (length (hashes v) - 1)%nat by lia.
  destruct (hashes v !! _) as [x|] eqn:E; [done|].
  apply lookup_ge_None in E. destruct (hashes v); [done|simpl in E; lia].
Qed.

Lemma back_facts v :
  (2 ≤ length (hashes v))%nat →
  hashes (back v) = take (length (hashes v) - 1) (hashes v) ∧
  length (hashes (back v)) = (length (hashes v) - 1)%nat ∧ top (back v) = top v - 1.
Proof.
  intros H2. unfold back, top; simpl. rewrite length_removelast. split_and!; [|done|lia].
  rewrite removelast_firstn_len. f_equal. lia.
Qed.

Lemma pop_run c v :
  shows c v → (2 ≤ length (hashes v))%nat →
  ∃ c', pop c = (Done tt, c') ∧ shows c' (back v) ∧ limit_ c' = limit_ c.
Proof.
  intros Hv H2. eexists. split; [|split; [by apply pop_shows|done]].
  unfold pop, mbind, M_bind, get. cbv beta iota zeta. rewrite (shows_size _ _ Hv).
  by destruct (Nat.eqb_spec (length (hashes v)) 0); [lia|].
Qed.

Lemma forward_top limit x v :
  0 < limit → top (forward limit x v) = top v + 1 ∧ top_hash (forward limit x v) = x.
Proof.
  intros Hlim. unfold forward, keep, top, top_hash; simpl.
  rewrite length_drop, length_app; simpl. split; [lia|].
  rewrite last_lookup, length_drop, lookup_drop, length_app; simpl.
  rewrite list_lookup_middle; [done|lia].
Qed.

(** Consecutive entries are parent and child. *)
Definition linked (parent : uint256 → uint256) (l : list uint256) : Prop :=
  ∀ i x y, l !! i = Some x → l !! S i = Some y → parent y = x.

Lemma linked_snoc parent l x y :
  linked parent (l ++ [x]) → parent y = x → linked parent ((l ++ [x]) ++ [y]).
Proof.
  intros Hl Hp i a b Ha Hb.
  destruct (decide (S i < length (l ++ [x]))%nat) as [Hlt|Hge].
  - rewrite lookup_app_l in Ha, Hb by lia. by eapply Hl.
  - assert (S i = length (l ++ [x])) as Ei.
    { apply lookup_lt_Some in Hb. rewrite length_app in Hb. simpl in Hb. lia. }
    rewrite Ei, list_lookup_middle in Hb by done. simplify_eq.
    rewrite length_app in Ei. simpl in Ei.
    rewrite lookup_app_l in Ha by (rewrite length_app; simpl; lia).
    replace i with (length l) in Ha by lia. rewrite list_lookup_middle in Ha by done. congruence.
Qed.

Lemma linked_drop parent k l : linked parent l → linked parent (drop k l).
Proof.
  intros Hl i x y Hx Hy. rewrite lookup_drop in Hx, Hy.
  apply (Hl (k + i)%nat); [done|]. by rewrite <-Nat.add_succ_r.
Qed.

Lemma linked_removelast parent l : linked parent l → linked parent (removelast l).
Proof.
  intros Hl. destruct l as [|a l _] using rev_ind; [done|]. rewrite List.removelast_last.
  intros i x y Hx Hy. apply (Hl i); rewrite lookup_app_l; eauto using lookup_lt_Some.
Qed.

Lemma step_linked parent limit h x prev v v' :
  prev = parent x → linked parent (hashes v) → Spec.step limit h x prev v = Some v' →
  linked parent (hashes v').
Proof.
  intros Hp Hl. unfold Spec.step.
  destruct (h =? top v + 1).
  - destruct (Z.eqb_spec prev (top_hash v)) as [Ht|]; [|discriminate].
    intros [= <-]. unfold forward, keep; simpl. apply linked_drop.
    destruct (hashes v) as [|y l _] eqn:E using rev_ind.
    + intros [|i] a b; simpl; discriminate.
    + apply linked_snoc; [done|]. unfold top_hash in Ht. rewrite E, last_snoc in Ht. simpl in Ht. congruence.
  - case_match; [|discriminate]. intros [= <-]. by apply linked_removelast.
Qed.

(** One [push], every branch: where the specification steps, the code completes
    and shows the new view; where it refuses, the code throws and the chain is
    left exactly as it was. *)
Lemma push_spec (c : Chain) (v : view) (height : Z) (x prev : uint256)
    (Hc : shows c v) :
  match Spec.step (limit_ c) height x prev v with
  | Some v' => ∃ c', push height x prev c = (Done tt, c') ∧ shows c' v' ∧
                 getCurHeight c' = height ∧ limit_ c' = limit_ c
  | None => ∃ w, push height x prev c = (Raise (Throw w), c)
  end.
Proof.
  destruct (shows_cur _ _ Hc) as [Eh Ex]. pose proof (shows_size _ _ Hc) as Es.
  pose proof Hc as (Hw & Hne & Hlim & Hle).
  unfold Spec.step, push, mbind, M_bind, get. cbv beta zeta iota. rewrite Eh, Ex, Es.
  destruct (Z.eqb_spec height (top v + 1)) as [->|Hfw].
  - destruct (Z.eqb_spec prev (top_hash v)) as [->|]; simpl; [|eauto].
    pose proof (trim_shows (set_blocks (<[top v + 1 := x]> (blocks_ c)) c)
      {| lo := lo v; hashes := hashes v ++ [x] |}) as Ht. simpl in Ht.
    specialize (Ht (push_top _ _ x Hw) ltac:(by destruct (hashes v)) Hlim).
    eexists. split_and!; [done | done | | done].
    etransitivity; [exact (proj1 (shows_cur _ _ Ht))|]. unfold keep, top; simpl.
    rewrite length_drop, length_app; simpl. lia.
  - replace (height =? top v - 1) with (height + 1 =? top v)
      by (destruct (Z.eqb_spec (height + 1) (top v)), (Z.eqb_spec height (top v - 1)); lia).
    destruct (Z.eqb_spec (height + 1) (top v)) as [Hbk|]; simpl; [|eauto].
    destruct (Nat.leb_spec (length (hashes v)) 3) as [H3|H3].
    + replace (3 <? Z.of_nat (length (hashes v))) with false by lia. simpl. eauto.
    + replace (3 <? Z.of_nat (length (hashes v))) with true by lia. simpl.
      rewrite (shows_third _ _ Hc) by lia.
      destruct (hashes v !! (length (hashes v) - 3)%nat) as [y|] eqn:E3.
      2:{ apply lookup_ge_None in E3. lia. }
      destruct (Z.eqb_spec prev y) as [->|Hy]; simpl.
      * rewrite bool_decide_true by done.
        pose proof (pop_shows _ _ Hc ltac:(lia)) as Hp. pose proof Hp as (Hpw & Hpne & _ & Hple).
        pose proof (trim_shows _ _ Hpw Hpne Hlim) as Ht. rewrite keep_all in Ht by done.
        eexists. split_and!; [done | done | | done].
        etransitivity; [exact (proj1 (shows_cur _ _ Ht))|]. unfold top, back in *; simpl.
        rewrite length_removelast. lia.
      * rewrite bool_decide_false by congruence. eauto.
Qed.

(** A block offered to the chain: height, hash, parent hash. *)
Record offer := { o_height : Z; o_hash : uint256; o_prev : uint256 }.

(** The chain after a series of offers, refused ones skipped. *)
Definition offer_all (l : list offer) (c : Chain) : Chain :=
  foldl (λ c o, snd (push (o_height o) (o_hash o) (o_prev o) c)) c l.
Definition step_all (limit : Z) (l : list offer) (v : view) : view :=
  foldl (λ v o, default v (Spec.step limit (o_height o) (o_hash o) (o_prev o) v)) v l.

Lemma pushFirst_shows limit h0 x0 :
  0 < limit < 2 ^ 64 →
  shows (snd (pushFirst h0 x0 (newChain limit))) {| lo := h0; hashes := [x0] |}.
Proof.
  intros Hlim. change (snd _) with (set_blocks (<[h0 := x0]> ∅) (newChain limit)).
  split_and!; simpl; [reflexivity | done | lia..].
Qed.

Lemma offer_all_shows limit l c v :
  limit_ c = limit → shows c v →
  shows (offer_all l c) (step_all limit l v) ∧ limit_ (offer_all l c) = limit.
Proof.
  intros <-. revert c v. induction l as [|o l IH]; intros c v Hc; simpl; [done|].
  pose proof (push_spec c v (o_height o) (o_hash o) (o_prev o) Hc) as Hp.
  destruct (Spec.step _ _ _ _ v) as [v'|]; simpl.
  - destruct Hp as (c' & -> & Hs & _ & <-). by apply IH.
  - destruct Hp as (w & ->). by apply IH.
Qed.

(** C27 — the chain window refines its list specification.  From the first block
    on, after any series of pushes (accepted or refused), the map shows exactly
    the list the specification computes: consecutive heights, never more than
    [limit] of them, top height and hash as the queries answer them.  The next
    push completes exactly when the specification steps, and a refused push
    throws and changes nothing. *)
Theorem push_refines (limit h0 : Z) (x0 : uint256) (l : list offer)
    (Hlim : 0 < limit < 2 ^ 64) :
  let c := offer_all l (snd (pushFirst h0 x0 (newChain limit))) in
  let v := step_all limit l {| lo := h0; hashes := [x0] |} in
  window (blocks_ c) (lo v) (hashes v) ∧ (0 < chain_size c)%nat ∧
  Z.of_nat (chain_size c) ≤ limit ∧
  getCurHeight c = top v ∧ getCurHash c = top_hash v ∧
  ∀ height x prev,
    match Spec.step limit height x prev v with
    | Some v' => ∃ c', push height x prev c = (Done tt, c') ∧
                   window (blocks_ c') (lo v') (hashes v') ∧ getCurHeight c' = height
    | None => ∃ w, push height x prev c = (Raise (Throw w), c)
    end.
Proof.
  pose proof (pushFirst_shows limit h0 x0 Hlim) as H0.
  destruct (offer_all_shows limit l (snd (pushFirst h0 x0 (newChain limit))) _ eq_refl H0) as [Hs El].
  cbv zeta. set (c := offer_all l _) in *. set (v := step_all limit l _) in *.
  pose proof (shows_cur _ _ Hs) as [Eh Ex]. pose proof (shows_size _ _ Hs) as Es.
  pose proof Hs as (Hw & Hne & _ & Hle).
  split_and!; [done | | lia | done | done |].
  - rewrite Es. destruct (hashes v); [done|simpl; lia].
  - intros height x prev. pose proof (push_spec c v height x prev Hs) as Hp. rewrite El in Hp.
    destruct (Spec.step _ _ _ _ v) as [v'|]; [|done].
    destruct Hp as (c' & ? & (? & _) & ? & _). eauto.
Qed.

Definition w_offers : list offer :=
  [ {| o_height := 8; o_hash := 80; o_prev := 70 |};
    {| o_height := 9; o_hash := 90; o_prev := 80 |};
    {| o_height := 10; o_hash := 100; o_prev := 91 |};
    {| o_height := 10; o_hash := 100; o_prev := 90 |};
    {| o_height := 11; o_hash := 110; o_prev := 100 |};
    {| o_height := 10; o_hash := 100; o_prev := 90 |} ].

Lemma push_refines_witness :
  getCurHeight (offer_all w_offers (snd (pushFirst 7 70 (newChain 4)))) = 10 ∧
  step_all 4 w_offers {| lo := 7; hashes := [70] |} = {| lo := 8; hashes := [80; 90; 100] |}.
Proof.
  split; [|reflexivity].
  exact (proj1 (proj2 (proj2 (proj2 (push_refines 4 7 70 w_offers ltac:(lia)))))).
Defined.

(** Whatever series of blocks is offered, accepted or refused, as long as
    each comes with its own parent hash, the window stays a chain: every stored
    block is the child of the one stored below it. *)
Theorem push_keeps_linked (parent : uint256 → uint256) (limit h0 : Z) (x0 : uint256)
    (l : list offer) (Hlim : 0 < limit < 2 ^ 64)
    (Hl : Forall (λ o, o_prev o = parent (o_hash o)) l) :
  let m := blocks_ (offer_all l (snd (pushFirst h0 x0 (newChain limit)))) in
  ∀ h x y, m !! h = Some x → m !! (h + 1) = Some y → parent y = x.
Proof.
  pose proof (pushFirst_shows limit h0 x0 Hlim) as H0.
  cbv zeta. revert H0. generalize (snd (pushFirst h0 x0 (newChain limit))) as c.
  assert (linked parent (hashes {| lo := h0; hashes := [x0] |})) as Hlk.
  { intros i x y Hx Hy. apply lookup_lt_Some in Hy. simpl in Hy. lia. }
  revert Hlk. generalize {| lo := h0; hashes := [x0] |} as v.
  induction Hl as [|o l Ho _ IH]; intros v Hlk c Hc h x y; simpl.
  - pose proof Hc as (Hw & _). rewrite !(window_lookup _ _ _ _ Hw).
    case_bool_decide; [|discriminate]. rewrite bool_decide_true by lia.
    replace (Z.to_nat (h + 1 - lo v)) with (S (Z.to_nat (h - lo v))) by lia. apply Hlk.
  - pose proof (push_spec c v (o_height o) (o_hash o) (o_prev o) Hc) as Hp.
    destruct (Spec.step _ _ _ _ v) as [v'|] eqn:E.
    + destruct Hp as (c' & -> & Hs & _). simpl. eapply IH; [|exact Hs].
      eapply step_linked; [|exact Hlk|exact E]. done.
    + destruct Hp as (w & ->). by eapply IH.
Qed.

