(* ===== verification/Log1Producer.v ===== *)
(** * log1producer (src/jiexi/src/Log1Producer.cc, class Log1Producer)

    The producer follows bitcoind's log0 files, keeps the block window [Chain]
    and writes log1: at the start it rebuilds the window from the log1 files and,
    when bitcoind restarted, walks log1 back and forward along bitcoind's chain
    over RPC; then it copies log0 records that fit the window.  bitcoind's RPC
    answers, the clock and the configuration are parameters.  The state holds the
    two directories of log files, the BEGIN and status files, and the window. *)
From S2P Require Import Prelude Tx Bytes Serialize LogFiles Log1 Chain.
Import Chain.Spec.

Record Log1Producer := {
  log1Files : gmap Z bytes;        (** log1Dir_/files/N.log *)
  log1FileIndex_ : Z;
  log1FileHandler_ : bool;         (** whether the current file is open *)
  chain_ : Chain;
  log0 : follower;                 (** log0Dir_/files and the cursor in them *)
  log0BeginFile : bytes;           (** log0Dir_/BEGIN *)
  log0BeginTime : Z;               (** its modification time *)
  log1BeginFile : bytes;           (** log1Dir_/LOG0_BEGIN_TIME *)
  log0BeginFileLastModifyTime_ : Z;
  log0StatusFile : option bytes;
  ticks : nat }.                   (** readings of the clock so far *)

Definition with_chain (c : Chain) (p : Log1Producer) : Log1Producer :=
  {| log1Files := log1Files p; log1FileIndex_ := log1FileIndex_ p;
     log1FileHandler_ := log1FileHandler_ p; chain_ := c; log0 := log0 p;
     log0BeginFile := log0BeginFile p; log0BeginTime := log0BeginTime p;
     log1BeginFile := log1BeginFile p;
     log0BeginFileLastModifyTime_ := log0BeginFileLastModifyTime_ p;
     log0StatusFile := log0StatusFile p; ticks := ticks p |}.
Definition with_log1 (files : gmap Z bytes) (idx : Z) (handler : bool) (t : nat)
    (p : Log1Producer) : Log1Producer :=
  {| log1Files := files; log1FileIndex_ := idx; log1FileHandler_ := handler;
     chain_ := chain_ p; log0 := log0 p;
     log0BeginFile := log0BeginFile p; log0BeginTime := log0BeginTime p;
     log1BeginFile := log1BeginFile p;
     log0BeginFileLastModifyTime_ := log0BeginFileLastModifyTime_ p;
     log0StatusFile := log0StatusFile p; ticks := t |}.
Definition with_log0 (r : follower) (p : Log1Producer) : Log1Producer :=
  {| log1Files := log1Files p; log1FileIndex_ := log1FileIndex_ p;
     log1FileHandler_ := log1FileHandler_ p; chain_ := chain_ p; log0 := r;
     log0BeginFile := log0BeginFile p; log0BeginTime := log0BeginTime p;
     log1BeginFile := log1BeginFile p;
     log0BeginFileLastModifyTime_ := log0BeginFileLastModifyTime_ p;
     log0StatusFile := log0StatusFile p; ticks := ticks p |}.
Definition with_begin (begin1 : bytes) (mtime : Z) (p : Log1Producer) : Log1Producer :=
  {| log1Files := log1Files p; log1FileIndex_ := log1FileIndex_ p;
     log1FileHandler_ := log1FileHandler_ p; chain_ := chain_ p; log0 := log0 p;
     log0BeginFile := log0BeginFile p; log0BeginTime := log0BeginTime p;
     log1BeginFile := begin1; log0BeginFileLastModifyTime_ := mtime;
     log0StatusFile := log0StatusFile p; ticks := ticks p |}.
Definition with_status (s : bytes) (p : Log1Producer) : Log1Producer :=
  {| log1Files := log1Files p; log1FileIndex_ := log1FileIndex_ p;
     log1FileHandler_ := log1FileHandler_ p; chain_ := chain_ p; log0 := log0 p;
     log0BeginFile := log0BeginFile p; log0BeginTime := log0BeginTime p;
     log1BeginFile := log1BeginFile p;
     log0BeginFileLastModifyTime_ := log0BeginFileLastModifyTime_ p;
     log0StatusFile := Some s; ticks := ticks p |}.

Abbreviation on_chain := (zoom chain_ with_chain).
Abbreviation on_log0 := (zoom log0 with_log0).

#[local] Set Default Proof Using "Type".
Section producer.
Context `{Hashing}.
(** the clock ([date("%F %T")]) and the configuration *)
Variables (date : nat → bytes) (log1_file_max_size_mb log0_files_max_num : Z).
(** RPC: the result of getblockhash, the response of getblock *)
Variables (getblockhash : Z → outcome bytes) (getblock : bytes → outcome bytes).

(** ** Writing log1 *)

Definition log1FileMaxSize : Z := Z.min (log1_file_max_size_mb * 1024 * 1024) (2 ^ 31 - 1).

Definition writeLog1 (type : Z) (line : bytes) : M Log1Producer unit :=
  modify (λ p,
    let idx := if log1FileIndex_ p =? -1 then 0 else log1FileIndex_ p in
    let file := default [] (log1Files p !! idx) ++ log_line (date (ticks p)) type line ++ [10] in
    let full := log1FileMaxSize <? Z.of_nat (length file) in
    with_log1 (<[idx := file]> (log1Files p)) (if full then idx + 1 else idx)
      (negb full) (S (ticks p)) p).

Definition writeLog1Tx (type : Z) (tx : CTransaction) : M Log1Producer unit :=
  writeLog1 type (tx_payload tx).
Definition writeLog1Block (height : Z) (b : CBlock) : M Log1Producer unit :=
  writeLog1 TYPE_BLOCK (block_payload height b).

(** ** Start *)

(** the configuration's first block is used when there is no log1 yet *)
Definition initLog1 (log1_begin_block_height : Z) (log1_begin_block_hash : bytes) :
    M Log1Producer unit :=
  modify (λ p, with_log1 (log1Files p)
    match last (zitems (log1Files p)) with None => -1 | Some (i, _) => Z.max i (-1) end
    (log1FileHandler_ p) (ticks p) p) ;;
  p ← get;
  (if log1FileIndex_ p =? -1 then
     on_chain (pushFirst log1_begin_block_height
       (if 0 <=? log1_begin_block_height then SetHex log1_begin_block_hash else 0))
   else
     forM (zitems (log1Files p)) (λ file,
       forM (split file.2 10) (λ line,
         item ← lift_outcome (parse line newLog1).1;
         let l := (parse line newLog1).2 in
         if negb (isBlock l) then mret tt
         else
           b ← lift_outcome (getBlock l).1;
           p ← get;
           if Nat.eqb (chain_size (chain_ p)) 0
           then on_chain (pushFirst (blockHeight_ l) (BlockHash b))
           else on_chain (push (blockHeight_ l) (BlockHash b) (hashPrevBlock (header b)))))) ;;
  p ← get;
  if Nat.eqb (chain_size (chain_ p)) 0 then raise (Throw "can't find any blocks in log1 files")
  else mret tt.

Definition bitcoind_getBlockByHash (hashStr : bytes) : outcome CBlock :=
  response ← getblock hashStr;
  let strArr := split_limit response 34 5 in
  if negb (Nat.eqb (length strArr) 5) then Raise AssertFail
  else hex ← at_ strArr 3;
       match DecodeHexBlk hex with
       | None => Raise (Throw "decode block failure")
       | Some b => mret b
       end.

(** The first line of 0.log and the position after it; at the end of the file
    [tellg()] answers -1. *)
Definition first_line (content : bytes) : option (bytes * Z) :=
  match split_limit content 10 1 with
  | [] => None
  | line :: _ =>
      Some (line, if Nat.ltb (length line) (length content)
                  then Z.of_nat (length line) + 1 else -1)
  end.

(** Step one of [syncBitcoind]: pop blocks until bitcoind has the top. *)
Fixpoint sync_back (fuel : nat) : M Log1Producer unit :=
  match fuel with
  | O => raise Diverge
  | S fuel =>
      p ← get;
      let h := getCurHeight (chain_ p) in
      if h =? -1 then mret tt
      else
        bitcoindHashStr ← lift_outcome (getblockhash h);
        if bool_decide (ToString (getCurHash (chain_ p)) = bitcoindHashStr) then mret tt
        else
          on_chain pop ;;
          p ← get;
          if Nat.eqb (chain_size (chain_ p)) 0
          then raise (Throw "can't find matched block, bitcoind has a big fork")
          else
            block ← lift_outcome (bitcoind_getBlockByHash (ToString (getCurHash (chain_ p))));
            writeLog1Block (getCurHeight (chain_ p)) block ;;
            sync_back fuel
  end.

(** Step two: push bitcoind's blocks up to the height log0 starts at. *)
Fixpoint sync_forward (fuel : nat) (log0FirstLineHeight : Z) : M Log1Producer unit :=
  match fuel with
  | O => raise Diverge
  | S fuel =>
      p ← get;
      let cur := getCurHeight (chain_ p) in
      if negb (cur <? log0FirstLineHeight) then mret tt
      else
        let height := cur + 1 in
        hashStr ← lift_outcome (getblockhash (cur + 1));
        block ← lift_outcome (bitcoind_getBlockByHash hashStr);
        assertM (bool_decide (ToString (BlockHash block) = hashStr)) ;;
        assertM (getCurHash (chain_ p) =? hashPrevBlock (header block)) ;;
        on_chain (push height (BlockHash block) (hashPrevBlock (header block))) ;;
        writeLog1Block height block ;;
        sync_forward fuel log0FirstLineHeight
  end.

Definition syncBitcoind : M Log1Producer unit :=
  p ← get;
  match first_line (default [] (f_files (log0 p) !! 0)) with
  | None => raise (Throw "read log0 first line failure")
  | Some (line, off) =>
      item ← lift_outcome (parse line newLog1).1;
      let l := (parse line newLog1).2 in
      if negb (isBlock l) then raise (Throw "log0 first line is NOT block")
      else
        let log0FirstLineHeight := blockHeight_ l in
        b ← lift_outcome (getBlock l).1;
        on_log0 (modify (λ r, {| f_files := f_files r; f_idx := 0; f_off := off |})) ;;
        assertM (Nat.leb 1 (chain_size (chain_ p))) ;;
        sync_back (S (chain_size (chain_ p))) ;;
        p ← get;
        if log0FirstLineHeight <? getCurHeight (chain_ p)
        then raise (Throw "chain_.getCurHeight() is higher than log0FirstLineHeight")
        else sync_forward (S (Z.to_nat (log0FirstLineHeight - getCurHeight (chain_ p))))
               log0FirstLineHeight
  end.

Definition writeLog0IdxOffset : M Log1Producer unit :=
  modify (λ p, with_status (fmt_d (f_idx (log0 p)) ++ lit "," ++ fmt_d (f_off (log0 p))) p).

Definition getLog0IdxOffset : M Log1Producer unit :=
  p ← get;
  match log0StatusFile p with
  | None => raise (Throw "fileGetContents failure")
  | Some content =>
      let arr := split content 44 in
      assertM (Nat.eqb (length arr) 2) ;;
      a0 ← lift_outcome (at_ arr 0);
      a1 ← lift_outcome (at_ arr 1);
      on_log0 (modify (λ r, {| f_files := f_files r; f_idx := atoi a0; f_off := atoi64 a1 |}))
  end.

(** [init], after the checks of bitcoind and of the log0 directory *)
Definition init (log1_begin_block_height : Z) (log1_begin_block_hash : bytes) :
    M Log1Producer unit :=
  p ← get;
  let isLog0Changed := negb (bool_decide (log0BeginFile p = log1BeginFile p)) in
  initLog1 log1_begin_block_height log1_begin_block_hash ;;
  (if isLog0Changed then
     writeLog1 TYPE_CLEAR_MEMTXS [] ;;
     syncBitcoind ;;
     modify (λ p, with_begin (log0BeginFile p) (log0BeginFileLastModifyTime_ p) p) ;;
     writeLog0IdxOffset
   else getLog0IdxOffset) ;;
  modify (λ p, with_begin (log1BeginFile p) (log0BeginTime p) p).

(** ** Following log0 *)

Definition tryReadLog0 : M Log1Producer (list bytes) :=
  p ← get;
  let isNextExist := next_exists (log0 p) in
  if negb (log0BeginFileLastModifyTime_ p =? log0BeginTime p)
  then raise (Throw "log0 begin file has been changed")
  else
    match f_files (log0 p) !! f_idx (log0 p) with
    | None => raise (Throw "open file failure")
    | Some content =>
        if Z.of_nat (length content) <? f_off (log0 p) then raise (Throw "file has been changed")
        else ls ← on_log0 (read_log isNextExist log0_files_max_num); mret ls.*1
    end.

(** the body of the loop over the lines of a poll *)
Definition handle_line (line : bytes) : M Log1Producer unit :=
  item ← lift_outcome (parse line newLog1).1;
  let l := (parse line newLog1).2 in
  if isAcceptTx l || isRemoveTx l then
    tx ← lift_outcome (getTx l).1;
    writeLog1Tx (type_ l) tx
  else if isBlock l then
    b ← lift_outcome (getBlock l).1;
    on_chain (push (blockHeight_ l) (BlockHash b) (hashPrevBlock (header b))) ;;
    writeLog1Block (blockHeight_ l) b
  else raise (Throw "invalid log0 type").

(** one turn of [run]: true when it slept for want of lines *)
Definition run_once : M Log1Producer bool :=
  lines ← tryReadLog0;
  if Nat.eqb (length lines) 0 then mret true
  else forM lines handle_line ;; writeLog0IdxOffset ;; mret false.

(** ** What is written *)

Inductive record := RTx (type : Z) (tx : CTransaction) | RBlock (height : Z) (b : CBlock) | RClear.

Definition type_of (r : record) : Z :=
  match r with RTx type _ => type | RBlock _ _ => TYPE_BLOCK | RClear => TYPE_CLEAR_MEMTXS end.
Definition payload_of (r : record) : bytes :=
  match r with RTx _ tx => tx_payload tx | RBlock h b => block_payload h b | RClear => [] end.
Definition record_ok (r : record) : Prop :=
  match r with
  | RTx type tx => (type = TYPE_ACCEPT_TX ∨ type = TYPE_REMOVE_TX) ∧ tx_ok tx
  | RBlock h b => block_ok b ∧ in_s 32 h
  | RClear => True
  end.

(** the log1 text, all files, and the text of records written from time [t] on *)
Definition all_text (p : Log1Producer) : bytes := concat (zitems (log1Files p)).*2.
Fixpoint text_from (t : nat) (rs : list record) : bytes :=
  match rs with
  | [] => []
  | r :: rs => log_line (date t) (type_of r) (payload_of r) ++ 10 :: text_from (S t) rs
  end.

(** No file is newer than the current one. *)
Definition files_ok (p : Log1Producer) : Prop :=
  -1 ≤ log1FileIndex_ p ∧ ∀ k, is_Some (log1Files p !! k) → k ≤ log1FileIndex_ p.

(** [p'] is [p] with exactly the records [rs] added to the log. *)
Definition emits (rs : list record) (p p' : Log1Producer) : Prop :=
  files_ok p' ∧ all_text p' = all_text p ++ text_from (ticks p) rs ∧
  ticks p' = (ticks p + length rs)%nat ∧ log0StatusFile p' = log0StatusFile p.

Lemma text_from_app t rs1 rs2 :
  text_from t (rs1 ++ rs2) = text_from t rs1 ++ text_from (t + length rs1) rs2.
Proof.
  revert t. induction rs1 as [|r rs1 IH]; intros t; simpl; [by rewrite Nat.add_0_r|].
  rewrite IH, <-app_assoc. simpl. by rewrite Nat.add_succ_r.
Qed.

Lemma emits_nil p p' :
  files_ok p' → log1Files p' = log1Files p → ticks p' = ticks p →
  log0StatusFile p' = log0StatusFile p → emits [] p p'.
Proof.
  intros Hf Hl Ht Hs. unfold emits, all_text. rewrite Hl, Ht. simpl.
  rewrite app_nil_r, Nat.add_0_r. done.
Qed.

Lemma emits_trans rs1 rs2 p1 p2 p3 :
  emits rs1 p1 p2 → emits rs2 p2 p3 → emits (rs1 ++ rs2) p1 p3.
Proof.
  intros (_ & E1 & T1 & S1) (H3 & E2 & T2 & S2). split; [done|].
  rewrite E2, E1, T2, T1, S2, text_from_app, length_app, <-app_assoc. split_and!; [done|lia|done].
Qed.

Lemma writeLog1_emits r p :
  files_ok p → ∃ p', writeLog1 (type_of r) (payload_of r) p = (Done tt, p') ∧ emits [r] p p' ∧
    chain_ p' = chain_ p ∧ log0 p' = log0 p.
Proof.
  intros [Hidx Hmax]. eexists. split; [reflexivity|].
  set (idx := if log1FileIndex_ p =? -1 then 0 else log1FileIndex_ p).
  assert (log1FileIndex_ p ≤ idx ∧ 0 ≤ idx) as [Hi H0].
  { unfold idx. destruct (Z.eqb_spec (log1FileIndex_ p) (-1)); lia. }
  set (file := default [] (log1Files p !! idx) ++
    log_line (date (ticks p)) (type_of r) (payload_of r) ++ [10]).
  split; [|done]. split_and!; simpl.
  - split; simpl; [case_match; lia|]. intros k. rewrite lookup_insert. case_decide as Hk.
    + subst k. case_match; lia.
    + intros Hs. specialize (Hmax k Hs). case_match; lia.
  - unfold all_text. simpl.
    rewrite zitems_insert_top by (intros k Hs; specialize (Hmax k Hs); lia).
    rewrite fmap_app, concat_app. simpl. rewrite app_nil_r. unfold file.
    rewrite !app_assoc. do 2 f_equal.
    destruct (log1Files p !! idx) as [c|] eqn:E; simpl.
    + rewrite <-(insert_id _ _ _ E) at 2.
      rewrite zitems_insert_top by (intros k Hs; specialize (Hmax k Hs); lia).
      by rewrite fmap_app, concat_app; simpl; rewrite app_nil_r.
    + by rewrite delete_id, app_nil_r.
  - lia.
  - done.
Qed.

(** ** Copying log0 *)

(** a log0 line that carries the record [r] *)
Definition carries (line : bytes) (r : record) : Prop :=
  ∃ d, 44 ∉ d ∧ record_ok r ∧ line = log_line d (type_of r) (payload_of r).

(** The records the window accepts, up to the first that it refuses. *)
Fixpoint accepted (limit : Z) (v : Spec.view) (rs : list record) : list record * Spec.view * bool :=
  match rs with
  | [] => ([], v, true)
  | RTx type tx :: rs =>
      let '(l, v', ok) := accepted limit v rs in (RTx type tx :: l, v', ok)
  | RBlock h b :: rs =>
      match Spec.step limit h (BlockHash b) (hashPrevBlock (header b)) v with
      | None => ([], v, false)
      | Some v1 => let '(l, v', ok) := accepted limit v1 rs in (RBlock h b :: l, v', ok)
      end
  | RClear :: _ => ([], v, false)
  end.

Lemma with_chain_emits c p : files_ok p → emits [] p (with_chain c p).
Proof. intros. by apply emits_nil. Qed.

Lemma on_chain_Done (m : M Chain unit) p c :
  m (chain_ p) = (Done tt, c) → on_chain m p = (Done tt, with_chain c p).
Proof. intros E. unfold zoom. by rewrite E. Qed.

Lemma handle_line_tx line type tx p :
  files_ok p → carries line (RTx type tx) →
  ∃ p', handle_line line p = (Done tt, p') ∧ emits [RTx type tx] p p' ∧ chain_ p' = chain_ p ∧ log0 p' = log0 p.
Proof.
  intros Hf (d & Hd & [Ht Hok] & ->). cbn [type_of payload_of].
  unfold handle_line, mbind, M_bind, lift_outcome. rewrite parse_tx by done. cbn [fst snd].
  destruct (getTx_item type tx Hok) as (l' & Hg & _). rewrite Hg. cbn [fst].
  destruct (writeLog1_emits (RTx type tx) p Hf) as (p' & Hw & He & Hc & Hl).
  exists p'. split; [|done]. destruct Ht as [-> | ->]; exact Hw.
Qed.

Lemma handle_line_block line h b p v :
  files_ok p → shows (chain_ p) v → carries line (RBlock h b) →
  match Spec.step (limit_ (chain_ p)) h (BlockHash b) (hashPrevBlock (header b)) v with
  | Some v' =>
      ∃ p', handle_line line p = (Done tt, p') ∧ emits [RBlock h b] p p' ∧
        shows (chain_ p') v' ∧ limit_ (chain_ p') = limit_ (chain_ p) ∧ log0 p' = log0 p
  | None => ∃ w, handle_line line p = (Raise (Throw w), p)
  end.
Proof.
  intros Hf Hv (d & Hd & [Hok Hh] & ->). cbn [type_of payload_of].
  unfold handle_line. 
  assert (∀ k : unit → M Log1Producer unit,
    (lift_outcome (parse (log_line d TYPE_BLOCK (block_payload h b)) newLog1).1 ≫= k) p = k tt p) as Hp.
  { intros k. by rewrite parse_block. }
  rewrite Hp, parse_block by done. cbn [fst snd].
  destruct (getBlock_item h b Hok) as (l' & Hg & _).
  change (isAcceptTx (block_item h b) || isRemoveTx (block_item h b)) with false.
  change (isBlock (block_item h b)) with true. cbv iota.
  rewrite Hg. cbn [fst]. change (blockHeight_ (block_item h b)) with h.
  rewrite (bind_Done (lift_outcome (Done b)) _ p b p eq_refl). cbv beta.
  pose proof (push_spec (chain_ p) v h (BlockHash b) (hashPrevBlock (header b)) Hv) as Hps.
  destruct (Spec.step _ _ _ _ v) as [v'|].
  - destruct Hps as (c' & Hpush & Hs & _ & Hlim).
    rewrite (bind_Done _ _ _ _ _ (on_chain_Done _ _ _ Hpush)).
    destruct (writeLog1_emits (RBlock h b) (with_chain c' p)) as (p' & Hw & He & Hc & Hl); [done|].
    exists p'. split; [exact Hw|]. split_and!; [|by rewrite Hc|by rewrite Hc|by rewrite Hl].
    exact (emits_trans [] _ _ _ _ (with_chain_emits c' p Hf) He).
  - destruct Hps as (w & Hpush). exists w. apply bind_Raise. unfold zoom. rewrite Hpush.
    by destruct p.
Qed.

Lemma handle_lines_spec lines rs p v :
  files_ok p → shows (chain_ p) v → Forall2 carries lines rs → RClear ∉ rs →
  let '(rs', v', ok) := accepted (limit_ (chain_ p)) v rs in
  ∃ p', shows (chain_ p') v' ∧ limit_ (chain_ p') = limit_ (chain_ p) ∧ emits rs' p p' ∧ log0 p' = log0 p ∧
    if ok then forM lines handle_line p = (Done tt, p')
    else ∃ w, forM lines handle_line p = (Raise (Throw w), p').
Proof.
  clear log0_files_max_num getblockhash getblock. intros Hf Hv Hl. revert p v Hf Hv.
  induction Hl as [|line r lines rs Hlr Hl IH]; intros p v Hf Hv Hnc; simpl.
  - exists p. split_and!; try done. by apply emits_nil.
  - destruct r as [type tx|h b|].
    + destruct (handle_line_tx line type tx p Hf Hlr) as (p1 & Hr & He & Hc & Hl0).
      specialize (IH p1 v (proj1 He)). rewrite Hc in IH. specialize (IH Hv ltac:(set_solver)).
      destruct (accepted _ v rs) as [[rs' v'] ok].
      destruct IH as (p' & Hs & Hlim & He' & Hl0' & Hrun). exists p'.
      split_and!; [done|done| by apply (emits_trans [_] _ _ _ _ He He') | congruence |].
      destruct ok; [|destruct Hrun as (w & Hrun); exists w]; by rewrite (bind_Done _ _ _ _ _ Hr).
    + pose proof (handle_line_block line h b p v Hf Hv Hlr) as Hb.
      destruct (Spec.step _ _ _ _ v) as [v1|].
      * destruct Hb as (p1 & Hr & He & Hs1 & Hlim1 & Hl0).
        specialize (IH p1 v1 (proj1 He) Hs1 ltac:(set_solver)). rewrite Hlim1 in IH.
        destruct (accepted _ v1 rs) as [[rs' v'] ok].
        destruct IH as (p' & Hs & Hlim & He' & Hl0' & Hrun). exists p'.
        split_and!; [done|congruence| by apply (emits_trans [_] _ _ _ _ He He') | congruence |].
        destruct ok; [|destruct Hrun as (w & Hrun); exists w]; by rewrite (bind_Done _ _ _ _ _ Hr).
      * destruct Hb as (w & Hr). exists p. split_and!; try done; [by apply emits_nil|].
        exists w. by rewrite (bind_Raise _ _ _ _ _ Hr).
    + set_solver.
Qed.

Lemma tryReadLog0_frame p lines p1 :
  tryReadLog0 p = (Done lines, p1) → p1 = with_log0 (log0 p1) p.
Proof.
  unfold tryReadLog0, mbind, M_bind, get. cbv beta iota zeta.
  destruct (negb _); [discriminate|]. destruct (_ !! _) as [c|]; [|discriminate].
  destruct (_ <? _); [discriminate|]. unfold zoom.
  destruct (read_log _ _ (log0 p)) as [[ls|e] r]; [|discriminate]. by intros [= _ <-].
Qed.

Definition status_of (r : follower) : bytes := fmt_d (f_idx r) ++ lit "," ++ fmt_d (f_off r).

(** The status file brings the cursor back. *)
Lemma getLog0IdxOffset_status p r :
  in_s 32 (f_idx r) → in_s 64 (f_off r) → log0StatusFile p = Some (status_of r) →
  getLog0IdxOffset p = (Done tt, with_log0 {| f_files := f_files (log0 p); f_idx := f_idx r; f_off := f_off r |} p).
Proof.
  intros Hi Ho Hs. unfold getLog0IdxOffset, mbind, M_bind, get. cbv beta iota. rewrite Hs.
  assert (split (status_of r) 44 = [fmt_d (f_idx r); fmt_d (f_off r)]) as ->.
  { unfold status_of, split. change (lit ",") with [44]. cbn [app].
    rewrite split_item by (apply plain_not_in; [apply fmt_d_plain|auto]). f_equal.
    apply split_last; [apply plain_not_in; [apply fmt_d_plain|auto]|].
    unfold fmt_d. case_match; [done|]. destruct (fmt_u_cons (f_off r)) as (c & s & -> & _); [lia|done]. }
  cbn [length Nat.eqb assertM at_ lookup list_lookup]. unfold lift_outcome, mret, M_ret. cbv beta iota.
  transitivity (@Done unit tt, with_log0 {| f_files := f_files (log0 p);
    f_idx := atoi (fmt_d (f_idx r)); f_off := atoi64 (fmt_d (f_off r)) |} p); [reflexivity|].
  by rewrite atoi_fmt_d, atoi64_fmt_d.
Qed.

(** C26 — log1 is log0 filtered by the block window.  A turn of the main loop
    copies to log1 exactly the records its poll read, each with a new time, up
    to the first block the window refuses: the window then shows what the
    specification computes from those blocks.  When all are accepted the cursor
    is saved, and loading it brings the reader back to the same place; when a
    block is refused the turn throws and the saved cursor stays as it was. *)
Theorem run_copies (p p1 : Log1Producer) (v : Spec.view) (lines : list bytes) (rs : list record)
    (Hf : files_ok p) (Hv : shows (chain_ p) v)
    (Hread : tryReadLog0 p = (Done lines, p1)) (Hne : lines ≠ [])
    (Hl : Forall2 carries lines rs) (Hnc : RClear ∉ rs) :
  let '(rs', v', ok) := accepted (limit_ (chain_ p)) v rs in
  ∃ q, shows (chain_ q) v' ∧ emits rs' p q ∧ log0 q = log0 p1 ∧
    if ok then
      run_once p = (Done false, with_status (status_of (log0 q)) q) ∧
      (in_s 32 (f_idx (log0 q)) → in_s 64 (f_off (log0 q)) →
       fst (getLog0IdxOffset (with_status (status_of (log0 q)) q)) = Done tt ∧
       log0 (snd (getLog0IdxOffset (with_status (status_of (log0 q)) q))) = log0 q)
    else ∃ w, run_once p = (Raise (Throw w), q).
Proof.
  pose proof (tryReadLog0_frame _ _ _ Hread) as Ep1.
  assert (files_ok p1 ∧ chain_ p1 = chain_ p) as [Hf1 Hc1] by (by rewrite Ep1).
  pose proof (handle_lines_spec lines rs p1 v Hf1 ltac:(by rewrite Hc1) Hl Hnc) as Hspec.
  rewrite Hc1 in Hspec. destruct (accepted _ v rs) as [[rs' v'] ok].
  destruct Hspec as (q & Hs & _ & He & Hl0 & Hrun). exists q. split_and!; [done| |done|].
  - refine (emits_trans [] _ _ p1 _ _ He). rewrite Ep1. by apply emits_nil.
  - assert (∀ x : M Log1Producer bool,
      (if Nat.eqb (length lines) 0 then mret true else x) p1 = x p1) as Hif by (intros; by destruct lines).
    unfold run_once. rewrite (bind_Done _ _ _ _ _ Hread), Hif.
    destruct ok.
    + rewrite (bind_Done _ _ _ _ _ Hrun). split; [reflexivity|]. intros Hi Ho.
      rewrite (getLog0IdxOffset_status _ (log0 q)) by done. simpl. split; [done|].
      by destruct (log0 q).
    + destruct Hrun as (w & Hrun). exists w. by apply bind_Raise.
Qed.

(** ** Synchronising with bitcoind *)

(** bitcoind's best chain, its genesis above the null hash *)
Definition best_hash (best : Z → CBlock) (h : Z) : uint256 :=
  if h =? -1 then 0 else BlockHash (best h).

(** What the RPC interface documents: getblockhash answers from the best chain,
    up to [tip]; getblock with the hexadecimal block as a JSON result, for every
    block bitcoind stores, stale ones included. *)
Record rpc_ok (best : Z → CBlock) (tip : Z) (store : uint256 → option CBlock) : Prop := {
  rpc_hash h : 0 ≤ h ≤ tip → getblockhash h = Done (ToString (BlockHash (best h)));
  rpc_block x b : store x = Some b →
    block_ok b ∧ BlockHash b = x ∧
    ∃ tail, tail ≠ [] ∧
      getblock (ToString x) =
        Done ([123; 34] ++ lit "result" ++ [34; 58; 34] ++ EncodeHexBlock b ++ [34] ++ tail);
  rpc_best h : 0 ≤ h ≤ tip → store (BlockHash (best h)) = Some (best h);
  rpc_link h : -1 ≤ h < tip → hashPrevBlock (header (best (h + 1))) = best_hash best h;
  rpc_range h : -1 ≤ h ≤ tip → in_u 256 (best_hash best h) }.

(** Every block record is one above or one below the one before. *)
Fixpoint steps_by_one (h : Z) (rs : list record) : Prop :=
  match rs with
  | RBlock h' _ :: rs => (h' = h + 1 ∨ h' = h - 1) ∧ steps_by_one h' rs
  | _ :: rs => steps_by_one h rs
  | [] => True
  end.
Fixpoint end_height (h : Z) (rs : list record) : Z :=
  match rs with RBlock h' _ :: rs => end_height h' rs | _ :: rs => end_height h rs | [] => h end.

Lemma steps_by_one_app h rs1 rs2 :
  steps_by_one h rs1 → steps_by_one (end_height h rs1) rs2 → steps_by_one h (rs1 ++ rs2).
Proof.
  revert h. induction rs1 as [|r rs1 IH]; intros h H1 H2; simpl; [done|].
  destruct r; simpl in *; try (destruct H1; split); auto.
Qed.

Lemma end_height_app h rs1 rs2 : end_height h (rs1 ++ rs2) = end_height (end_height h rs1) rs2.
Proof. revert h. induction rs1 as [|r rs1 IH]; intros h; simpl; [done|]. by destruct r. Qed.

Section sync.
#[local] Set Default Proof Using "Type*".
Context (best : Z → CBlock) (tip : Z) (store : uint256 → option CBlock).
Context (Hrpc : rpc_ok best tip store).

Lemma getBlockByHash_ok x b : store x = Some b → bitcoind_getBlockByHash (ToString x) = Done b.
Proof.
  intros Hx. destruct (rpc_block _ _ _ Hrpc x b Hx) as (Hok & _ & tail & Ht & Hg).
  assert (∀ l, Forall plain l → Forall (λ c, 48 ≤ c) l → 34 ∉ l) as Hq.
  { intros l _ Hl Hin. rewrite Forall_forall in Hl. specialize (Hl 34 Hin). lia. }
  assert (34 ∉ EncodeHexBlock b) as Hh.
  { intros Hin. assert (Forall hex_char (EncodeHexBlock b)) as Hc.
    { by apply HexStr_chars, codec_bytes. }
    rewrite Forall_forall in Hc. destruct (Hc 34 Hin) as (d & Hd & E). revert E.
    unfold hexmap. case_match; lia. }
  unfold bitcoind_getBlockByHash. rewrite Hg. unfold mbind, outcome_bind. cbv beta iota.
  assert (∃ y, split_limit ([123; 34] ++ lit "result" ++ [34; 58; 34] ++ EncodeHexBlock b ++ [34] ++ tail)
    34 5 = [[123]; lit "result"; [58]; EncodeHexBlock b; y]) as [y ->].
  { unfold split_limit. cbn [app].
    change (123 :: 34 :: ?s) with ([123] ++ 34 :: s).
    rewrite (split_go_item 34 5 0 [] [123]) by set_solver. cbn [Z.eqb Pos.eqb negb andb Z.add Pos.add].
    rewrite (split_go_item 34 5 1 [] (lit "result"))
      by (apply (bool_decide_unpack _); vm_compute; exact I).
    change (58 :: 34 :: ?s) with ([58] ++ 34 :: s).
    rewrite (split_go_item 34 5 2 [] [58]) by set_solver.
    rewrite (split_go_item 34 5 3 [] (EncodeHexBlock b)) by done.
    assert (∃ y, split_go 34 5 4 [] tail = [y]) as [y Hy].
    { assert (∀ s cur, s ≠ [] ∨ cur ≠ [] → ∃ y, split_go 34 5 4 cur s = [y]) as Hgen.
      { induction s as [|c s IH]; intros cur Hne; simpl.
        - destruct cur; [by destruct Hne|]. eauto.
        - destruct (c =? 34); [eauto|]. apply IH. by right. }
      apply Hgen. by left. }
    exists y. change (if negb (5 =? -1) && (3 + 1 =? 5) then [] else split_go 34 5 (3 + 1) [] tail)
      with (split_go 34 5 4 [] tail). rewrite Hy. reflexivity. }
  cbn [length Nat.eqb negb at_ lookup list_lookup]. unfold mbind, outcome_bind.
  by rewrite DecodeHexBlk_EncodeHexBlock.
Qed.

(** What the window may hold: hashes in range, blocks that bitcoind stores. *)
Definition window_known (v : view) : Prop :=
  -1 ≤ lo v ∧
  ∀ i x, hashes v !! i = Some x →
    in_u 256 x ∧ (0 ≤ lo v + Z.of_nat i → is_Some (store x)).

(** The window holds a block of the best chain (at height -1 it may only be the
    top, since that is no block to return to). *)
Definition window_agrees (v : view) : Prop :=
  ∃ i, hashes v !! i = Some (best_hash best (lo v + Z.of_nat i)) ∧
       (0 ≤ lo v + Z.of_nat i ∨ S i = length (hashes v)).

Lemma agrees_at_top v :
  hashes v ≠ [] → hashes v !! (length (hashes v) - 1)%nat = Some (best_hash best (top v)) →
  top_hash v = best_hash best (top v).
Proof. intros Hne E. rewrite top_hash_lookup in E by done. by injection E. Qed.

(** Below the genesis the two agree by definition. *)
Lemma agrees_below v :
  window_known v → window_agrees v → hashes v ≠ [] → top v = -1 →
  top_hash v = best_hash best (top v).
Proof.
  intros [Hlo _] (i & Hi & _) Hne Ht. pose proof (lookup_lt_Some _ _ _ Hi).
  apply agrees_at_top; [done|]. unfold top in Ht.
  assert (i = length (hashes v) - 1)%nat as <- by lia. rewrite Hi. do 2 f_equal. unfold top. lia.
Qed.

Lemma window_back v :
  window_known v → window_agrees v → hashes v ≠ [] → top_hash v ≠ best_hash best (top v) →
  (2 ≤ length (hashes v))%nat ∧ window_known (back v) ∧ window_agrees (back v) ∧
  0 ≤ top v - 1 ∧ is_Some (store (top_hash (back v))).
Proof.
  intros [Hlo Hk] (i & Hi & Hi0) Hne Hneq. pose proof (lookup_lt_Some _ _ _ Hi) as Hil.
  assert (S i ≠ length (hashes v)) as Hni.
  { intros E. apply Hneq, agrees_at_top; [done|].
    replace (length (hashes v) - 1)%nat with i by lia. rewrite Hi. do 2 f_equal. unfold top. lia. }
  destruct Hi0 as [Hi0|]; [|done]. assert (2 ≤ length (hashes v))%nat as H2 by lia.
  destruct (back_facts v H2) as (Eb & El & Et).
  assert (∀ j y, hashes (back v) !! j = Some y → hashes v !! j = Some y) as Hsub.
  { intros j y. rewrite Eb. intros [? ?]%lookup_take_Some. done. }
  assert (window_known (back v)) as Hkb.
  { split; [done|]. intros j y Hj. apply Hk. by apply Hsub. }
  split_and!; [done|done| |unfold top; lia|].
  - exists i. split; [|by left]. rewrite Eb, lookup_take_lt by lia. done.
  - assert (hashes (back v) ≠ []) as Hnb by (intros E; rewrite E in El; simpl in El; lia).
    pose proof (top_hash_lookup _ Hnb) as Htl. apply Hkb in Htl as [_ Hs]. apply Hs.
    change (lo (back v)) with (lo v). lia.
Qed.

(** The way back: it stops at the newest block of the window that is in the
    best chain, having written one record for each step. *)
Lemma sync_back_spec fuel p v :
  files_ok p → shows (chain_ p) v → window_known v → window_agrees v → top v ≤ tip →
  (length (hashes v) < fuel)%nat →
  ∃ p' v' rs, sync_back fuel p = (Done tt, p') ∧ shows (chain_ p') v' ∧
    limit_ (chain_ p') = limit_ (chain_ p) ∧ log0 p' = log0 p ∧ emits rs p p' ∧
    top_hash v' = best_hash best (top v') ∧ -1 ≤ top v' ≤ top v ∧
    steps_by_one (top v) rs ∧ end_height (top v) rs = top v'.
Proof.
  revert p v. induction fuel as [|fuel IH]; intros p v Hf Hv Hk Hag Htip Hfuel; [lia|].
  destruct (shows_cur _ _ Hv) as [Eh Ex]. pose proof Hv as (_ & Hne & _).
  simpl. unfold mbind at 1, M_bind at 1, get at 1. cbv beta iota zeta. rewrite Eh, Ex.
  assert (-1 ≤ top v) as Htop.
  { destruct Hk. unfold top. destruct (hashes v); [done|simpl; lia]. }
  destruct (decide (top_hash v = best_hash best (top v))) as [Hstop|Hneq].
  - exists p, v, []. split_and!; try done; [|by apply emits_nil].
    destruct (Z.eqb_spec (top v) (-1)) as [E1|Hh]; [done|]. rewrite (rpc_hash _ _ _ Hrpc) by lia.
    rewrite (bind_Done (lift_outcome (Done (ToString (BlockHash (best (top v)))))) _ p _ p eq_refl). cbv beta.
    rewrite bool_decide_true; [done|]. rewrite Hstop. unfold best_hash.
    by replace (top v =? -1) with false by lia.
  - destruct (Z.eqb_spec (top v) (-1)) as [E1|Hh].
    { destruct Hneq. by apply agrees_below. }
    destruct (window_back v Hk Hag Hne Hneq) as (H2 & Hkb & Hab & Htb & [b1 Hb1]).
    rewrite (rpc_hash _ _ _ Hrpc) by lia.
    rewrite (bind_Done (lift_outcome (Done (ToString (BlockHash (best (top v)))))) _ p _ p eq_refl). cbv beta.
    rewrite bool_decide_false.
    2:{ intros Heq. apply Hneq. pose proof (rpc_range _ _ _ Hrpc (top v) ltac:(lia)) as Hr.
        unfold best_hash in *. replace (top v =? -1) with false in * by lia.
        apply GetHex_inj; [|done|done]. by apply (proj2 Hk _ _ (top_hash_lookup _ Hne)). }
    destruct (pop_run _ _ Hv H2) as (c1 & Hpop & Hv1 & Hlim1).
    rewrite (bind_Done _ _ _ _ _ (on_chain_Done _ _ _ Hpop)).
    set (p1 := with_chain c1 p) in *. change c1 with (chain_ p1) in Hv1.
    destruct (back_facts v H2) as (_ & El & Et). destruct (shows_cur _ _ Hv1) as [Eh1 Ex1].
    unfold mbind at 1, M_bind at 1, get at 1. cbv beta iota zeta.
    rewrite (shows_size _ _ Hv1), Eh1, Ex1, (getBlockByHash_ok _ _ Hb1).
    destruct (Nat.eqb_spec (length (hashes (back v))) 0); [lia|].
    rewrite (bind_Done (lift_outcome (Done b1)) _ p1 b1 p1 eq_refl). cbv beta.
    destruct (writeLog1_emits (RBlock (top (back v)) b1) p1) as (p2 & Hw & He & Hc & Hl); [done|].
    rewrite (bind_Done (writeLog1Block (top (back v)) b1) _ p1 tt p2 Hw).
    destruct (IH p2 (back v)) as (p' & v' & rs & Hrun & Hs & Hlim' & Hl0 & He' & Hth & Hle & Hst & Hend);
      [apply He | by rewrite Hc | done | done | lia | lia |].
    exists p', v', (RBlock (top (back v)) b1 :: rs). split_and!; try done.
    + by rewrite Hlim', Hc.
    + by rewrite Hl0, Hl.
    + refine (emits_trans [] _ _ p1 _ _ _); [by apply emits_nil|].
      exact (emits_trans [_] _ _ _ _ He He').
    + lia.
    + lia.
    + simpl. split; [lia|done].
Qed.

(** The way forward: bitcoind's blocks, one by one, up to the height asked for. *)
Lemma sync_forward_spec fuel p v H' :
  files_ok p → shows (chain_ p) v → -1 ≤ top v ≤ H' → H' ≤ tip → top_hash v = best_hash best (top v) →
  (Z.to_nat (H' - top v) < fuel)%nat →
  ∃ p' v', sync_forward fuel H' p = (Done tt, p') ∧ shows (chain_ p') v' ∧
    log0 p' = log0 p ∧ top v' = H' ∧ top_hash v' = best_hash best H' ∧
    emits ((λ h, RBlock h (best h)) <$> seqZ (top v + 1) (H' - top v)) p p'.
Proof.
  revert p v. induction fuel as [|fuel IH]; intros p v Hf Hv Hle Htip Hth Hfuel; [lia|].
  destruct (shows_cur _ _ Hv) as [Eh Ex]. pose proof Hv as (_ & _ & Hlim & _).
  simpl. unfold mbind at 1, M_bind at 1, get at 1. cbv beta iota zeta. rewrite Eh, Ex.
  destruct (Z.ltb_spec (top v) H') as [Hlt|Hge]; cbn [negb].
  2:{ assert (top v = H') as <- by lia. exists p, v. rewrite Z.sub_diag.
      split_and!; try done. by apply emits_nil. }
  rewrite (rpc_hash _ _ _ Hrpc) by lia.
  rewrite (bind_Done (lift_outcome (Done (ToString (BlockHash (best (top v + 1)))))) _ p _ p eq_refl). cbv beta.
  rewrite (getBlockByHash_ok _ (best (top v + 1))) by (apply (rpc_best _ _ _ Hrpc); lia).
  rewrite (bind_Done (lift_outcome (Done (best (top v + 1)))) _ p _ p eq_refl). cbv beta.
  rewrite (bind_Done _ _ _ _ _ (assertM_true p _ (bool_decide_eq_true_2 _ eq_refl))).
  pose proof (rpc_link _ _ _ Hrpc (top v) ltac:(lia)) as Hlink. rewrite Hlink, <-Hth.
  rewrite (bind_Done _ _ _ _ _ (assertM_true p _ (Z.eqb_refl _))).
  pose proof (push_spec (chain_ p) v (top v + 1) (BlockHash (best (top v + 1))) (top_hash v) Hv) as Hps.
  unfold Spec.step in Hps. rewrite !Z.eqb_refl in Hps. destruct Hps as (c1 & Hpush & Hv1 & _ & Hl1).
  rewrite (bind_Done _ _ _ _ _ (on_chain_Done _ _ _ Hpush)).
  destruct (forward_top (limit_ (chain_ p)) (BlockHash (best (top v + 1))) v ltac:(lia)) as [Et1 Ex1].
  set (v1 := forward _ _ v) in *. set (p1 := with_chain c1 p).
  destruct (writeLog1_emits (RBlock (top v + 1) (best (top v + 1))) p1) as (p2 & Hw & He & Hc & Hl); [done|].
  rewrite (bind_Done (writeLog1Block (top v + 1) (best (top v + 1))) _ p1 tt p2 Hw).
  destruct (IH p2 v1) as (p' & v' & Hrun & Hs & Hl0 & Ht' & Hx' & He').
  - apply He.
  - by rewrite Hc.
  - lia.
  - done.
  - rewrite Ex1, Et1. unfold best_hash. by replace (top v + 1 =? -1) with false by lia.
  - lia.
  - exists p', v'. split_and!; try done; [by rewrite Hl0, Hl|].
    rewrite (seqZ_cons (top v + 1)) by lia. rewrite fmap_cons.
    refine (emits_trans [] _ _ p1 _ _ _); [by apply emits_nil|].
    refine (emits_trans [_] _ _ _ _ He _).
    rewrite Et1 in He'. by replace (Z.pred (H' - top v)) with (H' - (top v + 1)) by lia.
Qed.

Lemma forward_steps h k :
  0 ≤ k → steps_by_one h ((λ h, RBlock h (best h)) <$> seqZ (h + 1) k) ∧
  end_height h ((λ h, RBlock h (best h)) <$> seqZ (h + 1) k) = h + k.
Proof.
  intros Hk. rewrite <-(Z2Nat.id k Hk). generalize (Z.to_nat k) as j. clear k Hk.
  intros j. revert h. induction j as [|j IH]; intros h; [simpl; split; [done|lia]|].
  rewrite (seqZ_cons (h + 1)) by lia. rewrite fmap_cons. simpl.
  replace (Z.pred (Z.of_nat (S j))) with (Z.of_nat j) by lia. unfold Z.succ.
  destruct (IH (h + 1)) as [H1 H2]. rewrite H2. split; [|lia]. split; [by left|done].
Qed.

Lemma syncBitcoind_spec p v d h0 b0 rest :
  44 ∉ d → 10 ∉ d → block_ok b0 → in_s 32 h0 →
  f_files (log0 p) !! 0 = Some (log_line d TYPE_BLOCK (block_payload h0 b0) ++ 10 :: rest) →
  files_ok p → shows (chain_ p) v → window_known v → window_agrees v →
  top v ≤ h0 → h0 ≤ tip →
  ∃ p' v' rs, syncBitcoind p = (Done tt, p') ∧ shows (chain_ p') v' ∧
    top v' = h0 ∧ top_hash v' = best_hash best h0 ∧ emits rs p p' ∧
    steps_by_one (top v) rs ∧ end_height (top v) rs = h0 ∧
    f_idx (log0 p') = 0 ∧
    f_off (log0 p') = Z.of_nat (length (log_line d TYPE_BLOCK (block_payload h0 b0))) + 1.
Proof.
  intros Hd Hnl Hok Hh Hfile Hf Hv Hk Hag Htop Htip.
  set (line := log_line d TYPE_BLOCK (block_payload h0 b0)) in *.
  assert (first_line (line ++ 10 :: rest) = Some (line, Z.of_nat (length line) + 1)) as Hfl.
  { unfold first_line, split_limit. rewrite (split_go_item 10 1 0 [] line).
    - simpl. rewrite length_app. simpl.
      by replace (Nat.ltb (length line) (length line + S (length rest))) with true
        by (symmetry; apply Nat.ltb_lt; lia).
    - apply log_line_clean; [done|done|]. apply block_payload_clean; [done|by right]. }
  unfold syncBitcoind. unfold mbind at 1, M_bind at 1, get at 1. cbv beta iota.
  rewrite Hfile. cbn [default from_option id]. rewrite Hfl.
  unfold line. rewrite parse_block by done. cbn [fst snd].
  rewrite (bind_Done (lift_outcome (Done tt)) _ p tt p eq_refl).
  change (isBlock (block_item h0 b0)) with true. cbn [negb].
  destruct (getBlock_item h0 b0 Hok) as (l' & Hg & _). rewrite Hg. cbn [fst].
  rewrite (bind_Done (lift_outcome (Done b0)) _ p b0 p eq_refl).
  change (blockHeight_ (block_item h0 b0)) with h0.
  set (p1 := with_log0 {| f_files := f_files (log0 p); f_idx := 0;
                          f_off := Z.of_nat (length (log_line d TYPE_BLOCK (block_payload h0 b0))) + 1 |} p).
  assert (on_log0 (modify (λ r, {| f_files := f_files r; f_idx := 0;
    f_off := Z.of_nat (length (log_line d TYPE_BLOCK (block_payload h0 b0))) + 1 |})) p =
    (Done tt, p1)) as Hset by reflexivity.
  rewrite (bind_Done _ _ _ _ _ Hset).
  pose proof (shows_size _ _ Hv) as Es. pose proof Hv as (_ & Hne & _).
  rewrite Es, (bind_Done _ _ p1 tt p1) by (apply assertM_true; destruct (hashes v); done).
  destruct (sync_back_spec (S (length (hashes v))) p1 v)
    as (p2 & v2 & rs2 & Hrun & Hv2 & _ & Hl2 & He2 & Hth & Hle & Hst & Hend); try done; [lia|lia|].
  rewrite (bind_Done _ _ _ _ _ Hrun). unfold mbind at 1, M_bind at 1, get at 1. cbv beta iota zeta.
  destruct (shows_cur _ _ Hv2) as [-> _]. replace (h0 <? top v2) with false by lia.
  destruct (sync_forward_spec (S (Z.to_nat (h0 - top v2))) p2 v2 h0)
    as (p3 & v3 & Hrun3 & Hv3 & Hl3 & Ht3 & Hx3 & He3); try done; [apply He2|lia|lia|].
  destruct (forward_steps (top v2) (h0 - top v2) ltac:(lia)) as [Hs3 Hn3].
  eexists p3, v3, (rs2 ++ _). split_and!; try done; [| | |by rewrite Hl3, Hl2..].
  - exact (emits_trans [] _ _ p1 _ (emits_nil p p1 Hf eq_refl eq_refl eq_refl) (emits_trans _ _ _ _ _ He2 He3)).
  - apply steps_by_one_app; [done|]. by rewrite Hend.
  - rewrite end_height_app, Hend, Hn3. lia.
Qed.

(** C21 — the synchronisation with bitcoind terminates in the right place.  If
    the window still holds a block of bitcoind's best chain and does not reach
    above the height log0 starts at, then [syncBitcoind] completes: the window's
    top is bitcoind's block at exactly that height, log1 has grown by a series of
    block records that moves one height at a time from the old top to the new
    one, and the log0 cursor stands behind the first line. *)
Theorem sync_reaches_best (p : Log1Producer) (v : view) (d : bytes) (h0 : Z) (b0 : CBlock)
    (rest : bytes) (Hd : 44 ∉ d ∧ 10 ∉ d) (Hok : block_ok b0) (Hh : in_s 32 h0)
    (Hfile : f_files (log0 p) !! 0 = Some (log_line d TYPE_BLOCK (block_payload h0 b0) ++ 10 :: rest))
    (Hf : files_ok p) (Hv : shows (chain_ p) v) (Hk : window_known v) (Hag : window_agrees v)
    (Htop : top v ≤ h0 ≤ tip) :
  ∃ p' rs, syncBitcoind p = (Done tt, p') ∧
    getCurHeight (chain_ p') = h0 ∧ getCurHash (chain_ p') = best_hash best h0 ∧
    emits rs p p' ∧ steps_by_one (top v) rs ∧ end_height (top v) rs = h0 ∧
    f_idx (log0 p') = 0 ∧
    f_off (log0 p') = Z.of_nat (length (log_line d TYPE_BLOCK (block_payload h0 b0))) + 1.
Proof.
  destruct Hd, Htop.
  destruct (syncBitcoind_spec p v d h0 b0 rest) as (p' & v' & rs & Hrun & Hs & Ht & Hx & ?); try done.
  destruct (shows_cur _ _ Hs) as [Eh Ex]. exists p', rs. rewrite Eh, Ex, Ht, Hx. done.
Qed.
End sync.
End producer.

(** ** Witnesses *)
Module Wit.
#[local] Existing Instance Demo.hashing.
Definition date (t : nat) : bytes := [50; 48] ++ fmt_u (Z.of_nat t).

(** a pool transaction and a block, read from log0 *)
Definition p0 : Log1Producer :=
  {| log1Files := ∅; log1FileIndex_ := -1; log1FileHandler_ := false;
     chain_ := {| limit_ := 4032; blocks_ := list_to_map (heights 399999 [77]) |};
     log0 := {| f_files := {[0 := log_line [50] 2 (tx_payload w_tx) ++
                                  10 :: log_line [50] 1 (block_payload 400000 w_block) ++ [10; 50]]};
                f_idx := 0; f_off := 0 |};
     log0BeginFile := []; log0BeginTime := 5; log1BeginFile := [];
     log0BeginFileLastModifyTime_ := 5; log0StatusFile := None; ticks := 0 |}.

(** a chain of four blocks, and a stale block at height 2 *)
Definition best (h : Z) : CBlock := Demo.block (100 + h) (if h =? 0 then 0 else 99 + h) 0 [].
Definition stale : CBlock := Demo.block 200 101 0 [].
Definition store (x : uint256) : option CBlock :=
  if (100 <=? x) && (x <=? 103) then Some (best (x - 100))
  else if x =? 200 then Some stale else None.
Definition getblockhash (h : Z) : outcome bytes := Done (ToString (100 + h)).
Definition getblock (s : bytes) : outcome bytes :=
  match store (SetHex s) with
  | Some b => Done ([123; 34] ++ lit "result" ++ [34; 58; 34] ++ EncodeHexBlock b ++ [34] ++ [125])
  | None => Raise (Throw "rpc")
  end.

Definition p1 : Log1Producer :=
  {| log1Files := ∅; log1FileIndex_ := -1; log1FileHandler_ := false;
     chain_ := {| limit_ := 4032; blocks_ := list_to_map (heights 0 [100; 101; 200]) |};
     log0 := {| f_files := {[0 := log_line [50] 1 (block_payload 3 (best 3)) ++ [10]]};
                f_idx := 7; f_off := 9 |};
     log0BeginFile := [1]; log0BeginTime := 5; log1BeginFile := [];
     log0BeginFileLastModifyTime_ := 5; log0StatusFile := None; ticks := 0 |}.

Lemma demo_block_ok n prev : in_u 32 n → in_u 256 prev → block_ok (Demo.block n prev 0 []).
Proof.
  intros Hn Hp. split; [|split; [constructor|unfold MAX_SIZE; simpl; lia]].
  unfold header_ok, in_u, in_s in *. simpl. lia.
Qed.

Lemma rpc_demo : rpc_ok getblockhash getblock best 3 store.
Proof.
  assert (∀ x b, store x = Some b → in_u 256 x ∧ block_ok b ∧ BlockHash b = x) as Hst.
  { intros x b. unfold store.
    destruct (Z.leb_spec 100 x); [destruct (Z.leb_spec x 103)|]; simpl.
    2,3: destruct (Z.eqb_spec x 200) as [->|]; [intros [= <-]|discriminate];
      split_and!; [unfold in_u; lia | apply demo_block_ok; unfold in_u; lia | done].
    intros [= <-]. split_and!; [unfold in_u; lia | | simpl; lia].
    apply demo_block_ok; unfold in_u; [lia|]. case_match; lia. }
  constructor.
  - done.
  - intros x b Hx. destruct (Hst x b Hx) as (Hu & Hok & Hh). split_and!; [done|done|].
    exists [125]. split; [done|]. unfold getblock.
    rewrite <-(app_nil_r (ToString x)), SetHex_GetHex by done. by rewrite Hx.
  - intros h Hh. unfold store. cbn [BlockHash Demo.hashing best Demo.block header nNonce].
    replace (100 <=? 100 + h) with true by lia. replace (100 + h <=? 103) with true by lia.
    simpl. do 2 f_equal. lia.
  - intros h Hh. unfold best, best_hash. simpl.
    destruct (Z.eqb_spec h (-1)) as [->|]; [done|]. replace (h + 1 =? 0) with false by lia.
    simpl. lia.
  - intros h Hh. unfold best_hash, in_u. destruct (Z.eqb_spec h (-1)); [lia|]. simpl. lia.
Qed.
End Wit.

Lemma run_copies_witness :
  let run := run_once (H := Demo.hashing) Wit.date 50 72 Wit.p0 in
  fst run = Done false ∧ getCurHash (chain_ (snd run)) = 12345.
Proof.
  pose proof (run_copies (H := Demo.hashing) Wit.date 50 72 Wit.p0
    (snd (tryReadLog0 72 Wit.p0)) {| lo := 399999; hashes := [77] |}
    [log_line [50] 2 (tx_payload (H := Demo.hashing) w_tx);
     log_line [50] 1 (block_payload (H := Demo.hashing) 400000 w_block)]
    [RTx 2 w_tx; RBlock 400000 w_block]) as Hc.
  assert (accepted (H := Demo.hashing) 4032 {| lo := 399999; hashes := [77] |}
    [RTx 2 w_tx; RBlock 400000 w_block] =
    ([RTx 2 w_tx; RBlock 400000 w_block], {| lo := 399999; hashes := [77; 12345] |}, true)) as Ea
    by reflexivity.
  change (limit_ (chain_ Wit.p0)) with 4032 in Hc. rewrite Ea in Hc.
  destruct Hc as (q & Hs & _ & _ & Hrun & _).
  - split; [done|]. intros k [x Hk]. simpl in Hk. by rewrite lookup_empty in Hk.
  - split_and!; [reflexivity | done | simpl; lia..].
  - vm_compute. reflexivity.
  - done.
  - constructor; [|constructor; [|constructor]]; exists [50];
      (split; [apply (bool_decide_unpack _); vm_compute; exact I|]).
    + split; [split; [by left | apply w_tx_ok] | reflexivity].
    + split; [split; [apply w_block_ok | unfold in_s; simpl; lia] | reflexivity].
  - intros Hin. rewrite !elem_of_cons, elem_of_nil in Hin. naive_solver.
  - cbv zeta. rewrite Hrun. cbn [fst snd]. split; [done|]. exact (proj2 (shows_cur _ _ Hs)).
Defined.

Lemma sync_reaches_best_witness :
  ∃ p', syncBitcoind (H := Demo.hashing) Wit.date 50 Wit.getblockhash Wit.getblock Wit.p1 =
          (Done tt, p') ∧
        getCurHeight (chain_ p') = 3 ∧ getCurHash (chain_ p') = 103.
Proof.
  destruct (sync_reaches_best (H := Demo.hashing) Wit.date 50 Wit.getblockhash Wit.getblock
    Wit.best 3 Wit.store Wit.rpc_demo Wit.p1 {| lo := 0; hashes := [100; 101; 200] |}
    [50] 3 (Wit.best 3) []) as (p' & rs & Hrun & Hh & Hx & _).
  - split; apply (bool_decide_unpack _); vm_compute; exact I.
  - by apply Wit.demo_block_ok.
  - unfold in_s. simpl. lia.
  - reflexivity.
  - split; [done|]. intros k [x Hk]. simpl in Hk. by rewrite lookup_empty in Hk.
  - split_and!; [reflexivity | done | simpl; lia..].
  - split; [done|]. intros [|[|[|i]]] x Hx; simpl in Hx; simplify_eq;
      (split; [unfold in_u; lia | intros _; by eexists]).
  - exists 1%nat. split; [reflexivity|]. left. simpl. lia.
  - unfold top. simpl. lia.
  - exists p'. split; [exact Hrun|]. split; [exact Hh|exact Hx].
Defined.
