(* ===== verification/BlockTs.v ===== *)
(** * The block time window of log2producer (Log2Producer.{h,cc}, class BlockTimestamp)

    The largest time stamp of the recent blocks, kept next to a window of the
    last [limit] time stamps so that it can be recomputed on a rollback. *)
From S2P Require Import Prelude.

Record BlockTimestamp := {
  ts_limit_ : Z;
  currMax_ : Z;
  blkTimestamps_ : gmap Z Z }.

Definition newBlockTimestamp (limit : Z) : BlockTimestamp :=
  {| ts_limit_ := limit; currMax_ := 0; blkTimestamps_ := ∅ |}.

Definition getMaxTimestamp (s : BlockTimestamp) : Z := currMax_ s.

Definition pushBlock (height ts : Z) : M BlockTimestamp unit :=
  s ← get;
  assertM (bool_decide (blkTimestamps_ s !! height = None)) ;;
  let m := <[height := ts]> (blkTimestamps_ s) in
  modify (λ s,
    {| ts_limit_ := ts_limit_ s;
       currMax_ := if currMax_ s <? ts then ts else currMax_ s;
       blkTimestamps_ := trim_first (size m) (ts_limit_ s) m |}).

Definition popBlock : M BlockTimestamp unit :=
  s ← get;
  assertM (negb (Nat.eqb (size (blkTimestamps_ s)) 0)) ;;
  let m := erase_last (blkTimestamps_ s) in
  modify (λ s,
    {| ts_limit_ := ts_limit_ s;
       currMax_ := foldl (λ cur it, if cur <? it.2 then it.2 else cur) 0 (zitems m);
       blkTimestamps_ := m |}).

(** ** What the maximum means *)

(** the maximum of the stored time stamps (zero when there is none) *)
Definition window_max (m : gmap Z Z) : Z :=
  foldl (λ cur it, if cur <? it.2 then it.2 else cur) 0 (zitems m).

Section block_ts.
Implicit Types s : BlockTimestamp.

Lemma foldl_max_ge (l : list (Z * Z)) (a : Z) :
  let r := foldl (λ cur it, if cur <? it.2 then it.2 else cur) a l in
  a ≤ r ∧ Forall (λ it, it.2 ≤ r) l ∧ (r = a ∨ r ∈ l.*2).
Proof.
  revert a. induction l as [|[k x] l IH]; intros a; simpl; [split_and!; [lia|constructor|by left]|].
  destruct (IH (if a <? x then x else a)) as (H1 & H2 & H3). simpl in *.
  set (r := foldl _ _ l) in *.
  destruct (Z.ltb_spec a x); split_and!; try lia; try (constructor; [simpl; lia | done]).
  - right. rewrite elem_of_cons. destruct H3; [by left | by right].
  - destruct H3 as [->|]; [by left | right; by apply elem_of_cons; right].
Qed.

Lemma window_max_ge m h t : m !! h = Some t → t ≤ window_max m.
Proof.
  intros Hm. destruct (foldl_max_ge (zitems m) 0) as (_ & Hf & _).
  rewrite Forall_forall in Hf. apply (Hf (h, t)). by apply elem_of_map_items.
Qed.

Lemma window_max_insert m h t :
  (∀ k, is_Some (m !! k) → k < h) →
  window_max (<[h := t]> m) = if window_max m <? t then t else window_max m.
Proof. intros Hmax. unfold window_max. by rewrite zitems_insert_max, foldl_app. Qed.

(** The maximum is an upper bound of the window, and is attained by some
    block accepted so far. *)
Definition bounded s : Prop :=
  0 ≤ currMax_ s ∧ ∀ h t, blkTimestamps_ s !! h = Some t → t ≤ currMax_ s.
(** It is the window's own maximum. *)
Definition exact_max s : Prop := currMax_ s = window_max (blkTimestamps_ s).

Lemma pushBlock_bounded h t s u s' :
  pushBlock h t s = (Done u, s') → bounded s →
  bounded s' ∧ currMax_ s' = Z.max (currMax_ s) t.
Proof.
  unfold pushBlock. intros Hr [H0 Hb]. minv. simpl in *.
  assert ((if currMax_ s <? t then t else currMax_ s) = Z.max (currMax_ s) t) as E
    by (destruct (Z.ltb_spec (currMax_ s) t); lia).
  split; [|done]. split; simpl; [lia|]. intros h' t' Hl. rewrite E.
  eapply lookup_weaken in Hl; [|apply trim_first_subseteq].
  rewrite lookup_insert in Hl. case_decide; simplify_eq; [lia|]. apply Hb in Hl. lia.
Qed.

Lemma popBlock_exact s u s' :
  popBlock s = (Done u, s') → exact_max s' ∧ bounded s'.
Proof.
  unfold popBlock. intros Hr. minv. split; [done|]. split; simpl.
  - by destruct (foldl_max_ge (zitems (erase_last (blkTimestamps_ s))) 0) as (? & _).
  - intros h t Hl. by apply window_max_ge in Hl.
Qed.

Lemma pop_push s h t :
  exact_max s → (∀ k, is_Some (blkTimestamps_ s !! k) → k < h) →
  Z.of_nat (size (blkTimestamps_ s)) < ts_limit_ s < 2 ^ 64 →
  (pushBlock h t ;; popBlock) s = (Done tt, s).
Proof.
  intros Hex Hmax Hsz.
  assert (blkTimestamps_ s !! h = None) as Hn.
  { destruct (blkTimestamps_ s !! h) eqn:E; [|done]. assert (h < h) by (apply Hmax; eauto). lia. }
  unfold pushBlock, popBlock, mbind, M_bind, get, modify.
  rewrite bool_decide_true by done. simpl.
  assert (size (<[h:=t]> (blkTimestamps_ s)) = S (size (blkTimestamps_ s))) as Es
    by by apply map_size_insert_None.
  rewrite trim_first_small by (rewrite Es; rewrite wrapU_id; unfold in_u; lia).
  rewrite Es. simpl. rewrite erase_last_insert_max by done.
  change (foldl _ 0 (zitems (blkTimestamps_ s))) with (window_max (blkTimestamps_ s)).
  rewrite <-Hex. by destruct s.
Qed.
End block_ts.

(** ** The top of the window *)
Section top.
Implicit Types (b : BlockTimestamp) (m : gmap Z Z).

(** Trimming never takes the highest entry. *)
Lemma erase_first_top m h x :
  m !! h = Some x → (∀ k, is_Some (m !! k) → k ≤ h) → (1 < size m)%nat → erase_first m !! h = Some x.
Proof.
  intros Hh Hmax Hs. unfold erase_first.
  assert (zitems m = zitems (delete h m) ++ [(h, x)]) as E.
  { rewrite <-(zitems_insert_top m h x Hmax). by rewrite insert_id. }
  rewrite E. destruct (zitems (delete h m)) as [|[k y] its] eqn:Ed.
  - assert (length (zitems m) = size m) as El.
    { rewrite (Permutation_length (map_items_perm Z.le m)). apply length_map_to_list. }
    rewrite E in El. cbn in El. lia.
  - cbn [app]. assert (delete h m !! k = Some y) as Hk by (apply (elem_of_map_items Z.le); rewrite Ed; left).
    apply lookup_delete_Some in Hk as [Hne _]. by rewrite lookup_delete_ne.
Qed.

Lemma trim_first_top fuel limit m h x :
  0 < limit < 2 ^ 64 → m !! h = Some x → (∀ k, is_Some (m !! k) → k ≤ h) → trim_first fuel limit m !! h = Some x.
Proof.
  intros Hl. revert m. induction fuel as [|fuel IH]; intros m Hh Hmax; cbn [trim_first]; [done|].
  rewrite wrapU_id by (unfold in_u; lia). destruct (Z.ltb_spec limit (Z.of_nat (size m))) as [Hs|_]; [|done].
  apply IH; [apply erase_first_top; [done|done|lia]|]. intros k [y Hk]. apply Hmax. exists y.
  eapply lookup_weaken; [done|]. apply erase_first_subseteq.
Qed.

(** A push above the window: the new entry is the top, trimming may drop others. *)
Lemma push_window h t b :
  (∀ k, is_Some (blkTimestamps_ b !! k) → k < h) → 0 < ts_limit_ b < 2 ^ 64 →
  ∃ b', pushBlock h t b = (Done tt, b') ∧ blkTimestamps_ b' ⊆ <[h := t]> (blkTimestamps_ b) ∧
    blkTimestamps_ b' !! h = Some t ∧ ts_limit_ b' = ts_limit_ b ∧
    getMaxTimestamp b' = Z.max (getMaxTimestamp b) t.
Proof.
  intros Hlt Hlim. unfold pushBlock. rewrite (bind_Done get _ b b b eq_refl).
  rewrite bool_decide_true by (destruct (blkTimestamps_ b !! h) eqn:E; [|done]; specialize (Hlt h (ex_intro _ _ E)); lia).
  rewrite (bind_Done (assertM true) _ b tt b eq_refl). eexists. split; [reflexivity|].
  cbn [blkTimestamps_ ts_limit_]. unfold getMaxTimestamp. cbn [currMax_]. split_and!.
  - apply trim_first_subseteq.
  - apply trim_first_top; [done|apply lookup_insert_eq|]. intros k. rewrite lookup_insert. case_decide; [lia|].
    intros Hk%Hlt. lia.
  - done.
  - destruct (Z.ltb_spec (currMax_ b) t); lia.
Qed.
End top.

(** A block accepted and rolled back again leaves the time stamp window,
    the maximum included, as it was: provided the window is not full (a full
    window drops its oldest stamp for good), the maximum is the window's own and
    the block is the highest.  On every window, full or not, popping leaves the
    window's own maximum, and pushing leaves a bound of every stored stamp. *)
Theorem rollback_restores_time (s : BlockTimestamp) (h t : Z)
    (Hex : exact_max s) (Hmax : ∀ k, is_Some (blkTimestamps_ s !! k) → k < h)
    (Hsz : Z.of_nat (size (blkTimestamps_ s)) < ts_limit_ s < 2 ^ 64) :
  (pushBlock h t ;; popBlock) s = (Done tt, s) ∧
  (∀ h' t' s1, pushBlock h' t' s = (Done tt, s1) →
     bounded s1 ∧ getMaxTimestamp s1 = Z.max (getMaxTimestamp s) t') ∧
  (∀ s1 s2 u, popBlock s1 = (Done u, s2) → exact_max s2 ∧ bounded s2).
Proof.
  split_and!; [by apply pop_push | | intros s1 s2 u; apply popBlock_exact].
  intros h' t' s1 Hp. apply (pushBlock_bounded _ _ _ _ _ Hp).
  unfold bounded. rewrite Hex. split.
  - by destruct (foldl_max_ge (zitems (blkTimestamps_ s)) 0) as (? & _).
  - intros k x. apply window_max_ge.
Qed.

