(* ===== verification/MemRepo.v ===== *)
(** * The unconfirmed transaction pool of log2producer
      (Log2Producer.{h,cc}, classes TxOutputKey and MemTxRepository)

    [txs_] holds the unconfirmed transactions by hash and [spentOutputs_] maps
    every output they spend to the hash of its spender; two sets collect the
    changes that still have to be written to the database. *)
From S2P Require Import Prelude Tx.

Record TxOutputKey := { hash_ : uint256; position_ : Z }.
#[export] Instance TxOutputKey_eq_dec : EqDecision TxOutputKey.
Proof. solve_decision. Defined.
#[export] Instance TxOutputKey_countable : Countable TxOutputKey.
Proof.
  refine (inj_countable' (λ k, (hash_ k, position_ k))
            (λ p, {| hash_ := p.1; position_ := p.2 |}) _).
  by intros [].
Defined.

(** [TxOutputKey out(it.prevout.hash, it.prevout.n)]: the unsigned index
    becomes an [int32_t]. *)
Definition in_key (i : CTxIn) : TxOutputKey :=
  {| hash_ := hash (prevout i); position_ := i32 (n (prevout i)) |}.

Definition tx_keys (tx : CTransaction) : list TxOutputKey := in_key <$> vin tx.

Record MemTxRepository := {
  txs_ : gmap uint256 CTransaction;
  spentOutputs_ : gmap TxOutputKey uint256;
  unSyncTxsDelete_ : gset uint256;
  unSyncTxsInsert_ : gset uint256 }.

Definition emptyRepo : MemTxRepository :=
  {| txs_ := ∅; spentOutputs_ := ∅; unSyncTxsDelete_ := ∅; unSyncTxsInsert_ := ∅ |}.

Definition with_txs (m : gmap uint256 CTransaction) (r : MemTxRepository) :=
  {| txs_ := m; spentOutputs_ := spentOutputs_ r;
     unSyncTxsDelete_ := unSyncTxsDelete_ r; unSyncTxsInsert_ := unSyncTxsInsert_ r |}.
Definition with_spent (m : gmap TxOutputKey uint256) (r : MemTxRepository) :=
  {| txs_ := txs_ r; spentOutputs_ := m;
     unSyncTxsDelete_ := unSyncTxsDelete_ r; unSyncTxsInsert_ := unSyncTxsInsert_ r |}.
Definition with_delete (X : gset uint256) (r : MemTxRepository) :=
  {| txs_ := txs_ r; spentOutputs_ := spentOutputs_ r;
     unSyncTxsDelete_ := X; unSyncTxsInsert_ := unSyncTxsInsert_ r |}.
Definition with_insert (X : gset uint256) (r : MemTxRepository) :=
  {| txs_ := txs_ r; spentOutputs_ := spentOutputs_ r;
     unSyncTxsDelete_ := unSyncTxsDelete_ r; unSyncTxsInsert_ := X |}.

(** [size()] and [isExist()] *)
Definition repo_size (r : MemTxRepository) : nat := size (txs_ r).
Definition isExist (h : uint256) (r : MemTxRepository) : bool :=
  bool_decide (is_Some (txs_ r !! h)).

(** [map::insert]: an existing key keeps its value. *)
Definition map_insert_new {A} (k : TxOutputKey) (v : A) (m : gmap TxOutputKey A) :=
  match m !! k with Some _ => m | None => <[k := v]> m end.

(** [txs_[h]]: the operator inserts a default transaction under a missing key. *)
Definition txs_at (h : uint256) : M MemTxRepository CTransaction := λ r,
  match txs_ r !! h with
  | Some tx => (Done tx, r)
  | None => (Done nullTx, with_txs (<[h := nullTx]> (txs_ r)) r)
  end.

Section ops.
Context `{Hashing}.
Implicit Types (tx : CTransaction) (h : uint256) (r : MemTxRepository).

(** [addTx]: refuse a known transaction, refuse a double spend, else record it. *)
Definition addTx tx : M MemTxRepository bool :=
  assertM (negb (IsCoinBase tx)) ;;
  let txhash := TxHash tx in
  r ← get;
  if isExist txhash r then mret false
  else if existsb (λ k, bool_decide (is_Some (spentOutputs_ r !! k))) (tx_keys tx)
  then mret false
  else
    modify (λ r, with_spent
      (foldl (λ m k, map_insert_new k txhash m) (spentOutputs_ r) (tx_keys tx)) r) ;;
    modify (λ r, with_txs (<[txhash := tx]> (txs_ r)) r) ;;
    modify (λ r, with_insert ({[txhash]} ∪ unSyncTxsInsert_ r) r) ;;
    mret true.

(** The first output [i, i+1, ...] (of [k] outputs) of [txhash] that a pool
    transaction spends: the loop of [getSpentEndTx]. *)
Fixpoint first_spender r (txhash : uint256) (i : Z) (k : nat) : option uint256 :=
  match k with
  | O => None
  | S k =>
      match spentOutputs_ r !! {| hash_ := txhash; position_ := i |} with
      | Some c => Some c
      | None => first_spender r txhash (i + 1) k
      end
  end.

(** [getSpentEndTx]: follow the first spent output of each transaction to a
    transaction with no spent output.  The recursion follows the program's;
    a chain longer than the pool can only be a cycle and never ends. *)
Fixpoint getSpentEndTx_loop (fuel : nat) tx : M MemTxRepository uint256 :=
  match fuel with
  | O => raise Diverge
  | S fuel =>
      let txhash := TxHash tx in
      r ← get;
      match first_spender r txhash 0 (length (vout tx)) with
      | None => mret txhash
      | Some c => child ← txs_at c; getSpentEndTx_loop fuel child
      end
  end.
Definition getSpentEndTx tx : M MemTxRepository uint256 := λ r,
  getSpentEndTx_loop (S (S (repo_size r))) tx r.

(** [getConflictTx]: the end of the chain that starts with the first pool
    transaction spending one of [tx]'s inputs. *)
Fixpoint getConflictTx_loop tx (keys : list TxOutputKey) : M MemTxRepository uint256 :=
  match keys with
  | [] => mret (TxHash tx)
  | k :: keys =>
      r ← get;
      match spentOutputs_ r !! k with
      | None => getConflictTx_loop tx keys
      | Some spentTxHash =>
          if spentTxHash =? TxHash tx
          then raise (Throw "spentTxHash is equal to tx.GetHash()")
          else spender ← txs_at spentTxHash; getSpentEndTx spender
      end
  end.
Definition getConflictTx tx : M MemTxRepository uint256 := getConflictTx_loop tx (tx_keys tx).

(** [removeTx(hash)] *)
Definition removeTx h : M MemTxRepository unit :=
  r ← get;
  match txs_ r !! h with
  | None => raise (Throw "tx not in memrepo")
  | Some tx =>
      forM (tx_keys tx) (λ k,
        r ← get;
        assertM (bool_decide (is_Some (spentOutputs_ r !! k))) ;;
        modify (with_spent (delete k (spentOutputs_ r)))) ;;
      modify (λ r, with_txs (delete h (txs_ r)) r) ;;
      modify (λ r, with_delete ({[h]} ∪ unSyncTxsDelete_ r) r)
  end.

Definition removeTxs (hashes : list uint256) : M MemTxRepository unit := forM hashes removeTx.

(** [removeTx()]: remove an end of the chain hanging off the last transaction. *)
Definition removeTx_any : M MemTxRepository uint256 :=
  r ← get;
  assertM (negb (Nat.eqb (repo_size r) 0)) ;;
  match last (zitems (txs_ r)) with
  | None => raise Undefined
  | Some (_, tx) =>
      txHash ← getSpentEndTx tx;
      removeTx txHash ;;
      mret txHash
  end.

(** [removeTxAndChildTx]: peel ends off until the transaction itself goes. *)
Fixpoint removeTxAndChildTx_loop (fuel : nat) tx : M MemTxRepository (list uint256) :=
  match fuel with
  | O => raise Diverge
  | S fuel =>
      removeTxhash ← getSpentEndTx tx;
      removeTx removeTxhash ;;
      if TxHash tx =? removeTxhash then mret [removeTxhash]
      else rest ← removeTxAndChildTx_loop fuel tx; mret (removeTxhash :: rest)
  end.
Definition removeTxAndChildTx tx : M MemTxRepository (list uint256) := λ r,
  removeTxAndChildTx_loop (S (repo_size r)) tx r.

Definition ignoreUnsyncData : M MemTxRepository unit :=
  modify (λ r, with_delete ∅ (with_insert ∅ r)).
End ops.

(** ** The pool invariant *)
Section invariant.
Context `{Hashing}.
Implicit Types (tx : CTransaction) (h c p : uint256) (r : MemTxRepository).

(** Every transaction is stored under its hash, none is a coinbase or spends an
    output twice, and [spentOutputs_] is exactly the spender relation. *)
Record repo_ok r : Prop := {
  ok_hash h tx : txs_ r !! h = Some tx → TxHash tx = h;
  ok_input h tx : txs_ r !! h = Some tx → IsCoinBase tx = false ∧ NoDup (tx_keys tx);
  ok_spent k h : spentOutputs_ r !! k = Some h ↔
                 ∃ tx, txs_ r !! h = Some tx ∧ k ∈ tx_keys tx }.

(** A transaction hash commits to the hashes it spends, so no set of
    transactions spends in a circle; [rank] witnesses that order. *)
Definition ranked (rank : uint256 → nat) tx : Prop :=
  ∀ k, k ∈ tx_keys tx → (rank (hash_ k) < rank (TxHash tx))%nat.
Definition all_ranked rank r : Prop := ∀ h tx, txs_ r !! h = Some tx → ranked rank tx.

(** [c] spends an output of [tx]; [p]'s children in the pool; [h] has none. *)
Definition spends r tx c : Prop := ∃ j,
  0 ≤ j < Z.of_nat (length (vout tx)) ∧
  spentOutputs_ r !! {| hash_ := TxHash tx; position_ := j |} = Some c.
Definition child r p c : Prop := ∃ tx, txs_ r !! p = Some tx ∧ spends r tx c.
Definition is_end r h : Prop := ∃ tx, txs_ r !! h = Some tx ∧ ∀ c, ¬ spends r tx c.
Definition conflicting r tx h : Prop := ∃ k, k ∈ tx_keys tx ∧ spentOutputs_ r !! k = Some h.

Lemma spends_in_pool r tx c : repo_ok r → spends r tx c → ∃ ctx, txs_ r !! c = Some ctx.
Proof. intros Hok (j & _ & Hs). apply (ok_spent _ Hok) in Hs as (ctx & ? & _). eauto. Qed.

Lemma child_in_pool r p c : repo_ok r → child r p c → ∃ ctx, txs_ r !! c = Some ctx.
Proof. intros Hok (tx & _ & Hs). by eapply spends_in_pool. Qed.

Lemma rtc_child_in_pool r p c :
  repo_ok r → is_Some (txs_ r !! p) → rtc (child r) p c → is_Some (txs_ r !! c).
Proof.
  intros Hok Hp. induction 1 as [|p x c Hpx _ IH]; [done|]. apply IH.
  destruct (child_in_pool _ _ _ Hok Hpx). eauto.
Qed.

Lemma emptyRepo_ok : repo_ok emptyRepo.
Proof.
  constructor; intros; simpl in *; [set_solver..|].
  split; [by rewrite lookup_empty | intros (tx & Ht & _)]. by rewrite lookup_empty in Ht.
Qed.

(** *** [addTx] *)

Lemma lookup_fold_insert_new {A} (v : A) keys m k :
  foldl (λ m k, map_insert_new k v m) m keys !! k =
  match m !! k with
  | Some x => Some x
  | None => if bool_decide (k ∈ keys) then Some v else None
  end.
Proof.
  revert m. induction keys as [|k' keys IH]; intros m; simpl; [by destruct (m !! k)|].
  rewrite IH. unfold map_insert_new. destruct (m !! k') as [x|] eqn:E.
  - destruct (m !! k) eqn:Ek; [done|]. repeat case_bool_decide; try done; set_solver.
  - destruct (decide (k' = k)) as [->|].
    + by rewrite lookup_insert_eq, E, bool_decide_true by set_solver.
    + rewrite lookup_insert_ne by done. destruct (m !! k); [done|].
      repeat case_bool_decide; try done; set_solver.
Qed.

Definition repo_add tx r : MemTxRepository :=
  {| txs_ := <[TxHash tx := tx]> (txs_ r);
     spentOutputs_ :=
       foldl (λ m k, map_insert_new k (TxHash tx) m) (spentOutputs_ r) (tx_keys tx);
     unSyncTxsDelete_ := unSyncTxsDelete_ r;
     unSyncTxsInsert_ := {[TxHash tx]} ∪ unSyncTxsInsert_ r |}.

Lemma conflict_exists r tx :
  existsb (λ k, bool_decide (is_Some (spentOutputs_ r !! k))) (tx_keys tx) = true ↔
  ∃ h, conflicting r tx h.
Proof.
  rewrite existsb_exists. split.
  - intros (k & Hk & Hs). apply bool_decide_eq_true in Hs as [h Hh].
    apply list_elem_of_In in Hk. exists h, k. done.
  - intros (h & k & Hk & Hh). exists k. split; [by apply list_elem_of_In|].
    apply bool_decide_eq_true. eauto.
Qed.

Lemma addTx_known tx r :
  IsCoinBase tx = false → is_Some (txs_ r !! TxHash tx) → addTx tx r = (Done false, r).
Proof.
  intros Hc Hin. unfold addTx, isExist, mbind, M_bind, get. rewrite Hc. simpl.
  by rewrite bool_decide_true.
Qed.

Lemma addTx_conflict tx h r :
  IsCoinBase tx = false → conflicting r tx h → addTx tx r = (Done false, r).
Proof.
  intros Hc Hcf. unfold addTx, isExist, mbind, M_bind, get. rewrite Hc. simpl.
  case_bool_decide; [done|]. by rewrite (proj2 (conflict_exists r tx)) by eauto.
Qed.

Lemma addTx_fresh tx r :
  IsCoinBase tx = false → txs_ r !! TxHash tx = None → (∀ h, ¬ conflicting r tx h) →
  addTx tx r = (Done true, repo_add tx r).
Proof.
  intros Hc Hn Hcf.
  assert (existsb (λ k, bool_decide (is_Some (spentOutputs_ r !! k))) (tx_keys tx) = false) as E.
  { apply not_true_is_false. intros [h Hh]%conflict_exists. by destruct (Hcf h). }
  unfold addTx, isExist, mbind, M_bind, get. rewrite Hc. simpl.
  rewrite bool_decide_false by (rewrite Hn; by intros [? [=]]). by rewrite E.
Qed.

(** The three cases are exhaustive. *)
Lemma addTx_cases tx r b r' :
  addTx tx r = (Done b, r') →
  IsCoinBase tx = false ∧
  if b then txs_ r !! TxHash tx = None ∧ (∀ h, ¬ conflicting r tx h) ∧ r' = repo_add tx r
  else r' = r ∧ (is_Some (txs_ r !! TxHash tx) ∨ ∃ h, conflicting r tx h).
Proof.
  intros Hr. destruct (IsCoinBase tx) eqn:Hc.
  { unfold addTx in Hr. rewrite Hc in Hr. discriminate. }
  split; [done|].
  destruct (txs_ r !! TxHash tx) as [tx'|] eqn:Hin.
  { rewrite addTx_known in Hr by eauto. simplify_eq. eauto. }
  destruct (existsb (λ k, bool_decide (is_Some (spentOutputs_ r !! k))) (tx_keys tx)) eqn:E.
  - apply conflict_exists in E as [h Hh]. rewrite (addTx_conflict _ h) in Hr by done.
    simplify_eq. eauto.
  - assert (∀ h, ¬ conflicting r tx h) as Hcf.
    { intros h Hh. rewrite (proj2 (conflict_exists r tx)) in E by eauto. done. }
    rewrite addTx_fresh in Hr by done. by simplify_eq.
Qed.

Lemma repo_add_spent tx r k :
  (∀ h, ¬ conflicting r tx h) →
  spentOutputs_ (repo_add tx r) !! k =
    if bool_decide (k ∈ tx_keys tx) then Some (TxHash tx) else spentOutputs_ r !! k.
Proof.
  intros Hcf. simpl. rewrite lookup_fold_insert_new.
  destruct (spentOutputs_ r !! k) as [h|] eqn:E; case_bool_decide; try done.
  destruct (Hcf h). by exists k.
Qed.

Lemma repo_add_ok tx r :
  repo_ok r → IsCoinBase tx = false → NoDup (tx_keys tx) →
  txs_ r !! TxHash tx = None → (∀ h, ¬ conflicting r tx h) → repo_ok (repo_add tx r).
Proof.
  intros Hok Hc Hnd Hn Hcf. constructor.
  - intros h t. simpl. rewrite lookup_insert. case_decide; [naive_solver|]. apply (ok_hash _ Hok).
  - intros h t. simpl. rewrite lookup_insert. case_decide; [naive_solver|]. apply (ok_input _ Hok).
  - intros k h. rewrite repo_add_spent by done. simpl. case_bool_decide as Hk.
    + split; [intros [= <-]; exists tx; by rewrite lookup_insert_eq|].
      intros (t & Ht & Hkt). rewrite lookup_insert in Ht. case_decide; [by subst|].
      destruct (Hcf h). exists k. split; [done|]. apply (ok_spent _ Hok). eauto.
    + rewrite (ok_spent _ Hok). split; intros (t & Ht & Hkt); exists t; split; try done.
      * rewrite lookup_insert_ne; [done|]. intros <-. congruence.
      * rewrite lookup_insert in Ht. case_decide; [naive_solver | done].
Qed.

Lemma repo_add_ranked rank tx r :
  all_ranked rank r → ranked rank tx → all_ranked rank (repo_add tx r).
Proof.
  intros Hr Ht h t. simpl. rewrite lookup_insert. case_decide; [naive_solver|]. apply Hr.
Qed.

(** *** [removeTx] *)

Definition del_keys (keys : list TxOutputKey) (m : gmap TxOutputKey uint256) :=
  foldl (λ m k, delete k m) m keys.

Definition repo_del h tx r : MemTxRepository :=
  {| txs_ := delete h (txs_ r);
     spentOutputs_ := del_keys (tx_keys tx) (spentOutputs_ r);
     unSyncTxsDelete_ := {[h]} ∪ unSyncTxsDelete_ r;
     unSyncTxsInsert_ := unSyncTxsInsert_ r |}.

Lemma lookup_del_keys keys m k :
  del_keys keys m !! k = if bool_decide (k ∈ keys) then None else m !! k.
Proof.
  unfold del_keys. revert m. induction keys as [|k' keys IH]; intros m; simpl; [done|].
  rewrite IH, lookup_delete. repeat case_bool_decide; repeat case_decide; try done; set_solver.
Qed.

Lemma removeTx_run h tx r :
  repo_ok r → txs_ r !! h = Some tx → removeTx h r = (Done tt, repo_del h tx r).
Proof.
  intros Hok Ht.
  destruct (forM_ind
    (λ done r', r' = with_spent (del_keys done (spentOutputs_ r)) r)
    (λ k, r ← get; assertM (bool_decide (is_Some (spentOutputs_ r !! k))) ;;
      modify (with_spent (delete k (spentOutputs_ r)))) (tx_keys tx) r)
    as (r' & Hrun & ->).
  - by destruct r.
  - intros l1 k l2 r1 Hl ->. eexists. split.
    + unfold mbind, M_bind, get, modify. cbv beta zeta iota.
      rewrite assertM_true; [reflexivity|]. apply bool_decide_eq_true. simpl.
      rewrite lookup_del_keys.
      destruct (ok_input _ Hok _ _ Ht) as [_ Hnd]. rewrite Hl in Hnd.
      rewrite bool_decide_false.
      * exists h. apply (ok_spent _ Hok). exists tx. split; [done|]. rewrite Hl. set_solver.
      * apply NoDup_app in Hnd as (_ & Hnd & _). set_solver.
    + unfold del_keys. by rewrite foldl_app.
  - unfold removeTx, mbind, M_bind, get. cbv beta zeta iota. rewrite Ht.
    match goal with |- context [forM ?l ?f r] => change (forM l f r) with
      (forM (tx_keys tx) (λ k, r ← get; assertM (bool_decide (is_Some (spentOutputs_ r !! k))) ;;
        modify (with_spent (delete k (spentOutputs_ r)))) r) end.
    rewrite Hrun. done.
Qed.

Lemma removeTx_absent h r :
  txs_ r !! h = None → removeTx h r = (Raise (Throw "tx not in memrepo"), r).
Proof. intros Ht. unfold removeTx, mbind, M_bind, get. by rewrite Ht. Qed.

Lemma repo_del_ok h tx r : repo_ok r → txs_ r !! h = Some tx → repo_ok (repo_del h tx r).
Proof.
  intros Hok Ht. constructor; simpl.
  - intros h' t [_ Ht']%lookup_delete_Some. by apply (ok_hash _ Hok).
  - intros h' t [_ Ht']%lookup_delete_Some. by apply (ok_input _ Hok _ _ Ht').
  - intros k h'. rewrite lookup_del_keys. case_bool_decide as Hk.
    + split; [done|]. intros (t & [Hne Ht']%lookup_delete_Some & Hkt).
      assert (spentOutputs_ r !! k = Some h) by (apply (ok_spent _ Hok); eauto).
      assert (spentOutputs_ r !! k = Some h') by (apply (ok_spent _ Hok); eauto). congruence.
    + rewrite (ok_spent _ Hok). split; intros (t & Ht' & Hkt); exists t.
      * rewrite lookup_delete_ne; [done|]. intros <-. congruence.
      * apply lookup_delete_Some in Ht' as [_ ?]. done.
Qed.

Lemma repo_del_ranked rank h tx r : all_ranked rank r → all_ranked rank (repo_del h tx r).
Proof. intros Hr h' t Ht. simpl in Ht. apply lookup_delete_Some in Ht as [_ Ht]. by apply (Hr h'). Qed.

(** Removing what was just added gives the pool back. *)
Lemma repo_del_add tx r :
  repo_ok r → txs_ r !! TxHash tx = None → (∀ h, ¬ conflicting r tx h) →
  txs_ (repo_del (TxHash tx) tx (repo_add tx r)) = txs_ r ∧
  spentOutputs_ (repo_del (TxHash tx) tx (repo_add tx r)) = spentOutputs_ r.
Proof.
  intros Hok Hn Hcf. split.
  - simpl. by rewrite delete_insert_id.
  - apply map_eq. intros k. unfold repo_del. cbn [spentOutputs_].
    rewrite lookup_del_keys, repo_add_spent by done. case_bool_decide as Hk; [|done].
    destruct (spentOutputs_ r !! k) as [h|] eqn:E; [|done]. destruct (Hcf h). by exists k.
Qed.

(** *** Walking down a chain of spends *)

Lemma first_spender_Some r th i k c :
  first_spender r th i k = Some c →
  ∃ j, i ≤ j < i + Z.of_nat k ∧ spentOutputs_ r !! {| hash_ := th; position_ := j |} = Some c.
Proof.
  revert i. induction k as [|k IH]; intros i; simpl; [done|].
  destruct (spentOutputs_ r !! {| hash_ := th; position_ := i |}) as [c'|] eqn:E.
  - intros [= ->]. exists i. split; [lia|done].
  - intros (j & Hj & Hs)%IH. exists j. split; [lia|done].
Qed.

Lemma first_spender_None r th i k :
  first_spender r th i k = None →
  ∀ j, i ≤ j < i + Z.of_nat k → spentOutputs_ r !! {| hash_ := th; position_ := j |} = None.
Proof.
  revert i. induction k as [|k IH]; intros i; simpl; [intros _ j; lia|].
  destruct (spentOutputs_ r !! {| hash_ := th; position_ := i |}) as [c'|] eqn:E; [done|].
  intros Hn j Hj. destruct (decide (j = i)) as [->|]; [done|]. apply (IH (i + 1)); [done|lia].
Qed.

Lemma child_rank rank r p c :
  repo_ok r → all_ranked rank r → child r p c → (rank p < rank c)%nat.
Proof.
  intros Hok Hr (tx & Ht & j & _ & Hs). apply (ok_spent _ Hok) in Hs as (ctx & Hc & Hk).
  specialize (Hr _ _ Hc _ Hk). simpl in Hr.
  by rewrite (ok_hash _ Hok _ _ Ht), (ok_hash _ Hok _ _ Hc) in Hr.
Qed.

(** the pool transactions ranked above [p]: the measure of the recursion *)
Definition above (rank : uint256 → nat) r p : nat :=
  size (filter (λ x : uint256 * CTransaction, (rank p < rank x.1)%nat) (txs_ r)).

Lemma above_le rank r p : (above rank r p ≤ repo_size r)%nat.
Proof. apply map_subseteq_size, map_filter_subseteq. Qed.

Lemma above_child rank r p c :
  repo_ok r → all_ranked rank r → child r p c → (above rank r c < above rank r p)%nat.
Proof.
  intros Hok Hr Hpc. pose proof (child_rank _ _ _ _ Hok Hr Hpc) as Hlt.
  destruct (child_in_pool _ _ _ Hok Hpc) as [ctx Hc].
  unfold above. apply map_subset_size, map_subset_alt. split.
  - apply map_filter_subseteq_ext. intros k t _ Hk. simpl in *. lia.
  - exists c. rewrite !map_lookup_filter, Hc. simpl.
    rewrite option_guard_False by lia. rewrite option_guard_True by lia. eauto.
Qed.

Lemma txs_at_in h tx r : txs_ r !! h = Some tx → txs_at h r = (Done tx, r).
Proof. intros Ht. unfold txs_at. by rewrite Ht. Qed.

Lemma getSpentEndTx_loop_spec rank r fuel p tx :
  repo_ok r → all_ranked rank r → txs_ r !! p = Some tx → (above rank r p < fuel)%nat →
  ∃ h, getSpentEndTx_loop fuel tx r = (Done h, r) ∧ rtc (child r) p h ∧ is_end r h.
Proof.
  intros Hok Hr. revert p tx. induction fuel as [|fuel IH]; intros p tx Ht Hf; [lia|].
  simpl. unfold mbind, M_bind, get, mret, M_ret. cbv beta zeta iota.
  pose proof (ok_hash _ Hok _ _ Ht) as Hp.
  destruct (first_spender r (TxHash tx) 0 (length (vout tx))) as [c|] eqn:E.
  - apply first_spender_Some in E as (j & Hj & Hs).
    assert (child r p c) as Hpc.
    { exists tx. split; [done|]. exists j. split; [lia|done]. }
    destruct (child_in_pool _ _ _ Hok Hpc) as [ctx Hc]. rewrite (txs_at_in _ _ _ Hc).
    destruct (IH c ctx Hc) as (h & Hrun & Hreach & Hend).
    { pose proof (above_child _ _ _ _ Hok Hr Hpc). lia. }
    exists h. split_and!; [done| |done]. by eapply rtc_l.
  - exists p. rewrite Hp. split_and!; [done|constructor|].
    exists tx. split; [done|]. intros c (j & Hj & Hs).
    rewrite (first_spender_None _ _ _ _ E j) in Hs by lia. done.
Qed.

Lemma getSpentEndTx_spec rank r p tx :
  repo_ok r → all_ranked rank r → txs_ r !! p = Some tx →
  ∃ h, getSpentEndTx tx r = (Done h, r) ∧ rtc (child r) p h ∧ is_end r h.
Proof.
  intros Hok Hr Ht. unfold getSpentEndTx.
  apply (getSpentEndTx_loop_spec rank _ _ _ _ Hok Hr Ht).
  pose proof (above_le rank r p). lia.
Qed.

Lemma is_end_in_pool r h : is_end r h → ∃ tx, txs_ r !! h = Some tx.
Proof. intros (tx & ? & _). eauto. Qed.

(** *** Peeling ends off the pool *)

(** [hs] are removed one after the other, each with no child left when it goes. *)
Inductive peel : MemTxRepository → list uint256 → MemTxRepository → Prop :=
  | peel_nil r : peel r [] r
  | peel_cons r h tx hs r' :
      txs_ r !! h = Some tx → is_end r h → peel (repo_del h tx r) hs r' → peel r (h :: hs) r'.

Lemma peel_ok r hs r' : repo_ok r → peel r hs r' → repo_ok r'.
Proof. intros Hok Hp. induction Hp; auto using repo_del_ok. Qed.

Lemma peel_ranked rank r hs r' : all_ranked rank r → peel r hs r' → all_ranked rank r'.
Proof. intros Hok Hp. induction Hp; auto using repo_del_ranked. Qed.

Lemma peel_txs r hs r' k :
  peel r hs r' → txs_ r' !! k = if bool_decide (k ∈ hs) then None else txs_ r !! k.
Proof.
  induction 1 as [r|r h tx hs r' Ht He Hp IH]; [done|].
  rewrite IH. simpl. rewrite lookup_delete.
  repeat case_bool_decide; repeat case_decide; try done; set_solver.
Qed.

Lemma peel_delete r hs r' :
  peel r hs r' → unSyncTxsDelete_ r' = list_to_set hs ∪ unSyncTxsDelete_ r ∧
                 unSyncTxsInsert_ r' = unSyncTxsInsert_ r.
Proof.
  induction 1 as [r|r h tx hs r' Ht He Hp [IH1 IH2]]; [set_solver|].
  rewrite IH1, IH2. simpl. set_solver.
Qed.

Lemma peel_in_pool r hs r' h : peel r hs r' → h ∈ hs → is_Some (txs_ r !! h).
Proof.
  induction 1 as [r|r x tx hs r' Ht He Hp IH]; [set_solver|].
  intros [->|Hin]%elem_of_cons; [eauto|].
  destruct (IH Hin) as [t Ht']. simpl in Ht'. apply lookup_delete_Some in Ht' as [_ ?]. eauto.
Qed.

Lemma peel_NoDup r hs r' : peel r hs r' → NoDup hs.
Proof.
  induction 1 as [r|r x tx hs r' Ht He Hp IH]; constructor; [|done].
  intros Hin. destruct (peel_in_pool _ _ _ _ Hp Hin) as [t Ht']. simpl in Ht'.
  by rewrite lookup_delete_eq in Ht'.
Qed.

Lemma peel_snoc r hs r' h tx :
  peel r hs r' → txs_ r' !! h = Some tx → is_end r' h → peel r (hs ++ [h]) (repo_del h tx r').
Proof.
  induction 1 as [r|r x t hs r' Ht He Hp IH]; intros Hh Hend.
  - econstructor; [done..|constructor].
  - simpl. econstructor; eauto.
Qed.

(** The spends that survive a removal are those that do not touch it. *)
Lemma child_repo_del r h tx p c :
  repo_ok r → txs_ r !! h = Some tx →
  child (repo_del h tx r) p c ↔ child r p c ∧ p ≠ h ∧ c ≠ h.
Proof.
  intros Hok Ht. pose proof (repo_del_ok _ _ _ Hok Ht) as Hok'. split.
  - intros Hpc. destruct (child_in_pool _ _ _ Hok' Hpc) as [ctx Hc].
    simpl in Hc. apply lookup_delete_Some in Hc as [Hne _].
    destruct Hpc as (t & Htp & j & Hj & Hs). simpl in Htp.
    apply lookup_delete_Some in Htp as [Hnp Htp]. split_and!; [|done..].
    exists t. split; [done|]. exists j. split; [done|]. simpl in Hs.
    rewrite lookup_del_keys in Hs. by case_bool_decide.
  - intros ((t & Htp & j & Hj & Hs) & Hnp & Hnc). exists t. simpl.
    split; [by rewrite lookup_delete_ne|]. exists j. split; [done|]. simpl.
    rewrite lookup_del_keys. case_bool_decide as Hk; [|done].
    assert (spentOutputs_ r !! {| hash_ := TxHash t; position_ := j |} = Some h) as Hs'
      by (apply (ok_spent _ Hok); eauto). congruence.
Qed.

(** Children are removed before their parents. *)
Lemma peel_order r hs r' i j p c :
  repo_ok r → peel r hs r' → hs !! i = Some p → hs !! j = Some c → child r p c → (j < i)%nat.
Proof.
  intros Hok Hp. revert i j. induction Hp as [r|r x t hs r' Ht He Hp IH]; intros i j Hi Hj Hpc; [done|].
  destruct i as [|i]; simpl in Hi.
  - injection Hi as ->. destruct He as (t' & Ht' & Hne). destruct Hpc as (t2 & Ht2 & Hs).
    simplify_eq. by destruct (Hne c).
  - destruct j as [|j]; [lia|]. simpl in Hj.
    pose proof (peel_NoDup _ _ _ (peel_cons _ _ _ _ _ Ht He Hp)) as Hnd.
    apply NoDup_cons in Hnd as [Hnx _].
    assert (j < i)%nat; [|lia].
    apply (IH (repo_del_ok _ _ _ Hok Ht)); [done..|].
    apply child_repo_del; [done..|]. split_and!; [done| |];
      intros ->; apply Hnx; by eapply list_elem_of_lookup_2.
Qed.

(** Everything that spends an output of a member comes before it. *)
Definition leaves_first r (hs : list uint256) : Prop :=
  ∀ i p c, hs !! i = Some p → child r p c → c ∈ take i hs.

Lemma peel_leaves_first r hs r' : repo_ok r → peel r hs r' → leaves_first r hs.
Proof.
  intros Hok Hp. induction Hp as [r|r x t hs r' Ht He Hp IH]; intros i p c Hi Hpc; [done|].
  destruct i as [|i]; simpl in Hi.
  - injection Hi as ->. destruct He as (t' & Ht' & Hne), Hpc as (t2 & Ht2 & Hs). simplify_eq. by destruct (Hne c).
  - cbn [take]. destruct (decide (c = x)) as [->|Hc]; [left|right].
    apply (IH (repo_del_ok _ _ _ Hok Ht) i p c Hi). apply child_repo_del; [done..|]. split_and!; [done| |done].
    pose proof (peel_NoDup _ _ _ (peel_cons _ _ _ _ _ Ht He Hp)) as [Hnx _]%NoDup_cons.
    intros ->. by apply Hnx, (list_elem_of_lookup_2 _ i).
Qed.

Lemma end_childless r h c : is_end r h → ¬ child r h c.
Proof. intros (t & Ht & Hn) (t2 & Ht2 & Hs). simplify_eq. by apply (Hn c). Qed.

Lemma rtc_child_repo_del r e tx p x :
  repo_ok r → txs_ r !! e = Some tx → is_end r e → p ≠ e →
  rtc (child (repo_del e tx r)) p x ↔ rtc (child r) p x ∧ x ≠ e.
Proof.
  intros Hok Ht He Hpe. split.
  - intros Hr. split.
    + eapply rtc_subrel; [|exact Hr]. intros a b Hab. by apply child_repo_del in Hab as (? & _).
    + apply rtc_inv_r in Hr as [->|(y & _ & Hy)]; [done|].
      by apply child_repo_del in Hy as (_ & _ & ?).
  - intros [Hr Hne]. revert Hpe. induction Hr as [|a b x Hab Hbx IH]; intros Ha; [constructor|].
    destruct (decide (b = e)) as [->|Hb].
    + destruct Hne. by apply rtc_inv in Hbx as [|(z & Hz & _)]; [|destruct (end_childless _ _ z He)].
    + eapply rtc_l; [|by apply IH]. by apply child_repo_del.
Qed.

Lemma rtc_child_end r h x : is_end r h → rtc (child r) h x ↔ x = h.
Proof.
  intros He. split; [|intros ->; constructor].
  intros [|(z & Hz & _)]%rtc_inv; [done|]. by destruct (end_childless _ _ z He).
Qed.

Lemma size_repo_del h tx r : txs_ r !! h = Some tx → repo_size r = S (repo_size (repo_del h tx r)).
Proof.
  intros Ht. unfold repo_size. simpl. pose proof (map_size_ne_0_lookup_2 (txs_ r) h).
  rewrite map_size_delete_Some by eauto. assert (size (txs_ r) ≠ 0%nat) by eauto. lia.
Qed.

Lemma removeTxAndChildTx_loop_spec rank fuel r p tx :
  repo_ok r → all_ranked rank r → txs_ r !! p = Some tx → (repo_size r < fuel)%nat →
  ∃ hs r', removeTxAndChildTx_loop fuel tx r = (Done (hs ++ [p]), r') ∧
    peel r (hs ++ [p]) r' ∧ ∀ x, x ∈ hs ++ [p] ↔ rtc (child r) p x.
Proof.
  revert r. induction fuel as [|fuel IH]; intros r Hok Hr Hp Hf; [lia|].
  destruct (getSpentEndTx_spec _ _ _ _ Hok Hr Hp) as (h & Hget & Hreach & Hend).
  destruct (is_end_in_pool _ _ Hend) as [etx He].
  simpl. rewrite (bind_Done _ _ _ _ _ Hget), (bind_Done _ _ _ _ _ (removeTx_run _ _ _ Hok He)).
  rewrite (ok_hash _ Hok _ _ Hp). destruct (Z.eqb_spec p h) as [<-|Hne].
  - exists [], (repo_del p etx r). split_and!; [done| |].
    + econstructor; [done..|constructor].
    + intros x. rewrite rtc_child_end by done. simpl. set_solver.
  - destruct (IH (repo_del h etx r)) as (hs & r' & Hrun & Hpeel & Hin).
    + by apply repo_del_ok.
    + by apply repo_del_ranked.
    + simpl. by rewrite lookup_delete_ne.
    + rewrite (size_repo_del _ _ _ He) in Hf. lia.
    + exists (h :: hs), r'. split_and!.
      * by rewrite (bind_Done _ _ _ _ _ Hrun).
      * simpl. by econstructor.
      * intros x. simpl. rewrite elem_of_cons, Hin, rtc_child_repo_del by done.
        destruct (decide (x = h)); naive_solver.
Qed.

(** *** Conflicts *)

Lemma getConflictTx_loop_spec rank r tx keys h :
  repo_ok r → all_ranked rank r → txs_ r !! TxHash tx = None →
  (∃ k, k ∈ keys ∧ spentOutputs_ r !! k = Some h) →
  ∃ c e, getConflictTx_loop tx keys r = (Done e, r) ∧
    (∃ k, k ∈ keys ∧ spentOutputs_ r !! k = Some c) ∧ rtc (child r) c e ∧ is_end r e.
Proof.
  intros Hok Hr Hn. induction keys as [|k keys IH]; intros (k0 & Hk & Hs); [set_solver|].
  simpl. unfold mbind, M_bind, get. cbv beta zeta iota.
  destruct (spentOutputs_ r !! k) as [c|] eqn:E.
  - destruct (proj1 (ok_spent _ Hok k c) E) as (ctx & Hc & _).
    destruct (Z.eqb_spec c (TxHash tx)) as [->|_]; [congruence|].
    rewrite (txs_at_in _ _ _ Hc).
    destruct (getSpentEndTx_spec _ _ _ _ Hok Hr Hc) as (e & Hget & Hreach & Hend).
    rewrite Hget. exists c, e. split_and!; [done| |done..]. exists k. split; [set_solver|done].
  - destruct IH as (c & e & Hrun & (k' & Hk' & Hs') & ? & ?).
    { exists k0. split; [|done]. apply elem_of_cons in Hk as [->|]; [congruence|done]. }
    exists c, e. split_and!; [done| |done..]. exists k'. split; [set_solver|done].
Qed.

(** The answer is an end of the chain below a conflicting transaction. *)
Lemma getConflictTx_spec rank r tx h :
  repo_ok r → all_ranked rank r → txs_ r !! TxHash tx = None → conflicting r tx h →
  ∃ c e, getConflictTx tx r = (Done e, r) ∧
    conflicting r tx c ∧ rtc (child r) c e ∧ is_end r e.
Proof. intros Hok Hr Hn Hc. by apply (getConflictTx_loop_spec rank _ _ _ h). Qed.

(** Without a conflict the answer is the transaction itself. *)
Lemma getConflictTx_none r tx :
  (∀ h, ¬ conflicting r tx h) → getConflictTx tx r = (Done (TxHash tx), r).
Proof.
  unfold getConflictTx, conflicting. generalize (tx_keys tx). intros keys.
  induction keys as [|k keys IH]; intros Hn; [done|].
  simpl. unfold mbind, M_bind, get. cbv beta zeta iota.
  destruct (spentOutputs_ r !! k) as [c|] eqn:E.
  - destruct (Hn c). exists k. split; [set_solver|done].
  - apply IH. intros h (k' & ? & ?). apply (Hn h). exists k'. split; [set_solver|done].
Qed.

Lemma addTx_repo_ok tx r r' :
  repo_ok r → NoDup (tx_keys tx) → addTx tx r = (Done true, r') → repo_ok r'.
Proof.
  intros Hok Hnd Hr. apply addTx_cases in Hr as (Hc & Hn & Hcf & ->). by apply repo_add_ok.
Qed.

Lemma addTx_ranked rank tx r r' :
  all_ranked rank r → ranked rank tx → addTx tx r = (Done true, r') → all_ranked rank r'.
Proof.
  intros Hok Hnd Hr. apply addTx_cases in Hr as (Hc & Hn & Hcf & ->). by apply repo_add_ranked.
Qed.
End invariant.

(** ** Claims *)
Section claims.
Context `{Hashing}.

(** [addTx] on a well-formed pool, every branch: it refuses exactly a
    known hash or a double spend and then changes nothing; otherwise it
    records the transaction and each of its inputs' spends, nothing else,
    and the pool stays well formed. *)
Theorem addTx_correct (tx : CTransaction) (r : MemTxRepository)
    (Hok : repo_ok r) (Hcb : IsCoinBase tx = false) (Hnd : NoDup (tx_keys tx)) :
  match addTx tx r with
  | (Done true, r') =>
      txs_ r !! TxHash tx = None ∧ (∀ h, ¬ conflicting r tx h) ∧ repo_ok r' ∧
      txs_ r' = <[TxHash tx := tx]> (txs_ r) ∧
      (∀ k, spentOutputs_ r' !! k =
         if bool_decide (k ∈ tx_keys tx) then Some (TxHash tx) else spentOutputs_ r !! k) ∧
      unSyncTxsInsert_ r' = {[TxHash tx]} ∪ unSyncTxsInsert_ r ∧
      unSyncTxsDelete_ r' = unSyncTxsDelete_ r
  | (Done false, r') => r' = r ∧ (is_Some (txs_ r !! TxHash tx) ∨ ∃ h, conflicting r tx h)
  | (Raise _, _) => False
  end.
Proof.
  destruct (addTx tx r) as [[[]|e] r'] eqn:E.
  - apply addTx_cases in E as (_ & Hn & Hcf & ->). split_and!; try done.
    + by apply repo_add_ok.
    + intros k. by apply repo_add_spent.
  - by apply addTx_cases in E as (_ & ?).
  - destruct (txs_ r !! TxHash tx) eqn:Hn; [by rewrite addTx_known in E by eauto|].
    destruct (existsb (λ k, bool_decide (is_Some (spentOutputs_ r !! k))) (tx_keys tx)) eqn:Ex.
    + apply conflict_exists in Ex as [h Hh]. by rewrite (addTx_conflict _ h) in E.
    + rewrite addTx_fresh in E; [done..|]. intros h Hh.
      rewrite (proj2 (conflict_exists r tx)) in Ex by eauto. done.
Qed.

(** C30 — [removeTxAndChildTx] terminates on every well-formed pool without
    spending circles and removes exactly the transaction and all its
    descendants, each once, children before parents, the transaction last;
    every other transaction stays, the removed ones are queued for deletion
    from the database, and the pool stays well formed. *)
Theorem removeTxAndChildTx_correct (rank : uint256 → nat) (r : MemTxRepository)
    (p : uint256) (tx : CTransaction)
    (Hok : repo_ok r) (Hr : all_ranked rank r) (Hp : txs_ r !! p = Some tx) :
  ∃ hs r', removeTxAndChildTx tx r = (Done (hs ++ [p]), r') ∧
    (∀ x, x ∈ hs ++ [p] ↔ rtc (child r) p x) ∧ NoDup (hs ++ [p]) ∧
    (∀ i j a c, (hs ++ [p]) !! i = Some a → (hs ++ [p]) !! j = Some c →
       child r a c → (j < i)%nat) ∧
    (∀ k, txs_ r' !! k = if bool_decide (k ∈ hs ++ [p]) then None else txs_ r !! k) ∧
    unSyncTxsDelete_ r' = list_to_set (hs ++ [p]) ∪ unSyncTxsDelete_ r ∧
    repo_ok r'.
Proof.
  destruct (removeTxAndChildTx_loop_spec rank (S (repo_size r)) r p tx Hok Hr Hp ltac:(lia))
    as (hs & r' & Hrun & Hpeel & Hin).
  exists hs, r'. split_and!; try done.
  - by eapply peel_NoDup.
  - intros i j a c. by eapply peel_order.
  - intros k. by apply peel_txs.
  - by apply (peel_delete _ _ _ Hpeel).
  - by eapply peel_ok.
Qed.
End claims.

(** A pool of four: 10 <- 20 <- 30, 10 <- 25. *)
#[local] Existing Instance Demo.hashing.
Definition demo_pool : MemTxRepository :=
  snd ((addTx (Demo.tx 10 [(1, 0)] 2) ;; addTx (Demo.tx 20 [(10, 0)] 1) ;;
        addTx (Demo.tx 30 [(20, 0)] 1) ;; addTx (Demo.tx 25 [(10, 1)] 1)) emptyRepo).

Lemma demo_pool_ok : repo_ok demo_pool ∧ all_ranked Z.to_nat demo_pool.
Proof.
  assert (∀ tx r r', addTx tx r = (Done true, r') → NoDup (tx_keys tx) → ranked Z.to_nat tx →
    repo_ok r ∧ all_ranked Z.to_nat r → repo_ok r' ∧ all_ranked Z.to_nat r') as Hstep.
  { intros tx r r' Hadd Hnd Hrk [Hok Hr]. split;
      [by eapply addTx_repo_ok | by eapply addTx_ranked]. }
  pose (r1 := snd (addTx (Demo.tx 10 [(1, 0)] 2) emptyRepo)).
  pose (r2 := snd (addTx (Demo.tx 20 [(10, 0)] 1) r1)).
  pose (r3 := snd (addTx (Demo.tx 30 [(20, 0)] 1) r2)).
  assert (∀ h i j k, 0 ≤ i < h → ranked Z.to_nat (Demo.tx h [(i, j)] k)) as Hrk.
  { intros h i j k Hi key [->|Hk]%elem_of_cons; [simpl; lia|]. by apply elem_of_nil in Hk. }
  apply (Hstep (Demo.tx 25 [(10, 1)] 1) r3); [reflexivity | repeat constructor; set_solver | apply Hrk; lia|].
  apply (Hstep (Demo.tx 30 [(20, 0)] 1) r2); [reflexivity | repeat constructor; set_solver | apply Hrk; lia|].
  apply (Hstep (Demo.tx 20 [(10, 0)] 1) r1); [reflexivity | repeat constructor; set_solver | apply Hrk; lia|].
  apply (Hstep (Demo.tx 10 [(1, 0)] 2) emptyRepo); [reflexivity | repeat constructor; set_solver | apply Hrk; lia|].
  split; [apply emptyRepo_ok|]. intros h tx. simpl. by rewrite lookup_empty.
Qed.

Lemma addTx_correct_witness :
  fst (addTx (Demo.tx 40 [(10, 0)] 1) demo_pool) = Done false ∧
  ∃ h, conflicting demo_pool (Demo.tx 40 [(10, 0)] 1) h.
Proof.
  split; [reflexivity|].
  pose proof (addTx_correct (Demo.tx 40 [(10, 0)] 1) demo_pool (proj1 demo_pool_ok) eq_refl
    (NoDup_singleton _)) as Hc.
  change (addTx _ _) with (@Done bool false, demo_pool) in Hc.
  destruct Hc as [_ [[x Hx]|Hc]]; [discriminate | exact Hc].
Defined.

Lemma removeTxAndChildTx_correct_witness :
  fst (removeTxAndChildTx (Demo.tx 10 [(1, 0)] 2) demo_pool) = Done [30; 20; 25; 10] ∧
  ∃ hs r', removeTxAndChildTx (Demo.tx 10 [(1, 0)] 2) demo_pool = (Done (hs ++ [10]), r') ∧ repo_ok r'.
Proof.
  split; [reflexivity|].
  destruct (removeTxAndChildTx_correct Z.to_nat demo_pool 10 (Demo.tx 10 [(1, 0)] 2)
    (proj1 demo_pool_ok) (proj2 demo_pool_ok) eq_refl) as (hs & r' & Hrun & _ & _ & _ & _ & _ & Hok).
  exists hs, r'. split; assumption.
Defined.
