(* ===== verification/Db.v ===== *)
(** * The tables of log2producer and the statements it runs on them
      (Util.cc [insertRawTx], [insertRawBlock], [getTxHexByHash],
      [HexToDecLast2Bytes]; MySQLConnection.cc [multiInsert],
      [updateOrThrowEx]; Log2Producer.cc [MemTxRepository::syncToDB])

    A database is the record of its tables; the time columns are left out.  A
    session sees its own uncommitted changes ([cur]); [durable] lists, newest
    first, every state that a crash could leave behind: outside a transaction
    each statement is durable at once, inside one only the commit is. *)
From S2P Require Import Prelude Tx Bytes Serialize MemRepo.

(** 0_txlogs2, its rows in the order of the automatic id *)
Record txlog := {
  batch_id : Z;
  log_type : Z;
  block_height : Z;
  block_id : Z;
  max_block_timestamp : Z;
  tx_hash : uint256 }.

(** 0_raw_blocks *)
Record raw_block := {
  rb_id : Z;
  rb_hash : uint256;
  rb_height : Z;
  rb_chain_id : Z;
  rb_hex : bytes }.

Record database := {
  txlogs2 : list txlog;
  memrepo_txs : list uint256;               (** 0_memrepo_txs, by position *)
  explorer_meta : option (Z * Z);           (** log1file.index, log1file.offset *)
  raw_blocks : list raw_block;
  raw_txs : gmap uint256 (Z * bytes) }.     (** raw_txs_NNNN: id, hex *)

Record session := { cur : database; in_tx : bool; durable : list database }.

(** a statement that changes the tables *)
Definition statement (f : database → database) : M session unit :=
  modify (λ s, {| cur := f (cur s); in_tx := in_tx s;
                  durable := if in_tx s then durable s else f (cur s) :: durable s |}).
Definition start_transaction : M session unit :=
  modify (λ s, {| cur := cur s; in_tx := true; durable := durable s |}).
Definition commit : M session unit :=
  modify (λ s, {| cur := cur s; in_tx := false; durable := cur s :: durable s |}).

(** [updateOrThrowEx]: the number of affected rows is checked after the fact;
    zero means "do not check". *)
Definition updateOrThrowEx (f : database → database) (affected : database → Z) (expected : Z) :
    M session unit :=
  s ← get;
  let r := affected (cur s) in
  statement f ;;
  if negb (expected =? 0) && negb (r =? expected)
  then raise (Throw "update DB failure, affected rows is not expected")
  else mret tt.

Definition with_txlogs2 (l : list txlog) (d : database) : database :=
  {| txlogs2 := l; memrepo_txs := memrepo_txs d; explorer_meta := explorer_meta d;
     raw_blocks := raw_blocks d; raw_txs := raw_txs d |}.
Definition with_memrepo_txs (l : list uint256) (d : database) : database :=
  {| txlogs2 := txlogs2 d; memrepo_txs := l; explorer_meta := explorer_meta d;
     raw_blocks := raw_blocks d; raw_txs := raw_txs d |}.
Definition with_meta (m : option (Z * Z)) (d : database) : database :=
  {| txlogs2 := txlogs2 d; memrepo_txs := memrepo_txs d; explorer_meta := m;
     raw_blocks := raw_blocks d; raw_txs := raw_txs d |}.
Definition with_raw_blocks (l : list raw_block) (d : database) : database :=
  {| txlogs2 := txlogs2 d; memrepo_txs := memrepo_txs d; explorer_meta := explorer_meta d;
     raw_blocks := l; raw_txs := raw_txs d |}.
Definition with_raw_txs (m : gmap uint256 (Z * bytes)) (d : database) : database :=
  {| txlogs2 := txlogs2 d; memrepo_txs := memrepo_txs d; explorer_meta := explorer_meta d;
     raw_blocks := raw_blocks d; raw_txs := m |}.

(** ** Inserting many rows (multiInsert)

    [len] is the length of a row's text, [prefix] that of "INSERT INTO ...
    VALUES "; a statement is sent whenever its text exceeds 8 MB. *)
Fixpoint multi_chunks {A} (len : A → Z) (prefix : Z) (chunk : list A) (sql : Z) (values : list A) :
    list (list A) :=
  match values with
  | [] => if prefix <? sql then [chunk] else []
  | v :: values =>
      let sql := sql + (len v + 3) in
      if 8 * 1024 * 1024 <? sql
      then (chunk ++ [v]) :: multi_chunks len prefix [] prefix values
      else multi_chunks len prefix (chunk ++ [v]) sql values
  end.
Definition multiInsert {A} (len : A → Z) (prefix : Z)
    (execute : list A → M session unit) (values : list A) : M session unit :=
  forM (multi_chunks len prefix [] prefix values) execute.

(** the text of a log row: "-1,type,height,id,timestamp,'hash','now','now'" *)
Definition txlog_len (now : bytes) (r : txlog) : Z :=
  Z.of_nat (length (fmt_d (batch_id r)) + length (fmt_d (log_type r)) +
            length (fmt_d (block_height r)) + length (fmt_d (block_id r)) +
            length (fmt_d (max_block_timestamp r)) + length (ToString (tx_hash r)) +
            2 * length now + 13)%nat.
Definition insert_txlogs (rows : list txlog) (d : database) : database :=
  with_txlogs2 (txlogs2 d ++ rows) d.
(** "INSERT INTO `0_txlogs2`(`batch_id`, ...) VALUES " *)
Definition txlogs_prefix : Z := 143.
Definition insert_log_rows (now : bytes) (rows : list txlog) : M session unit :=
  multiInsert (txlog_len now) txlogs_prefix (λ chunk, statement (insert_txlogs chunk)) rows.

(** ** Raw transactions and blocks (Util.cc) *)

Definition HexToDecLast2Bytes (hex : bytes) : Z :=
  match reverse hex with
  | b :: a :: _ => HexDigit a * 16 + HexDigit b
  | _ => 0
  end.
(** raw_txs is split into 64 tables *)
Definition tx_shard (h : uint256) : Z := HexToDecLast2Bytes (ToString h) mod 64.

Definition max_tx_id (shard : Z) (m : gmap uint256 (Z * bytes)) : Z :=
  map_fold (λ h r x, if tx_shard h =? shard then Z.max (fst r) x else x) 0 m.

Section raw.
Context `{Hashing}.

(** The callers discard the id the function returns. *)
Definition insertRawTx (tx : CTransaction) : M session unit :=
  let txHash := TxHash tx in
  s ← get;
  match raw_txs (cur s) !! txHash with
  | Some _ => mret tt
  | None =>
      updateOrThrowEx
        (λ d, with_raw_txs
           (<[txHash := (max_tx_id (tx_shard txHash) (raw_txs d) + 1, EncodeHexTx tx)]> (raw_txs d)) d)
        (λ _, 1) 1
  end.

Definition getTxHexByHash (h : uint256) : M session bytes :=
  s ← get;
  match raw_txs (cur s) !! h with
  | None => raise (Throw "can't find rawtx")
  | Some (_, hex) => mret hex
  end.

Definition find_raw_block (h : uint256) (d : database) : option raw_block :=
  List.find (λ b, rb_hash b =? h) (raw_blocks d).

Definition chain_ge (a b : raw_block) : Prop := rb_chain_id b ≤ rb_chain_id a.
#[export] Instance chain_ge_dec : RelDecision chain_ge.
Proof. intros a b. unfold chain_ge. apply _. Defined.

(** UPDATE 0_raw_blocks SET chain_id = chain_id + 1 WHERE id = [id]: the unique
    key on height and chain id is checked by the statement. *)
Definition bump_chain (id : Z) (b : raw_block) : raw_block :=
  if rb_id b =? id
  then {| rb_id := rb_id b; rb_hash := rb_hash b; rb_height := rb_height b;
          rb_chain_id := rb_chain_id b + 1; rb_hex := rb_hex b |}
  else b.
Definition key_taken (height chain : Z) (d : database) : bool :=
  existsb (λ b, (rb_height b =? height) && (rb_chain_id b =? chain)) (raw_blocks d).

Definition update_chain_id (r : raw_block) : M session unit :=
  s ← get;
  if key_taken (rb_height r) (rb_chain_id r + 1) (cur s) then raise (Throw "exec sql failure: duplicate")
  else updateOrThrowEx (λ d, with_raw_blocks (bump_chain (rb_id r) <$> raw_blocks d) d)
         (λ d, Z.of_nat (length (filter (λ b, rb_id b = rb_id r) (raw_blocks d)))) 1.

Definition next_block_id (d : database) : Z := foldr (λ b x, Z.max (rb_id b) x) 0 (raw_blocks d) + 1.

Definition insertRawBlock (blk : CBlock) (height : Z) : M session Z :=
  let blockHash := BlockHash blk in
  s ← get;
  match find_raw_block blockHash (cur s) with
  | Some r => assertM (rb_height r =? height) ;; mret (rb_id r)
  | None =>
      forM (merge_sort chain_ge (filter (λ b, rb_height b = height) (raw_blocks (cur s))))
        update_chain_id ;;
      s ← get;
      let id := next_block_id (cur s) in
      if key_taken height 0 (cur s) then raise (Throw "exec sql failure: duplicate")
      else
        updateOrThrowEx
          (λ d, with_raw_blocks (raw_blocks d ++
             [ {| rb_id := id; rb_hash := blockHash; rb_height := height; rb_chain_id := 0;
                  rb_hex := EncodeHexBlock blk |} ]) d) (λ _, 1) 1 ;;
        mret id
  end.

(** ** [MemTxRepository::syncToDB] *)

Definition insert_memrepo (hs : list uint256) (d : database) : database :=
  with_memrepo_txs (memrepo_txs d ++ hs) d.
Definition delete_memrepo (hs : list uint256) (d : database) : database :=
  with_memrepo_txs (filter (λ h, h ∉ hs) (memrepo_txs d)) d.

(** the batches of the deletion: 5001 hashes each, then the rest *)
Fixpoint delete_batches (batch : list uint256) (hs : list uint256) : list (list uint256) :=
  match hs with
  | [] => match batch with [] => [] | _ => [batch] end
  | h :: hs =>
      let batch := batch ++ [h] in
      if Nat.ltb 5000 (length batch) then batch :: delete_batches [] hs
      else delete_batches batch hs
  end.

(** a row of the insertion: "'hash','now'" *)
Definition memrepo_len (now : bytes) (h : uint256) : Z :=
  Z.of_nat (length (ToString h) + length now + 5)%nat.
(** "INSERT INTO `0_memrepo_txs`(`tx_hash`, `created_at`) VALUES " *)
Definition memrepo_prefix : Z := 60.

(** The session part: what is inserted and deleted, in the order of the sets.
    The unique key on the hash is checked by each insertion. *)
Definition sync_inserts (now : bytes) (ins : list uint256) : M session unit :=
  multiInsert (memrepo_len now) memrepo_prefix (λ chunk,
    s ← get;
    if bool_decide (NoDup (memrepo_txs (cur s) ++ chunk))
    then statement (insert_memrepo chunk)
    else raise (Throw "exec sql failure: duplicate")) ins.
Definition sync_deletes (del : list uint256) : M session unit :=
  forM (delete_batches [] del) (λ batch,
    updateOrThrowEx (delete_memrepo batch)
      (λ d, Z.of_nat (length (filter (λ h, h ∈ batch) (memrepo_txs d))))
      (i32 (Z.of_nat (length batch)))).
End raw.

(** ** What the statements do *)

(** [s'] is [s] with the tables changed by [f]; the durable states are those of
    [durable] and are treated below. *)
Definition now_holds (d : database) (s s' : session) : Prop := cur s' = d ∧ in_tx s' = in_tx s.

Section statements.
Implicit Types (s : session) (d : database).

Lemma statement_run f s :
  ∃ s', statement f s = (Done tt, s') ∧ now_holds (f (cur s)) s s'.
Proof. eexists. split; [reflexivity|done]. Qed.

Lemma updateOrThrowEx_run f affected expected s :
  expected = 0 ∨ affected (cur s) = expected →
  ∃ s', updateOrThrowEx f affected expected s = (Done tt, s') ∧ now_holds (f (cur s)) s s'.
Proof.
  intros He. unfold updateOrThrowEx, mbind, M_bind, get, statement, modify. cbv beta iota zeta.
  replace (negb (expected =? 0) && negb (affected (cur s) =? expected)) with false.
  - eexists. split; [reflexivity|done].
  - destruct (Z.eqb_spec expected 0), (Z.eqb_spec (affected (cur s)) expected); simpl; lia.
Qed.

Lemma multi_chunks_concat {A} (len : A → Z) prefix chunk sql values :
  (∀ v, 0 ≤ len v) → (chunk = [] ∧ sql = prefix) ∨ prefix < sql →
  concat (multi_chunks len prefix chunk sql values) = chunk ++ values.
Proof.
  intros Hlen. revert chunk sql. induction values as [|v values IH]; intros chunk sql Hc; simpl.
  - destruct Hc as [[-> ->]|Hc]; [by rewrite Z.ltb_irrefl|].
    replace (prefix <? sql) with true by lia. simpl. by rewrite !app_nil_r.
  - specialize (Hlen v). destruct (_ <? _); simpl.
    + rewrite IH by auto. by rewrite <-app_assoc.
    + rewrite IH by (right; lia). by rewrite <-app_assoc.
Qed.

(** Running [exec] on every chunk has the effect [ins] of the whole, when
    [ins] of a concatenation is the composition. *)
Lemma multiInsert_run {A} (len : A → Z) prefix exec ins (I : list A → database → Prop) values s :
  (∀ v, 0 ≤ len v) →
  (∀ d, ins [] d = d) → (∀ l1 l2 d, ins (l1 ++ l2) d = ins l2 (ins l1 d)) →
  (∀ done chunk rest s1, values = done ++ chunk ++ rest → cur s1 = ins done (cur s) →
     ∃ s2, exec chunk s1 = (Done tt, s2) ∧ now_holds (ins chunk (cur s1)) s1 s2) →
  ∃ s', multiInsert len prefix exec values s = (Done tt, s') ∧ now_holds (ins values (cur s)) s s'.
Proof.
  intros Hlen Hnil Happ Hexec. unfold multiInsert.
  pose proof (multi_chunks_concat len prefix [] prefix values Hlen (or_introl (conj eq_refl eq_refl))) as Hcat.
  set (chunks := multi_chunks _ _ _ _ _) in *. simpl in Hcat.
  destruct (forM_ind (λ done s', now_holds (ins (concat done) (cur s)) s s') exec chunks s)
    as (s' & Hrun & Hs').
  - split; [by rewrite Hnil|done].
  - intros l1 x l2 s1 Hl [H1 H2].
    destruct (Hexec (concat l1) x (concat l2) s1) as (s2 & Hr & Hc & Ht).
    { rewrite <-Hcat, Hl, concat_app. done. }
    { done. }
    exists s2. split; [done|]. split; [|congruence].
    rewrite Hc, H1, concat_app, Happ. simpl. by rewrite app_nil_r.
  - exists s'. rewrite Hcat in Hs'. done.
Qed.

Lemma insert_log_rows_run now rows s :
  ∃ s', insert_log_rows now rows s = (Done tt, s') ∧ now_holds (insert_txlogs rows (cur s)) s s'.
Proof.
  apply (multiInsert_run _ _ _ _ (λ _ _, True)).
  - unfold txlog_len. lia.
  - intros []. unfold insert_txlogs, with_txlogs2. simpl. by rewrite app_nil_r.
  - intros l1 l2 d. unfold insert_txlogs, with_txlogs2. simpl. by rewrite app_assoc.
  - intros done chunk rest s1 _ _. apply statement_run.
Qed.

Lemma sync_inserts_run now ins s :
  NoDup (memrepo_txs (cur s) ++ ins) →
  ∃ s', sync_inserts now ins s = (Done tt, s') ∧ now_holds (insert_memrepo ins (cur s)) s s'.
Proof.
  intros Hnd. apply (multiInsert_run _ _ _ _ (λ _ _, True)).
  - unfold memrepo_len. lia.
  - intros []. unfold insert_memrepo, with_memrepo_txs. simpl. by rewrite app_nil_r.
  - intros l1 l2 d. unfold insert_memrepo, with_memrepo_txs. simpl. by rewrite app_assoc.
  - intros done chunk rest s1 Hv Hc. unfold mbind, M_bind, get. cbv beta iota.
    rewrite bool_decide_true; [apply statement_run|].
    rewrite Hc. simpl. rewrite Hv, !app_assoc in Hnd. by apply NoDup_app in Hnd as [? _].
Qed.

Lemma delete_batches_concat batch hs : concat (delete_batches batch hs) = batch ++ hs.
Proof.
  revert batch. induction hs as [|h hs IH]; intros batch; simpl.
  - destruct batch; [done|]. simpl. by rewrite !app_nil_r.
  - destruct (Nat.ltb _ _); simpl; rewrite IH; simpl; by rewrite <-app_assoc.
Qed.

Lemma delete_batches_small batch hs :
  (length batch ≤ 5000)%nat → Forall (λ b, (length b ≤ S 5000)%nat) (delete_batches batch hs).
Proof.
  revert batch. induction hs as [|h hs IH]; intros batch Hb; cbn [delete_batches].
  - destruct batch; [constructor|]. constructor; [lia|constructor].
  - destruct (Nat.ltb_spec 5000 (length (batch ++ [h]))) as [Hlt|Hge].
    + constructor; [rewrite length_app; simpl; lia|]. apply IH. simpl. lia.
    + apply IH. lia.
Qed.

Lemma length_filter_sub (T del : list uint256) :
  NoDup T → NoDup del → (∀ h, h ∈ del → h ∈ T) →
  length (filter (λ h, h ∈ del) T) = length del.
Proof.
  intros HT Hd Hsub. apply Permutation_length, NoDup_Permutation; [by apply NoDup_filter|done|].
  intros h. rewrite list_elem_of_filter. naive_solver.
Qed.

Lemma filter_all (l : list uint256) : filter (λ h, h ∉ []) l = l.
Proof.
  induction l as [|h l IH]; [done|].
  rewrite filter_cons_True; [by rewrite IH|]. apply not_elem_of_nil.
Qed.

Lemma delete_memrepo_app l1 l2 d :
  delete_memrepo (l1 ++ l2) d = delete_memrepo l2 (delete_memrepo l1 d).
Proof.
  unfold delete_memrepo, with_memrepo_txs. simpl. f_equal. rewrite list_filter_filter.
  apply list_filter_iff. intros h. set_solver.
Qed.

Lemma sync_deletes_run del s :
  NoDup (memrepo_txs (cur s)) → NoDup del → (∀ h, h ∈ del → h ∈ memrepo_txs (cur s)) →
  ∃ s', sync_deletes del s = (Done tt, s') ∧ now_holds (delete_memrepo del (cur s)) s s'.
Proof.
  intros HT Hd Hsub. unfold sync_deletes.
  pose proof (delete_batches_concat [] del) as Hcat.
  pose proof (delete_batches_small [] del ltac:(simpl; lia)) as Hsm.
  set (bs := delete_batches [] del) in *. simpl in Hcat.
  destruct (forM_ind (λ done s', now_holds (delete_memrepo (concat done) (cur s)) s s')
    (λ batch, updateOrThrowEx (delete_memrepo batch)
      (λ d, Z.of_nat (length (filter (λ h, h ∈ batch) (memrepo_txs d))))
      (i32 (Z.of_nat (length batch)))) bs s) as (s' & Hrun & Hs').
  - split; [|done]. unfold delete_memrepo, with_memrepo_txs. simpl.
    rewrite filter_all. by destruct (cur s).
  - intros l1 b l2 s1 Hl [H1 H2]. rewrite Hl, concat_app in Hcat. simpl in Hcat.
    rewrite <-Hcat in Hd, Hsub. apply NoDup_app in Hd as (_ & Hdis & Hd).
    apply NoDup_app in Hd as (Hd & _ & _).
    rewrite Hl in Hsm. apply Forall_app in Hsm as [_ Hsm]. apply Forall_cons in Hsm as [Hb _].
    destruct (updateOrThrowEx_run (delete_memrepo b)
      (λ d, Z.of_nat (length (filter (λ h, h ∈ b) (memrepo_txs d))))
      (i32 (Z.of_nat (length b))) s1) as (s2 & Hr & Hc & Ht).
    { right. rewrite H1. simpl. rewrite wrapS_id by (lia || (unfold in_s; simpl; lia)). f_equal.
      apply length_filter_sub; [by apply NoDup_filter|done|].
      intros h Hh. apply list_elem_of_filter. split; [|apply Hsub; set_solver].
      intros Hin. apply (Hdis h Hin). set_solver. }
    exists s2. split; [exact Hr|]. split; [|congruence].
    rewrite Hc, H1, concat_app, delete_memrepo_app. simpl. by rewrite app_nil_r.
  - exists s'. rewrite Hcat in Hs'. done.
Qed.

Lemma insertRawTx_run `{Hashing} tx s :
  ∃ s', insertRawTx tx s = (Done tt, s') ∧ in_tx s' = in_tx s ∧
    txlogs2 (cur s') = txlogs2 (cur s) ∧ memrepo_txs (cur s') = memrepo_txs (cur s) ∧
    explorer_meta (cur s') = explorer_meta (cur s) ∧ raw_blocks (cur s') = raw_blocks (cur s) ∧
    (∀ h, is_Some (raw_txs (cur s') !! h) ↔ h = TxHash tx ∨ is_Some (raw_txs (cur s) !! h)) ∧
    (∀ h r, raw_txs (cur s) !! h = Some r → raw_txs (cur s') !! h = Some r) ∧
    (∀ h r, raw_txs (cur s') !! h = Some r →
       raw_txs (cur s) !! h = Some r ∨ h = TxHash tx ∧ r.2 = EncodeHexTx tx).
Proof.
  unfold insertRawTx. unfold mbind, M_bind, get. cbv beta iota zeta.
  destruct (raw_txs (cur s) !! TxHash tx) as [r|] eqn:E.
  - exists s. split_and!; try done; [|by left]. intros h. split; [by right|]. intros [->|]; eauto.
  - destruct (updateOrThrowEx_run (λ d, with_raw_txs
           (<[TxHash tx := (max_tx_id (tx_shard (TxHash tx)) (raw_txs d) + 1, EncodeHexTx tx)]> (raw_txs d)) d)
        (λ _, 1) 1 s (or_intror eq_refl)) as (s' & Hr & Hc & Ht).
    exists s'. split; [exact Hr|]. rewrite Hc. simpl. split_and!; try done.
    + intros h. rewrite lookup_insert. case_decide; [subst; naive_solver|].
      split; [by right|]. intros [->|]; [done|done].
    + intros h r Hh. rewrite lookup_insert_ne; [done|]. intros <-. congruence.
    + intros h r. rewrite lookup_insert. case_decide; [|by left]. intros [= <-]. by right.
Qed.
End statements.

Lemma NoDup_fmap_inj {A B} (f : A → B) (l : list A) u v :
  NoDup (f <$> l) → u ∈ l → v ∈ l → f u = f v → u = v.
Proof.
  intros Hnd Ha Hb E. apply list_elem_of_lookup in Ha as [i Hi].
  apply list_elem_of_lookup in Hb as [j Hj].
  assert (i = j) as ->; [|congruence].
  eapply NoDup_lookup; [exact Hnd| |]; rewrite list_lookup_fmap.
  - by rewrite Hi.
  - by rewrite Hj, E.
Qed.

(** a key names one row *)
Lemma filter_key_1 {A B} `{EqDecision B} (f : A → B) (l : list A) u :
  NoDup (f <$> l) → u ∈ l → length (filter (λ v, f v = f u) l) = 1%nat.
Proof.
  induction l as [|w l IH]; [set_solver|]. rewrite fmap_cons, NoDup_cons.
  intros [Hw Hnd] Hu. rewrite filter_cons. destruct (decide (f w = f u)) as [E|E].
  - simpl. f_equal. destruct (filter (λ v, f v = f u) l) as [|v k] eqn:Ek; [done|].
    assert (v ∈ filter (λ v, f v = f u) l) as [Hv Hvl]%list_elem_of_filter by (rewrite Ek; left).
    destruct Hw. apply list_elem_of_fmap. exists v. split; [congruence|done].
  - apply IH; [done|]. apply elem_of_cons in Hu as [->|]; done.
Qed.

(** ** Raw blocks: the newest block of a height has chain id 0 *)
Section raw_blocks.
Context `{Hashing}.
Implicit Types (b x : raw_block) (l : list raw_block) (s : session).

Definition rb_key b : Z * Z := (rb_height b, rb_chain_id b).
(** the keys of the table, and chain ids that count from zero *)
Record wf_blocks l : Prop := {
  wf_id : NoDup (rb_id <$> l);
  wf_hash : NoDup (rb_hash <$> l);
  wf_key : NoDup (rb_key <$> l);
  wf_chain : Forall (λ b, 0 ≤ rb_chain_id b) l }.

(** one step up the chain ids *)
Definition bump b : raw_block :=
  {| rb_id := rb_id b; rb_hash := rb_hash b; rb_height := rb_height b;
     rb_chain_id := rb_chain_id b + 1; rb_hex := rb_hex b |}.
Definition bump_ids (ids : list Z) l : list raw_block :=
  (λ b, if bool_decide (rb_id b ∈ ids) then bump b else b) <$> l.

Lemma bump_ids_snoc ids x l :
  rb_id x ∉ ids → bump_chain (rb_id x) <$> bump_ids ids l = bump_ids (ids ++ [rb_id x]) l.
Proof.
  intros Hx. unfold bump_ids. rewrite <-list_fmap_compose. apply list_fmap_ext.
  intros i b _. simpl. unfold bump_chain.
  destruct (decide (rb_id b = rb_id x)) as [E|E].
  - rewrite (bool_decide_false (rb_id b ∈ ids)) by congruence.
    rewrite (bool_decide_true (_ ∈ ids ++ _)) by set_solver.
    rewrite E, Z.eqb_refl. by unfold bump; rewrite E.
  - assert (rb_id b ∈ ids ++ [rb_id x] ↔ rb_id b ∈ ids) as Hiff by set_solver.
    rewrite (bool_decide_ext _ _ Hiff). case_bool_decide; simpl.
    + by replace (rb_id b =? rb_id x) with false by (symmetry; by apply Z.eqb_neq).
    + by replace (rb_id b =? rb_id x) with false by (symmetry; by apply Z.eqb_neq).
Qed.

Lemma bump_ids_facts ids l :
  rb_id <$> bump_ids ids l = rb_id <$> l ∧ rb_hash <$> bump_ids ids l = rb_hash <$> l.
Proof.
  unfold bump_ids. rewrite <-!list_fmap_compose.
  split; apply list_fmap_ext; intros i b _; simpl; by case_bool_decide.
Qed.

Lemma count_id ids l x :
  NoDup (rb_id <$> l) → x ∈ l →
  Z.of_nat (length (filter (λ b, rb_id b = rb_id x) (bump_ids ids l))) = 1.
Proof.
  intros Hnd Hx. destruct (bump_ids_facts ids l) as [E _]. rewrite <-E in Hnd.
  assert (rb_id x ∈ rb_id <$> bump_ids ids l) as (y & Hy & Hyl)%list_elem_of_fmap
    by (rewrite E; by apply list_elem_of_fmap_2).
  rewrite Hy. rewrite (filter_key_1 rb_id); done.
Qed.

Lemma key_taken_spec h c d :
  key_taken h c d = true ↔ ∃ b, b ∈ raw_blocks d ∧ rb_key b = (h, c).
Proof.
  unfold key_taken. rewrite existsb_exists. setoid_rewrite <-list_elem_of_In.
  split; intros (b & Hb & Hk); exists b; (split; [done|]).
  - apply andb_true_iff in Hk as [?%Z.eqb_eq ?%Z.eqb_eq]. unfold rb_key. congruence.
  - unfold rb_key in Hk. simplify_eq. by rewrite !Z.eqb_refl.
Qed.

(** The blocks of a height are bumped from the highest chain id down, and no
    statement meets the unique key. *)
Lemma bump_height_run l sorted height s :
  wf_blocks l → raw_blocks (cur s) = l →
  sorted = merge_sort chain_ge (filter (λ b, rb_height b = height) l) →
  ∃ s', forM sorted update_chain_id s = (Done tt, s') ∧
    now_holds (with_raw_blocks (bump_ids (rb_id <$> sorted) l) (cur s)) s s'.
Proof.
  intros Hwf Hl Hsorted.
  assert (sorted ≡ₚ filter (λ b, rb_height b = height) l) as Hperm
    by (rewrite Hsorted; apply merge_sort_Permutation).
  assert (StronglySorted chain_ge sorted) as Hss.
  { rewrite Hsorted. apply StronglySorted_merge_sort.
    - intros a b c. unfold chain_ge. lia.
    - intros a b. unfold chain_ge. lia. }
  assert (∀ b, b ∈ sorted ↔ rb_height b = height ∧ b ∈ l) as Hin.
  { intros b. by rewrite Hperm, list_elem_of_filter. }
  assert (NoDup sorted) as Hnd.
  { rewrite Hperm. apply NoDup_filter. eapply NoDup_fmap_1, (wf_id _ Hwf). }
  destruct (forM_ind (λ done s', now_holds (with_raw_blocks (bump_ids (rb_id <$> done) l) (cur s)) s s')
    update_chain_id sorted s) as (s' & Hrun & Hs'); [| |by exists s'].
  - split; [|done]. subst l. unfold with_raw_blocks, bump_ids. simpl.
    rewrite list_fmap_id. by destruct (cur s).
  - intros l1 x l2 s1 Hsp [Hc Ht]. rewrite Hsp in Hnd, Hss.
    apply NoDup_app in Hnd as (Hnd1 & Hdis & Hnd2).
    assert (x ∈ l ∧ rb_height x = height) as [Hxl Hxh].
    { assert (x ∈ sorted) as Hx by (rewrite Hsp; set_solver). apply Hin in Hx. tauto. }
    assert (rb_id x ∉ rb_id <$> l1) as Hxn.
    { intros (y & Hy & Hyl)%list_elem_of_fmap.
      assert (x = y) as <-; [|by apply (Hdis x Hyl); set_solver].
      apply (NoDup_fmap_inj rb_id l); [apply Hwf|done| |done]. apply Hin. rewrite Hsp. set_solver. }
    assert (key_taken (rb_height x) (rb_chain_id x + 1) (cur s1) = false) as Hfree.
    { apply not_true_is_false. intros (b' & Hb & Hk)%key_taken_spec. rewrite Hc in Hb. simpl in Hb.
      apply list_elem_of_fmap in Hb as (b & -> & Hbl). unfold rb_key in Hk.
      case_bool_decide as Hbi; simpl in Hk; injection Hk as Hk1 Hk2.
      - assert (b = x) as ->.
        { apply (NoDup_fmap_inj rb_key l); [apply Hwf|done|done|]. unfold rb_key. f_equal; lia. }
        apply list_elem_of_fmap in Hbi as (y & Hy & Hyl). apply Hxn, list_elem_of_fmap. eauto.
      - assert (b ∈ l2) as Hb2.
        { assert (b ∈ sorted) as Hb by (apply Hin; split; [lia|done]). rewrite Hsp, elem_of_app, elem_of_cons in Hb.
          destruct Hb as [Hb|[->|Hb]]; [|lia|done].
          destruct Hbi. apply list_elem_of_fmap. eauto. }
        apply StronglySorted_app_1_r in Hss. apply StronglySorted_inv in Hss as [_ Hf].
        rewrite Forall_forall in Hf. specialize (Hf b Hb2). unfold chain_ge in Hf. lia. }
    destruct (updateOrThrowEx_run (λ d, with_raw_blocks (bump_chain (rb_id x) <$> raw_blocks d) d)
      (λ d, Z.of_nat (length (filter (λ b, rb_id b = rb_id x) (raw_blocks d)))) 1 s1)
      as (s2 & Hr & Hc2 & Ht2).
    { right. rewrite Hc. simpl. apply count_id; [apply Hwf|done]. }
    exists s2. split.
    + unfold update_chain_id, mbind, M_bind, get. cbv beta iota. by rewrite Hfree.
    + split; [|congruence]. rewrite Hc2, Hc, fmap_app. unfold with_raw_blocks. simpl.
      by rewrite bump_ids_snoc.
Qed.

(** the table after a new block of a height *)
Definition bump_height (height : Z) l : list raw_block :=
  (λ b, if rb_height b =? height then bump b else b) <$> l.
Definition new_block (blk : CBlock) (height : Z) (d : database) : raw_block :=
  {| rb_id := next_block_id d; rb_hash := BlockHash blk; rb_height := height; rb_chain_id := 0;
     rb_hex := EncodeHexBlock blk |}.

Lemma bump_ids_height l sorted height :
  NoDup (rb_id <$> l) → (∀ b, b ∈ sorted ↔ rb_height b = height ∧ b ∈ l) →
  bump_ids (rb_id <$> sorted) l = bump_height height l.
Proof.
  intros Hnd Hin. unfold bump_ids, bump_height. apply list_fmap_ext. intros i b Hb.
  apply list_elem_of_lookup_2 in Hb. destruct (Z.eqb_spec (rb_height b) height) as [E|E].
  - rewrite bool_decide_true; [done|]. apply list_elem_of_fmap_2. by apply Hin.
  - rewrite bool_decide_false; [done|]. intros (y & Hy & Hys)%list_elem_of_fmap.
    apply Hin in Hys as [Hyh Hyl].
    by rewrite (NoDup_fmap_inj rb_id l b y Hnd Hb Hyl Hy) in E.
Qed.

Lemma next_block_id_above d b : b ∈ raw_blocks d → rb_id b < next_block_id d.
Proof.
  unfold next_block_id. induction (raw_blocks d) as [|x l IH]; [set_solver|].
  intros [->|Hb]%elem_of_cons; simpl; [lia|]. specialize (IH Hb). lia.
Qed.

Lemma next_block_id_ids d d' : rb_id <$> raw_blocks d = rb_id <$> raw_blocks d' →
  next_block_id d = next_block_id d'.
Proof.
  unfold next_block_id. intros E. f_equal.
  assert (∀ l, foldr (λ b m, Z.max (rb_id b) m) 0 l = foldr Z.max 0 (rb_id <$> l)) as Hf
    by (induction l as [|b l IH]; [done|]; simpl; by rewrite IH).
  by rewrite !Hf, E.
Qed.

Lemma find_raw_block_None h d : find_raw_block h d = None ↔ h ∉ rb_hash <$> raw_blocks d.
Proof.
  unfold find_raw_block. induction (raw_blocks d) as [|x l IH]; simpl; [set_solver|].
  rewrite not_elem_of_cons. destruct (Z.eqb_spec (rb_hash x) h); [naive_solver|].
  rewrite IH. naive_solver.
Qed.

Lemma bump_height_keys height l :
  Forall (λ b, 0 ≤ rb_chain_id b) l → NoDup (rb_key <$> l) →
  NoDup (rb_key <$> bump_height height l) ∧ (height, 0) ∉ rb_key <$> bump_height height l.
Proof.
  intros Hch Hnd. unfold bump_height. split.
  - rewrite <-list_fmap_compose.
    replace ((rb_key ∘ λ b, if rb_height b =? height then bump b else b) <$> l)
      with ((λ k : Z * Z, if k.1 =? height then (k.1, k.2 + 1) else k) <$> (rb_key <$> l)).
    + apply (NoDup_fmap_2_strong (λ k : Z * Z, if k.1 =? height then (k.1, k.2 + 1) else k)); [|done].
      intros [h1 c1] [h2 c2] _ _. simpl.
      destruct (Z.eqb_spec h1 height), (Z.eqb_spec h2 height); intros E; injection E as E1 E2;
        f_equal; lia.
    + rewrite <-list_fmap_compose. apply list_fmap_ext. intros i b _. simpl.
      by destruct (rb_height b =? height).
  - intros (b & Hk & Hb)%list_elem_of_fmap. apply list_elem_of_fmap in Hb as (c & -> & Hc).
    rewrite Forall_forall in Hch. specialize (Hch c Hc). unfold rb_key in Hk.
    destruct (Z.eqb_spec (rb_height c) height); simpl in Hk; injection Hk as Hk1 Hk2; lia.
Qed.

Lemma bump_height_facts height l :
  rb_id <$> bump_height height l = rb_id <$> l ∧ rb_hash <$> bump_height height l = rb_hash <$> l ∧
  (Forall (λ b, 0 ≤ rb_chain_id b) l → Forall (λ b, 0 ≤ rb_chain_id b) (bump_height height l)).
Proof.
  unfold bump_height. rewrite <-!list_fmap_compose.
  split; [|split]; [apply list_fmap_ext; intros i b _; simpl; by destruct (_ =? _)..|].
  intros Hf. apply Forall_fmap. apply (Forall_impl _ _ _ Hf). intros b Hb. simpl.
  destruct (_ =? _); simpl; lia.
Qed.

Lemma wf_insert_block blk height d :
  wf_blocks (raw_blocks d) → find_raw_block (BlockHash blk) d = None →
  wf_blocks (bump_height height (raw_blocks d) ++ [new_block blk height d]).
Proof.
  intros Hwf Hno. destruct (bump_height_facts height (raw_blocks d)) as (Ei & Eh & Hch).
  destruct (bump_height_keys height (raw_blocks d)) as [Hk Hk0]; [apply Hwf..|].
  split; rewrite ?fmap_app, ?Ei, ?Eh.
  - apply NoDup_app. split_and!; [apply Hwf| |apply NoDup_singleton].
    intros i (b & E & Hb)%list_elem_of_fmap Hi%list_elem_of_singleton.
    apply next_block_id_above in Hb. cbn [rb_id new_block] in Hi. lia.
  - apply NoDup_app. split_and!; [apply Hwf| |apply NoDup_singleton].
    intros h Hh ->%list_elem_of_singleton. by apply find_raw_block_None in Hno.
  - apply NoDup_app. split_and!; [done| |apply NoDup_singleton].
    intros k Hh ->%list_elem_of_singleton. by apply Hk0.
  - apply Forall_app. split; [apply Hch, Hwf|]. by repeat constructor.
Qed.

Lemma insertRawBlock_run blk height s :
  wf_blocks (raw_blocks (cur s)) →
  match find_raw_block (BlockHash blk) (cur s) with
  | Some r =>
      insertRawBlock blk height s =
        (if rb_height r =? height then Done (rb_id r) else Raise AssertFail, s)
  | None =>
      ∃ s', insertRawBlock blk height s = (Done (next_block_id (cur s)), s') ∧
        cur s' = with_raw_blocks
          (bump_height height (raw_blocks (cur s)) ++ [new_block blk height (cur s)]) (cur s) ∧
        wf_blocks (raw_blocks (cur s')) ∧ in_tx s' = in_tx s
  end.
Proof.
  intros Hwf. destruct (find_raw_block _ _) as [r|] eqn:Hfind.
  - unfold insertRawBlock, mbind, M_bind, get. cbv beta iota zeta. rewrite Hfind.
    unfold assertM. by destruct (rb_height r =? height).
  - destruct (bump_height_run (raw_blocks (cur s)) _ height s Hwf eq_refl eq_refl)
      as (s1 & Hrun & Hc1 & Ht1).
    rewrite (bump_ids_height _ _ height) in Hc1; [|apply Hwf|].
    2: { intros b. by rewrite merge_sort_Permutation, list_elem_of_filter. }
    destruct (bump_height_facts height (raw_blocks (cur s))) as (Ei & _ & _).
    assert (next_block_id (cur s1) = next_block_id (cur s)) as Hid
      by (apply next_block_id_ids; by rewrite Hc1).
    assert (key_taken height 0 (cur s1) = false) as Hfree.
    { apply not_true_is_false. intros (b & Hb & Hk)%key_taken_spec. rewrite Hc1 in Hb.
      destruct (bump_height_keys height (raw_blocks (cur s))) as [_ Hk0]; [apply Hwf..|].
      apply Hk0, list_elem_of_fmap. exists b. done. }
    set (new := {| rb_id := next_block_id (cur s1); rb_hash := BlockHash blk; rb_height := height;
                   rb_chain_id := 0; rb_hex := EncodeHexBlock blk |}).
    destruct (updateOrThrowEx_run (λ d, with_raw_blocks (raw_blocks d ++ [new]) d) (λ _, 1) 1 s1)
      as (s2 & Hr2 & Hc2 & Ht2); [by right|].
    exists s2. rewrite Hc2, Hc1. unfold new, new_block. simpl. rewrite Hid.
    split_and!; [|done|by apply wf_insert_block|congruence].
    unfold insertRawBlock. rewrite (bind_Done get _ s s s eq_refl). cbv zeta. rewrite Hfind.
    rewrite (bind_Done _ _ _ _ _ Hrun), (bind_Done get _ s1 s1 s1 eq_refl). cbv zeta. rewrite Hfree.
    rewrite (bind_Done _ _ _ _ _ Hr2). by rewrite Hid.
Qed.
(** [insertRawBlock] keeps the keys of the table of raw blocks unique and
    leaves the newest block of each height with chain id 0: a block that is not
    stored is added with chain id 0 after the blocks of its height have moved up
    by one, no statement of the series fails on the unique key, and the other
    heights are untouched.  A stored block is found by its hash and nothing is
    written; if it was stored under another height the assertion fails. *)
Theorem insertRawBlock_correct blk height s :
  wf_blocks (raw_blocks (cur s)) →
  match find_raw_block (BlockHash blk) (cur s) with
  | Some r =>
      insertRawBlock blk height s =
        (if rb_height r =? height then Done (rb_id r) else Raise AssertFail, s)
  | None =>
      ∃ s', insertRawBlock blk height s = (Done (next_block_id (cur s)), s') ∧
        raw_blocks (cur s') =
          bump_height height (raw_blocks (cur s)) ++ [new_block blk height (cur s)] ∧
        wf_blocks (raw_blocks (cur s')) ∧ in_tx s' = in_tx s
  end.
Proof.
  intros Hwf. pose proof (insertRawBlock_run blk height s Hwf) as Hr.
  destruct (find_raw_block _ _); [done|]. destruct Hr as (s' & Hr & Hc & Hw & Ht).
  exists s'. split_and!; [done|by rewrite Hc|done|done].
Qed.
End raw_blocks.

Module DbDemo.
(** two blocks of height 7, the newer one with chain id 0, and one of height 8 *)
Definition rows : list raw_block :=
  [ {| rb_id := 1; rb_hash := 71; rb_height := 7; rb_chain_id := 1; rb_hex := lit "00" |};
    {| rb_id := 2; rb_hash := 72; rb_height := 7; rb_chain_id := 0; rb_hex := lit "01" |};
    {| rb_id := 3; rb_hash := 81; rb_height := 8; rb_chain_id := 0; rb_hex := lit "02" |} ].
Definition db : database :=
  {| txlogs2 := []; memrepo_txs := []; explorer_meta := None; raw_blocks := rows; raw_txs := ∅ |}.
Definition start : session := {| cur := db; in_tx := false; durable := [db] |}.
End DbDemo.

Lemma insertRawBlock_correct_witness :
  wf_blocks DbDemo.rows ∧
  (∃ s', insertRawBlock (H := Demo.hashing) (Demo.block 73 72 1000 []) 7 DbDemo.start = (Done 4, s') ∧
     rb_chain_id <$> raw_blocks (cur s') = [2; 1; 0; 0] ∧ wf_blocks (raw_blocks (cur s'))).
Proof.
  assert (wf_blocks DbDemo.rows) as Hwf.
  { split; [..|repeat constructor; simpl; lia]; apply (bool_decide_unpack _); vm_compute; exact I. }
  split; [exact Hwf|].
  destruct (insertRawBlock_correct (H := Demo.hashing) (Demo.block 73 72 1000 []) 7 DbDemo.start Hwf)
    as (s' & Hr & Hl & Hw & _).
  exists s'. split; [exact Hr|]. split; [rewrite Hl; reflexivity|exact Hw].
Defined.
