(* ===== verification/Log2.v ===== *)
(** * log2producer (src/jiexi/src/Log2Producer.cc, class Log2Producer)

    Each log1 record is turned into rows of 0_txlogs2: accept, confirm,
    unconfirm and reject events.  Rows are inserted under the batch id -1 and
    become visible to the parser when [commitBatch] gives them the next batch id,
    in one transaction with the pool table and the log1 cursor. *)
From S2P Require Import Prelude Tx Bytes Serialize LogFiles Log1 TxState BlockTs MemRepo Db.

Record Log2Producer := {
  memRepo_ : MemTxRepository;
  blkTs_ : BlockTimestamp;
  currBlockHeight_ : Z;
  currBlockHash_ : uint256;
  log1_ : follower;                   (** log1Dir_/files, log1FileIndex_, log1FileOffset_ *)
  currLog1FileOffset_ : Z;
  static_log1FileIndex : Z;           (** the static variables of updateLog1FileStatus *)
  static_currLog1FileOffset : Z;
  db_ : session }.

Definition with_memRepo (r : MemTxRepository) (s : Log2Producer) : Log2Producer :=
  {| memRepo_ := r; blkTs_ := blkTs_ s; currBlockHeight_ := currBlockHeight_ s;
     currBlockHash_ := currBlockHash_ s; log1_ := log1_ s;
     currLog1FileOffset_ := currLog1FileOffset_ s;
     static_log1FileIndex := static_log1FileIndex s;
     static_currLog1FileOffset := static_currLog1FileOffset s; db_ := db_ s |}.
Definition with_blkTs (t : BlockTimestamp) (s : Log2Producer) : Log2Producer :=
  {| memRepo_ := memRepo_ s; blkTs_ := t; currBlockHeight_ := currBlockHeight_ s;
     currBlockHash_ := currBlockHash_ s; log1_ := log1_ s;
     currLog1FileOffset_ := currLog1FileOffset_ s;
     static_log1FileIndex := static_log1FileIndex s;
     static_currLog1FileOffset := static_currLog1FileOffset s; db_ := db_ s |}.
Definition with_curr (height : Z) (hash : uint256) (s : Log2Producer) : Log2Producer :=
  {| memRepo_ := memRepo_ s; blkTs_ := blkTs_ s; currBlockHeight_ := height;
     currBlockHash_ := hash; log1_ := log1_ s;
     currLog1FileOffset_ := currLog1FileOffset_ s;
     static_log1FileIndex := static_log1FileIndex s;
     static_currLog1FileOffset := static_currLog1FileOffset s; db_ := db_ s |}.
Definition with_log1 (r : follower) (s : Log2Producer) : Log2Producer :=
  {| memRepo_ := memRepo_ s; blkTs_ := blkTs_ s; currBlockHeight_ := currBlockHeight_ s;
     currBlockHash_ := currBlockHash_ s; log1_ := r;
     currLog1FileOffset_ := currLog1FileOffset_ s;
     static_log1FileIndex := static_log1FileIndex s;
     static_currLog1FileOffset := static_currLog1FileOffset s; db_ := db_ s |}.
Definition with_offset (off : Z) (s : Log2Producer) : Log2Producer :=
  {| memRepo_ := memRepo_ s; blkTs_ := blkTs_ s; currBlockHeight_ := currBlockHeight_ s;
     currBlockHash_ := currBlockHash_ s; log1_ := log1_ s; currLog1FileOffset_ := off;
     static_log1FileIndex := static_log1FileIndex s;
     static_currLog1FileOffset := static_currLog1FileOffset s; db_ := db_ s |}.
Definition with_static (i off : Z) (s : Log2Producer) : Log2Producer :=
  {| memRepo_ := memRepo_ s; blkTs_ := blkTs_ s; currBlockHeight_ := currBlockHeight_ s;
     currBlockHash_ := currBlockHash_ s; log1_ := log1_ s;
     currLog1FileOffset_ := currLog1FileOffset_ s; static_log1FileIndex := i;
     static_currLog1FileOffset := off; db_ := db_ s |}.
Definition with_db (d : session) (s : Log2Producer) : Log2Producer :=
  {| memRepo_ := memRepo_ s; blkTs_ := blkTs_ s; currBlockHeight_ := currBlockHeight_ s;
     currBlockHash_ := currBlockHash_ s; log1_ := log1_ s;
     currLog1FileOffset_ := currLog1FileOffset_ s;
     static_log1FileIndex := static_log1FileIndex s;
     static_currLog1FileOffset := static_currLog1FileOffset s; db_ := d |}.

Abbreviation on_repo := (zoom memRepo_ with_memRepo).
Abbreviation on_ts := (zoom blkTs_ with_blkTs).
Abbreviation on_db := (zoom db_ with_db).

(** a row of the batch under construction *)
Definition row (type height blockId ts : Z) (h : uint256) : txlog :=
  {| batch_id := -1; log_type := type; block_height := height; block_id := blockId;
     max_block_timestamp := ts; tx_hash := h |}.
Definition reject_row (h : uint256) : txlog := row LOG2TYPE_TX_REJECT (-1) (-1) 0 h.

(** IFNULL(MAX(batch_id), 0) + 1 *)
Definition next_batch_id (d : database) : Z :=
  match batch_id <$> txlogs2 d with
  | [] => 1
  | b :: l => foldr Z.max b l + 1
  end.

Section log2.
Context `{Hashing}.
Variable now : bytes.

(** [MemTxRepository::syncToDB] *)
Definition syncToDB : M Log2Producer unit :=
  s ← get;
  (if Nat.eqb (size (unSyncTxsInsert_ (memRepo_ s))) 0 then mret tt
   else on_db (sync_inserts now (set_items Z.le (unSyncTxsInsert_ (memRepo_ s)))) ;;
        on_repo (modify (with_insert ∅))) ;;
  (if Nat.eqb (size (unSyncTxsDelete_ (memRepo_ s))) 0 then mret tt
   else on_db (sync_deletes (set_items Z.le (unSyncTxsDelete_ (memRepo_ s)))) ;;
        on_repo (modify (with_delete ∅))).

Definition meta_rows (d : database) : Z := if explorer_meta d then 1 else 0.

Definition updateLog1FileStatus : M Log2Producer unit :=
  s ← get;
  let idx := f_idx (log1_ s) in
  (if negb (static_log1FileIndex s =? idx) then
     on_db (updateOrThrowEx
       (λ d, with_meta ((λ m, (idx, m.2)) <$> explorer_meta d) d) meta_rows 0) ;;
     modify (λ s, with_static idx (static_currLog1FileOffset s) s)
   else mret tt) ;;
  (if negb (static_currLog1FileOffset s =? currLog1FileOffset_ s) then
     on_db (updateOrThrowEx
       (λ d, with_meta ((λ m, (m.1, currLog1FileOffset_ s)) <$> explorer_meta d) d) meta_rows 1) ;;
     modify (λ s, with_static (static_log1FileIndex s) (currLog1FileOffset_ s) s)
   else mret tt).

Definition commitBatch (expectAffectedRows : nat) : M Log2Producer unit :=
  s ← get;
  let nextBatchID := next_batch_id (cur (db_ s)) in
  on_db start_transaction ;;
  on_db (updateOrThrowEx
    (λ d, with_txlogs2
       ((λ r, if batch_id r =? -1
              then {| batch_id := nextBatchID; log_type := log_type r;
                      block_height := block_height r; block_id := block_id r;
                      max_block_timestamp := max_block_timestamp r; tx_hash := tx_hash r |}
              else r) <$> txlogs2 d) d)
    (λ d, Z.of_nat (length (filter (λ r, batch_id r = -1) (txlogs2 d))))
    (i32 (Z.of_nat expectAffectedRows))) ;;
  syncToDB ;;
  updateLog1FileStatus ;;
  on_db commit.

Definition handleTxAccept (log1Item : Log1) : M Log2Producer unit :=
  tx ← lift_outcome (getTx log1Item).1;
  let hash := TxHash tx in
  s ← get;
  if isExist hash (memRepo_ s) then mret tt
  else
    res ← on_repo (addTx tx);
    if negb res then mret tt
    else
      on_db (insertRawTx tx) ;;
      s ← get;
      on_db start_transaction ;;
      on_db (updateOrThrowEx
        (λ d, insert_txlogs [ {| batch_id := next_batch_id d; log_type := LOG2TYPE_TX_ACCEPT;
           block_height := -1; block_id := -1;
           max_block_timestamp := getMaxTimestamp (blkTs_ s); tx_hash := hash |} ] d) (λ _, 1) 1) ;;
      syncToDB ;;
      updateLog1FileStatus ;;
      on_db commit.

Definition handleTxReject (log1Item : Log1) : M Log2Producer unit :=
  tx ← lift_outcome (getTx log1Item).1;
  let hash := TxHash tx in
  s ← get;
  if negb (isExist hash (memRepo_ s)) then mret tt
  else
    on_db (insertRawTx tx) ;;
    removeHashes ← on_repo (removeTxAndChildTx tx);
    let values := reject_row <$> removeHashes in
    on_db (insert_log_rows now values) ;;
    commitBatch (length values).

(** [while (memRepo_.addTx(tx) == false)]: evict one conflicting leaf each time *)
Fixpoint evict_loop (fuel : nat) (tx : CTransaction) (conflictTxs : list uint256) :
    M MemTxRepository (list uint256) :=
  match fuel with
  | O => raise Diverge
  | S fuel =>
      ok ← addTx tx;
      if (ok : bool) then mret conflictTxs
      else
        conflictTx ← getConflictTx tx;
        assertM (negb (conflictTx =? TxHash tx)) ;;
        removeTx conflictTx ;;
        evict_loop fuel tx (conflictTxs ++ [conflictTx])
  end.

(** what the pass over the block collects *)
Record pass := {
  txHashs : list uint256;
  alreadyInMemTxHashs : gset uint256;
  conflictTxs : list uint256 }.

Fixpoint accept_pass (vtx : list CTransaction) (a : pass) : M MemTxRepository pass :=
  match vtx with
  | [] => mret a
  | tx :: vtx =>
      if IsCoinBase tx then accept_pass vtx a
      else
        let txhash := TxHash tx in
        let hs := txHashs a ++ [txhash] in
        r ← get;
        if isExist txhash r then
          accept_pass vtx {| txHashs := hs;
            alreadyInMemTxHashs := {[txhash]} ∪ alreadyInMemTxHashs a;
            conflictTxs := conflictTxs a |}
        else
          cs ← evict_loop (S (repo_size r)) tx (conflictTxs a);
          accept_pass vtx {| txHashs := hs; alreadyInMemTxHashs := alreadyInMemTxHashs a;
            conflictTxs := cs |}
  end.

Definition handleBlockAccept (log1Item : Log1) : M Log2Producer unit :=
  blk ← lift_outcome (getBlock log1Item).1;
  let height := blockHeight_ log1Item in
  on_ts (pushBlock height (GetBlockTime blk)) ;;
  a ← on_repo (accept_pass (vtx blk)
        {| txHashs := []; alreadyInMemTxHashs := ∅; conflictTxs := [] |});
  (if Nat.eqb (length (conflictTxs a)) 0 then mret tt
   else assertM (Nat.eqb (size (list_to_set (conflictTxs a) : gset uint256))
                         (length (conflictTxs a)))) ;;
  on_repo (removeTxs (txHashs a)) ;;
  blockId ← on_db (insertRawBlock blk height);
  forM (vtx blk) (λ tx, on_db (insertRawTx tx)) ;;
  s ← get;
  let ts := getMaxTimestamp (blkTs_ s) in
  let values :=
    (reject_row <$> conflictTxs a) ++
    flat_map (λ tx,
      let txhash := TxHash tx in
      (if bool_decide (txhash ∈ alreadyInMemTxHashs a) then []
       else [row LOG2TYPE_TX_ACCEPT (-1) (-1) ts txhash]) ++
      [row LOG2TYPE_TX_CONFIRM height blockId ts txhash]) (vtx blk) in
  on_db (insert_log_rows now values) ;;
  commitBatch (length values).

(** [while (memRepo_.size() > 0)] *)
Fixpoint clear_loop (fuel : nat) (values : list uint256) : M MemTxRepository (list uint256) :=
  match fuel with
  | O => raise Diverge
  | S fuel =>
      r ← get;
      if Nat.eqb (repo_size r) 0 then mret values
      else hash ← removeTx_any; clear_loop fuel (values ++ [hash])
  end.

Definition clearMempoolTxs : M Log2Producer unit :=
  s ← get;
  hashes ← on_repo (clear_loop (S (repo_size (memRepo_ s))) []);
  let values := reject_row <$> hashes in
  s ← get;
  assertM (Nat.eqb (repo_size (memRepo_ s)) 0) ;;
  on_db (insert_log_rows now values) ;;
  commitBatch (length values) ;;
  s ← get;
  if negb (Nat.eqb (length (memrepo_txs (cur (db_ s)))) 0)
  then raise (Throw "table.0_memrepo_txs SHOULD be empty") else mret tt.

(** the transactions go back to the pool, last first *)
Definition rollback_pass (vtx : list CTransaction) : M MemTxRepository unit :=
  forM (reverse vtx) (λ tx,
    if IsCoinBase tx then mret tt
    else ok ← addTx tx;
         if negb ok then raise (Throw "thare are conflict txs, should not happened") else mret tt).

Definition handleBlockRollback (height : Z) (blk : CBlock) : M Log2Producer unit :=
  on_repo (rollback_pass (vtx blk)) ;;
  blockId ← on_db (insertRawBlock blk height);
  s ← get;
  let ts := getMaxTimestamp (blkTs_ s) in
  match head (vtx blk) with
  | None => raise Undefined
  | Some coinbase =>
      let values :=
        ((λ tx, row LOG2TYPE_TX_UNCONFIRM height blockId ts (TxHash tx)) <$> reverse (vtx blk)) ++
        [row LOG2TYPE_TX_REJECT height blockId ts (TxHash coinbase)] in
      on_ts popBlock ;;
      on_db (insert_log_rows now values) ;;
      commitBatch (length values)
  end.

Definition getBlockByHash (h : uint256) : M Log2Producer CBlock :=
  s ← get;
  match find_raw_block h (cur (db_ s)) with
  | None => raise AssertFail
  | Some r =>
      match DecodeHexBlk (rb_hex r) with
      | None => raise (Throw "decode block fail")
      | Some b => mret b
      end
  end.

Definition handleBlock (log1Item : Log1) : M Log2Producer unit :=
  s ← get;
  let h := blockHeight_ log1Item in
  (if currBlockHeight_ s <? h then
     assertM (h =? currBlockHeight_ s + 1) ;;
     handleBlockAccept log1Item
   else if h <? currBlockHeight_ s then
     assertM (h + 1 =? currBlockHeight_ s) ;;
     currBlock ← getBlockByHash (currBlockHash_ s);
     b ← lift_outcome (getBlock log1Item).1;
     assertM (hashPrevBlock (header currBlock) =? BlockHash b) ;;
     handleBlockRollback (currBlockHeight_ s) currBlock
   else raise (Throw "block are same height")) ;;
  b ← lift_outcome (getBlock log1Item).1;
  modify (with_curr h (BlockHash b)).

(** one line of log1, the body of the loop in [run] *)
Definition handle_log1 (line : bytes * Z) : M Log2Producer unit :=
  modify (with_offset line.2) ;;
  u ← lift_outcome (parse line.1 newLog1).1;
  let log1Item := (parse line.1 newLog1).2 in
  if isAcceptTx log1Item then handleTxAccept log1Item
  else if isRemoveTx log1Item then handleTxReject log1Item
  else if isBlock log1Item then handleBlock log1Item
  else if isClearMemtxs log1Item then clearMempoolTxs
  else raise (Throw "invalid log1 type").

(** one turn of [run]: true when it slept for want of lines *)
Definition run_once (log1_files_max_num : Z) : M Log2Producer bool :=
  lines ← zoom log1_ with_log1 (tryReadLog1 log1_files_max_num);
  if Nat.eqb (length lines) 0 then mret true
  else forM lines handle_log1 ;; mret false.

(** [initLog2], the parts that work on MySQL: drop the unfinished batch, reload
    the pool from its table. *)
Definition drop_unfinished : M session unit :=
  statement (λ d, with_txlogs2 (filter (λ r, batch_id r ≠ -1) (txlogs2 d)) d).
Definition loadMemrepoTxs : M Log2Producer unit :=
  s ← get;
  forM (memrepo_txs (cur (db_ s))) (λ h,
    txHex ← on_db (getTxHexByHash h);
    match DecodeHexTx txHex with
    | None => raise (Throw "decode tx failure")
    | Some tx =>
        ok ← on_repo (addTx tx);
        if negb ok then raise (Throw "add tx to mem repo fail") else mret tt
    end) ;;
  on_repo ignoreUnsyncData.

(** [syncLog1]: the cursor of the last commit *)
Definition syncLog1 : M Log2Producer unit :=
  modify (λ s, with_log1 {| f_files := f_files (log1_ s);
    f_idx := match explorer_meta (cur (db_ s)) with Some (i, _) => i | None => 0 end;
    f_off := match explorer_meta (cur (db_ s)) with Some (_, o) => o | None => 0 end |} s).

(** [checkEnvironment], the rows of 0_explorer_meta *)
Definition checkMeta : M session unit :=
  s ← get;
  match explorer_meta (cur s) with
  | Some _ => mret tt
  | None => updateOrThrowEx (with_meta (Some (0, 0))) (λ _, 2) 2
  end.
End log2.

(** A state between two lines: the pool 10 <- 20 <- 30, 10 <- 25 of [MemRepo],
    accepted in that order, on top of block 72 at height 7. *)
Module Log2Demo.
Definition accepted (b : Z) (h : uint256) : txlog :=
  {| batch_id := b; log_type := LOG2TYPE_TX_ACCEPT; block_height := -1; block_id := -1;
     max_block_timestamp := 500; tx_hash := h |}.
(** the transactions of the example: the pool, a rival of 20, one that spends
    25, and a coinbase *)
Definition txs : list CTransaction :=
  [ Demo.tx 10 [(1, 0)] 2; Demo.tx 20 [(10, 0)] 1; Demo.tx 30 [(20, 0)] 1; Demo.tx 25 [(10, 1)] 1;
    Demo.tx 21 [(10, 0)] 1; Demo.tx 40 [(25, 0)] 1; Demo.coinbase 900 ].
Definition body (h : uint256) : CTransaction := default nullTx (List.find (λ t, nLockTime t =? h) txs).
Definition stored (i h : Z) : uint256 * (Z * bytes) := (h, (i, EncodeHexTx (body h))).
Definition db : database :=
  {| txlogs2 := [accepted 1 10; accepted 2 20; accepted 3 30; accepted 4 25];
     memrepo_txs := [10; 20; 30; 25]; explorer_meta := Some (0, 99); raw_blocks := DbDemo.rows;
     raw_txs := list_to_map [stored 1 10; stored 1 20; stored 1 30; stored 1 25] |}.
Definition state : Log2Producer :=
  {| memRepo_ := snd (ignoreUnsyncData demo_pool);
     blkTs_ := snd (pushBlock 7 500 (newBlockTimestamp 4032));
     currBlockHeight_ := 7; currBlockHash_ := 72;
     log1_ := {| f_files := ∅; f_idx := 0; f_off := 120 |}; currLog1FileOffset_ := 99;
     static_log1FileIndex := 0; static_currLog1FileOffset := 99;
     db_ := {| cur := db; in_tx := false; durable := [db] |} |}.
End Log2Demo.
