(* ===== verification/Crash.v ===== *)
(** * What a crash of log2producer leaves behind

    Log2Producer.cc writes the rows of a batch, raw transactions and raw blocks
    outside a transaction, and publishes the batch together with the pool table
    and the log1 cursor inside one.  The session of [Db] records every state
    MySQL would recover to; here the published part of those states is followed
    through a whole handler, whether it completes or throws half way. *)
From S2P Require Import Prelude Tx Bytes Serialize LogFiles Log1 TxState BlockTs MemRepo Db Log2.

(** What the parser and a restart read: the rows with a batch id, the pool table
    and the cursor.  Unfinished rows and raw data are not part of it. *)
Definition core (d : database) : list txlog * list uint256 * option (Z * Z) :=
  (filter (λ r, batch_id r ≠ -1) (txlogs2 d), memrepo_txs d, explorer_meta d).


(** ** Relations between the session before and after a computation *)

(** outside a transaction: every state on disk shows the same published part *)
Definition quiet (a b : session) : Prop :=
  in_tx a = false →
  in_tx b = false ∧ core (cur b) = core (cur a) ∧
  ∃ new, durable b = new ++ durable a ∧ Forall (λ d, core d = core (cur a)) new.
(** inside a transaction: nothing reaches the disk *)
Definition silent (a b : session) : Prop :=
  in_tx a = true → in_tx b = true ∧ durable b = durable a.
(** Old published states, then new ones; the transaction is over if the
    computation completed ([done]). *)
Definition atomic (done : bool) (a b : session) : Prop :=
  in_tx a = false →
  (done = true → in_tx b = false) ∧
  ∃ pre post, durable b = post ++ pre ++ durable a ∧
    Forall (λ d, core d = core (cur a)) pre ∧ Forall (λ d, core d = core (cur b)) post ∧
    (in_tx b = false → post = [] → core (cur b) = core (cur a)) ∧
    (in_tx b = true → post = []).

#[export] Instance quiet_preorder : PreOrder quiet.
Proof.
  split.
  - intros a Ha. split_and!; [done|done|]. exists []. done.
  - intros a b c Hab Hbc Ha. destruct (Hab Ha) as (Hb & Ec & n1 & Hd1 & Hf1).
    destruct (Hbc Hb) as (Hc & Ec2 & n2 & Hd2 & Hf2). split_and!; [done|congruence|].
    exists (n2 ++ n1). split; [by rewrite Hd2, Hd1, <-app_assoc|].
    apply Forall_app. split; [|done]. apply (Forall_impl _ _ _ Hf2). intros d ->. done.
Qed.
#[export] Instance silent_preorder : PreOrder silent.
Proof.
  split; [done|]. intros a b c Hab Hbc Ha. destruct (Hab Ha) as [Hb Ed].
  destruct (Hbc Hb) as [Hc Ed2]. split; congruence.
Qed.

Lemma quiet_atomic done a b : quiet a b → atomic done a b.
Proof.
  intros Hq Ha. destruct (Hq Ha) as (Hb & Ec & new & Hd & Hf). split; [done|].
  exists new, []. split_and!; [done|done|constructor|done|done].
Qed.

Lemma atomic_quiet_l done a b c : quiet a b → atomic done b c → atomic done a c.
Proof.
  intros Hq Hat Ha. destruct (Hq Ha) as (Hb & Ec & new & Hd & Hf).
  destruct (Hat Hb) as (Hdone & pre & post & Hd2 & Hpre & Hpost & Hsame & Htx). split; [done|].
  exists (pre ++ new), post. split_and!; [by rewrite Hd2, Hd, <-app_assoc| |done| |done].
  - apply Forall_app. split; [|done]. apply (Forall_impl _ _ _ Hpre). intros d ->. done.
  - intros H1 H2. rewrite Hsame; done.
Qed.

Lemma atomic_quiet_r done a b c : atomic true a b → quiet b c → atomic done a c.
Proof.
  intros Hat Hq Ha. destruct (Hat Ha) as (Hdone & pre & post & Hd & Hpre & Hpost & Hsame & Htx).
  destruct (Hq (Hdone eq_refl)) as (Hc & Ec & new & Hd2 & Hf). split; [done|].
  destruct post as [|p post].
  - specialize (Hsame (Hdone eq_refl) eq_refl). exists (new ++ pre), [].
    split_and!; [by rewrite Hd2, Hd, <-app_assoc| |constructor|congruence|done].
    apply Forall_app. split; [|done]. apply (Forall_impl _ _ _ Hf). intros d ->. done.
  - exists pre, (new ++ p :: post). rewrite Ec.
    split_and!; [by rewrite Hd2, Hd, <-!app_assoc|done|by apply Forall_app|by destruct new|congruence].
Qed.

(** ** The statements *)
Lemma quiet_statement f : (∀ d, core (f d) = core d) → Keeps quiet id (statement f).
Proof.
  intros Hf s r s' [= _ <-] Hs. unfold id in *. simpl. rewrite Hs. split_and!; [done|apply Hf|].
  exists [f (cur s)]. split; [done|]. by repeat constructor.
Qed.
Lemma silent_statement f : Keeps silent id (statement f).
Proof. intros s r s' [= _ <-] Hs. unfold id in *. simpl. by rewrite Hs. Qed.
#[export] Hint Resolve silent_statement : keeps.

Lemma quiet_update f affected expected :
  (∀ d, core (f d) = core d) → Keeps quiet id (updateOrThrowEx f affected expected).
Proof.
  intros Hf. unfold updateOrThrowEx. pose proof (quiet_statement f Hf). keeps_tac.
Qed.
Lemma silent_update f affected expected : Keeps silent id (updateOrThrowEx f affected expected).
Proof. unfold updateOrThrowEx. keeps_tac. Qed.
#[export] Hint Resolve silent_update : keeps.

Lemma silent_sync_inserts now ins : Keeps silent id (sync_inserts now ins).
Proof. unfold sync_inserts, multiInsert. keeps_tac. Qed.
Lemma silent_sync_deletes del : Keeps silent id (sync_deletes del).
Proof. unfold sync_deletes. keeps_tac. Qed.
#[export] Hint Resolve silent_sync_inserts silent_sync_deletes : keeps.

(** rows under construction are not published *)
Lemma quiet_log_rows now rows :
  Forall (λ r, batch_id r = -1) rows → Keeps quiet id (insert_log_rows now rows).
Proof.
  intros Hr. unfold insert_log_rows, multiInsert. apply keeps_forM_in; [apply _|].
  intros chunk Hc. apply quiet_statement. intros d. unfold core, insert_txlogs, with_txlogs2. simpl.
  rewrite filter_app. replace (filter _ chunk) with (@nil txlog); [by rewrite app_nil_r|].
  symmetry. assert (Forall (λ r, batch_id r = -1) chunk) as Hch.
  { rewrite Forall_forall in Hr |- *. intros r Hrc. apply Hr.
    assert (concat (multi_chunks (txlog_len now) txlogs_prefix [] txlogs_prefix rows) = rows) as <-.
    { apply (multi_chunks_concat _ _ []); [unfold txlog_len; lia|by left]. }
    apply list_elem_of_In, in_concat. exists chunk. by rewrite <-!list_elem_of_In. }
  clear Hc. induction Hch as [|r l Hb _ IH]; [done|]. rewrite filter_cons, decide_False; [done|]. intros Hn. by apply Hn.
Qed.

Section raw_data.
Context `{Hashing}.

Lemma quiet_insertRawTx tx : Keeps quiet id (insertRawTx tx).
Proof. unfold insertRawTx. keeps_tac. by apply quiet_update. Qed.
Lemma quiet_insertRawBlock blk height : Keeps quiet id (insertRawBlock blk height).
Proof.
  assert (∀ r, Keeps quiet id (update_chain_id r)).
  { intros r. unfold update_chain_id. keeps_tac. by apply quiet_update. }
  unfold insertRawBlock. keeps_tac. by apply quiet_update.
Qed.
End raw_data.
#[export] Hint Resolve quiet_insertRawTx quiet_insertRawBlock : keeps.

(** ** The handlers *)
Definition Atomic {A} (m : M Log2Producer A) : Prop :=
  ∀ s r s', m s = (r, s') →
    atomic (match r with Done _ => true | Raise _ => false end) (db_ s) (db_ s').

Lemma Atomic_quiet {A} (m : M Log2Producer A) : Keeps quiet db_ m → Atomic m.
Proof. intros Hm s r s' Hr. apply quiet_atomic. by apply (Hm _ _ _ Hr). Qed.

Lemma Atomic_bind_l {A B} (m : M Log2Producer A) (k : A → M Log2Producer B) :
  Keeps quiet db_ m → (∀ a, Atomic (k a)) → Atomic (m ≫= k).
Proof.
  intros Hm Hk s r s'. unfold mbind, M_bind. destruct (m s) as [[a|e] s1] eqn:E.
  - intros Hr. eapply atomic_quiet_l; [by apply (Hm _ _ _ E)|by apply (Hk _ _ _ _ Hr)].
  - intros [= <- <-]. apply quiet_atomic. by apply (Hm _ _ _ E).
Qed.

Lemma Atomic_bind_r {A B} (m : M Log2Producer A) (k : A → M Log2Producer B) :
  Atomic m → (∀ a, Keeps quiet db_ (k a)) → Atomic (m ≫= k).
Proof.
  intros Hm Hk s r s'. unfold mbind, M_bind. destruct (m s) as [[a|e] s1] eqn:E.
  - intros Hr. eapply atomic_quiet_r; [by apply (Hm _ _ _ E)|by apply (Hk _ _ _ _ Hr)].
  - intros [= <- <-]. by apply (Hm _ _ _ E).
Qed.

(** the rest of a transaction, COMMIT included *)
Definition Finishes (m : M Log2Producer unit) : Prop :=
  ∀ s r s', m s = (r, s') → in_tx (db_ s) = true →
    match r with
    | Done _ => in_tx (db_ s') = false ∧ durable (db_ s') = cur (db_ s') :: durable (db_ s)
    | Raise _ => in_tx (db_ s') = true ∧ durable (db_ s') = durable (db_ s)
    end.

Lemma Finishes_commit : Finishes (on_db commit).
Proof. intros s r s' [= <- <-] _. done. Qed.
Lemma Finishes_bind {A} (m : M Log2Producer A) k :
  Keeps silent db_ m → (∀ a, Finishes (k a)) → Finishes (m ≫= k).
Proof.
  intros Hm Hk s r s'. unfold mbind, M_bind. destruct (m s) as [[a|e] s1] eqn:E.
  - intros Hr Hs. destruct (Hm _ _ _ E Hs) as [Hs1 Hd]. specialize (Hk a _ _ _ Hr Hs1).
    by rewrite Hd in Hk.
  - intros [= <- <-] Hs. by apply (Hm _ _ _ E).
Qed.

Lemma Atomic_transaction m : Finishes m → Atomic (on_db start_transaction ;; m).
Proof.
  intros Hf s r s'.
  set (s1 := with_db {| cur := cur (db_ s); in_tx := true; durable := durable (db_ s) |} s).
  rewrite (bind_Done _ _ s tt s1) by done. intros E Ha. specialize (Hf _ _ _ E eq_refl).
  destruct r as [[]|e]; destruct Hf as [Htx Hd]; simpl in Hd; (split; [done|]).
  - exists [], [cur (db_ s')]. rewrite Hd.
    split_and!; [done|constructor|by repeat constructor|done|congruence].
  - exists [], []. split_and!; [by rewrite Hd|constructor|constructor|congruence|done].
Qed.

Lemma silent_syncToDB now : Keeps silent db_ (syncToDB now).
Proof. unfold syncToDB. keeps_tac. Qed.
Lemma silent_updateLog1FileStatus : Keeps silent db_ updateLog1FileStatus.
Proof. unfold updateLog1FileStatus. keeps_tac. Qed.
#[export] Hint Resolve silent_syncToDB silent_updateLog1FileStatus : keeps.

Lemma Finishes_end now : Finishes (syncToDB now ;; updateLog1FileStatus ;; on_db commit).
Proof.
  apply Finishes_bind; [keeps_tac|]. intros _. apply Finishes_bind; [keeps_tac|].
  intros _. apply Finishes_commit.
Qed.

Lemma Atomic_commitBatch now n : Atomic (commitBatch now n).
Proof.
  apply Atomic_bind_l; [keeps_tac|]. intros s. apply Atomic_transaction.
  apply Finishes_bind; [keeps_tac|]. intros _. apply Finishes_end.
Qed.

Lemma Atomic_ret {A} (a : A) : Atomic (mret a).
Proof. apply Atomic_quiet. keeps_tac. Qed.
Lemma Atomic_raise {A} e : Atomic (A := A) (raise e).
Proof. apply Atomic_quiet. keeps_tac. Qed.

(** what runs before the transaction, then the transaction *)
Ltac atomic_tac :=
  intros; cbv beta zeta;
  lazymatch goal with
  | |- Atomic (mret _) => apply Atomic_ret
  | |- Atomic (raise _) => apply Atomic_raise
  | |- Atomic (commitBatch _ _) => apply Atomic_commitBatch
  | |- Atomic (on_db start_transaction ;; _) => apply Atomic_transaction
  | |- Atomic (match ?x with _ => _ end) => destruct x; atomic_tac
  | |- Atomic (_ ≫= _) => apply Atomic_bind_l; [keeps_tac|atomic_tac]
  end.

Section handlers.
Context `{Hashing}.
Variable now : bytes.
Implicit Types (item : Log1).

Lemma quiet_rejects hs : Keeps quiet id (insert_log_rows now (reject_row <$> hs)).
Proof. apply quiet_log_rows, Forall_fmap, Forall_true. done. Qed.
#[local] Hint Resolve quiet_rejects : keeps.

Lemma Atomic_handleTxAccept item : Atomic (handleTxAccept now item).
Proof.
  unfold handleTxAccept. atomic_tac.
  apply Finishes_bind; [keeps_tac|]. intros _. apply Finishes_end.
Qed.

Lemma Atomic_handleTxReject item : Atomic (handleTxReject now item).
Proof. unfold handleTxReject. atomic_tac. Qed.

Lemma Atomic_clearMempoolTxs : Atomic (clearMempoolTxs now).
Proof.
  unfold clearMempoolTxs. do 4 (apply Atomic_bind_l; [keeps_tac|intros]).
  cbv zeta. apply Atomic_bind_l; [keeps_tac|intros].
  apply Atomic_bind_r; [apply Atomic_commitBatch|intros; keeps_tac].
Qed.

Lemma confirm_rows_batch (already : gset uint256) height blockId ts txs :
  Forall (λ r, batch_id r = -1)
    (flat_map (λ tx,
      let txhash := TxHash tx in
      (if bool_decide (txhash ∈ already) then []
       else [row LOG2TYPE_TX_ACCEPT (-1) (-1) ts txhash]) ++
      [row LOG2TYPE_TX_CONFIRM height blockId ts txhash]) txs).
Proof.
  induction txs as [|tx txs IH]; simpl; [constructor|].
  apply Forall_app. split; [|done]. case_bool_decide; by repeat constructor.
Qed.

Lemma Atomic_handleBlockAccept item : Atomic (handleBlockAccept now item).
Proof.
  unfold handleBlockAccept. do 8 (apply Atomic_bind_l; [keeps_tac|intros]).
  cbv zeta. apply Atomic_bind_l; [|intros; apply Atomic_commitBatch].
  apply keeps_zoom; [done|]. apply quiet_log_rows. apply Forall_app.
  split; [apply Forall_fmap, Forall_true; done|apply confirm_rows_batch].
Qed.

Lemma Atomic_handleBlockRollback height blk : Atomic (handleBlockRollback now height blk).
Proof.
  unfold handleBlockRollback. do 3 (apply Atomic_bind_l; [keeps_tac|intros]).
  cbv zeta. destruct (head (vtx blk)) as [coinbase|]; [|apply Atomic_raise].
  apply Atomic_bind_l; [keeps_tac|intros].
  apply Atomic_bind_l; [|intros; apply Atomic_commitBatch].
  apply keeps_zoom; [done|]. apply quiet_log_rows. apply Forall_app.
  split; [apply Forall_fmap, Forall_true; done|by repeat constructor].
Qed.

Lemma Atomic_handleBlock item : Atomic (handleBlock now item).
Proof.
  unfold handleBlock. apply Atomic_bind_l; [keeps_tac|]. intros s. cbv zeta.
  apply Atomic_bind_r; [|intros; keeps_tac].
  destruct (_ <? _); [|destruct (_ <? _)].
  - apply Atomic_bind_l; [keeps_tac|]. intros _. apply Atomic_handleBlockAccept.
  - apply Atomic_bind_l; [keeps_tac|]. intros _.
    apply Atomic_bind_l; [unfold getBlockByHash; keeps_tac|]. intros b.
    do 2 (apply Atomic_bind_l; [keeps_tac|intros]). apply Atomic_handleBlockRollback.
  - apply Atomic_raise.
Qed.

Lemma Atomic_handle_log1 line : Atomic (handle_log1 now line).
Proof.
  unfold handle_log1. do 2 (apply Atomic_bind_l; [keeps_tac|intros]). cbv zeta.
  repeat case_match;
    [apply Atomic_handleTxAccept|apply Atomic_handleTxReject|apply Atomic_handleBlock
    |apply Atomic_clearMempoolTxs|apply Atomic_raise].
Qed.

(** C3 — Whatever line of log1 is handled, and wherever the process dies while
    handling it, a restart finds the published rows, the pool table and the log1
    cursor either as they were before the line or as the finished line leaves
    them.  Every state that MySQL could recover to ([durable], newest first)
    has, after the unfinished rows are dropped as [initLog2] does, the old
    published part, or the new one once the transaction is over; the old ones
    come first.  This holds for every outcome, exceptions included. *)
Theorem handle_log1_crash_safe line s r s' :
  handle_log1 now line s = (r, s') → in_tx (db_ s) = false →
  ∃ pre post,
    durable (db_ s') = post ++ pre ++ durable (db_ s) ∧
    Forall (λ d, core (snd (drop_unfinished {| cur := d; in_tx := false; durable := [] |})).(cur)
                 = core (cur (db_ s))) pre ∧
    Forall (λ d, core (snd (drop_unfinished {| cur := d; in_tx := false; durable := [] |})).(cur)
                 = core (cur (db_ s')) ∧ in_tx (db_ s') = false) post ∧
    (in_tx (db_ s') = false → post = [] → core (cur (db_ s')) = core (cur (db_ s))).
Proof.
  assert (∀ d, core (snd (drop_unfinished {| cur := d; in_tx := false; durable := [] |})).(cur)
               = core d) as Hdrop.
  { intros d. unfold core. simpl. f_equal. f_equal. rewrite list_filter_filter.
    apply list_filter_iff. tauto. }
  intros Hr Ha. destruct (Atomic_handle_log1 line s r s' Hr Ha)
    as (_ & pre & post & Hd & Hpre & Hpost & Hsame & Htx).
  exists pre, post. split_and!; [done| | |done].
  - apply (Forall_impl _ _ _ Hpre). intros d. by rewrite Hdrop.
  - destruct (in_tx (db_ s')) eqn:E; [by rewrite Htx|].
    apply (Forall_impl _ _ _ Hpost). intros d. by rewrite Hdrop.
Qed.
End handlers.

(** the order to forget the pool: four rejections, then one commit *)
Lemma handle_log1_crash_safe_witness :
  ∃ s' pre post, handle_log1 (H := Demo.hashing) [] (lit "t,3,", 110) Log2Demo.state = (Done tt, s') ∧
    durable (db_ s') = post ++ pre ++ [Log2Demo.db] ∧
    Forall (λ d, core (snd (drop_unfinished {| cur := d; in_tx := false; durable := [] |})).(cur)
                 = core Log2Demo.db) pre ∧
    memrepo_txs (cur (db_ s')) = [].
Proof.
  pose (o := handle_log1 (H := Demo.hashing) [] (lit "t,3,", 110) Log2Demo.state).
  destruct (handle_log1_crash_safe (H := Demo.hashing) [] (lit "t,3,", 110) Log2Demo.state
    (fst o) (snd o)) as (pre & post & Hd & Hpre & _).
  - apply surjective_pairing.
  - vm_compute; reflexivity.
  - exists (snd o), pre, post. split_and!; [|exact Hd|exact Hpre|vm_compute; reflexivity].
    assert (fst o = Done tt) as <- by (vm_compute; reflexivity). apply surjective_pairing.
Defined.
