(* ===== verification/Log2Refine.v ===== *)
(** * log2 as a well-formed history of transactions
      (Log2Producer.cc, handlers and [commitBatch]; docs/TXLOGS.md)

    The refinement between the log2 producer and [TxState]: the published rows
    of 0_txlogs2, read in order, are a run of the transaction life cycle, the
    unconfirmed transactions of that run are exactly the memory pool and the
    pool table, and the stored cursor is the position after the last line that
    published something.  Every handler, on input that bitcoind's consensus rules
    allow, completes, keeps this invariant and publishes exactly the events that
    docs/TXLOGS.md describes. *)
From S2P Require Import Prelude Tx Bytes Serialize LogFiles Log1 TxState BlockTs MemRepo Db Log2.

Definition ev (r : txlog) : event := Event (log_type r) (tx_hash r).
Definition published (d : database) : list txlog := filter (λ r, batch_id r ≠ -1) (txlogs2 d).
Definition events (d : database) : list event := ev <$> published d.

(** the pool with nothing left to synchronise *)
Definition clean (r : MemTxRepository) : MemTxRepository := with_delete ∅ (with_insert ∅ r).

(** ** Synchronising the pool table *)

Lemma size_0_empty (X : gset uint256) : Nat.eqb (size X) 0 = true → X = ∅.
Proof. intros E%Nat.eqb_eq. by apply leibniz_equiv, size_empty_iff. Qed.

Lemma syncToDB_run now s :
  let r := memRepo_ s in let d := cur (db_ s) in
  NoDup (memrepo_txs d) → (∀ h, h ∈ unSyncTxsInsert_ r → h ∉ memrepo_txs d) →
  (∀ h, h ∈ unSyncTxsDelete_ r → h ∈ memrepo_txs d ∨ h ∈ unSyncTxsInsert_ r) →
  ∃ d' T, syncToDB now s = (Done tt, with_db d' (with_memRepo (clean r) s)) ∧
    now_holds (with_memrepo_txs T d) (db_ s) d' ∧ NoDup T ∧
    ∀ h, h ∈ T ↔ (h ∈ memrepo_txs d ∨ h ∈ unSyncTxsInsert_ r) ∧ h ∉ unSyncTxsDelete_ r.
Proof.
  intros r d Hnd Hins Hdel. unfold syncToDB.
  assert (∃ d1, (if Nat.eqb (size (unSyncTxsInsert_ (memRepo_ s))) 0 then mret tt
     else on_db (sync_inserts now (set_items Z.le (unSyncTxsInsert_ (memRepo_ s)))) ;;
          on_repo (modify (with_insert ∅))) s = (Done tt, with_db d1 (with_memRepo (with_insert ∅ r) s)) ∧
     now_holds (with_memrepo_txs (memrepo_txs d ++ set_items Z.le (unSyncTxsInsert_ r)) d) (db_ s) d1)
    as (d1 & Hr1 & Hc1 & Ht1).
  { destruct (Nat.eqb _ 0) eqn:E.
    - apply size_0_empty in E. exists (db_ s). split.
      + unfold mret, M_ret. f_equal. subst r d. rewrite <-E. by destruct s as [[] ? ? ? ? ? ? ? ?].
      + split; [|done]. subst r d. rewrite E. unfold with_memrepo_txs.
        change (set_items Z.le ∅) with (@nil Z). rewrite app_nil_r. by destruct (cur (db_ s)).
    - destruct (sync_inserts_run now (set_items Z.le (unSyncTxsInsert_ r)) (db_ s)) as (d1 & Hr & Hh).
      { apply NoDup_app. split_and!; [done| |by apply NoDup_set_items].
        intros h Hh Hi. apply elem_of_set_items in Hi. by apply (Hins h). }
      exists d1. split; [|exact Hh].
      rewrite (bind_Done _ _ _ _ _ (zoom_Done _ _ _ _ _ _ Hr)). done. }
  set (s1 := with_db d1 (with_memRepo (with_insert ∅ r) s)) in *.
  unfold mbind at 1, M_bind at 1, get at 1. cbv beta iota zeta.
  rewrite (bind_Done _ _ _ _ _ Hr1).
  destruct (Nat.eqb (size (unSyncTxsDelete_ (memRepo_ s))) 0) eqn:E.
  - apply size_0_empty in E.
    exists d1, (memrepo_txs d ++ set_items Z.le (unSyncTxsInsert_ r)). split_and!.
    + unfold mret, M_ret, s1, clean. f_equal. unfold with_delete. simpl. subst r. rewrite <-E.
      by destruct s as [[] ? ? ? ? ? ? ? ?].
    + done.
    + apply NoDup_app. split_and!; [done| |by apply NoDup_set_items].
      intros h Hh Hi. apply elem_of_set_items in Hi. by apply (Hins h).
    + intros h. rewrite elem_of_app, elem_of_set_items. subst r. rewrite E. set_solver.
  - destruct (sync_deletes_run (set_items Z.le (unSyncTxsDelete_ r)) d1) as (d2 & Hr2 & Hc2 & Ht2).
    + rewrite Hc1. apply NoDup_app. split_and!; [done| |by apply NoDup_set_items].
      intros h Hh Hi. apply elem_of_set_items in Hi. by apply (Hins h).
    + apply NoDup_set_items.
    + intros h Hh%elem_of_set_items. rewrite Hc1. simpl. rewrite elem_of_app, elem_of_set_items.
      by apply Hdel.
    + exists d2, (filter (λ h, h ∉ set_items Z.le (unSyncTxsDelete_ r))
        (memrepo_txs d ++ set_items Z.le (unSyncTxsInsert_ r))). split_and!.
      * rewrite (bind_Done _ _ _ _ _ (zoom_Done db_ with_db _ s1 _ _ Hr2)). done.
      * split; [rewrite Hc2, Hc1; done|congruence].
      * apply NoDup_filter, NoDup_app. split_and!; [done| |by apply NoDup_set_items].
        intros h Hh Hi. apply elem_of_set_items in Hi. by apply (Hins h).
      * intros h. rewrite list_elem_of_filter, elem_of_app, !elem_of_set_items. tauto.
Qed.

(** ** The cursor *)

(** The meta rows exist and the static variables either agree with them or have
    their initial value. *)
Definition meta_ok (s : Log2Producer) : Prop :=
  ∃ i o, explorer_meta (cur (db_ s)) = Some (i, o) ∧
    (static_log1FileIndex s = i ∨ static_log1FileIndex s < 0) ∧
    (static_currLog1FileOffset s = o ∨ static_currLog1FileOffset s < 0) ∧ 0 ≤ i.

Lemma update_meta_run f i o (m' : Z * Z) n s :
  explorer_meta (cur s) = Some (i, o) → f (i, o) = m' → n = 0 ∨ n = 1 →
  ∃ s', updateOrThrowEx (λ d, with_meta (f <$> explorer_meta d) d) meta_rows n s = (Done tt, s') ∧
    now_holds (with_meta (Some m') (cur s)) s s'.
Proof.
  intros Hm <- Hn.
  destruct (updateOrThrowEx_run (λ d, with_meta (f <$> explorer_meta d) d) meta_rows n s)
    as (s' & Hr & Hh).
  - destruct Hn as [->| ->]; [by left|right]. unfold meta_rows. by rewrite Hm.
  - exists s'. by rewrite Hm in Hh.
Qed.

Lemma updateLog1FileStatus_run s :
  meta_ok s → 0 ≤ f_idx (log1_ s) → 0 ≤ currLog1FileOffset_ s →
  ∃ d', updateLog1FileStatus s =
      (Done tt, with_db d' (with_static (f_idx (log1_ s)) (currLog1FileOffset_ s) s)) ∧
    now_holds (with_meta (Some (f_idx (log1_ s), currLog1FileOffset_ s)) (cur (db_ s))) (db_ s) d'.
Proof.
  intros (i & o & Hm & Hi & Ho & _) Hidx Hoff. unfold updateLog1FileStatus.
  unfold mbind at 1, M_bind at 1, get at 1. cbv beta iota zeta.
  set (idx := f_idx (log1_ s)) in *. set (off := currLog1FileOffset_ s) in *.
  assert (∃ d1, (if negb (static_log1FileIndex s =? idx) then
       on_db (updateOrThrowEx
         (λ d, with_meta ((λ m, (idx, m.2)) <$> explorer_meta d) d) meta_rows 0) ;;
       modify (λ s, with_static idx (static_currLog1FileOffset s) s)
     else mret tt) s = (Done tt, with_db d1 (with_static idx (static_currLog1FileOffset s) s)) ∧
     now_holds (with_meta (Some (idx, o)) (cur (db_ s))) (db_ s) d1) as (d1 & Hr1 & Hc1 & Ht1).
  { destruct (Z.eqb_spec (static_log1FileIndex s) idx) as [E|E]; simpl.
    - exists (db_ s). split.
      + rewrite <-E. by destruct s.
      + split; [|done]. unfold with_meta. replace idx with i by lia. rewrite <-Hm.
        by destruct (cur (db_ s)).
    - destruct (update_meta_run (λ m, (idx, m.2)) i o (idx, o) 0 (db_ s) Hm) as (d1 & Hr & Hh);
        [done|by left|].
      exists d1. split; [|done]. by rewrite (bind_Done _ _ _ _ _ (zoom_Done db_ with_db _ s _ _ Hr)). }
  rewrite (bind_Done _ _ _ _ _ Hr1).
  set (s1 := with_db d1 _) in *. change (static_currLog1FileOffset s1) with (static_currLog1FileOffset s).
  destruct (Z.eqb_spec (static_currLog1FileOffset s) off) as [E|E]; simpl.
  - exists d1. split; [unfold s1; by rewrite E|]. split; [|done]. rewrite Hc1.
    by replace off with o by lia.
  - destruct (update_meta_run (λ m, (m.1, off)) idx o (idx, off) 1 d1) as (d2 & Hr & Hc2 & Ht2).
    + by rewrite Hc1.
    + done.
    + by right.
    + exists d2. split; [by rewrite (bind_Done _ _ _ _ _ (zoom_Done db_ with_db _ s1 _ _ Hr))|].
      split; [|congruence]. rewrite Hc2, Hc1. done.
Qed.

(** ** The end of every transaction *)

(** the log1 position that a restart would use *)
Definition moved (s : Log2Producer) (r : MemTxRepository) (d : session) : Log2Producer :=
  with_db d (with_static (f_idx (log1_ s)) (currLog1FileOffset_ s) (with_memRepo r s)).

Lemma finish_run now s :
  let r := memRepo_ s in let d := cur (db_ s) in
  NoDup (memrepo_txs d) → (∀ h, h ∈ unSyncTxsInsert_ r → h ∉ memrepo_txs d) →
  (∀ h, h ∈ unSyncTxsDelete_ r → h ∈ memrepo_txs d ∨ h ∈ unSyncTxsInsert_ r) →
  meta_ok s → 0 ≤ f_idx (log1_ s) → 0 ≤ currLog1FileOffset_ s →
  ∃ d' T, (syncToDB now ;; updateLog1FileStatus ;; on_db commit) s =
      (Done tt, moved s (clean r) d') ∧
    cur d' = with_meta (Some (f_idx (log1_ s), currLog1FileOffset_ s)) (with_memrepo_txs T d) ∧
    in_tx d' = false ∧ NoDup T ∧
    ∀ h, h ∈ T ↔ (h ∈ memrepo_txs d ∨ h ∈ unSyncTxsInsert_ r) ∧ h ∉ unSyncTxsDelete_ r.
Proof.
  intros r d Hnd Hins Hdel Hm Hi Ho.
  destruct (syncToDB_run now s Hnd Hins Hdel) as (d1 & T & Hr1 & [Hc1 Ht1] & HT & Hin).
  set (s1 := with_db d1 (with_memRepo (clean r) s)).
  destruct (updateLog1FileStatus_run s1) as (d2 & Hr2 & [Hc2 Ht2]).
  { destruct Hm as (i & o & Hm & ?). exists i, o. simpl. rewrite Hc1. done. }
  { done. }
  { done. }
  exists {| cur := cur d2; in_tx := false; durable := cur d2 :: durable d2 |}, T.
  split_and!; [|simpl; rewrite Hc2; simpl; by rewrite Hc1|done..].
  rewrite (bind_Done _ _ _ _ _ Hr1), (bind_Done _ _ _ _ _ Hr2). done.
Qed.

(** ** [commitBatch] *)

(** the batch id that the next commit gives *)
Definition commit_rows (b : Z) (rows : list txlog) : list txlog :=
  (λ r, if batch_id r =? -1
        then {| batch_id := b; log_type := log_type r; block_height := block_height r;
                block_id := block_id r; max_block_timestamp := max_block_timestamp r;
                tx_hash := tx_hash r |}
        else r) <$> rows.

Lemma commit_rows_old b rows : Forall (λ r, 0 ≤ batch_id r) rows → commit_rows b rows = rows.
Proof.
  intros Hr. unfold commit_rows. rewrite <-(list_fmap_id rows) at 2. apply list_fmap_ext.
  intros i r Hi. rewrite Forall_forall in Hr. specialize (Hr r (list_elem_of_lookup_2 _ _ _ Hi)).
  by replace (batch_id r =? -1) with false by lia.
Qed.

Lemma commit_rows_batch b rows :
  Forall (λ r, batch_id r = -1) rows → commit_rows b rows = (λ r, {| batch_id := b; log_type := log_type r;
     block_height := block_height r; block_id := block_id r; max_block_timestamp := max_block_timestamp r;
     tx_hash := tx_hash r |}) <$> rows.
Proof. induction 1 as [|r rows Hb _ IH]; [done|]. unfold commit_rows in *. by rewrite !fmap_cons, IH, Hb. Qed.

Lemma commit_rows_new b rows :
  Forall (λ r, batch_id r = -1) rows →
  ev <$> commit_rows b rows = ev <$> rows ∧ Forall (λ r, batch_id r = b) (commit_rows b rows).
Proof.
  intros Hr. unfold commit_rows. induction Hr as [|r rows Hb _ [IH1 IH2]]; [done|].
  rewrite !fmap_cons, IH1. rewrite Hb. simpl. split; [done|by constructor].
Qed.

Lemma filter_none {A} (P : A → Prop) `{∀ x, Decision (P x)} l : Forall (λ x, ¬ P x) l → filter P l = [].
Proof. induction 1 as [|x l Hx _ IH]; [done|]. by rewrite filter_cons_False. Qed.
Lemma filter_every {A} (P : A → Prop) `{∀ x, Decision (P x)} l : Forall P l → filter P l = l.
Proof. induction 1 as [|x l Hx _ IH]; [done|]. by rewrite filter_cons_True, IH. Qed.

Lemma next_batch_id_above d r : r ∈ txlogs2 d → batch_id r < next_batch_id d.
Proof.
  intros Hr. apply (list_elem_of_fmap_2 batch_id) in Hr. unfold next_batch_id.
  destruct (batch_id <$> txlogs2 d) as [|b l]; [set_solver|].
  assert (∀ x, x ∈ b :: l → x ≤ foldr Z.max b l) as Hle; [|specialize (Hle _ Hr); lia].
  clear. induction l as [|c l IH]; intros x; simpl.
  - intros ->%list_elem_of_singleton. lia.
  - rewrite !elem_of_cons. intros [->|[->|Hx]]; [specialize (IH b); set_solver by lia|lia|].
    specialize (IH x). rewrite elem_of_cons in IH. lia || (assert (x ≤ foldr Z.max b l) by auto; lia).
Qed.

Lemma next_batch_id_nonneg d : Forall (λ r, -1 ≤ batch_id r) (txlogs2 d) → 0 ≤ next_batch_id d.
Proof.
  intros Hf. destruct (txlogs2 d) as [|r l] eqn:E; [unfold next_batch_id; by rewrite E|].
  assert (batch_id r < next_batch_id d) by (apply next_batch_id_above; rewrite E; left).
  apply Forall_cons in Hf as [? _]. lia.
Qed.

(** A batch of rows is published as a whole, under one new id. *)
Lemma commitBatch_run now s old new :
  let r := memRepo_ s in let d := cur (db_ s) in
  txlogs2 d = old ++ new → Forall (λ r, 0 ≤ batch_id r) old → Forall (λ r, batch_id r = -1) new →
  Z.of_nat (length new) < 2 ^ 31 →
  NoDup (memrepo_txs d) → (∀ h, h ∈ unSyncTxsInsert_ r → h ∉ memrepo_txs d) →
  (∀ h, h ∈ unSyncTxsDelete_ r → h ∈ memrepo_txs d ∨ h ∈ unSyncTxsInsert_ r) →
  meta_ok s → 0 ≤ f_idx (log1_ s) → 0 ≤ currLog1FileOffset_ s →
  ∃ d' T b, commitBatch now (length new) s = (Done tt, moved s (clean r) d') ∧
    cur d' = with_meta (Some (f_idx (log1_ s), currLog1FileOffset_ s))
               (with_memrepo_txs T (with_txlogs2 (old ++ commit_rows b new) d)) ∧
    in_tx d' = false ∧ 0 ≤ b ∧ Forall (λ r, batch_id r < b) old ∧ NoDup T ∧
    ∀ h, h ∈ T ↔ (h ∈ memrepo_txs d ∨ h ∈ unSyncTxsInsert_ r) ∧ h ∉ unSyncTxsDelete_ r.
Proof.
  intros r d Hl Hold Hnew Hlen Hnd Hins Hdel Hm Hi Ho.
  set (b := next_batch_id d).
  assert (0 ≤ b) as Hb.
  { apply next_batch_id_nonneg. rewrite Hl. apply Forall_app. split.
    - apply (Forall_impl _ _ _ Hold). lia.
    - apply (Forall_impl _ _ _ Hnew). lia. }
  assert (Forall (λ r, batch_id r < b) old) as Hlt.
  { apply Forall_forall. intros x Hx. apply next_batch_id_above. rewrite Hl. set_solver. }
  unfold commitBatch. unfold mbind at 1, M_bind at 1, get at 1. cbv beta iota zeta.
  fold d. fold b.
  set (s0 := with_db {| cur := d; in_tx := true; durable := durable (db_ s) |} s).
  assert (on_db start_transaction s = (Done tt, s0)) as Hr0 by done.
  rewrite (bind_Done _ _ _ _ _ Hr0).
  destruct (updateOrThrowEx_run (λ d, with_txlogs2 (commit_rows b (txlogs2 d)) d)
    (λ d, Z.of_nat (length (filter (λ r, batch_id r = -1) (txlogs2 d))))
    (i32 (Z.of_nat (length new))) (db_ s0)) as (d1 & Hr1 & Hc1 & Ht1).
  { right. simpl. rewrite Hl, filter_app.
    rewrite (filter_none _ old), (filter_every _ new); [|done|].
    - simpl. by rewrite wrapS_id by (lia || (unfold in_s; simpl; lia)).
    - apply (Forall_impl _ _ _ Hold). lia. }
  rewrite (bind_Done _ _ _ _ _ (zoom_Done db_ with_db _ s0 _ _ Hr1)).
  simpl in Hc1. rewrite Hl in Hc1. unfold commit_rows in Hc1 at 1. rewrite fmap_app in Hc1.
  fold (commit_rows b old) in Hc1. fold (commit_rows b new) in Hc1.
  rewrite commit_rows_old in Hc1 by done.
  destruct (finish_run now (with_db d1 s0)) as (d2 & T & Hr2 & Hc2 & Ht2 & HT & Hin).
  - simpl. by rewrite Hc1.
  - simpl. by rewrite Hc1.
  - simpl. by rewrite Hc1.
  - destruct Hm as (i & o & Hm & ?). exists i, o. simpl. rewrite Hc1. done.
  - done.
  - done.
  - exists d2, T, b. split_and!; try done.
    + simpl in Hc2. by rewrite Hc2, Hc1.
    + intros h. rewrite Hin. simpl. by rewrite Hc1.
Qed.

(** ** The invariant between two lines of log1 *)
Section refinement.
Context `{Hashing}.
(** A transaction hash stands for one transaction, and no transactions spend in
    a circle: what a collision-free hash gives. *)
Variables (body : uint256 → CTransaction) (rank : uint256 → nat).
Variable now : bytes.
Implicit Types (s : Log2Producer) (st : states) (d : database) (r : MemTxRepository).

Record good (tx : CTransaction) : Prop := {
  g_body : body (TxHash tx) = tx;
  g_keys : NoDup (tx_keys tx);
  g_rank : IsCoinBase tx = false → ranked rank tx }.

Definition in_pool r (h : uint256) : Prop := is_Some (txs_ r !! h).

Record pool_ok r : Prop := {
  p_ok : repo_ok r;
  p_rank : all_ranked rank r;
  p_body h tx : txs_ r !! h = Some tx → body h = tx }.

(** raw transactions are stored under their hashes, raw blocks under theirs *)
Record raw_ok r d : Prop := {
  w_body h v : raw_txs d !! h = Some v → v.2 = EncodeHexTx (body h);
  w_pool h : in_pool r h → is_Some (raw_txs d !! h);
  w_blocks : wf_blocks (raw_blocks d) }.

Record inv s st : Prop := {
  i_tx : in_tx (db_ s) = false;
  i_rows : Forall (λ x, 0 ≤ batch_id x) (txlogs2 (cur (db_ s)));
  i_run : tx_run (events (cur (db_ s))) ∅ = Some st;
  i_unconfirmed h : st !! h = Some Unconfirmed ↔ in_pool (memRepo_ s) h;
  i_nodup : NoDup (memrepo_txs (cur (db_ s)));
  i_table h : h ∈ memrepo_txs (cur (db_ s)) ↔ in_pool (memRepo_ s) h;
  i_clean : memRepo_ s = clean (memRepo_ s);
  i_pool : pool_ok (memRepo_ s);
  i_raw : raw_ok (memRepo_ s) (cur (db_ s));
  i_meta : meta_ok s;
  i_idx : 0 ≤ f_idx (log1_ s) }.

(** [s'] has published the events [es] as one batch, and the cursor *)
Definition publishes (es : list event) s s' : Prop := ∃ b rows,
  txlogs2 (cur (db_ s')) = txlogs2 (cur (db_ s)) ++ rows ∧ ev <$> rows = es ∧
  0 ≤ b ∧ Forall (λ x, batch_id x = b) rows ∧
  Forall (λ x, batch_id x < b) (txlogs2 (cur (db_ s))) ∧
  explorer_meta (cur (db_ s')) = Some (f_idx (log1_ s), currLog1FileOffset_ s).

(** The rows written, whatever the number of the batch. *)
Definition in_batch (b : Z) (r : txlog) : txlog :=
  {| batch_id := b; log_type := log_type r; block_height := block_height r; block_id := block_id r;
     max_block_timestamp := max_block_timestamp r; tx_hash := tx_hash r |}.
Definition writes (rows : list txlog) s s' : Prop := ∃ b,
  txlogs2 (cur (db_ s')) = txlogs2 (cur (db_ s)) ++ (in_batch b <$> rows).

(** Raw data is only added. *)
Definition same_block (x y : raw_block) : Prop :=
  rb_id x = rb_id y ∧ rb_hash x = rb_hash y ∧ rb_height x = rb_height y ∧ rb_hex x = rb_hex y.
Record grows d d' : Prop := {
  gr_txs h : is_Some (raw_txs d !! h) → is_Some (raw_txs d' !! h);
  gr_blocks x : x ∈ raw_blocks d → ∃ y, y ∈ raw_blocks d' ∧ same_block x y }.
(** the row of a block, found or added under [id] *)
Record stores (blk : CBlock) (height id : Z) d d' : Prop := {
  so_grows : grows d d';
  so_old y : y ∈ raw_blocks d' → (∃ x, x ∈ raw_blocks d ∧ same_block x y) ∨
    rb_hash y = BlockHash blk ∧ rb_height y = height ∧ rb_hex y = EncodeHexBlock blk;
  so_row : ∃ y, y ∈ raw_blocks d' ∧ rb_id y = id ∧ rb_hash y = BlockHash blk ∧ rb_height y = height }.

Lemma grows_refl d d' : raw_txs d' = raw_txs d → raw_blocks d' = raw_blocks d → grows d d'.
Proof. intros E1 E2. split; [by rewrite E1|]. intros x Hx. exists x. by rewrite E2. Qed.
Lemma grows_trans d1 d2 d3 : grows d1 d2 → grows d2 d3 → grows d1 d3.
Proof.
  intros [H1 H2] [H3 H4]. split; [auto|]. intros x (y & Hy & Ex)%H2. destruct (H4 y Hy) as (z & Hz & Ey).
  exists z. split; [done|]. unfold same_block in *. naive_solver congruence.
Qed.

(** what a handler has changed in memory and in the raw tables before its
    transaction starts *)
Record prepared s0 s1 : Prop := {
  c_table : memrepo_txs (cur (db_ s1)) = memrepo_txs (cur (db_ s0));
  c_meta : explorer_meta (cur (db_ s1)) = explorer_meta (cur (db_ s0));
  c_static1 : static_log1FileIndex s1 = static_log1FileIndex s0;
  c_static2 : static_currLog1FileOffset s1 = static_currLog1FileOffset s0;
  c_log1 : log1_ s1 = log1_ s0;
  c_off : currLog1FileOffset_ s1 = currLog1FileOffset_ s0;
  c_pool : pool_ok (memRepo_ s1);
  c_raw : raw_ok (memRepo_ s1) (cur (db_ s1));
  c_ins h : h ∈ unSyncTxsInsert_ (memRepo_ s1) → ¬ in_pool (memRepo_ s0) h;
  c_del h : h ∈ unSyncTxsDelete_ (memRepo_ s1) →
              in_pool (memRepo_ s0) h ∨ h ∈ unSyncTxsInsert_ (memRepo_ s1);
  c_delta h : in_pool (memRepo_ s1) h ↔
    (in_pool (memRepo_ s0) h ∨ h ∈ unSyncTxsInsert_ (memRepo_ s1)) ∧
    h ∉ unSyncTxsDelete_ (memRepo_ s1) }.

Lemma events_app d rows d' :
  txlogs2 d' = txlogs2 d ++ rows → Forall (λ x, batch_id x ≠ -1) rows →
  events d' = events d ++ (ev <$> rows).
Proof.
  intros Hl Hr. unfold events, published. by rewrite Hl, filter_app, fmap_app, (filter_every _ rows).
Qed.

Lemma inv_after s0 st s1 st' D T b rows :
  inv s0 st → prepared s0 s1 →
  txlogs2 (cur D) = txlogs2 (cur (db_ s0)) ++ rows → 0 ≤ b → Forall (λ x, batch_id x = b) rows →
  Forall (λ x, batch_id x < b) (txlogs2 (cur (db_ s0))) →
  tx_run (ev <$> rows) st = Some st' →
  (∀ h, st' !! h = Some Unconfirmed ↔ in_pool (memRepo_ s1) h) →
  memrepo_txs (cur D) = T → NoDup T →
  (∀ h, h ∈ T ↔ (h ∈ memrepo_txs (cur (db_ s1)) ∨ h ∈ unSyncTxsInsert_ (memRepo_ s1)) ∧
                h ∉ unSyncTxsDelete_ (memRepo_ s1)) →
  explorer_meta (cur D) = Some (f_idx (log1_ s1), currLog1FileOffset_ s1) →
  raw_txs (cur D) = raw_txs (cur (db_ s1)) → raw_blocks (cur D) = raw_blocks (cur (db_ s1)) →
  in_tx D = false →
  inv (moved s1 (clean (memRepo_ s1)) D) st' ∧
  publishes (ev <$> rows) s0 (moved s1 (clean (memRepo_ s1)) D).
Proof.
  intros Hinv Hp Hl Hb Hrows Hlt Hrun Hun HT Hnd Hin Hm Hraw Hblk Htx. split.
  - constructor; cbn [moved db_ with_db memRepo_ with_static with_memRepo log1_].
    + done.
    + rewrite Hl. apply Forall_app. split; [apply Hinv|]. apply (Forall_impl _ _ _ Hrows). lia.
    + rewrite (events_app (cur (db_ s0)) rows) by (done || (apply (Forall_impl _ _ _ Hrows); lia)).
      rewrite tx_run_app, (i_run _ _ Hinv). done.
    + done.
    + by rewrite HT.
    + intros h. rewrite HT, Hin, (c_table _ _ Hp), (i_table _ _ Hinv).
      symmetry. apply (c_delta _ _ Hp).
    + by destruct (memRepo_ s1).
    + destruct (c_pool _ _ Hp) as [[? ? ?] ? ?]. by split.
    + destruct (c_raw _ _ Hp) as [? ? ?]. split; by rewrite ?Hraw, ?Hblk.
    + eexists _, _. split; [exact Hm|]. simpl. split_and!; [by left..|].
      rewrite (c_log1 _ _ Hp). apply Hinv.
    + rewrite (c_log1 _ _ Hp). apply Hinv.
  - exists b, rows. simpl. split_and!; try done. by rewrite Hm, (c_log1 _ _ Hp), (c_off _ _ Hp).
Qed.

Lemma prepared_meta s0 st s1 : inv s0 st → prepared s0 s1 → meta_ok s1.
Proof.
  intros Hinv Hp. destruct (i_meta _ _ Hinv) as (i & o & Hm & ?). exists i, o.
  by rewrite (c_meta _ _ Hp), (c_static1 _ _ Hp), (c_static2 _ _ Hp).
Qed.

(** The end of the handlers that collect a batch. *)
Lemma publish s0 st s1 st' rows :
  inv s0 st → prepared s0 s1 → 0 ≤ currLog1FileOffset_ s0 →
  txlogs2 (cur (db_ s1)) = txlogs2 (cur (db_ s0)) ++ rows →
  Forall (λ x, batch_id x = -1) rows → Z.of_nat (length rows) < 2 ^ 31 →
  tx_run (ev <$> rows) st = Some st' →
  (∀ h, st' !! h = Some Unconfirmed ↔ in_pool (memRepo_ s1) h) →
  ∃ D, commitBatch now (length rows) s1 = (Done tt, moved s1 (clean (memRepo_ s1)) D) ∧
    inv (moved s1 (clean (memRepo_ s1)) D) st' ∧
    publishes (ev <$> rows) s0 (moved s1 (clean (memRepo_ s1)) D) ∧
    writes rows s0 (moved s1 (clean (memRepo_ s1)) D) ∧
    raw_txs (cur D) = raw_txs (cur (db_ s1)) ∧ raw_blocks (cur D) = raw_blocks (cur (db_ s1)).
Proof.
  intros Hinv Hp Hoff Hl Hnew Hlen Hrun Hun.
  destruct (commitBatch_run now s1 (txlogs2 (cur (db_ s0))) rows)
    as (D & T & b & Hr & Hc & Htx & Hb & Hlt & HT & Hin); try done.
  - apply Hinv.
  - rewrite (c_table _ _ Hp). apply Hinv.
  - intros h Hh. rewrite (c_table _ _ Hp), (i_table _ _ Hinv). by apply (c_ins _ _ Hp).
  - intros h Hh. rewrite (c_table _ _ Hp), (i_table _ _ Hinv). by apply (c_del _ _ Hp).
  - by eapply prepared_meta.
  - rewrite (c_log1 _ _ Hp). apply Hinv.
  - by rewrite (c_off _ _ Hp).
  - exists D. split; [done|]. destruct (commit_rows_new b rows Hnew) as [Hev Hbs].
    rewrite <-Hev. destruct (inv_after s0 st s1 st' D T b (commit_rows b rows)) as [Hi Hpub];
      rewrite ?Hc; try done; [by rewrite Hev|]. split_and!; try done. exists b.
    cbn [moved db_ with_db]. rewrite Hc. cbn [txlogs2 with_meta with_memrepo_txs with_txlogs2]. by rewrite commit_rows_batch.
Qed.

(** *** Raw transactions *)
Lemma raw_add tx r r' D D' :
  good tx → insertRawTx tx D = (Done tt, D') → raw_ok r (cur D) →
  (∀ h, in_pool r' h → h = TxHash tx ∨ in_pool r h) →
  raw_ok r' (cur D') ∧ in_tx D' = in_tx D ∧ txlogs2 (cur D') = txlogs2 (cur D) ∧
  memrepo_txs (cur D') = memrepo_txs (cur D) ∧ explorer_meta (cur D') = explorer_meta (cur D) ∧
  raw_blocks (cur D') = raw_blocks (cur D) ∧
  (∀ h, is_Some (raw_txs (cur D') !! h) ↔ h = TxHash tx ∨ is_Some (raw_txs (cur D) !! h)).
Proof.
  intros Hg Hr [Hb Hp Hw] Hsub.
  destruct (insertRawTx_run tx D) as (D1 & Hr1 & Htx & Hl & Ht & Hm & Hbl & Hin & _ & Hval).
  rewrite Hr in Hr1. injection Hr1 as <-. split_and!; try done. split.
  - intros h v [Hv|[-> Hv]]%Hval; [by apply Hb|]. by rewrite (g_body _ Hg).
  - intros h Hh. apply Hin. destruct (Hsub h Hh); [by left|right; by apply Hp].
  - by rewrite Hbl.
Qed.

Lemma insertRawTx_done tx D : ∃ D', insertRawTx tx D = (Done tt, D').
Proof. destruct (insertRawTx_run tx D) as (D' & ? & _). eauto. Qed.

(** *** Accepting a transaction *)

(** the block and the time stamps are not touched *)
Definition unmoved s s' : Prop :=
  blkTs_ s' = blkTs_ s ∧ currBlockHeight_ s' = currBlockHeight_ s ∧ currBlockHash_ s' = currBlockHash_ s.

Lemma pool_add tx r :
  pool_ok r → good tx → IsCoinBase tx = false → txs_ r !! TxHash tx = None →
  (∀ c, ¬ conflicting r tx c) → pool_ok (repo_add tx r).
Proof.
  intros [Hok Hr Hb] Hg Hc Hn Hcf. split.
  - apply repo_add_ok; [done|done|apply Hg|done..].
  - apply repo_add_ranked; [done|by apply Hg].
  - intros h t. simpl. rewrite lookup_insert. case_decide; [|apply Hb].
    intros [= <-]. subst. apply Hg.
Qed.

Lemma in_pool_add tx r h : in_pool (repo_add tx r) h ↔ h = TxHash tx ∨ in_pool r h.
Proof.
  unfold in_pool. simpl. rewrite lookup_insert. case_decide as E.
  - subst. split; [by left|eauto].
  - split; [by right|]. by intros [->|].
Qed.

Lemma clean_sets r : r = clean r → unSyncTxsInsert_ r = ∅ ∧ unSyncTxsDelete_ r = ∅.
Proof. by intros ->. Qed.

Definition refused r (tx : CTransaction) : Prop :=
  in_pool r (TxHash tx) ∨ ∃ c, conflicting r tx c.

Lemma addTx_run r tx : IsCoinBase tx = false →
  (refused r tx ∧ addTx tx r = (Done false, r)) ∨
  (txs_ r !! TxHash tx = None ∧ (∀ c, ¬ conflicting r tx c) ∧ addTx tx r = (Done true, repo_add tx r)).
Proof.
  intros Hc. destruct (txs_ r !! TxHash tx) eqn:Hn.
  { left. split; [left; unfold in_pool; eauto|]. apply addTx_known; eauto. }
  destruct (existsb (λ k, bool_decide (is_Some (spentOutputs_ r !! k))) (tx_keys tx)) eqn:E.
  - apply conflict_exists in E as [h Hh]. left. split; [right; eauto|]. by apply (addTx_conflict _ h).
  - assert (∀ h, ¬ conflicting r tx h) as Hcf.
    { intros h Hh. rewrite (proj2 (conflict_exists r tx)) in E by eauto. done. }
    right. split_and!; [done..|]. by apply addTx_fresh.
Qed.

Definition accept_row (b ts : Z) (h : uint256) : txlog :=
  {| batch_id := b; log_type := LOG2TYPE_TX_ACCEPT; block_height := -1; block_id := -1;
     max_block_timestamp := ts; tx_hash := h |}.

Lemma handleTxAccept_run s st item tx :
  inv s st → (getTx item).1 = Done tx → good tx → IsCoinBase tx = false →
  st !! TxHash tx ≠ Some Confirmed → 0 ≤ currLog1FileOffset_ s →
  (refused (memRepo_ s) tx ∧ handleTxAccept now item s = (Done tt, s)) ∨
  (¬ refused (memRepo_ s) tx ∧ ∃ s', handleTxAccept now item s = (Done tt, s') ∧
     inv s' (<[TxHash tx := Unconfirmed]> st) ∧ publishes [Accept (TxHash tx)] s s' ∧
     memRepo_ s' = clean (repo_add tx (memRepo_ s)) ∧ unmoved s s' ∧
     (∃ ts, writes [row LOG2TYPE_TX_ACCEPT (-1) (-1) ts (TxHash tx)] s s') ∧
     grows (cur (db_ s)) (cur (db_ s')) ∧ raw_blocks (cur (db_ s')) = raw_blocks (cur (db_ s))).
Proof.
  intros Hinv Hget Hg Hc Hnc Hoff. unfold handleTxAccept. rewrite Hget.
  rewrite (bind_Done (lift_outcome (Done tx)) _ s tx s eq_refl).
  cbv zeta. rewrite (bind_Done get _ s s s eq_refl).
  set (r := memRepo_ s). set (h := TxHash tx).
  destruct (clean_sets r (i_clean _ _ Hinv)) as [Hi0 Hd0].
  destruct (addTx_run r tx Hc) as [[Href Hadd]|(Hn & Hcf & Hadd)].
  { left. split; [done|]. unfold isExist. case_bool_decide as Hin; [done|].
    rewrite (bind_Done _ _ _ _ _ (zoom_Done memRepo_ with_memRepo _ s _ _ Hadd)). simpl.
    unfold mret, M_ret. f_equal. by destruct s. }
  right. split.
  { intros [[t Ht]|[c Hcc]]; [by rewrite Hn in Ht|by apply (Hcf c)]. }
  fold h in Hn. unfold isExist. rewrite bool_decide_false by (rewrite Hn; by intros [? [=]]).
  rewrite (bind_Done _ _ _ _ _ (zoom_Done memRepo_ with_memRepo _ s _ _ Hadd)). cbn [negb].
  destruct (insertRawTx_done tx (db_ s)) as (D1 & Hraw).
  destruct (raw_add tx r (repo_add tx r) _ _ Hg Hraw (i_raw _ _ Hinv)) as
    (Hro & Htx1 & Hl1 & Ht1 & Hm1 & Hb1 & Hx1); [intros; by apply in_pool_add|].
  set (s1 := with_db D1 (with_memRepo (repo_add tx r) s)).
  rewrite (bind_Done _ _ _ _ _ (zoom_Done db_ with_db _ (with_memRepo (repo_add tx r) s) _ _ Hraw)).
  fold s1. unfold mbind at 1, M_bind at 1, get at 1. cbv beta iota zeta.
  set (s2 := with_db {| cur := cur D1; in_tx := true; durable := durable D1 |} s1).
  assert (on_db start_transaction s1 = (Done tt, s2)) as Hst by done.
  rewrite (bind_Done _ _ _ _ _ Hst).
  set (b := next_batch_id (cur D1)). set (ts := getMaxTimestamp (blkTs_ s1)).
  destruct (updateOrThrowEx_run (λ d, insert_txlogs [accept_row (next_batch_id d) ts h] d)
    (λ _, 1) 1 (db_ s2) (or_intror eq_refl)) as (D2 & Hr2 & Hc2 & Htx2).
  rewrite (bind_Done _ _ _ _ _ (zoom_Done db_ with_db _ s2 _ _ Hr2)).
  cbn [s2 db_ with_db cur] in Hc2. fold b in Hc2.
  assert (prepared s s1) as Hp.
  { split; cbn [s1 with_db with_memRepo db_ memRepo_]; try done.
    - apply pool_add; [apply Hinv|done..].
    - intros h'. simpl. rewrite Hi0.
      rewrite elem_of_union, elem_of_singleton. intros [->|]; [|set_solver].
      fold h. unfold in_pool. fold r. rewrite Hn. by intros [? [=]].
    - intros h'. simpl. rewrite Hd0. set_solver.
    - intros h'. rewrite in_pool_add. simpl. rewrite Hi0, Hd0. fold h r. set_solver. }
  destruct (finish_run now (with_db D2 s2)) as (D3 & T & Hr3 & Hc3 & Htx3 & HT & Hin).
  - simpl. rewrite Hc2. simpl. rewrite Ht1. apply Hinv.
  - intros h' Hh'. simpl. rewrite Hc2. simpl. rewrite Ht1, (i_table _ _ Hinv).
    by apply (c_ins _ _ Hp).
  - intros h'. simpl. rewrite Hd0. set_solver.
  - destruct (prepared_meta _ _ _ Hinv Hp) as (i & o & Hm & ?). exists i, o. simpl in *.
    rewrite Hc2. done.
  - apply Hinv.
  - done.
  - exists (moved s1 (clean (repo_add tx r)) D3). split; [exact Hr3|].
    cbn [db_ with_db s2 s1 with_memRepo memRepo_ log1_ currLog1FileOffset_] in Hc3.
    rewrite Hc2 in Hc3.
    assert (grows (cur (db_ s)) (cur D3) ∧ raw_blocks (cur D3) = raw_blocks (cur (db_ s))) as [Hgr Hbl].
    { rewrite Hc3. cbn. rewrite Hb1. split; [|done]. split; cbn; rewrite ?Hb1.
      - intros k Hk. apply Hx1. by right.
      - intros x Hx. by exists x. }
    assert (writes [row LOG2TYPE_TX_ACCEPT (-1) (-1) ts h] s (moved s1 (clean (repo_add tx r)) D3)) as Hwr.
    { exists b. cbn [moved db_ with_db]. rewrite Hc3. cbn. by rewrite Hl1. }
    destruct (inv_after s st s1 (<[h := Unconfirmed]> st) D3 T b [accept_row b ts h]) as [H1 H2];
      rewrite ?Hc3; try done.
    + simpl. by rewrite Hl1.
    + unfold b. apply next_batch_id_nonneg. rewrite Hl1.
      apply (Forall_impl _ _ _ (i_rows _ _ Hinv)). lia.
    + by repeat constructor.
    + rewrite <-Hl1. apply Forall_forall. intros x Hx. by apply next_batch_id_above.
    + simpl. unfold ev, accept_row. simpl. fold (Accept h). rewrite step_accept; [done|].
      destruct (st !! h) as [[]|] eqn:E; [|done..].
      apply (i_unconfirmed _ _ Hinv) in E. fold r in E. unfold in_pool in E. rewrite Hn in E.
      by destruct E.
    + intros h'. cbn [s1 memRepo_ with_memRepo with_db]. rewrite in_pool_add, lookup_insert. fold h.
      case_decide as E; [subst; naive_solver|]. rewrite (i_unconfirmed _ _ Hinv). naive_solver.
    + intros h'. rewrite Hin. simpl. rewrite Hc2. done.
    + split_and!; try done. by exists ts.
Qed.

(** *** Rejecting a transaction *)

Lemma insert_log_rows_txlogs rows D :
  ∃ D', insert_log_rows now rows D = (Done tt, D') ∧
    cur D' = insert_txlogs rows (cur D) ∧ in_tx D' = in_tx D.
Proof. destruct (insert_log_rows_run now rows D) as (D' & ? & ? & ?). eauto. Qed.

(** Steps that only peel ends off the pool. *)
Lemma peel_pool r hs r' : pool_ok r → peel r hs r' → pool_ok r'.
Proof.
  intros [Hok Hr Hb] Hp. split; [by eapply peel_ok|by eapply peel_ranked|].
  intros h tx Ht. rewrite (peel_txs _ _ _ _ Hp) in Ht. case_bool_decide; [done|by apply Hb].
Qed.

Lemma peel_in r hs r' h : peel r hs r' → in_pool r' h ↔ in_pool r h ∧ h ∉ hs.
Proof.
  intros Hp. unfold in_pool. rewrite (peel_txs _ _ _ _ Hp). case_bool_decide as E.
  - split; [by intros [? [=]]|]. by intros [_ ?].
  - naive_solver.
Qed.

Lemma peel_length r hs r' : peel r hs r' → (length hs ≤ repo_size r)%nat.
Proof.
  induction 1 as [|r h tx hs r' Ht _ _ IH]; simpl; [lia|].
  rewrite (size_repo_del _ _ _ Ht). lia.
Qed.

Lemma rejects_ev (hs : list uint256) : ev <$> (reject_row <$> hs) = Reject <$> hs.
Proof. rewrite <-list_fmap_compose. done. Qed.

Lemma rejects_new (hs : list uint256) : Forall (λ x, batch_id x = -1) (reject_row <$> hs).
Proof. by apply Forall_fmap, Forall_true. Qed.

(** The pool only shrank, by [hs]: the batch of their rejections. *)
Lemma publish_rejects s st (hs : list uint256) r1 D1 s1 :
  inv s st → 0 ≤ currLog1FileOffset_ s → Z.of_nat (length hs) < 2 ^ 31 →
  peel (memRepo_ s) hs r1 →
  raw_ok (memRepo_ s) (cur D1) → txlogs2 (cur D1) = txlogs2 (cur (db_ s)) →
  memrepo_txs (cur D1) = memrepo_txs (cur (db_ s)) →
  explorer_meta (cur D1) = explorer_meta (cur (db_ s)) →
  s1 = with_db D1 (with_memRepo r1 s) →
  ∃ s' st', (on_db (insert_log_rows now (reject_row <$> hs)) ;;
      commitBatch now (length (reject_row <$> hs))) s1 = (Done tt, s') ∧
    inv s' st' ∧ publishes (Reject <$> hs) s s' ∧
    (∀ k, st' !! k = if bool_decide (k ∈ hs) then None else st !! k) ∧
    memRepo_ s' = clean r1 ∧ unmoved s s' ∧ writes (reject_row <$> hs) s s' ∧
    raw_txs (cur (db_ s')) = raw_txs (cur D1) ∧ raw_blocks (cur (db_ s')) = raw_blocks (cur D1).
Proof.
  intros Hinv Hoff Hlen Hpeel Hraw Hl Ht Hm ->.
  destruct (insert_log_rows_txlogs (reject_row <$> hs) D1) as (D2 & Hr2 & Hc2 & _).
  set (s1 := with_db D1 (with_memRepo r1 s)).
  rewrite (bind_Done _ _ _ _ _ (zoom_Done db_ with_db _ s1 _ _ Hr2)).
  set (s2 := with_db D2 s1).
  destruct (peel_delete _ _ _ Hpeel) as [Hdel Hins].
  destruct (clean_sets _ (i_clean _ _ Hinv)) as [Hi0 Hd0]. rewrite Hi0 in Hins.
  assert (∀ h, h ∈ unSyncTxsDelete_ r1 ↔ h ∈ hs) as Hdel'.
  { intros h. rewrite Hdel, Hd0, elem_of_union, elem_of_list_to_set, elem_of_empty. tauto. }
  assert (∀ h, h ∉ unSyncTxsInsert_ r1) as Hins' by (intros h; rewrite Hins; apply not_elem_of_empty).
  destruct (run_rejects hs st) as (st' & Hrun & Hst').
  { by eapply peel_NoDup. }
  { intros h Hh. apply (i_unconfirmed _ _ Hinv). by eapply peel_in_pool. }
  destruct (publish s st s2 st' (reject_row <$> hs)) as (D3 & Hr3 & Hi3 & Hp3 & Hw3 & Hx3 & Hb3).
  - done.
  - split; cbn [s2 s1 with_db with_memRepo db_ memRepo_]; rewrite ?Hc2; try done.
    + eapply peel_pool; [apply Hinv|done].
    + destruct Hraw as [Hb Hp Hw]. split; [done| |done].
      intros h Hh. apply Hp. by apply (peel_in _ _ _ h Hpeel) in Hh as [? _].
    + intros h Hh. by destruct (Hins' h).
    + intros h Hh. rewrite Hdel' in Hh. left. by eapply peel_in_pool.
    + intros h. rewrite Hdel', (peel_in _ _ _ h Hpeel). specialize (Hins' h). tauto.
  - done.
  - simpl. rewrite Hc2. simpl. by rewrite Hl.
  - apply rejects_new.
  - by rewrite length_fmap.
  - by rewrite rejects_ev.
  - intros h. cbn [s2 s1 memRepo_ with_db with_memRepo].
    rewrite Hst', (peel_in _ _ _ h Hpeel), <-(i_unconfirmed _ _ Hinv).
    case_bool_decide; naive_solver.
  - rewrite rejects_ev in Hp3. eexists _, st'. split; [exact Hr3|]. cbn [s2 db_ with_db] in Hx3, Hb3.
    rewrite Hc2 in Hx3, Hb3. split_and!; try done; by split_and!.
Qed.

Lemma handleTxReject_run s st item tx :
  inv s st → (getTx item).1 = Done tx → good tx → 0 ≤ currLog1FileOffset_ s →
  Z.of_nat (repo_size (memRepo_ s)) < 2 ^ 31 →
  (¬ in_pool (memRepo_ s) (TxHash tx) ∧ handleTxReject now item s = (Done tt, s)) ∨
  (∃ hs s' st', handleTxReject now item s = (Done tt, s') ∧
     inv s' st' ∧ publishes (Reject <$> (hs ++ [TxHash tx])) s s' ∧
     (∃ r', peel (memRepo_ s) (hs ++ [TxHash tx]) r' ∧ memRepo_ s' = clean r') ∧
     (∀ x, x ∈ hs ++ [TxHash tx] ↔ rtc (child (memRepo_ s)) (TxHash tx) x) ∧
     (∀ k, st' !! k = if bool_decide (k ∈ hs ++ [TxHash tx]) then None else st !! k) ∧
     unmoved s s' ∧ writes (reject_row <$> hs ++ [TxHash tx]) s s' ∧
     grows (cur (db_ s)) (cur (db_ s')) ∧ raw_blocks (cur (db_ s')) = raw_blocks (cur (db_ s))).
Proof.
  intros Hinv Hget Hg Hoff Hsz. unfold handleTxReject. rewrite Hget.
  rewrite (bind_Done (lift_outcome (Done tx)) _ s tx s eq_refl).
  cbv zeta. rewrite (bind_Done get _ s s s eq_refl).
  set (r := memRepo_ s) in *. set (h := TxHash tx).
  unfold isExist. case_bool_decide as Hin; [right|by left]. cbn [negb].
  destruct (i_pool _ _ Hinv) as [Hok Hrk Hb]. fold r in Hok, Hrk, Hb.
  destruct Hin as [t Ht]. assert (t = tx) as ->.
  { rewrite <-(Hb _ _ Ht). apply Hg. }
  destruct (insertRawTx_done tx (db_ s)) as (D1 & Hraw).
  destruct (raw_add tx r r _ _ Hg Hraw (i_raw _ _ Hinv)) as
    (Hro & _ & Hl1 & Ht1 & Hm1 & Hb1 & Hx1); [intros; by right|].
  rewrite (bind_Done _ _ _ _ _ (zoom_Done db_ with_db _ s _ _ Hraw)).
  destruct (removeTxAndChildTx_loop_spec rank (S (repo_size r)) r h tx Hok Hrk Ht ltac:(lia))
    as (hs & r' & Hrun & Hpeel & Hin).
  change (removeTxAndChildTx tx r = (Done (hs ++ [h]), r')) in Hrun.
  rewrite (bind_Done _ _ _ _ _ (zoom_Done memRepo_ with_memRepo _ (with_db D1 s) _ _ Hrun)).
  destruct (publish_rejects s st (hs ++ [h]) r' D1 (with_memRepo r' (with_db D1 s)))
    as (s' & st' & Hr & Hi & Hp & Hst & Hm & Hu & Hw & Hx & Hb2); try done.
  - pose proof (peel_length _ _ _ Hpeel). lia.
  - exists hs, s', st'. split_and!; try done; [by exists r' | | by rewrite Hb2, Hb1].
    split; [intros k Hk; rewrite Hx; apply Hx1; by right|]. intros x. rewrite Hb2, Hb1. by exists x.
Qed.

(** *** Forgetting the pool *)

Lemma clear_loop_spec fuel r acc :
  repo_ok r → all_ranked rank r → (repo_size r < fuel)%nat →
  ∃ hs r', clear_loop fuel acc r = (Done (acc ++ hs), r') ∧ peel r hs r' ∧ repo_size r' = 0%nat.
Proof.
  revert r acc. induction fuel as [|fuel IH]; intros r acc Hok Hr Hf; [lia|]. simpl.
  rewrite (bind_Done get _ r r r eq_refl). destruct (Nat.eqb_spec (repo_size r) 0) as [E|E].
  - exists [], r. rewrite app_nil_r. split_and!; [done|constructor|done].
  - assert (∃ h tx, last (zitems (txs_ r)) = Some (h, tx) ∧ txs_ r !! h = Some tx) as (h & tx & Hl & Ht).
    { destruct (last (zitems (txs_ r))) as [[h tx]|] eqn:El.
      - exists h, tx. split; [done|]. apply (elem_of_map_items Z.le). by apply last_Some_elem_of.
      - apply last_None in El. destruct E. unfold repo_size.
        rewrite <-length_map_to_list, <-(Permutation_length (map_items_perm Z.le (txs_ r))).
        by rewrite El. }
    destruct (getSpentEndTx_spec _ _ _ _ Hok Hr Ht) as (e & Hget & _ & Hend).
    destruct (is_end_in_pool _ _ Hend) as [etx He].
    assert (removeTx_any r = (Done e, repo_del e etx r)) as Hany.
    { unfold removeTx_any. rewrite (bind_Done get _ r r r eq_refl).
      replace (Nat.eqb (repo_size r) 0) with false by (symmetry; by apply Nat.eqb_neq).
      rewrite (bind_Done (assertM (negb false)) _ r tt r eq_refl), Hl.
      rewrite (bind_Done _ _ _ _ _ Hget), (bind_Done _ _ _ _ _ (removeTx_run _ _ _ Hok He)). done. }
    rewrite (bind_Done _ _ _ _ _ Hany).
    destruct (IH (repo_del e etx r) (acc ++ [e])) as (hs & r' & Hrun & Hpeel & Hz).
    { by apply repo_del_ok. }
    { by apply repo_del_ranked. }
    { rewrite (size_repo_del _ _ _ He) in Hf. lia. }
    exists (e :: hs), r'. rewrite Hrun, <-app_assoc. split_and!; [done|by econstructor|done].
Qed.

Lemma clearMempoolTxs_run s st :
  inv s st → 0 ≤ currLog1FileOffset_ s → Z.of_nat (repo_size (memRepo_ s)) < 2 ^ 31 →
  ∃ hs s' st', clearMempoolTxs now s = (Done tt, s') ∧
    inv s' st' ∧ publishes (Reject <$> hs) s s' ∧ txs_ (memRepo_ s') = ∅ ∧
    (∃ r', peel (memRepo_ s) hs r' ∧ memRepo_ s' = clean r') ∧
    (∀ h, h ∈ hs ↔ in_pool (memRepo_ s) h) ∧
    (∀ k, st' !! k = if bool_decide (k ∈ hs) then None else st !! k) ∧
    unmoved s s' ∧ writes (reject_row <$> hs) s s' ∧
    raw_txs (cur (db_ s')) = raw_txs (cur (db_ s)) ∧ raw_blocks (cur (db_ s')) = raw_blocks (cur (db_ s)).
Proof.
  intros Hinv Hoff Hsz. unfold clearMempoolTxs. rewrite (bind_Done get _ s s s eq_refl).
  destruct (i_pool _ _ Hinv) as [Hok Hrk _].
  destruct (clear_loop_spec (S (repo_size (memRepo_ s))) (memRepo_ s) [] Hok Hrk ltac:(lia))
    as (hs & r' & Hrun & Hpeel & Hz). simpl in Hrun.
  rewrite (bind_Done _ _ _ _ _ (zoom_Done memRepo_ with_memRepo _ s _ _ Hrun)).
  set (s1 := with_memRepo r' s). rewrite (bind_Done get _ s1 s1 s1 eq_refl).
  assert (txs_ r' = ∅) as Hemp by (by apply map_size_empty_iff).
  rewrite (bind_Done (assertM _) _ s1 tt s1) by (apply assertM_true; cbn [s1 memRepo_ with_memRepo]; by rewrite Hz).
  destruct (publish_rejects s st hs r' (db_ s) s1) as (s2 & st' & Hr & Hi & Hp & Hst & Hm & Hu & Hw & Hx & Hb); try done.
  { pose proof (peel_length _ _ _ Hpeel). lia. }
  { apply Hinv. }
  rewrite <-bind_assoc, (bind_Done _ _ _ _ _ Hr), (bind_Done get _ s2 s2 s2 eq_refl).
  assert (memrepo_txs (cur (db_ s2)) = []) as Htab.
  { destruct (memrepo_txs (cur (db_ s2))) as [|h l] eqn:E; [done|].
    assert (in_pool (memRepo_ s2) h) as [t Ht].
    { apply (i_table _ _ Hi). rewrite E. left. }
    rewrite Hm in Ht. simpl in Ht. by rewrite Hemp in Ht. }
  rewrite Htab. exists hs, s2, st'. split_and!; try done.
  - by rewrite Hm.
  - by exists r'.
  - intros h. pose proof (peel_in _ _ _ h Hpeel) as Hin. unfold in_pool at 1 in Hin.
    rewrite Hemp, lookup_empty in Hin. split.
    + intros Hh. by eapply peel_in_pool.
    + intros Hh. destruct (decide (h ∈ hs)) as [|Hn]; [done|].
      destruct Hin as [_ Hin]. by destruct (Hin (conj Hh Hn)).
Qed.

(** *** Accepting a block *)

Definition others (blk : CBlock) : list CTransaction :=
  filter (λ tx, IsCoinBase tx = false) (vtx blk).
Definition in_block (blk : CBlock) (h : uint256) : Prop := h ∈ TxHash <$> others blk.

(** What the consensus rules give about a block that extends the chain: its
    transactions are distinct and not confirmed yet, no output is spent twice,
    and whatever it spends is confirmed or in the block itself. *)
Record block_fits st r (blk : CBlock) : Prop := {
  b_good : Forall good (vtx blk);
  b_hashes : NoDup (TxHash <$> vtx blk);
  b_new tx : tx ∈ vtx blk → st !! TxHash tx ≠ Some Confirmed;
  b_keys t1 t2 k : t1 ∈ others blk → t2 ∈ others blk → k ∈ tx_keys t1 → k ∈ tx_keys t2 → t1 = t2;
  b_closed tx k : tx ∈ others blk → k ∈ tx_keys tx → in_pool r (hash_ k) → in_block blk (hash_ k) }.

(** a pool transaction that the block makes impossible: it spends an output
    the block spends, or descends from one that does *)
Definition tainted r (blk : CBlock) (e : uint256) : Prop := ∃ tx c,
  tx ∈ others blk ∧ conflicting r tx c ∧ rtc (child r) c e.

Section block.
Variables (st0 : states) (r0 : MemTxRepository) (blk : CBlock).
Hypothesis (Hpool0 : pool_ok r0) (Hfits : block_fits st0 r0 blk).
Abbreviation B := (in_block blk).

Lemma others_good tx : tx ∈ others blk → good tx ∧ IsCoinBase tx = false ∧ tx ∈ vtx blk.
Proof.
  intros [Hc Hin]%list_elem_of_filter. split_and!; [|done..].
  pose proof (b_good _ _ _ Hfits) as Hg. rewrite Forall_forall in Hg. by apply Hg.
Qed.

Lemma others_hashes : NoDup (TxHash <$> others blk).
Proof.
  pose proof (b_hashes _ _ _ Hfits) as Hnd. unfold others. revert Hnd.
  induction (vtx blk) as [|tx l IH]; [done|].
  rewrite fmap_cons, NoDup_cons, filter_cons. intros [Hn Hnd].
  destruct (decide _); [|by apply IH]. rewrite fmap_cons, NoDup_cons. split; [|by apply IH].
  intros (t & E & [_ Ht]%list_elem_of_filter)%list_elem_of_fmap. apply Hn. rewrite E.
  by apply list_elem_of_fmap_2.
Qed.

(** the pool while the block is processed: outside the block it is a part of
    the old one *)
Record within r : Prop := {
  wi_pool : pool_ok r;
  wi_sub h : ¬ B h → in_pool r h → in_pool r0 h }.

Lemma within_block r h t : within r → B h → txs_ r !! h = Some t → t ∈ others blk.
Proof.
  intros Hw (o & -> & Ho)%list_elem_of_fmap Ht.
  destruct (others_good o Ho) as (Hg & _). rewrite <-(p_body _ (wi_pool _ Hw) _ _ Ht).
  by rewrite (g_body _ Hg).
Qed.

Lemma within_old r h t : within r → ¬ B h → txs_ r !! h = Some t → txs_ r0 !! h = Some t.
Proof.
  intros Hw Hn Ht. destruct (wi_sub _ Hw h Hn) as [t' Ht']; [by exists t|].
  rewrite Ht'. f_equal. rewrite <-(p_body _ Hpool0 _ _ Ht'). apply (p_body _ (wi_pool _ Hw) _ _ Ht).
Qed.

Lemma within_spent r k c : within r → ¬ B c → spentOutputs_ r !! k = Some c →
  spentOutputs_ r0 !! k = Some c.
Proof.
  intros Hw Hn (t & Ht & Hk)%(ok_spent _ (p_ok _ (wi_pool _ Hw))).
  apply (ok_spent _ (p_ok _ Hpool0)). exists t. split; [by eapply within_old|done].
Qed.

(** The walk from a conflicting transaction never enters the block. *)
Lemma conflict_outside r tx c :
  within r → tx ∈ others blk → txs_ r !! TxHash tx = None → conflicting r tx c →
  ¬ B c ∧ conflicting r0 tx c.
Proof.
  intros Hw Htx Hn (k & Hk & Hs).
  destruct (proj1 (ok_spent _ (p_ok _ (wi_pool _ Hw)) k c) Hs) as (t & Ht & Hkt).
  assert (¬ B c) as Hc.
  { intros Hb. pose proof (within_block _ _ _ Hw Hb Ht) as Hto.
    pose proof (b_keys _ _ _ Hfits _ _ _ Htx Hto Hk Hkt) as <-.
    by rewrite <-(ok_hash _ (p_ok _ (wi_pool _ Hw)) _ _ Ht), Hn in Ht. }
  split; [done|]. exists k. split; [done|]. by eapply within_spent.
Qed.

Lemma child_outside r p c : within r → ¬ B p → child r p c → ¬ B c ∧ child r0 p c.
Proof.
  intros Hw Hp (t & Ht & j & Hj & Hs).
  destruct (proj1 (ok_spent _ (p_ok _ (wi_pool _ Hw)) _ c) Hs) as (ct & Hct & Hk).
  pose proof (ok_hash _ (p_ok _ (wi_pool _ Hw)) _ _ Ht) as Hh.
  assert (¬ B c) as Hc.
  { intros Hb. pose proof (within_block _ _ _ Hw Hb Hct) as Hco. apply Hp.
    pose proof (b_closed _ _ _ Hfits _ _ Hco Hk) as Hcl. simpl in Hcl. rewrite Hh in Hcl.
    apply Hcl, (wi_sub _ Hw); [done|by exists t]. }
  split; [done|]. exists t. split; [by eapply within_old|]. exists j. split; [done|].
  by eapply within_spent.
Qed.

Lemma rtc_outside r p c : within r → ¬ B p → rtc (child r) p c → ¬ B c ∧ rtc (child r0) p c.
Proof.
  intros Hw Hp Hr. revert Hp. induction Hr as [p|p x c Hpx Hxc IH]; intros Hp; [by split; [|constructor]|].
  destruct (child_outside _ _ _ Hw Hp Hpx) as [Hx Hpx0]. destruct (IH Hx) as [Hc Hxc0].
  split; [done|]. by eapply rtc_l.
Qed.

Lemma within_del r h t : within r → txs_ r !! h = Some t → within (repo_del h t r).
Proof.
  intros [[Hok Hr Hb] Hs] Ht. split.
  - split; [by apply repo_del_ok|by apply repo_del_ranked|].
    intros h' t' Ht'. simpl in Ht'. apply lookup_delete_Some in Ht' as [_ Ht']. by apply Hb.
  - intros h' Hn [t' Ht']. simpl in Ht'. apply lookup_delete_Some in Ht' as [_ Ht']. apply Hs; [done|by exists t'].
Qed.

Lemma evict_loop_spec fuel r acc tx :
  within r → tx ∈ others blk → txs_ r !! TxHash tx = None → (repo_size r < fuel)%nat →
  ∃ cs r1, evict_loop fuel tx acc r = (Done (acc ++ cs), repo_add tx r1) ∧
    peel r cs r1 ∧ within r1 ∧ txs_ r1 !! TxHash tx = None ∧ (∀ c, ¬ conflicting r1 tx c) ∧
    ∀ e, e ∈ cs → ¬ B e ∧ tainted r0 blk e.
Proof.
  intros Hw Htx. destruct (others_good tx Htx) as (Hg & Hc & _).
  revert r acc Hw. induction fuel as [|fuel IH]; intros r acc Hw Hn Hf; [lia|]. simpl.
  destruct (wi_pool _ Hw) as [Hok Hr Hb].
  destruct (addTx_run r tx Hc) as [[Href Hadd]|(_ & Hcf & Hadd)].
  - destruct Href as [[t Ht]|[c Hcc]]; [by rewrite Hn in Ht|].
    rewrite (bind_Done _ _ _ _ _ Hadd). cbn [negb].
    destruct (getConflictTx_spec _ _ _ _ Hok Hr Hn Hcc) as (c' & e & Hget & Hcc' & Hreach & Hend).
    destruct (conflict_outside _ _ _ Hw Htx Hn Hcc') as [Hc' Hcc0].
    destruct (rtc_outside _ _ _ Hw Hc' Hreach) as [He Hreach0].
    destruct (is_end_in_pool _ _ Hend) as [et Het].
    rewrite (bind_Done _ _ _ _ _ Hget).
    rewrite (bind_Done (assertM _) _ r tt r); cycle 1.
    { apply assertM_true, negb_true_iff, Z.eqb_neq. intros ->. by rewrite Hn in Het. }
    rewrite (bind_Done _ _ _ _ _ (removeTx_run _ _ _ Hok Het)).
    destruct (IH (repo_del e et r) (acc ++ [e])) as (cs & r1 & Hrun & Hpeel & Hw1 & Hn1 & Hcf1 & Hcs).
    { by apply within_del. }
    { simpl. rewrite lookup_delete_ne; [done|]. intros ->. by rewrite Hn in Het. }
    { rewrite (size_repo_del _ _ _ Het) in Hf. lia. }
    exists (e :: cs), r1. rewrite Hrun, <-app_assoc. split_and!; try done; [by econstructor|].
    intros x [->|Hx]%elem_of_cons; [|by apply Hcs]. split; [done|]. by exists tx, c'.
  - exists [], r. rewrite (bind_Done _ _ _ _ _ Hadd), app_nil_r.
    split_and!; [done|constructor|done..|set_solver].
Qed.

Record walked (done : list uint256) (a : pass) r : Prop := {
  k_within : within r;
  k_txs : txHashs a = done;
  k_in h : in_pool r h ↔ (in_pool r0 h ∧ h ∉ conflictTxs a) ∨ h ∈ done;
  k_nodup : NoDup (conflictTxs a);
  k_leaves : leaves_first r0 (conflictTxs a);
  k_conf e : e ∈ conflictTxs a → in_pool r0 e ∧ ¬ B e ∧ tainted r0 blk e;
  k_already h : h ∈ alreadyInMemTxHashs a ↔ h ∈ done ∧ in_pool r0 h;
  k_ins h : h ∈ unSyncTxsInsert_ r ↔ h ∈ done ∧ ¬ in_pool r0 h;
  k_del h : h ∈ unSyncTxsDelete_ r ↔ h ∈ conflictTxs a }.

Lemma walked_known done a r h :
  walked done a r → h ∉ done → in_pool r h →
  walked (done ++ [h]) {| txHashs := txHashs a ++ [h];
    alreadyInMemTxHashs := {[h]} ∪ alreadyInMemTxHashs a; conflictTxs := conflictTxs a |} r.
Proof.
  intros Hk Hn Hin.
  assert (in_pool r0 h) as Hin0.
  { apply (k_in _ _ _ Hk) in Hin as [[? _]|?]; done. }
  split; simpl; try apply Hk.
  - by rewrite (k_txs _ _ _ Hk).
  - intros h'. rewrite elem_of_app, list_elem_of_singleton.
    split; [intros Hh; apply (k_in _ _ _ Hk) in Hh; tauto|].
    intros [Hh|[Hh| ->]]; [..|done]; apply (k_in _ _ _ Hk); tauto.
  - intros h'. rewrite elem_of_union, elem_of_singleton, elem_of_app, list_elem_of_singleton.
    rewrite (k_already _ _ _ Hk). naive_solver.
  - intros h'. rewrite elem_of_app, list_elem_of_singleton, (k_ins _ _ _ Hk). naive_solver.
Qed.

(** A spend of the old pool that is still there. *)
Lemma child_kept r p c : within r → child r0 p c → ¬ B p → in_pool r p → in_pool r c → child r p c.
Proof.
  intros Hw (t & Ht & j & Hj & Hs) Hp [t' Ht'] [ct Hct].
  assert (t' = t) as -> by (pose proof (within_old _ _ _ Hw Hp Ht'); congruence).
  exists t. split; [done|]. exists j. split; [done|].
  apply (ok_spent _ (p_ok _ Hpool0)) in Hs as (ct0 & Hct0 & Hk).
  apply (ok_spent _ (p_ok _ (wi_pool _ Hw))). exists ct. split; [done|].
  by rewrite <-(p_body _ (wi_pool _ Hw) _ _ Hct), (p_body _ Hpool0 _ _ Hct0).
Qed.

Lemma walked_leaves done a r cs r1 :
  walked done a r → (∀ h, h ∈ done → B h) → peel r cs r1 → (∀ e, e ∈ cs → ¬ B e) →
  leaves_first r0 (conflictTxs a ++ cs).
Proof.
  intros Hk HdB Hpeel Hcs i p c Hi Hpc. rewrite take_app. apply elem_of_app.
  apply lookup_app_Some in Hi as [Hi|[Hle Hi]]; [left; by eapply k_leaves|].
  destruct (decide (c ∈ conflictTxs a)) as [Hc|Hc]; [left; by rewrite take_ge|right].
  pose proof (peel_in_pool _ _ _ _ Hpeel (list_elem_of_lookup_2 _ _ _ Hi)) as Hp.
  apply (peel_leaves_first r cs r1 (p_ok _ (wi_pool _ (k_within _ _ _ Hk))) Hpeel _ p c Hi).
  apply child_kept; [apply Hk|done|by eapply Hcs, list_elem_of_lookup_2|done|].
  apply (k_in _ _ _ Hk). left. split; [|done].
  destruct (child_in_pool _ _ _ (p_ok _ Hpool0) Hpc) as [ct ?]. by exists ct.
Qed.

Lemma walked_new done a r tx cs r1 :
  walked done a r → (∀ h, h ∈ done → B h) → tx ∈ others blk → TxHash tx ∉ done →
  ¬ in_pool r (TxHash tx) → peel r cs r1 → within r1 → txs_ r1 !! TxHash tx = None →
  (∀ c, ¬ conflicting r1 tx c) → (∀ e, e ∈ cs → ¬ B e ∧ tainted r0 blk e) →
  walked (done ++ [TxHash tx]) {| txHashs := txHashs a ++ [TxHash tx];
    alreadyInMemTxHashs := alreadyInMemTxHashs a; conflictTxs := conflictTxs a ++ cs |}
    (repo_add tx r1).
Proof.
  intros Hk HdB Htx Hn Hnin Hpeel Hw1 Hn1 Hcf Hcs. set (h := TxHash tx) in *.
  destruct (others_good tx Htx) as (Hg & Hc & _).
  assert (B h) as HB by (by apply list_elem_of_fmap_2).
  assert (¬ in_pool r0 h) as Hn0.
  { intros Hin. apply Hnin, (k_in _ _ _ Hk). left. split; [done|].
    intros Hh. by destruct (k_conf _ _ _ Hk h Hh) as (_ & ? & _). }
  destruct (peel_delete _ _ _ Hpeel) as [Hdel Hins].
  assert (∀ e, e ∈ cs → in_pool r e) as Hcr by (intros e He; by eapply peel_in_pool).
  split; simpl.
  - split; [apply pool_add; [apply Hw1|done..]|].
    intros h' Hh' Hin. apply in_pool_add in Hin as [->|Hin]; [done|]. by apply (wi_sub _ Hw1).
  - by rewrite (k_txs _ _ _ Hk).
  - intros h'. rewrite in_pool_add, (peel_in _ _ _ h' Hpeel), (k_in _ _ _ Hk), !elem_of_app,
      list_elem_of_singleton. fold h.
    assert (h' ∈ done → h' ∉ cs) by (intros Hd Hh; destruct (Hcs h' Hh) as [Hb _]; auto). tauto.
  - apply NoDup_app. split_and!; [apply Hk| |by eapply peel_NoDup].
    intros e He Hec. destruct (k_conf _ _ _ Hk e He) as (_ & HeB & _).
    destruct (proj1 (k_in _ _ _ Hk e) (Hcr e Hec)) as [[_ ?]|Hd]; [done|auto].
  - apply (walked_leaves done a r cs r1); try done. intros e He. by apply Hcs.
  - intros e [He|He]%elem_of_app; [by apply Hk|]. destruct (Hcs e He) as [HeB Ht].
    split_and!; [|done|done]. apply (wi_sub _ (k_within _ _ _ Hk)); auto.
  - intros h'. rewrite elem_of_app, list_elem_of_singleton, (k_already _ _ _ Hk). naive_solver.
  - intros h'. rewrite Hins, elem_of_union, elem_of_singleton, elem_of_app, list_elem_of_singleton,
      (k_ins _ _ _ Hk). fold h. naive_solver.
  - intros h'. rewrite Hdel, elem_of_union, elem_of_list_to_set, elem_of_app, (k_del _ _ _ Hk). tauto.
Qed.

Lemma accept_pass_spec l pre a r :
  vtx blk = pre ++ l → walked (TxHash <$> filter (λ tx, IsCoinBase tx = false) pre) a r →
  ∃ a' r', accept_pass l a r = (Done a', r') ∧ walked (TxHash <$> others blk) a' r'.
Proof.
  revert pre a r. induction l as [|tx l IH]; intros pre a r Hv Hk.
  - exists a, r. split; [done|]. unfold others. by rewrite Hv, app_nil_r.
  - cbn [accept_pass]. destruct (IsCoinBase tx) eqn:Hc.
    { apply (IH (pre ++ [tx])); [by rewrite <-app_assoc|].
      rewrite filter_app, filter_cons_False, app_nil_r; [done|congruence]. }
    rewrite (bind_Done get _ r r r eq_refl). set (done := TxHash <$> _ : list uint256) in Hk.
    assert (tx ∈ others blk) as Htx.
    { apply list_elem_of_filter. split; [done|]. rewrite Hv. set_solver. }
    assert (∀ h, h ∈ done → h ∈ TxHash <$> pre ∧ B h) as Hdone.
    { intros h (t & -> & [Htc Ht]%list_elem_of_filter)%list_elem_of_fmap.
      split; apply list_elem_of_fmap_2; [done|]. apply list_elem_of_filter.
      split; [done|]. rewrite Hv. set_solver. }
    assert (TxHash tx ∉ done) as Hnd.
    { intros [Hd _]%Hdone. pose proof (b_hashes _ _ _ Hfits) as Hnd.
      rewrite Hv, fmap_app, fmap_cons in Hnd. apply NoDup_app in Hnd as (_ & Hdis & _).
      apply (Hdis _ Hd). left. }
    assert (done ++ [TxHash tx] = TxHash <$> filter (λ tx, IsCoinBase tx = false) (pre ++ [tx])) as Ed
      by (by rewrite filter_app, filter_cons_True, fmap_app).
    unfold isExist. case_bool_decide as Hin.
    + apply (IH (pre ++ [tx])); [by rewrite <-app_assoc|]. rewrite <-Ed. by apply walked_known.
    + destruct (evict_loop_spec (S (repo_size r)) r (conflictTxs a) tx)
        as (cs & r1 & Hrun & Hpeel & Hw1 & Hn1 & Hcf & Hcs); [apply Hk|done| |lia|].
      { by apply eq_None_not_Some. }
      rewrite (bind_Done _ _ _ _ _ Hrun).
      apply (IH (pre ++ [tx])); [by rewrite <-app_assoc|]. rewrite <-Ed.
      apply (walked_new done a r); try done. intros h Hh. by apply Hdone.
Qed.
End block.

(** Taking the block's transactions out of the pool again. *)
Lemma removeTxs_spec hs r :
  pool_ok r → NoDup hs → (∀ h, h ∈ hs → in_pool r h) →
  ∃ r', removeTxs hs r = (Done tt, r') ∧ pool_ok r' ∧
    (∀ h, txs_ r' !! h = if bool_decide (h ∈ hs) then None else txs_ r !! h) ∧
    unSyncTxsInsert_ r' = unSyncTxsInsert_ r ∧
    unSyncTxsDelete_ r' = list_to_set hs ∪ unSyncTxsDelete_ r.
Proof.
  unfold removeTxs. revert r. induction hs as [|h hs IH]; intros r Hp Hnd Hin.
  - exists r. split_and!; [done|done|done|done|]. simpl. by rewrite union_empty_l_L.
  - apply NoDup_cons in Hnd as [Hh Hnd]. destruct (Hin h) as [t Ht]; [left|].
    destruct (IH (repo_del h t r)) as (r' & Hrun & Hp' & Htx & Hi & Hd); [|done| |].
    + destruct Hp as [Hok Hr Hb]. split; [by apply repo_del_ok|by apply repo_del_ranked|].
      intros h' t' Ht'. simpl in Ht'. apply lookup_delete_Some in Ht' as [_ Ht']. by apply Hb.
    + intros h' Hh'. unfold in_pool. simpl. rewrite lookup_delete_ne; [|set_solver].
      apply Hin. by right.
    + exists r'. simpl. rewrite (bind_Done _ _ _ _ _ (removeTx_run _ _ _ (p_ok _ Hp) Ht)), Hrun.
      split_and!; [done|done| |done|].
      * intros k. rewrite Htx. simpl. rewrite lookup_delete.
        repeat case_bool_decide; repeat case_decide; try done; set_solver.
      * rewrite Hd. simpl. clear. set_solver.
Qed.
(** *** The raw data of a block *)

Lemma raw_adds txs r D :
  Forall good txs → raw_ok r (cur D) →
  ∃ D', (∀ s, db_ s = D → forM txs (λ tx, on_db (insertRawTx tx)) s = (Done tt, with_db D' s)) ∧
    raw_ok r (cur D') ∧ in_tx D' = in_tx D ∧ txlogs2 (cur D') = txlogs2 (cur D) ∧
    memrepo_txs (cur D') = memrepo_txs (cur D) ∧ explorer_meta (cur D') = explorer_meta (cur D) ∧
    raw_blocks (cur D') = raw_blocks (cur D) ∧
    ∀ h, is_Some (raw_txs (cur D') !! h) ↔ h ∈ TxHash <$> txs ∨ is_Some (raw_txs (cur D) !! h).
Proof.
  intros Hg. revert D. induction Hg as [|tx txs Hg _ IH]; intros D Hro.
  - exists D. split; [|split_and!; try done; set_solver].
    intros s <-. unfold mret, M_ret. simpl. unfold mret, M_ret. f_equal. by destruct s.
  - destruct (insertRawTx_done tx D) as (D1 & Hraw).
    destruct (raw_add tx r r _ _ Hg Hraw Hro) as (Hro1 & Htx1 & Hl1 & Ht1 & Hm1 & Hb1 & Hin1); [by right|].
    destruct (IH D1 Hro1) as (D2 & Hrun & Hro2 & Htx2 & Hl2 & Ht2 & Hm2 & Hb2 & Hin2).
    exists D2. split; [|split_and!; try done; try congruence].
    + intros s <-. simpl. rewrite (bind_Done _ _ _ _ _ (zoom_Done db_ with_db _ s _ _ Hraw)).
      by rewrite Hrun.
    + intros h. rewrite Hin2, Hin1, fmap_cons, elem_of_cons. tauto.
Qed.

(** A block's row is found, or a new one is written. *)
Lemma block_row_run r blk height D :
  raw_ok r (cur D) →
  (∀ x, find_raw_block (BlockHash blk) (cur D) = Some x → rb_height x = height) →
  ∃ id D', insertRawBlock blk height D = (Done id, D') ∧ raw_ok r (cur D') ∧ in_tx D' = in_tx D ∧
    (∃ l, cur D' = with_raw_blocks l (cur D)) ∧ stores blk height id (cur D) (cur D').
Proof.
  intros Hro Hh. pose proof (insertRawBlock_run blk height D (w_blocks _ _ Hro)) as Hr.
  destruct (find_raw_block _ _) as [x|] eqn:E.
  - exists (rb_id x), D. rewrite Hr, (Hh x eq_refl), Z.eqb_refl. split_and!; try done.
    { exists (raw_blocks (cur D)). by destruct (cur D). }
    apply find_some in E as [Hx%list_elem_of_In E%Z.eqb_eq].
    split; [by apply grows_refl|intros y Hy; left; by exists y|]. exists x. by rewrite (Hh x eq_refl).
  - destruct Hr as (D' & Hr & Hc & Hw & Ht). exists (next_block_id (cur D)), D'.
    split_and!; [done| |done|by eexists|].
    { destruct Hro as [Hb Hp Hw0]. rewrite Hc in *. by split. }
    assert (∀ x : raw_block, same_block x (if rb_height x =? height then bump x else x)) as Hsame
      by (intros x; by destruct (rb_height x =? height)).
    rewrite Hc. split; cbn [raw_blocks with_raw_blocks].
    + split; [done|]. intros x Hx. eexists. split; [|apply (Hsame x)]. apply elem_of_app. left.
      unfold bump_height. apply list_elem_of_fmap. by exists x.
    + intros y [Hy|Hy]%elem_of_app; [left|right].
      * unfold bump_height in Hy. apply list_elem_of_fmap in Hy as (x & -> & Hx). by exists x.
      * by apply list_elem_of_singleton in Hy as ->.
    + exists (new_block blk height (cur D)). split; [|done]. apply elem_of_app. right. by left.
Qed.

(** the rows of the block's transactions, as [handleBlockAccept] writes them *)
Abbreviation confirm_rows already height blockId ts txs :=
  (flat_map (λ tx,
      (if bool_decide (TxHash tx ∈ already) then []
       else [row LOG2TYPE_TX_ACCEPT (-1) (-1) ts (TxHash tx)]) ++
      [row LOG2TYPE_TX_CONFIRM height blockId ts (TxHash tx)]) txs).

Lemma confirm_rows_spec (already : gset uint256) height blockId ts txs :
  ev <$> confirm_rows already height blockId ts txs =
    flat_map (confirm_events (λ h, bool_decide (h ∈ already))) (TxHash <$> txs) ∧
  Forall (λ x, batch_id x = -1) (confirm_rows already height blockId ts txs) ∧
  (length (confirm_rows already height blockId ts txs) ≤ 2 * length txs)%nat.
Proof.
  induction txs as [|tx txs (IH1 & IH2 & IH3)]; [split_and!; [done|constructor|simpl; lia]|].
  cbn [flat_map fmap list_fmap]. rewrite fmap_app, IH1. split_and!.
  - unfold confirm_events. by case_bool_decide.
  - apply Forall_app. split; [|done]. case_bool_decide; by repeat constructor.
  - rewrite length_app. case_bool_decide; simpl; lia.
Qed.

Lemma flat_map_ext_in {A C} (f g : A → list C) l :
  (∀ x, x ∈ l → f x = g x) → flat_map f l = flat_map g l.
Proof.
  induction l as [|x l IH]; intros E; simpl; [done|].
  rewrite E by left. f_equal. apply IH. intros y Hy. apply E. by right.
Qed.

Lemma flat_map_fmap_in {A B C} (k : A → list C) (f : B → list C) (g : A → B) l :
  (∀ x, x ∈ l → k x = f (g x)) → flat_map k l = flat_map f (g <$> l).
Proof.
  induction l as [|x l IH]; intros E; simpl; [done|].
  rewrite E by left. f_equal. apply IH. intros y Hy. apply E. by right.
Qed.

Lemma block_pool_others st r blk tx :
  pool_ok r → block_fits st r blk → tx ∈ vtx blk → in_pool r (TxHash tx) → in_block blk (TxHash tx).
Proof.
  intros Hp Hf Htx [t Ht]. apply list_elem_of_fmap_2, list_elem_of_filter. split; [|done].
  pose proof (b_good _ _ _ Hf) as Hg. rewrite Forall_forall in Hg.
  assert (t = tx) as -> by (rewrite <-(p_body _ Hp _ _ Ht); apply Hg, Htx).
  by apply (ok_input _ (p_ok _ Hp)) in Ht as [? _].
Qed.

(** The life cycle of the events of a block. *)
Lemma block_events st r blk C :
  pool_ok r → block_fits st r blk →
  (∀ h, st !! h = Some Unconfirmed ↔ in_pool r h) →
  NoDup C → (∀ e, e ∈ C → in_pool r e ∧ ¬ in_block blk e) →
  ∃ st', tx_run ((Reject <$> C) ++
      flat_map (confirm_events (λ h, isExist h r)) (TxHash <$> vtx blk)) st = Some st' ∧
    ∀ k, st' !! k = if bool_decide (k ∈ TxHash <$> vtx blk) then Some Confirmed
                    else if bool_decide (k ∈ C) then None else st !! k.
Proof.
  intros Hp Hf Hun Hnd HC.
  destruct (run_rejects C st Hnd) as (st1 & Hr1 & Hst1).
  { intros h Hh. by apply Hun, HC. }
  destruct (run_confirms (λ h, isExist h r) (TxHash <$> vtx blk) st1) as (st2 & Hr2 & Hst2).
  - apply (b_hashes _ _ _ Hf).
  - intros h (tx & -> & Htx)%list_elem_of_fmap. rewrite Hst1. unfold isExist.
    pose proof (b_new _ _ _ Hf tx Htx) as Hnew. specialize (Hun (TxHash tx)).
    rewrite (bool_decide_false (TxHash tx ∈ C)).
    + fold (in_pool r (TxHash tx)). case_bool_decide as Hin; [by apply Hun|].
      destruct (st !! TxHash tx) as [[]|]; [|done..]. by destruct Hin; apply Hun.
    + intros Hh. destruct (HC _ Hh) as [Hin Hb]. apply Hb. by eapply block_pool_others.
  - exists st2. rewrite tx_run_app, Hr1. split; [done|]. intros k. by rewrite Hst2, Hst1.
Qed.

(** The two passes over the pool together. *)
Lemma block_pool st r0 blk :
  pool_ok r0 → r0 = clean r0 → block_fits st r0 blk →
  ∃ a r1 r2,
    accept_pass (vtx blk) {| txHashs := []; alreadyInMemTxHashs := ∅; conflictTxs := [] |} r0
      = (Done a, r1) ∧
    removeTxs (txHashs a) r1 = (Done tt, r2) ∧ pool_ok r2 ∧
    (∀ h, in_pool r2 h ↔ in_pool r0 h ∧ h ∉ conflictTxs a ∧ ¬ in_block blk h) ∧
    (∀ h, h ∈ unSyncTxsInsert_ r2 ↔ in_block blk h ∧ ¬ in_pool r0 h) ∧
    (∀ h, h ∈ unSyncTxsDelete_ r2 ↔ h ∈ conflictTxs a ∨ in_block blk h) ∧
    NoDup (conflictTxs a) ∧
    (∀ e, e ∈ conflictTxs a → in_pool r0 e ∧ ¬ in_block blk e ∧ tainted r0 blk e) ∧
    (∀ h, h ∈ alreadyInMemTxHashs a ↔ in_block blk h ∧ in_pool r0 h) ∧
    (∀ tx c, tx ∈ others blk → ¬ conflicting r2 tx c) ∧ leaves_first r0 (conflictTxs a).
Proof.
  intros Hp Hcl Hf. destruct (clean_sets _ Hcl) as [Hi0 Hd0].
  destruct (accept_pass_spec st r0 blk Hp Hf (vtx blk) []
    {| txHashs := []; alreadyInMemTxHashs := ∅; conflictTxs := [] |} r0) as (a & r1 & Hrun & Hk).
  { done. }
  { split; simpl; try done.
    - intros h. rewrite elem_of_nil. naive_solver.
    - constructor.
    - intros e He. by apply elem_of_nil in He.
    - intros h. rewrite elem_of_nil, elem_of_empty. naive_solver.
    - intros h. rewrite Hi0, elem_of_nil, elem_of_empty. naive_solver.
    - intros h. rewrite Hd0, elem_of_nil, elem_of_empty. naive_solver. }
  destruct (removeTxs_spec (txHashs a) r1) as (r2 & Hrm & Hp2 & Htx2 & Hi2 & Hd2).
  { apply Hk. }
  { rewrite (k_txs _ _ _ _ _ Hk). by eapply others_hashes. }
  { intros h Hh. rewrite (k_txs _ _ _ _ _ Hk) in Hh. apply (k_in _ _ _ _ _ Hk). by right. }
  rewrite (k_txs _ _ _ _ _ Hk) in Htx2, Hd2.
  assert (∀ h, in_pool r2 h ↔ in_pool r1 h ∧ ¬ in_block blk h) as Hin2.
  { intros h. unfold in_pool, in_block. rewrite Htx2. case_bool_decide; [|naive_solver].
    split; [by intros [? [=]]|naive_solver]. }
  exists a, r1, r2. split_and!; try done.
  - intros h. rewrite Hin2, (k_in _ _ _ _ _ Hk). unfold in_block. tauto.
  - intros h. by rewrite Hi2, (k_ins _ _ _ _ _ Hk).
  - intros h. rewrite Hd2, elem_of_union, elem_of_list_to_set, (k_del _ _ _ _ _ Hk).
    unfold in_block. tauto.
  - apply Hk.
  - intros e. apply (k_conf _ _ _ _ _ Hk).
  - intros h. apply (k_already _ _ _ _ _ Hk).
  - intros tx c Htx (k & Hkt & Hs).
    apply (ok_spent _ (p_ok _ Hp2)) in Hs as (t & Ht & Hkc).
    assert (in_block blk (TxHash tx)) as Hb by (by apply list_elem_of_fmap_2).
    destruct (proj1 (Hin2 c)) as [[t1 Ht1] Hcb]; [by exists t|].
    assert (t1 = t) as ->.
    { rewrite Htx2 in Ht. case_bool_decide; congruence. }
    pose proof (wi_pool _ _ _ (k_within _ _ _ _ _ Hk)) as Hp1.
    assert (spentOutputs_ r1 !! k = Some c) as Hsc by (apply (ok_spent _ (p_ok _ Hp1)); eauto).
    destruct (proj2 (k_in _ _ _ _ _ Hk (TxHash tx)) (or_intror Hb)) as [t2 Ht2].
    assert (t2 = tx) as ->.
    { rewrite <-(p_body _ Hp1 _ _ Ht2). destruct (others_good st r0 blk Hf tx Htx) as [Hg _]. apply Hg. }
    assert (spentOutputs_ r1 !! k = Some (TxHash tx)) as Hst
      by (apply (ok_spent _ (p_ok _ Hp1)); eauto).
    assert (c = TxHash tx) as -> by congruence. done.
  - apply Hk.
Qed.

(** the events a block publishes when [C] are evicted for it *)
Definition block_event_list (C : list uint256) r (blk : CBlock) : list event :=
  (Reject <$> C) ++ flat_map (confirm_events (λ h, isExist h r)) (TxHash <$> vtx blk).

(** and its rows *)
Definition block_rows (C : list uint256) r (blk : CBlock) (height id ts : Z) : list txlog :=
  (reject_row <$> C) ++ flat_map (λ h,
    (if isExist h r then [] else [row LOG2TYPE_TX_ACCEPT (-1) (-1) ts h]) ++
    [row LOG2TYPE_TX_CONFIRM height id ts h]) (TxHash <$> vtx blk).

Record block_accepted s st (blk : CBlock) height s' st' C : Prop := {
  ba_inv : inv s' st';
  ba_pub : publishes (block_event_list C (memRepo_ s) blk) s s';
  ba_nodup : NoDup C;
  ba_evicted e : e ∈ C → in_pool (memRepo_ s) e ∧ ¬ in_block blk e ∧ tainted (memRepo_ s) blk e;
  ba_pool h : in_pool (memRepo_ s') h ↔ in_pool (memRepo_ s) h ∧ h ∉ C ∧ ¬ in_block blk h;
  ba_free tx c : tx ∈ others blk → ¬ conflicting (memRepo_ s') tx c;
  ba_status k : st' !! k = if bool_decide (k ∈ TxHash <$> vtx blk) then Some Confirmed
                           else if bool_decide (k ∈ C) then None else st !! k;
  ba_raw tx : tx ∈ vtx blk → is_Some (raw_txs (cur (db_ s')) !! TxHash tx);
  ba_ts : pushBlock height (GetBlockTime blk) (blkTs_ s) = (Done tt, blkTs_ s');
  ba_curr : currBlockHeight_ s' = currBlockHeight_ s ∧ currBlockHash_ s' = currBlockHash_ s;
  ba_leaves : leaves_first (memRepo_ s) C;
  ba_rows : ∃ id, stores blk height id (cur (db_ s)) (cur (db_ s')) ∧
    writes (block_rows C (memRepo_ s) blk height id (getMaxTimestamp (blkTs_ s'))) s s' }.

Lemma handleBlockAccept_run s st item blk :
  inv s st → (getBlock item).1 = Done blk → block_fits st (memRepo_ s) blk →
  blkTimestamps_ (blkTs_ s) !! blockHeight_ item = None →
  (∀ x, find_raw_block (BlockHash blk) (cur (db_ s)) = Some x → rb_height x = blockHeight_ item) →
  0 ≤ currLog1FileOffset_ s →
  Z.of_nat (repo_size (memRepo_ s) + 2 * length (vtx blk)) < 2 ^ 31 →
  ∃ C s' st', handleBlockAccept now item s = (Done tt, s') ∧
    block_accepted s st blk (blockHeight_ item) s' st' C.
Proof.
  intros Hinv Hget Hfits Hts Hheight Hoff Hlen. unfold handleBlockAccept. rewrite Hget.
  rewrite (bind_Done (lift_outcome (Done blk)) _ s blk s eq_refl). cbv zeta.
  set (height := blockHeight_ item) in *.
  assert (∃ ts', pushBlock height (GetBlockTime blk) (blkTs_ s) = (Done tt, ts')) as (ts' & Hpush).
  { unfold pushBlock. rewrite (bind_Done get _ (blkTs_ s) (blkTs_ s) (blkTs_ s) eq_refl).
    rewrite (bind_Done (assertM _) _ (blkTs_ s) tt (blkTs_ s)); [by eexists|].
    apply assertM_true. by apply bool_decide_eq_true. }
  rewrite (bind_Done _ _ _ _ _ (zoom_Done blkTs_ with_blkTs _ s _ _ Hpush)).
  set (s1 := with_blkTs ts' s). set (r0 := memRepo_ s) in *.
  destruct (block_pool st r0 blk (i_pool _ _ Hinv) (i_clean _ _ Hinv) Hfits)
    as (a & r1 & r2 & Hpass & Hrm & Hp2 & Hin2 & Hins & Hdel & Hnd & Hev & Halr & Hfree & Hlv).
  rewrite (bind_Done _ _ _ _ _ (zoom_Done memRepo_ with_memRepo _ s1 _ _ Hpass)).
  set (s2 := with_memRepo r1 s1).
  rewrite (bind_Done (if Nat.eqb (length (conflictTxs a)) 0 then mret tt else _) _ s2 tt s2); cycle 1.
  { destruct (Nat.eqb _ 0); [done|]. apply assertM_true, Nat.eqb_eq. by apply size_list_to_set. }
  rewrite (bind_Done _ _ _ _ _ (zoom_Done memRepo_ with_memRepo _ s2 _ _ Hrm)).
  set (s3 := with_memRepo r2 s2).
  destruct (block_row_run r0 blk height (db_ s) (i_raw _ _ Hinv) Hheight)
    as (id & D1 & Hrow & Hro1 & Htx1 & (l1 & Hc1) & Hst1).
  rewrite (bind_Done _ _ _ _ _ (zoom_Done db_ with_db _ s3 _ _ Hrow)).
  destruct (raw_adds (vtx blk) r0 D1 (b_good _ _ _ Hfits) Hro1)
    as (D2 & Hraws & Hro2 & Htx2 & Hl2 & Ht2 & Hm2 & Hb2 & Hin3).
  rewrite (bind_Done _ _ _ _ _ (Hraws (with_db D1 s3) eq_refl)).
  set (s4 := with_db D2 (with_db D1 s3)). rewrite (bind_Done get _ s4 s4 s4 eq_refl).
  set (rows := _ ++ confirm_rows _ _ _ _ _ : list txlog).
  destruct (insert_log_rows_txlogs rows D2) as (D3 & Hr3 & Hc3 & Htx3).
  rewrite (bind_Done _ _ _ _ _ (zoom_Done db_ with_db _ s4 _ _ Hr3)).
  set (s5 := with_db D3 s4).
  destruct (confirm_rows_spec (alreadyInMemTxHashs a) height id (getMaxTimestamp (blkTs_ s4)) (vtx blk))
    as (Hev1 & Hnew1 & Hlen1).
  assert (ev <$> rows = block_event_list (conflictTxs a) r0 blk) as Hevs.
  { unfold rows. rewrite fmap_app, rejects_ev, Hev1. unfold block_event_list. f_equal.
    apply flat_map_ext_in. intros h (tx & -> & Htx)%list_elem_of_fmap. unfold confirm_events.
    replace (bool_decide (TxHash tx ∈ alreadyInMemTxHashs a)) with (isExist (TxHash tx) r0); [done|].
    apply bool_decide_ext. rewrite Halr. split; [|by intros [_ ?]].
    intros Hp. split; [by eapply block_pool_others; [apply Hinv|..]|done]. }
  destruct (block_events st r0 blk (conflictTxs a) (i_pool _ _ Hinv) Hfits (i_unconfirmed _ _ Hinv) Hnd)
    as (st' & Hrun & Hst').
  { intros e He. by destruct (Hev e He) as (? & ? & _). }
  assert (rows = block_rows (conflictTxs a) r0 blk height id (getMaxTimestamp ts')) as Hrows.
  { unfold rows, block_rows. f_equal. apply flat_map_fmap_in. intros tx Htx.
    assert (isExist (TxHash tx) r0 = bool_decide (TxHash tx ∈ alreadyInMemTxHashs a)) as ->; [|done].
    apply bool_decide_ext. rewrite Halr. split; [|by intros [_ ?]].
    intros Hp. split; [by eapply block_pool_others; [apply Hinv|..]|done]. }
  rewrite Hc1 in Hl2, Ht2, Hm2. simpl in Hl2, Ht2, Hm2.
  destruct (publish s st s5 st' rows) as (D4 & Hr4 & Hi4 & Hp4 & Hw4 & Hraw4 & Hb4).
  - done.
  - split; cbn [s5 s4 s3 s2 s1 with_db with_memRepo with_blkTs db_ memRepo_];
      rewrite ?Hc3; try done.
    + destruct Hro2 as [Hb Hp Hw]. split; [done| |done]. intros h Hh. apply Hp. by apply Hin2 in Hh as [? _].
    + intros h Hh. by apply Hins in Hh as [_ ?].
    + intros h Hh. rewrite Hins. apply Hdel in Hh as [Hh|Hh]; [left; by apply Hev|].
      fold r0. destruct (decide (is_Some (txs_ r0 !! h))); [by left|by right].
    + intros h. rewrite Hin2, Hins, Hdel. fold r0.
      assert (h ∈ conflictTxs a → ¬ in_block blk h) by (intros He; by destruct (Hev h He) as (_ & ? & _)).
      tauto.
  - done.
  - simpl. rewrite Hc3. simpl. by rewrite Hl2.
  - apply Forall_app. split; [apply rejects_new|done].
  - unfold rows. rewrite length_app, length_fmap.
    assert (length (conflictTxs a) ≤ repo_size r0)%nat; [|lia].
    unfold repo_size. rewrite <-(size_dom (D := gset uint256)), <-(size_list_to_set (C := gset uint256) (conflictTxs a)) by done.
    apply subseteq_size. intros e He. apply elem_of_list_to_set in He.
    apply elem_of_dom. by apply Hev.
  - by rewrite Hevs.
  - intros h. cbn [s5 s4 s3 s2 s1 with_db with_memRepo with_blkTs db_ memRepo_].
    pose proof (i_unconfirmed _ _ Hinv h) as Hun. fold r0 in Hun. rewrite Hst', Hin2, <-Hun.
    case_bool_decide as Hb.
    + split; [done|]. intros (Hu & _ & Hn). apply Hun in Hu.
      apply list_elem_of_fmap in Hb as (tx & -> & Htx). destruct Hn.
      by eapply block_pool_others; [apply Hinv|..].
    + assert (¬ in_block blk h).
      { intros (tx & -> & [_ Htx]%list_elem_of_filter)%list_elem_of_fmap.
        by apply Hb, list_elem_of_fmap_2. }
      case_bool_decide; naive_solver.
  - exists (conflictTxs a). eexists _, st'. split; [exact Hr4|]. rewrite Hevs in Hp4.
    assert (grows (cur D1) (cur D4)) as Hg4.
    { split; rewrite ?Hraw4, ?Hb4; cbn [s5 db_ with_db]; rewrite Hc3; cbn; rewrite ?Hb2.
      - intros h Hh. apply Hin3. by right.
      - intros x Hx. by exists x. }
    split; try done.
    + intros tx Htx. cbn [moved db_ with_db]. rewrite Hraw4.
      cbn [s5 db_ with_db]. rewrite Hc3. apply Hin3. left. by apply list_elem_of_fmap_2.
    + exists id. split; [|by rewrite Hrows in Hw4]. destruct Hst1 as [Hg Ho (y & Hy & Hrest)].
      assert (raw_blocks (cur D4) = raw_blocks (cur D1)) as Eb.
      { rewrite Hb4. cbn [s5 db_ with_db]. rewrite Hc3. cbn. by rewrite Hb2. }
      split; cbn [moved db_ with_db]; rewrite ?Eb; [by eapply grows_trans|done|by exists y].
Qed.

(** *** Rolling a block back *)

Record rollback_fits st r d (blk : CBlock) : Prop := {
  rb_good : Forall good (vtx blk);
  rb_hashes : NoDup (TxHash <$> vtx blk);
  rb_coinbase : ∃ cb rest, vtx blk = cb :: rest ∧ IsCoinBase cb = true ∧
                  Forall (λ tx, IsCoinBase tx = false) rest;
  rb_confirmed tx : tx ∈ vtx blk → st !! TxHash tx = Some Confirmed;
  rb_raw tx : tx ∈ vtx blk → is_Some (raw_txs d !! TxHash tx);
  rb_keys t1 t2 k : t1 ∈ others blk → t2 ∈ others blk → k ∈ tx_keys t1 → k ∈ tx_keys t2 → t1 = t2;
  rb_free tx c : tx ∈ others blk → ¬ conflicting r tx c }.

Lemma rollback_adds l r :
  pool_ok r → Forall good l → NoDup (TxHash <$> l) →
  (∀ t1 t2 k, t1 ∈ l → t2 ∈ l → IsCoinBase t1 = false → IsCoinBase t2 = false →
     k ∈ tx_keys t1 → k ∈ tx_keys t2 → t1 = t2) →
  (∀ tx, tx ∈ l → IsCoinBase tx = false → ¬ in_pool r (TxHash tx) ∧ ∀ c, ¬ conflicting r tx c) →
  ∃ r', forM l (λ tx, if IsCoinBase tx then mret tt
      else ok ← addTx tx;
           if negb ok then raise (Throw "thare are conflict txs, should not happened") else mret tt) r
      = (Done tt, r') ∧ pool_ok r' ∧
    (∀ h, in_pool r' h ↔ in_pool r h ∨ h ∈ TxHash <$> filter (λ tx, IsCoinBase tx = false) l) ∧
    (∀ h, h ∈ unSyncTxsInsert_ r' ↔
       h ∈ unSyncTxsInsert_ r ∨ h ∈ TxHash <$> filter (λ tx, IsCoinBase tx = false) l) ∧
    unSyncTxsDelete_ r' = unSyncTxsDelete_ r.
Proof.
  intros Hp Hg. revert r Hp. induction Hg as [|tx l Hg Hgl IH]; intros r Hp Hnd Hk Hfree.
  - exists r. split_and!; [done|done|set_solver..|done].
  - rewrite fmap_cons in Hnd. apply NoDup_cons in Hnd as [Hh Hnd]. cbn [forM].
    destruct (IsCoinBase tx) eqn:Hc.
    { rewrite (bind_Done (mret tt) _ r tt r eq_refl), filter_cons_False by congruence.
      apply IH; try done; intros; [eapply Hk; eauto; by right|apply Hfree; [by right|done]]. }
    destruct (Hfree tx) as [Hn Hcf]; [left|done|].
    destruct (addTx_run r tx Hc) as [[[?|[c ?]] _]|(Hn' & _ & Hadd)]; [done|by destruct (Hcf c)|].
    rewrite filter_cons_True by done.
    destruct (IH (repo_add tx r)) as (r' & Hrun & Hp' & Hin & Hi & Hd).
    + by apply pool_add.
    + done.
    + intros t1 t2 k ? ?. apply Hk; by right.
    + intros t Ht Htc. destruct (Hfree t) as [Hnt Hcft]; [by right|done|].
      assert (TxHash t ≠ TxHash tx) as Hne.
      { intros E. apply Hh. rewrite <-E. by apply list_elem_of_fmap_2. }
      split; [rewrite in_pool_add; naive_solver|].
      intros c (k & Hkt & Hs). rewrite repo_add_spent in Hs by done.
      case_bool_decide as Hkx; [|apply (Hcft c); by exists k].
      apply Hne. f_equal. apply (Hk t tx k); [by right|left|done..].
    + exists r'. assert ((ok ← addTx tx;
           if negb ok then raise (Throw "thare are conflict txs, should not happened") else mret tt) r
         = (Done tt, repo_add tx r)) as E by (by rewrite (bind_Done _ _ _ _ _ Hadd)).
      rewrite (bind_Done _ _ _ _ _ E). split_and!; [done|done| | |by rewrite Hd].
      * intros h. rewrite Hin, in_pool_add, fmap_cons, elem_of_cons. tauto.
      * intros h. rewrite Hi, fmap_cons, elem_of_cons. simpl. rewrite elem_of_union, elem_of_singleton. tauto.
Qed.

Lemma filter_reverse {A} (P : A → Prop) `{∀ x, Decision (P x)} (l : list A) :
  filter P (reverse l) = reverse (filter P l).
Proof.
  induction l as [|x l IH]; [done|]. rewrite reverse_cons, filter_app, IH, filter_cons.
  destruct (decide (P x)).
  - rewrite filter_cons_True, reverse_cons by done. done.
  - rewrite filter_cons_False by done. by rewrite app_nil_r.
Qed.

Definition rollback_event_list (blk : CBlock) (cb : CTransaction) : list event :=
  (Unconfirm <$> reverse (TxHash <$> vtx blk)) ++ [Reject (TxHash cb)].

Definition rollback_rows (blk : CBlock) (cb : CTransaction) (height id ts : Z) : list txlog :=
  ((λ tx, row LOG2TYPE_TX_UNCONFIRM height id ts (TxHash tx)) <$> reverse (vtx blk)) ++
  [row LOG2TYPE_TX_REJECT height id ts (TxHash cb)].

(** the transactions of a block that goes are unconfirmed again, the coinbase
    is gone *)
Record block_rolled_back s st (blk : CBlock) cb height s' st' : Prop := {
  br_inv : inv s' st';
  br_pub : publishes (rollback_event_list blk cb) s s';
  br_pool h : in_pool (memRepo_ s') h ↔ in_pool (memRepo_ s) h ∨ in_block blk h;
  br_status k : st' !! k = if decide (k = TxHash cb) then None
                           else if bool_decide (k ∈ TxHash <$> vtx blk) then Some Unconfirmed
                           else st !! k;
  br_ts : popBlock (blkTs_ s) = (Done tt, blkTs_ s');
  br_curr : currBlockHeight_ s' = currBlockHeight_ s ∧ currBlockHash_ s' = currBlockHash_ s;
  br_rows : ∃ id, stores blk height id (cur (db_ s)) (cur (db_ s')) ∧
    writes (rollback_rows blk cb height id (getMaxTimestamp (blkTs_ s))) s s' }.

Lemma rollback_events st r d blk cb rest :
  rollback_fits st r d blk → vtx blk = cb :: rest →
  ∃ st', tx_run (rollback_event_list blk cb) st = Some st' ∧
    ∀ k, st' !! k = if decide (k = TxHash cb) then None
                    else if bool_decide (k ∈ TxHash <$> vtx blk) then Some Unconfirmed else st !! k.
Proof.
  intros Hf Hv. destruct (run_unconfirms (reverse (TxHash <$> vtx blk)) st) as (st1 & Hr1 & Hst1).
  { rewrite reverse_Permutation. apply Hf. }
  { intros h Hh. rewrite elem_of_reverse in Hh. apply list_elem_of_fmap in Hh as (tx & -> & Htx).
    by apply (rb_confirmed _ _ _ _ Hf). }
  exists (delete (TxHash cb) st1). unfold rollback_event_list. rewrite tx_run_app, Hr1. split.
  - simpl. rewrite step_reject; [done|]. rewrite Hst1, bool_decide_true; [done|].
    rewrite elem_of_reverse, Hv. left.
  - intros k. rewrite lookup_delete, Hst1,
      (bool_decide_ext (k ∈ reverse (TxHash <$> vtx blk)) (k ∈ TxHash <$> vtx blk))
      by apply elem_of_reverse.
    destruct (decide (TxHash cb = k)), (decide (k = TxHash cb)); congruence.
Qed.

Lemma rollback_pool s st blk :
  inv s st → rollback_fits st (memRepo_ s) (cur (db_ s)) blk →
  ∃ r', rollback_pass (vtx blk) (memRepo_ s) = (Done tt, r') ∧ pool_ok r' ∧
    (∀ h, in_pool r' h ↔ in_pool (memRepo_ s) h ∨ in_block blk h) ∧
    (∀ h, h ∈ unSyncTxsInsert_ r' ↔ in_block blk h) ∧ unSyncTxsDelete_ r' = ∅.
Proof.
  intros Hinv Hf. destruct (clean_sets _ (i_clean _ _ Hinv)) as [Hi0 Hd0].
  destruct (rollback_adds (reverse (vtx blk)) (memRepo_ s)) as (r' & Hrun & Hp & Hin & Hi & Hd).
  - apply Hinv.
  - rewrite reverse_Permutation. apply Hf.
  - rewrite fmap_reverse, reverse_Permutation. apply Hf.
  - intros t1 t2 k H1 H2 Hc1 Hc2. apply (rb_keys _ _ _ _ Hf); apply list_elem_of_filter;
      (split; [done|by apply elem_of_reverse]).
  - intros tx Htx Hc. rewrite elem_of_reverse in Htx. split.
    + intros Hpool. apply (i_unconfirmed _ _ Hinv) in Hpool.
      rewrite (rb_confirmed _ _ _ _ Hf tx Htx) in Hpool. done.
    + intros c. apply (rb_free _ _ _ _ Hf). by apply list_elem_of_filter.
  - exists r'. rewrite filter_reverse, fmap_reverse in Hin, Hi.
    split_and!; [exact Hrun|done| | |by rewrite Hd].
    + intros h. by rewrite Hin, elem_of_reverse.
    + intros h. rewrite Hi, elem_of_reverse, Hi0. unfold in_block, others. set_solver.
Qed.

Lemma rollback_status st r d blk cb rest st' r' :
  rollback_fits st r d blk → vtx blk = cb :: rest → IsCoinBase cb = true →
  Forall (λ tx, IsCoinBase tx = false) rest →
  (∀ h, st !! h = Some Unconfirmed ↔ in_pool r h) →
  (∀ k, st' !! k = if decide (k = TxHash cb) then None
                   else if bool_decide (k ∈ TxHash <$> vtx blk) then Some Unconfirmed else st !! k) →
  (∀ h, in_pool r' h ↔ in_pool r h ∨ in_block blk h) →
  ∀ h, st' !! h = Some Unconfirmed ↔ in_pool r' h.
Proof.
  intros Hf Hv Hcb Hrest Hun Hst Hin h. rewrite Hst, Hin.
  assert (others blk = rest) as Ho.
  { unfold others. rewrite Hv, filter_cons_False by congruence. by apply filter_every. }
  pose proof (rb_hashes _ _ _ _ Hf) as Hnd. rewrite Hv, fmap_cons in Hnd.
  apply NoDup_cons in Hnd as [Hnd _].
  unfold in_block. rewrite Ho. destruct (decide (h = TxHash cb)) as [->|Hne].
  - split; [done|]. intros [Hp|Hp]; [|done]. apply Hun in Hp.
    rewrite (rb_confirmed _ _ _ _ Hf cb) in Hp; [done|]. rewrite Hv. left.
  - rewrite Hv, fmap_cons. case_bool_decide as Hb.
    + apply elem_of_cons in Hb as [|Hb]; [done|]. split; [by right|done].
    + rewrite elem_of_cons in Hb. rewrite Hun. tauto.
Qed.

Lemma handleBlockRollback_run s st height blk :
  inv s st → rollback_fits st (memRepo_ s) (cur (db_ s)) blk →
  blkTimestamps_ (blkTs_ s) ≠ ∅ →
  (∀ x, find_raw_block (BlockHash blk) (cur (db_ s)) = Some x → rb_height x = height) →
  0 ≤ currLog1FileOffset_ s → Z.of_nat (S (length (vtx blk))) < 2 ^ 31 →
  ∃ cb s' st', head (vtx blk) = Some cb ∧ handleBlockRollback now height blk s = (Done tt, s') ∧
    block_rolled_back s st blk cb height s' st'.
Proof.
  intros Hinv Hf Hts Hheight Hoff Hlen. unfold handleBlockRollback.
  destruct (rb_coinbase _ _ _ _ Hf) as (cb & rest & Hv & Hcb & Hrest).
  destruct (rollback_pool s st blk Hinv Hf) as (r' & Hpass & Hp' & Hin & Hi & Hd).
  rewrite (bind_Done _ _ _ _ _ (zoom_Done memRepo_ with_memRepo _ s _ _ Hpass)).
  set (s1 := with_memRepo r' s). set (r0 := memRepo_ s) in *.
  destruct (block_row_run r0 blk height (db_ s) (i_raw _ _ Hinv) Hheight)
    as (id & D1 & Hrow & Hro1 & Htx1 & (l1 & Hc1) & Hst1).
  rewrite (bind_Done _ _ _ _ _ (zoom_Done db_ with_db _ s1 _ _ Hrow)).
  set (s2 := with_db D1 s1). rewrite (bind_Done get _ s2 s2 s2 eq_refl).
  set (rows := ((λ tx, row LOG2TYPE_TX_UNCONFIRM height id (getMaxTimestamp (blkTs_ s2)) (TxHash tx))
                <$> reverse (vtx blk)) ++
               [row LOG2TYPE_TX_REJECT height id (getMaxTimestamp (blkTs_ s2)) (TxHash cb)]).
  assert (∃ ts', popBlock (blkTs_ s) = (Done tt, ts')) as (ts' & Hpop).
  { unfold popBlock. rewrite (bind_Done get _ (blkTs_ s) (blkTs_ s) (blkTs_ s) eq_refl).
    rewrite (bind_Done (assertM _) _ (blkTs_ s) tt (blkTs_ s)); [by eexists|].
    apply assertM_true, negb_true_iff, Nat.eqb_neq. by rewrite map_size_empty_iff. }
  destruct (rollback_events st r0 _ blk cb rest Hf Hv) as (st' & Hrun & Hst').
  assert (ev <$> rows = rollback_event_list blk cb) as Hevs.
  { unfold rows, rollback_event_list. rewrite fmap_app, <-fmap_reverse, <-!list_fmap_compose. done. }
  assert (length rows = S (length (vtx blk))) as Hlr.
  { unfold rows. rewrite length_app, length_fmap, length_reverse. simpl. lia. }
  set (s3 := with_blkTs ts' s2).
  destruct (insert_log_rows_txlogs rows D1) as (D2 & Hr2 & Hc2 & _).
  set (s4 := with_db D2 s3).
  destruct (publish s st s4 st' rows) as (D3 & Hr3 & Hi3 & Hp3 & Hw3 & Hx3 & Hb3).
  - done.
  - split; cbn [s4 s3 s2 s1 with_db with_memRepo with_blkTs db_ memRepo_];
      rewrite ?Hc2, ?Hc1; try done.
    + rewrite Hc1 in Hro1. destruct Hro1 as [Hb Hp Hw]. split; [done| |done].
      intros h [Hh|(tx & -> & [_ Htx]%list_elem_of_filter)%list_elem_of_fmap]%Hin; [by apply Hp|].
      by apply (rb_raw _ _ _ _ Hf).
    + intros h (tx & -> & [_ Htx]%list_elem_of_filter)%Hi%list_elem_of_fmap Hh.
      apply (i_unconfirmed _ _ Hinv) in Hh. by rewrite (rb_confirmed _ _ _ _ Hf tx Htx) in Hh.
    + intros h. rewrite Hd. by intros ?%not_elem_of_empty.
    + intros h. rewrite Hin, Hi, Hd. fold r0. pose proof (not_elem_of_empty (C := gset uint256) h). tauto.
  - done.
  - simpl. rewrite Hc2, Hc1. done.
  - apply Forall_app. split; [apply Forall_fmap, Forall_true; done|by repeat constructor].
  - by rewrite Hlr.
  - by rewrite Hevs.
  - apply (rollback_status st r0 (cur (db_ s)) blk cb rest); try done. apply Hinv.
  - rewrite Hevs in Hp3. exists cb. eexists _, st'. split; [by rewrite Hv|]. split.
    + assert (head (vtx blk) = Some cb) as -> by (by rewrite Hv). cbv zeta. fold rows.
      rewrite (bind_Done _ _ _ _ _ (zoom_Done blkTs_ with_blkTs _ s2 _ _ Hpop)). fold s3.
      rewrite (bind_Done _ _ _ _ _ (zoom_Done db_ with_db _ s3 _ _ Hr2)). exact Hr3.
    + cbn [s4 db_ with_db] in Hx3, Hb3. rewrite Hc2 in Hx3, Hb3. cbn in Hx3, Hb3.
      split; try done. exists id. split; [|exact Hw3]. destruct Hst1 as [Hg Ho Hy].
      split; cbn [moved db_ with_db]; rewrite ?Hb3; try done.
      eapply grows_trans; [exact Hg|]. by apply grows_refl.
Qed.
End refinement.
