(* ===== verification/Log2Claims.v ===== *)
(** * What log2producer guarantees (Log2Producer.cc)

    The claims about the handlers and the restart, on the lemmas of
    [Log2Refine], with a concrete producer that satisfies the invariant. *)
From S2P Require Import Prelude Tx Bytes Serialize LogFiles Log1 TxState BlockTs MemRepo Db Log2 Crash Log2Refine.

Section claims.
Context `{Hashing}.
Variables (body : uint256 → CTransaction) (rank : uint256 → nat).
Variable now : bytes.
Implicit Types (s : Log2Producer) (st : states) (r : MemTxRepository).
Abbreviation inv := (inv body rank).
Abbreviation good := (good body rank).

(** ** The restart *)

(** a part of a conflict-free pool *)
Definition loaded r (done : list uint256) (r' : MemTxRepository) : Prop :=
  repo_ok r' ∧ ∀ h, txs_ r' !! h = if bool_decide (h ∈ done) then txs_ r !! h else None.

Lemma load_step r done tx r' :
  repo_ok r → loaded r done r' → TxHash tx ∉ done → txs_ r !! TxHash tx = Some tx →
  addTx tx r' = (Done true, repo_add tx r') ∧ loaded r (done ++ [TxHash tx]) (repo_add tx r').
Proof.
  intros Hok [Hok' Htx] Hn Ht. destruct (ok_input _ Hok _ _ Ht) as [Hc Hk].
  assert (txs_ r' !! TxHash tx = None) as Hn' by (by rewrite Htx, bool_decide_false).
  assert (∀ c, ¬ conflicting r' tx c) as Hcf.
  { intros c (k & Hkt & (t & Hct & Hkc)%(ok_spent _ Hok')). rewrite Htx in Hct.
    case_bool_decide as Hcd; [|done].
    assert (spentOutputs_ r !! k = Some c) by (apply (ok_spent _ Hok); eauto).
    assert (spentOutputs_ r !! k = Some (TxHash tx)) by (apply (ok_spent _ Hok); eauto).
    apply Hn. congruence. }
  split; [by apply addTx_fresh|]. split; [by apply repo_add_ok|]. intros h. simpl.
  rewrite lookup_insert, Htx. destruct (decide (TxHash tx = h)) as [<-|Hne].
  - rewrite bool_decide_true by set_solver. done.
  - rewrite (bool_decide_ext (h ∈ done ++ [TxHash tx]) (h ∈ done)) by set_solver. done.
Qed.

Lemma loaded_all r T r' :
  repo_ok r → loaded r T r' → (∀ h, h ∈ T ↔ in_pool r h) →
  txs_ r' = txs_ r ∧ spentOutputs_ r' = spentOutputs_ r.
Proof.
  intros Hok [Hok' Htx] HT.
  assert (txs_ r' = txs_ r) as E.
  { apply map_eq. intros h. rewrite Htx. case_bool_decide as Hh; [done|].
    rewrite HT in Hh. symmetry. by apply eq_None_not_Some. }
  split; [done|]. apply map_eq. intros k. apply option_eq. intros c.
  by rewrite (ok_spent _ Hok), (ok_spent _ Hok'), E.
Qed.

Lemma loadMemrepoTxs_run r s :
  pool_ok body rank r → raw_ok body r (cur (db_ s)) →
  (∀ h tx, txs_ r !! h = Some tx → tx_ok tx) →
  NoDup (memrepo_txs (cur (db_ s))) → (∀ h, h ∈ memrepo_txs (cur (db_ s)) ↔ in_pool r h) →
  memRepo_ s = emptyRepo → r = clean r →
  loadMemrepoTxs s = (Done tt, with_memRepo r s).
Proof.
  intros Hp Hraw Hok Hnd HT Hemp Hcl. unfold loadMemrepoTxs.
  rewrite (bind_Done get _ s s s eq_refl).
  match goal with |- (forM _ ?f ;; _) _ = _ =>
    destruct (forM_ind (λ done s', ∃ r', s' = with_memRepo r' s ∧ loaded r done r') f
      (memrepo_txs (cur (db_ s))) s) as (s1 & Hrun & r1 & -> & Hl) end.
  - exists emptyRepo. split; [rewrite <-Hemp; by destruct s|]. split; [apply emptyRepo_ok|].
    intros h. cbn [txs_ emptyRepo]. rewrite lookup_empty.
    case_bool_decide as Hn; [by apply elem_of_nil in Hn|done].
  - intros l1 h l2 s' Hsp (r' & -> & Hl).
    assert (h ∈ memrepo_txs (cur (db_ s))) as Hin by (rewrite Hsp; set_solver).
    apply HT in Hin as [tx Ht]. pose proof (ok_hash _ (p_ok _ _ _ Hp) _ _ Ht) as Eh.
    destruct (w_pool _ _ _ Hraw h) as [[i hex] Hx]; [by exists tx|].
    assert (hex = EncodeHexTx tx) as ->.
    { rewrite <-(p_body _ _ _ Hp _ _ Ht). apply (w_body _ _ _ Hraw _ _ Hx). }
    destruct (load_step r l1 tx r') as [Hadd Hl'].
    { apply Hp. }
    { done. }
    { rewrite Eh. rewrite Hsp in Hnd. apply NoDup_app in Hnd as (_ & Hdis & _).
      intros Hh. apply (Hdis _ Hh). left. }
    { by rewrite Eh. }
    exists (with_memRepo (repo_add tx r') s). split.
    + assert (getTxHexByHash h (db_ s) = (Done (EncodeHexTx tx), db_ s)) as Hhex.
      { unfold getTxHexByHash. rewrite (bind_Done get _ (db_ s) (db_ s) (db_ s) eq_refl). by rewrite Hx. }
      rewrite (bind_Done _ _ _ _ _ (zoom_Done db_ with_db _ (with_memRepo r' s) _ _ Hhex)).
      rewrite DecodeHexTx_EncodeHexTx by (by eapply Hok). cbv iota.
      by rewrite (bind_Done _ _ _ _ _
        (zoom_Done memRepo_ with_memRepo _ (with_db (db_ s) (with_memRepo r' s)) _ _ Hadd)).
    + exists (repo_add tx r'). split; [done|]. by rewrite <-Eh.
  - rewrite (bind_Done _ _ _ _ _ Hrun).
    destruct (loaded_all r _ r1 (p_ok _ _ _ Hp) Hl HT) as [E1 E2].
    assert (with_delete ∅ (with_insert ∅ r1) = r) as E
      by (rewrite Hcl; unfold clean, with_delete, with_insert; simpl; by rewrite E1, E2).
    unfold ignoreUnsyncData, zoom, modify. cbn [memRepo_ with_memRepo]. by rewrite E.
Qed.

(** The unfinished rows go and the pool comes back. *)
Lemma reload_run s st d s0 :
  inv s st → (∀ h tx, txs_ (memRepo_ s) !! h = Some tx → tx_ok tx) →
  core d = core (cur (db_ s)) → raw_ok body (memRepo_ s) d →
  cur (db_ s0) = d → in_tx (db_ s0) = false → memRepo_ s0 = emptyRepo →
  ∃ D, on_db drop_unfinished s0 = (Done tt, with_db D s0) ∧
    loadMemrepoTxs (with_db D s0) = (Done tt, with_memRepo (memRepo_ s) (with_db D s0)) ∧
    cur D = with_txlogs2 (txlogs2 (cur (db_ s))) d ∧ in_tx D = false.
Proof.
  intros Hinv Htxok Hcore Hraw Hcur Htx0 Hemp. unfold core in Hcore. injection Hcore as Hrows Htab Hmeta.
  assert (filter (λ x, batch_id x ≠ -1) (txlogs2 (cur (db_ s))) = txlogs2 (cur (db_ s))) as Hall.
  { apply filter_every, (Forall_impl _ _ _ (i_rows _ _ _ _ Hinv)). lia. }
  rewrite Hall in Hrows.
  destruct (statement_run (λ d, with_txlogs2 (filter (λ x, batch_id x ≠ -1) (txlogs2 d)) d) (db_ s0))
    as (D & Hr1 & Hc1 & Ht1). exists D.
  rewrite Hcur, Hrows in Hc1. split; [exact (zoom_Done db_ with_db drop_unfinished s0 _ _ Hr1)|].
  split; [|split; [exact Hc1|congruence]].
  apply loadMemrepoTxs_run; cbn [db_ with_db memRepo_]; rewrite ?Hc1; cbn [with_txlogs2 memrepo_txs].
  - apply Hinv.
  - destruct Hraw. by split.
  - done.
  - rewrite Htab. apply Hinv.
  - intros h. rewrite Htab. apply Hinv.
  - done.
  - apply Hinv.
Qed.

Lemma reloaded_inv s st d s1 :
  inv s st → core d = core (cur (db_ s)) → raw_ok body (memRepo_ s) d →
  cur (db_ s1) = with_txlogs2 (txlogs2 (cur (db_ s))) d → in_tx (db_ s1) = false → memRepo_ s1 = memRepo_ s →
  static_log1FileIndex s1 = -1 → static_currLog1FileOffset s1 = -1 →
  explorer_meta d = Some (f_idx (log1_ s1), f_off (log1_ s1)) → inv s1 st.
Proof.
  intros Hinv Hcore Hraw Hcur Htx Hm Hs1 Hs2 He. unfold core in Hcore. injection Hcore as _ Htab Hmeta.
  destruct (i_meta _ _ _ _ Hinv) as (i & o & Hio & _ & _ & Hi).
  constructor; rewrite ?Hcur, ?Hm; cbn [with_txlogs2 explorer_meta txlogs2 memrepo_txs]; rewrite ?Htab; try apply Hinv.
  - done.
  - destruct Hraw. by split.
  - exists i, o. rewrite Hcur. cbn [with_txlogs2 explorer_meta]. rewrite Hmeta. split_and!; [done|right; lia..|done].
  - congruence.
Qed.

Lemma restart_run s st d s0 :
  inv s st → (∀ h tx, txs_ (memRepo_ s) !! h = Some tx → tx_ok tx) →
  core d = core (cur (db_ s)) → raw_ok body (memRepo_ s) d →
  cur (db_ s0) = d → in_tx (db_ s0) = false → memRepo_ s0 = emptyRepo →
  static_log1FileIndex s0 = -1 → static_currLog1FileOffset s0 = -1 →
  ∃ s1, (on_db drop_unfinished ;; loadMemrepoTxs ;; syncLog1) s0 = (Done tt, s1) ∧
    inv s1 st ∧ memRepo_ s1 = memRepo_ s ∧
    txlogs2 (cur (db_ s1)) = txlogs2 (cur (db_ s)) ∧
    explorer_meta (cur (db_ s)) = Some (f_idx (log1_ s1), f_off (log1_ s1)).
Proof.
  intros Hinv Htxok Hcore Hraw Hcur Htx0 Hemp Hs1 Hs2.
  destruct (reload_run s st d s0 Hinv Htxok Hcore Hraw Hcur Htx0 Hemp) as (D & Hr1 & Hr2 & Hc & Ht).
  rewrite (bind_Done _ _ _ _ _ Hr1), (bind_Done _ _ _ _ _ Hr2). eexists. split; [reflexivity|].
  destruct (i_meta _ _ _ _ Hinv) as (i & o & Hm & _). pose proof Hcore as Hc2. unfold core in Hc2. injection Hc2 as _ _ Hmeta.
  assert (explorer_meta d = Some (i, o)) as Hd by congruence.
  split; [|cbn [with_log1 memRepo_ with_memRepo db_ with_db log1_ f_idx f_off]; rewrite Hc; cbn [with_txlogs2 explorer_meta txlogs2]; by rewrite Hd].
  apply (reloaded_inv s st d); try done. cbn [with_log1 memRepo_ with_memRepo db_ with_db log1_ f_idx f_off]. rewrite Hc.
  cbn [with_txlogs2 explorer_meta]. by rewrite Hd.
Qed.

(** What has been published is a run of the life cycle. *)
Lemma publishes_run s st s' st' es :
  inv s st → inv s' st' → publishes es s s' → tx_run es st = Some st'.
Proof.
  intros Hi Hi' (b & rows & Hl & <- & Hb & Hbs & _).
  pose proof (i_run _ _ _ _ Hi') as Hrun. rewrite (events_app (cur (db_ s)) rows) in Hrun.
  - by rewrite tx_run_app, (i_run _ _ _ _ Hi) in Hrun.
  - done.
  - apply (Forall_impl _ _ _ Hbs). lia.
Qed.

(** ** Claims *)

(** handling an accepted transaction.  On a producer between two lines,
    with a transaction that is not confirmed, the handler completes.  It ignores
    exactly a transaction that the pool knows or that double spends the pool,
    and then changes nothing.  Otherwise it publishes one accept event with the
    log1 cursor, the event is a legal step of the life cycle, and pool, pool
    table, raw tables and history agree again. *)
Theorem handleTxAccept_refines s st item tx
    (Hinv : inv s st) (Hget : (getTx item).1 = Done tx) (Hg : good tx)
    (Hc : IsCoinBase tx = false) (Hnew : st !! TxHash tx ≠ Some Confirmed)
    (Hoff : 0 ≤ currLog1FileOffset_ s) :
  ∃ s', handleTxAccept now item s = (Done tt, s') ∧
    ((refused (memRepo_ s) tx ∧ s' = s) ∨
     (¬ refused (memRepo_ s) tx ∧ publishes [Accept (TxHash tx)] s s' ∧
      tx_run [Accept (TxHash tx)] st = Some (<[TxHash tx := Unconfirmed]> st) ∧
      inv s' (<[TxHash tx := Unconfirmed]> st) ∧
      txs_ (memRepo_ s') = <[TxHash tx := tx]> (txs_ (memRepo_ s)))).
Proof.
  destruct (handleTxAccept_run body rank now s st item tx) as [[Hr Hrun]|(Hr & s' & Hrun & Hi & Hp & Hm & _)];
    try done; [by exists s; split; [|left]|].
  exists s'. split; [done|]. right. split_and!; [done|done| |done|by rewrite Hm].
  by eapply publishes_run.
Qed.

(** handling a removed transaction.  A transaction that the pool does not
    know is ignored.  Otherwise the handler terminates, takes exactly the
    transaction and its descendants out of the pool, publishes their reject
    events as one batch with the transaction last, and each of those events is
    legal. *)
Theorem handleTxReject_refines s st item tx
    (Hinv : inv s st) (Hget : (getTx item).1 = Done tx) (Hg : good tx)
    (Hoff : 0 ≤ currLog1FileOffset_ s) (Hsz : Z.of_nat (repo_size (memRepo_ s)) < 2 ^ 31) :
  ∃ s', handleTxReject now item s = (Done tt, s') ∧
    ((¬ in_pool (memRepo_ s) (TxHash tx) ∧ s' = s) ∨
     ∃ hs st', publishes (Reject <$> (hs ++ [TxHash tx])) s s' ∧
       tx_run (Reject <$> (hs ++ [TxHash tx])) st = Some st' ∧ inv s' st' ∧
       (∀ x, x ∈ hs ++ [TxHash tx] ↔ rtc (child (memRepo_ s)) (TxHash tx) x) ∧
       (∀ k, txs_ (memRepo_ s') !! k =
          if bool_decide (k ∈ hs ++ [TxHash tx]) then None else txs_ (memRepo_ s) !! k)).
Proof.
  destruct (handleTxReject_run body rank now s st item tx)
    as [[Hr Hrun]|(hs & s' & st' & Hrun & Hi & Hp & (r' & Hpeel & Hm) & Hin & Hst & _)];
    try done; [by exists s; split; [|left]|].
  exists s'. split; [done|]. right. exists hs, st'. split_and!; try done.
  - by eapply publishes_run.
  - intros k. rewrite Hm. simpl. by apply peel_txs.
Qed.

(** C2 — accepting a block.  On a block that fits the chain (its transactions
    distinct, unconfirmed or new, spending disjoint outputs, their unconfirmed
    parents in the block) the handler terminates without an exception.  The
    transactions [C] it evicts are distinct, outside the block, and each spends
    an output the block spends or descends from one that does; afterwards no pool
    transaction contends with the block.  It publishes one batch: the rejects of
    [C], then for every transaction of the block, in order, an accept if the pool
    did not have it and a confirm, all of them legal steps; the block's
    transactions are then confirmed and the pool keeps the rest. *)
Theorem handleBlockAccept_refines s st item blk
    (Hinv : inv s st) (Hget : (getBlock item).1 = Done blk)
    (Hfits : block_fits body rank st (memRepo_ s) blk)
    (Hts : blkTimestamps_ (blkTs_ s) !! blockHeight_ item = None)
    (Hrow : ∀ x, find_raw_block (BlockHash blk) (cur (db_ s)) = Some x → rb_height x = blockHeight_ item)
    (Hoff : 0 ≤ currLog1FileOffset_ s)
    (Hsz : Z.of_nat (repo_size (memRepo_ s) + 2 * length (vtx blk)) < 2 ^ 31) :
  ∃ C s' st', handleBlockAccept now item s = (Done tt, s') ∧
    publishes ((Reject <$> C) ++
      flat_map (confirm_events (λ h, isExist h (memRepo_ s))) (TxHash <$> vtx blk)) s s' ∧
    tx_run ((Reject <$> C) ++
      flat_map (confirm_events (λ h, isExist h (memRepo_ s))) (TxHash <$> vtx blk)) st = Some st' ∧
    inv s' st' ∧ NoDup C ∧
    (∀ e, e ∈ C → in_pool (memRepo_ s) e ∧ ¬ in_block blk e ∧ tainted (memRepo_ s) blk e) ∧
    (∀ h, in_pool (memRepo_ s') h ↔ in_pool (memRepo_ s) h ∧ h ∉ C ∧ ¬ in_block blk h) ∧
    (∀ tx c, tx ∈ others blk → ¬ conflicting (memRepo_ s') tx c) ∧
    (∀ tx, tx ∈ vtx blk → st' !! TxHash tx = Some Confirmed).
Proof.
  destruct (handleBlockAccept_run body rank now s st item blk) as (C & s' & st' & Hrun & Hb); try done.
  destruct Hb. exists C, s', st'. split_and!; try done.
  - by eapply publishes_run.
  - intros tx Htx. rewrite ba_status. rewrite bool_decide_true; [done|]. by apply list_elem_of_fmap_2.
Qed.

(** C20 — rolling a block back.  When the last block, all of whose transactions
    are confirmed, is taken back and nothing in the pool contends with it, the
    handler completes: its transactions return to the pool, last first, and one
    batch unconfirms them in reverse order and rejects the coinbase; all those
    events are legal, every transaction of the block but the coinbase is
    unconfirmed again and the coinbase is gone. *)
Theorem handleBlockRollback_refines s st height blk
    (Hinv : inv s st) (Hfits : rollback_fits body rank st (memRepo_ s) (cur (db_ s)) blk)
    (Hts : blkTimestamps_ (blkTs_ s) ≠ ∅)
    (Hrow : ∀ x, find_raw_block (BlockHash blk) (cur (db_ s)) = Some x → rb_height x = height)
    (Hoff : 0 ≤ currLog1FileOffset_ s) (Hsz : Z.of_nat (S (length (vtx blk))) < 2 ^ 31) :
  ∃ cb s' st', head (vtx blk) = Some cb ∧ handleBlockRollback now height blk s = (Done tt, s') ∧
    publishes ((Unconfirm <$> reverse (TxHash <$> vtx blk)) ++ [Reject (TxHash cb)]) s s' ∧
    tx_run ((Unconfirm <$> reverse (TxHash <$> vtx blk)) ++ [Reject (TxHash cb)]) st = Some st' ∧
    inv s' st' ∧ st' !! TxHash cb = None ∧
    (∀ h, in_pool (memRepo_ s') h ↔ in_pool (memRepo_ s) h ∨ in_block blk h) ∧
    popBlock (blkTs_ s) = (Done tt, blkTs_ s').
Proof.
  destruct (handleBlockRollback_run body rank now s st height blk)
    as (cb & s' & st' & Hhd & Hrun & Hb); try done.
  destruct Hb. exists cb, s', st'. split_and!; try done.
  - by eapply publishes_run.
  - by rewrite br_status, decide_True.
Qed.

(** Forgetting the pool (the record log1producer writes when bitcoind
    restarted).  The handler terminates on every pool, publishes one reject per
    pool transaction, children before parents, and leaves the pool and its
    table empty; confirmed transactions are untouched. *)
Theorem clearMempoolTxs_refines s st
    (Hinv : inv s st) (Hoff : 0 ≤ currLog1FileOffset_ s)
    (Hsz : Z.of_nat (repo_size (memRepo_ s)) < 2 ^ 31) :
  ∃ hs s' st', clearMempoolTxs now s = (Done tt, s') ∧
    publishes (Reject <$> hs) s s' ∧ tx_run (Reject <$> hs) st = Some st' ∧ inv s' st' ∧
    NoDup hs ∧ (∀ h, h ∈ hs ↔ in_pool (memRepo_ s) h) ∧
    (∀ i j p c, hs !! i = Some p → hs !! j = Some c → child (memRepo_ s) p c → (j < i)%nat) ∧
    txs_ (memRepo_ s') = ∅ ∧ memrepo_txs (cur (db_ s')) = [] ∧
    (∀ h, st !! h = Some Confirmed → st' !! h = Some Confirmed).
Proof.
  destruct (clearMempoolTxs_run body rank now s st)
    as (hs & s' & st' & Hrun & Hi & Hp & Hemp & (r' & Hpeel & Hm) & Hin & Hst & _); try done.
  exists hs, s', st'. split_and!; try done.
  - by eapply publishes_run.
  - by eapply peel_NoDup.
  - intros i j p c. eapply peel_order; [apply (i_pool _ _ _ _ Hinv)|done].
  - destruct (memrepo_txs (cur (db_ s'))) as [|h l] eqn:E; [done|].
    assert (h ∈ memrepo_txs (cur (db_ s'))) as Hh by (rewrite E; left).
    apply (i_table _ _ _ _ Hi) in Hh as [t Ht]. by rewrite Hemp in Ht.
  - intros h Hh. rewrite Hst. case_bool_decide as Hb; [|done].
    apply Hin, (i_unconfirmed _ _ _ _ Hinv) in Hb. congruence.
Qed.

End claims.

(** ** The invariant holds of the example state *)
Module Log2Wit.
#[local] Existing Instance Demo.hashing.
Definition st : states := (λ _, Unconfirmed) <$> txs_ (memRepo_ Log2Demo.state).

Ltac by_compute := apply (bool_decide_unpack _); vm_compute; exact I.

Lemma goods : Forall (good Log2Demo.body Z.to_nat) Log2Demo.txs.
Proof.
  assert (Forall (λ tx, Log2Demo.body (TxHash tx) = tx ∧ NoDup (tx_keys tx) ∧
    (IsCoinBase tx = true ∨ Forall (λ k, (Z.to_nat (hash_ k) < Z.to_nat (TxHash tx))%nat) (tx_keys tx)))
    Log2Demo.txs) as Hf by by_compute.
  apply (Forall_impl _ _ _ Hf). intros tx (Hb & Hk & Hr). split; [done|done|].
  intros Hc k Hin. destruct Hr as [Hr|Hr]; [congruence|]. rewrite Forall_forall in Hr. by apply Hr.
Qed.

Lemma good_body tx : tx ∈ Log2Demo.txs → good Log2Demo.body Z.to_nat tx.
Proof. intros Hin. pose proof goods as Hg. rewrite Forall_forall in Hg. by apply Hg. Qed.

Lemma state_pool : pool_ok Log2Demo.body Z.to_nat (memRepo_ Log2Demo.state).
Proof.
  destruct demo_pool_ok as [[H1 H2 H3] H4]. split.
  - split; [exact H1|exact H2|exact H3].
  - exact H4.
  - change (map_Forall (λ h tx, Log2Demo.body h = tx) (txs_ (memRepo_ Log2Demo.state))). by_compute.
Qed.

Lemma state_inv : inv Log2Demo.body Z.to_nat Log2Demo.state st.
Proof.
  assert (dom (txs_ (memRepo_ Log2Demo.state)) = list_to_set [10; 20; 30; 25]) as Hdom
    by (vm_compute; reflexivity).
  split.
  - reflexivity.
  - by_compute.
  - vm_compute. reflexivity.
  - intros h. unfold st, in_pool. rewrite lookup_fmap.
    destruct (txs_ _ !! h); simpl; [by split; eauto|]. split; [done|by intros [? [=]]].
  - by_compute.
  - intros h. unfold in_pool. rewrite <-elem_of_dom, Hdom, elem_of_list_to_set. done.
  - reflexivity.
  - apply state_pool.
  - split.
    + change (map_Forall (λ h v, v.2 = EncodeHexTx (Log2Demo.body h)) (raw_txs Log2Demo.db)). by_compute.
    + intros h. unfold in_pool. rewrite <-!elem_of_dom. revert h.
      change (dom (txs_ (memRepo_ Log2Demo.state)) ⊆ dom (raw_txs Log2Demo.db)). by_compute.
    + split; by_compute.
  - exists 0, 99. split_and!; [reflexivity|by left|by left|lia].
  - simpl. lia.
Qed.

(** log1 records as log1producer writes them *)
Definition accept_item (tx : CTransaction) : Log1 := snd (parse (log_line (lit "t") 2 (tx_payload tx)) newLog1).
Definition remove_item (tx : CTransaction) : Log1 := snd (parse (log_line (lit "t") 4 (tx_payload tx)) newLog1).
Definition block73 : CBlock :=
  Demo.block 73 72 600 [Demo.coinbase 900; Demo.tx 10 [(1, 0)] 2; Demo.tx 21 [(10, 0)] 1].
Definition block_item : Log1 := snd (parse (log_line (lit "t") 1 (block_payload 8 block73)) newLog1).

(** the block fits: 21 double spends 10's first output against 20 *)
Lemma block73_fits : block_fits Log2Demo.body Z.to_nat st (memRepo_ Log2Demo.state) block73.
Proof.
  split.
  - repeat apply Forall_cons_2; [apply good_body; by_compute..|constructor].
  - by_compute.
  - intros tx Htx. assert (Forall (λ tx, st !! TxHash tx ≠ Some Confirmed) (vtx block73)) as Hf by by_compute.
    rewrite Forall_forall in Hf. by apply Hf.
  - intros t1 t2 k H1 H2 K1 K2.
    assert (Forall (λ t1, Forall (λ t2, Forall (λ k, k ∉ tx_keys t2 ∨ t1 = t2) (tx_keys t1))
      (others block73)) (others block73)) as Hf by by_compute.
    rewrite Forall_forall in Hf. specialize (Hf _ H1). rewrite Forall_forall in Hf.
    specialize (Hf _ H2). rewrite Forall_forall in Hf. by destruct (Hf _ K1).
  - intros tx k Htx Hk Hp. unfold in_pool in Hp. rewrite <-elem_of_dom in Hp.
    assert (Forall (λ tx, Forall (λ k, hash_ k ∉ dom (txs_ (memRepo_ Log2Demo.state)) ∨
      hash_ k ∈ TxHash <$> others block73) (tx_keys tx)) (others block73)) as Hf by by_compute.
    rewrite Forall_forall in Hf. specialize (Hf _ Htx). rewrite Forall_forall in Hf.
    by destruct (Hf _ Hk).
Qed.

(** the state after that block, with its block as the current one *)
Definition state8 : Log2Producer := snd (handleBlockAccept [] block_item Log2Demo.state).
Definition st8 : states := <[900 := Confirmed]> (<[10 := Confirmed]> (<[21 := Confirmed]>
  (<[25 := Unconfirmed]> ∅))).

Lemma find_by_compute (P : raw_block → bool) (o : option raw_block) :
  match o with Some x => P x | None => true end = true → ∀ x, o = Some x → P x = true.
Proof. intros E x ->. done. Qed.

Lemma block73_row h db : match find_raw_block 73 db with Some x => rb_height x =? h | None => true end = true →
  ∀ x, find_raw_block 73 db = Some x → rb_height x = h.
Proof. intros E x Hx. apply Z.eqb_eq. by apply (find_by_compute _ _ E). Qed.

Lemma state8_inv : inv Log2Demo.body Z.to_nat state8 st8.
Proof.
  destruct (handleBlockAccept_run Log2Demo.body Z.to_nat [] Log2Demo.state st block_item block73)
    as (C & s' & st' & Hrun & Hb).
  - apply state_inv.
  - vm_compute. reflexivity.
  - apply block73_fits.
  - vm_compute. reflexivity.
  - apply (block73_row 8). vm_compute. reflexivity.
  - simpl. lia.
  - vm_compute. reflexivity.
  - unfold state8. rewrite Hrun. simpl. destruct Hb as [Hi Hp _ _ _ _ _ _ _ _].
    assert (st8 = st') as ->; [|done].
    pose proof (i_run _ _ _ _ Hi) as Hr.
    assert (s' = state8) as -> by (unfold state8; by rewrite Hrun).
    vm_compute in Hr. injection Hr as <-. vm_compute. reflexivity.
Qed.

Lemma rollback73_fits :
  rollback_fits Log2Demo.body Z.to_nat st8 (memRepo_ state8) (cur (db_ state8)) block73.
Proof.
  split.
  - apply (b_good _ _ _ _ _ block73_fits).
  - by_compute.
  - eexists _, _. split_and!; [reflexivity|reflexivity|by_compute].
  - intros tx Htx. assert (Forall (λ tx, st8 !! TxHash tx = Some Confirmed) (vtx block73)) as Hf by by_compute.
    rewrite Forall_forall in Hf. by apply Hf.
  - intros tx Htx.
    assert (Forall (λ tx, TxHash tx ∈ dom (raw_txs (cur (db_ state8)))) (vtx block73)) as Hf by by_compute.
    rewrite Forall_forall in Hf. specialize (Hf _ Htx). by rewrite elem_of_dom in Hf.
  - apply (b_keys _ _ _ _ _ block73_fits).
  - intros tx c Htx (k & Hk & Hs).
    assert (Forall (λ tx, Forall (λ k, spentOutputs_ (memRepo_ state8) !! k = None) (tx_keys tx))
      (others block73)) as Hf by by_compute.
    rewrite Forall_forall in Hf. specialize (Hf _ Htx). rewrite Forall_forall in Hf.
    by rewrite (Hf _ Hk) in Hs.
Qed.
End Log2Wit.

Lemma handleTxAccept_refines_witness :
  ∃ s', handleTxAccept (H := Demo.hashing) [] (Log2Wit.accept_item (Demo.tx 40 [(25, 0)] 1))
      Log2Demo.state = (Done tt, s') ∧
    publishes [Accept 40] Log2Demo.state s' ∧ memrepo_txs (cur (db_ s')) = [10; 20; 30; 25; 40].
Proof.
  destruct (handleTxAccept_refines (H := Demo.hashing) Log2Demo.body Z.to_nat [] Log2Demo.state Log2Wit.st
    (Log2Wit.accept_item (Demo.tx 40 [(25, 0)] 1)) (Demo.tx 40 [(25, 0)] 1)) as (s' & Hrun & [[Hr _]|(_ & Hp & _)]).
  - apply Log2Wit.state_inv.
  - vm_compute. reflexivity.
  - apply Log2Wit.good_body. apply (bool_decide_unpack _). vm_compute. exact I.
  - reflexivity.
  - apply (bool_decide_unpack _). vm_compute. exact I.
  - simpl. lia.
  - destruct Hr as [[t Ht]|(c & k & Hk & Hs)]; exfalso.
    + vm_compute in Ht. discriminate.
    + apply elem_of_cons in Hk as [->|Hk]; [vm_compute in Hs; discriminate|by apply elem_of_nil in Hk].
  - exists s'. split_and!; [exact Hrun|exact Hp|].
    assert (s' = snd (handleTxAccept (H := Demo.hashing) []
      (Log2Wit.accept_item (Demo.tx 40 [(25, 0)] 1)) Log2Demo.state)) as -> by (by rewrite Hrun).
    vm_compute. reflexivity.
Defined.

Lemma handleTxReject_refines_witness :
  ∃ s', handleTxReject (H := Demo.hashing) [] (Log2Wit.remove_item (Demo.tx 20 [(10, 0)] 1))
      Log2Demo.state = (Done tt, s') ∧ memrepo_txs (cur (db_ s')) = [10; 25].
Proof.
  destruct (handleTxReject_refines (H := Demo.hashing) Log2Demo.body Z.to_nat [] Log2Demo.state Log2Wit.st
    (Log2Wit.remove_item (Demo.tx 20 [(10, 0)] 1)) (Demo.tx 20 [(10, 0)] 1)) as (s' & Hrun & _).
  - apply Log2Wit.state_inv.
  - vm_compute. reflexivity.
  - apply Log2Wit.good_body. apply (bool_decide_unpack _). vm_compute. exact I.
  - simpl. lia.
  - vm_compute. reflexivity.
  - exists s'. split; [exact Hrun|].
    assert (s' = snd (handleTxReject (H := Demo.hashing) []
      (Log2Wit.remove_item (Demo.tx 20 [(10, 0)] 1)) Log2Demo.state)) as -> by (by rewrite Hrun).
    vm_compute. reflexivity.
Defined.

(** block 73 evicts 30 and 20, in that order, and leaves 25 *)
Lemma handleBlockAccept_refines_witness :
  ∃ (C : list uint256) s', handleBlockAccept (H := Demo.hashing) [] Log2Wit.block_item Log2Demo.state = (Done tt, s') ∧
    NoDup C ∧ memrepo_txs (cur (db_ s')) = [25] ∧
    (λ x, (log_type x, tx_hash x)) <$> drop 4 (txlogs2 (cur (db_ s'))) =
      [(400, 30); (400, 20); (100, 900); (200, 900); (200, 10); (100, 21); (200, 21)].
Proof.
  destruct (handleBlockAccept_refines (H := Demo.hashing) Log2Demo.body Z.to_nat [] Log2Demo.state
    Log2Wit.st Log2Wit.block_item Log2Wit.block73) as (C & s' & st' & Hrun & _ & _ & _ & Hnd & _).
  - apply Log2Wit.state_inv.
  - vm_compute. reflexivity.
  - apply Log2Wit.block73_fits.
  - vm_compute. reflexivity.
  - apply (Log2Wit.block73_row 8). vm_compute. reflexivity.
  - simpl. lia.
  - vm_compute. reflexivity.
  - assert (s' = Log2Wit.state8) as E by (unfold Log2Wit.state8; by rewrite Hrun).
    exists C, s'. split_and!; [exact Hrun|exact Hnd|rewrite E; vm_compute; reflexivity..].
Defined.

Lemma handleBlockRollback_refines_witness :
  ∃ cb s', handleBlockRollback (H := Demo.hashing) [] 8 Log2Wit.block73 Log2Wit.state8 = (Done tt, s') ∧
    head (vtx Log2Wit.block73) = Some cb ∧ memrepo_txs (cur (db_ s')) = [25; 10; 21].
Proof.
  destruct (handleBlockRollback_refines (H := Demo.hashing) Log2Demo.body Z.to_nat [] Log2Wit.state8
    Log2Wit.st8 8 Log2Wit.block73) as (cb & s' & st' & Hhd & Hrun & _).
  - apply Log2Wit.state8_inv.
  - apply Log2Wit.rollback73_fits.
  - apply (bool_decide_unpack _). vm_compute. exact I.
  - apply (Log2Wit.block73_row 8). vm_compute. reflexivity.
  - vm_compute. discriminate.
  - vm_compute. reflexivity.
  - assert (s' = snd (handleBlockRollback (H := Demo.hashing) [] 8 Log2Wit.block73 Log2Wit.state8)) as E
      by (by rewrite Hrun).
    exists cb, s'. split_and!; [exact Hrun|exact Hhd|rewrite E; vm_compute; reflexivity].
Defined.
