(* ===== verification/Notify.v ===== *)
(** * Notification items (src/jiexi/src/NotifyLog.{h,cc} [NotifyItem],
      Common.cc [date], [str2time], docs/NOTIFY.md)

    The parser appends one line per touched address, or per block, to the
    notification log; the notification service reads the lines back.  The time
    stamps are written in UTC. *)
From S2P Require Import Prelude Tx Bytes.

(** ** The calendar: [gmtime_r] and [timegm] *)

Definition is_leap (y : Z) : bool :=
  (y mod 4 =? 0) && (negb (y mod 100 =? 0) || (y mod 400 =? 0)).
Definition month_days (y m : Z) : Z :=
  if m =? 2 then (if is_leap y then 29 else 28)
  else if (m =? 4) || (m =? 6) || (m =? 9) || (m =? 11) then 30 else 31.
Definition year_days (y : Z) : Z := if is_leap y then 366 else 365.

(** the year and month a day number falls in; [fuel] years or months at most *)
Fixpoint find_year (fuel : nat) (y d : Z) : Z * Z :=
  match fuel with
  | O => (y, d)
  | S fuel => if d <? year_days y then (y, d) else find_year fuel (y + 1) (d - year_days y)
  end.
Fixpoint find_month (fuel : nat) (y m d : Z) : Z * Z :=
  match fuel with
  | O => (m, d)
  | S fuel => if d <? month_days y m then (m, d) else find_month fuel y (m + 1) (d - month_days y m)
  end.
(** year, month, day of the month of a day counted from 1970-01-01 *)
Definition civil (d : Z) : Z * Z * Z :=
  let '(y, d) := find_year 200 1970 d in
  let '(m, d) := find_month 12 y 1 d in
  (y, m, d + 1).
(** days from 1970-01-01 to a date, as [timegm] counts them *)
Definition days_before_year (y : Z) : Z :=
  (y - 1970) * 365 + ((y - 1) / 4 - 1969 / 4) - ((y - 1) / 100 - 1969 / 100) +
  ((y - 1) / 400 - 1969 / 400).
Definition days_before_month (y m : Z) : Z :=
  foldr (λ k s, month_days y k + s) 0 (seqZ 1 (m - 1)).
Definition days_of (y m d : Z) : Z := days_before_year y + days_before_month y m + (d - 1).

(** [%0<w>d] of a number that is not negative *)
Fixpoint pad (w : nat) (z : Z) : bytes :=
  match w with O => [] | S w => pad w (z / 10) ++ [48 + z mod 10] end.

(** [date("%F %T", ts)] *)
Definition date_FT (ts : Z) : bytes :=
  let '(y, m, d) := civil (ts / 86400) in
  let r := ts mod 86400 in
  pad 4 y ++ 45 :: pad 2 m ++ 45 :: pad 2 d ++ 32 ::
  pad 2 (r / 3600) ++ 58 :: pad 2 (r / 60 mod 60) ++ 58 :: pad 2 (r mod 60).

(** [strptime]: a number of at most [w] digits, a literal character *)
Fixpoint scan_num (w : nat) (acc : Z) (s : bytes) : Z * bytes :=
  match w, s with
  | S w, c :: s' => if isdigit c then scan_num w (10 * acc + (c - 48)) s' else (acc, s)
  | _, _ => (acc, s)
  end.
Definition scan_field (w : nat) (s : bytes) : option (Z * bytes) :=
  match s with c :: _ => if isdigit c then Some (scan_num w 0 s) else None | [] => None end.
Definition scan_char (c : Z) (s : bytes) : option bytes :=
  match s with x :: s => if x =? c then Some s else None | [] => None end.

(** [str2time(str, "%F %T")]; [None] where the text does not have the form and
    the code goes on with a [struct tm] it never set. *)
Definition str2time (s : bytes) : option Z :=
  '(y, s) ← scan_field 4 s; s ← scan_char 45 s;
  '(m, s) ← scan_field 2 s; s ← scan_char 45 s;
  '(d, s) ← scan_field 2 s; s ← scan_char 32 s;
  '(hh, s) ← scan_field 2 s; s ← scan_char 58 s;
  '(mm, s) ← scan_field 2 s; s ← scan_char 58 s;
  '(ss, s) ← scan_field 2 s;
  Some (days_of y m d * 86400 + hh * 3600 + mm * 60 + ss).

(** ** Items *)

Definition NOTIFY_EVENT_BLOCK_ACCEPT : Z := 10.
Definition NOTIFY_EVENT_BLOCK_REJECT : Z := 11.
Definition NOTIFY_EVENT_TX_ACCEPT : Z := 20.
Definition NOTIFY_EVENT_TX_CONFIRM : Z := 21.
Definition NOTIFY_EVENT_TX_UNCONFIRM : Z := 22.
Definition NOTIFY_EVENT_TX_REJECT : Z := 23.

Record NotifyItem := {
  item_timestamp : Z;
  item_type : Z;
  item_height : Z;
  item_amount : Z;
  item_hash : uint256;
  item_address : bytes }.
#[export] Instance NotifyItem_eq_dec : EqDecision NotifyItem.
Proof. solve_decision. Defined.

(** [snprintf] into [char address_[36]] *)
Definition clip (a : bytes) : bytes := take 35 a.

Definition loadtx (now type : Z) (a : bytes) (h : uint256) (height amount : Z) : NotifyItem :=
  {| item_timestamp := u32 now; item_type := type; item_height := height; item_amount := amount;
     item_hash := h; item_address := clip a |}.
Definition loadblock (now type : Z) (h : uint256) (height : Z) : NotifyItem :=
  {| item_timestamp := u32 now; item_type := type; item_height := height; item_amount := 0;
     item_hash := h; item_address := [] |}.

Definition is_tx_event (t : Z) : bool := (20 <=? t) && (t <=? 23).
Definition is_block_event (t : Z) : bool := (10 <=? t) && (t <=? 11).

Definition toStr (i : NotifyItem) : bytes :=
  if is_tx_event (item_type i) then
    date_FT (item_timestamp i) ++ 44 :: fmt_d (item_type i) ++ 44 :: item_address i ++ 44 ::
    fmt_d (item_height i) ++ 44 :: ToString (item_hash i) ++ 44 :: fmt_d (item_amount i)
  else if is_block_event (item_type i) then
    date_FT (item_timestamp i) ++ 44 :: fmt_d (item_type i) ++ 44 ::
    fmt_d (item_height i) ++ 44 :: ToString (item_hash i)
  else [].

(** The elements of [arr] past its end are not there to be read. *)
Definition parse (line : bytes) : outcome (option NotifyItem) :=
  match split_limit line 44 6 with
  | t :: ty :: rest =>
      match str2time t with
      | None => Raise Undefined
      | Some ts =>
          if is_tx_event (atoi ty) then
            match rest with
            | [a; ht; hs; am] =>
                Done (Some {| item_timestamp := u32 ts; item_type := atoi ty; item_height := atoi ht;
                              item_amount := atoi64 am; item_hash := SetHex hs; item_address := clip a |})
            | _ => Raise AssertFail
            end
          else if is_block_event (atoi ty) then
            match rest with
            | [ht; hs] =>
                Done (Some {| item_timestamp := u32 ts; item_type := atoi ty; item_height := atoi ht;
                              item_amount := 0; item_hash := SetHex hs; item_address := [] |})
            | _ => Raise AssertFail
            end
          else Done None
      end
  | _ => Raise Undefined
  end.

(** ** Reading a line back *)
Section calendar.
Lemma days_before_year_succ y : days_before_year (y + 1) = days_before_year y + year_days y.
Proof.
  unfold days_before_year, year_days, is_leap. rewrite Z.add_simpl_r.
  assert (y / 4 = (y - 1) / 4 + (if y mod 4 =? 0 then 1 else 0)) as ->
    by (destruct (Z.eqb_spec (y mod 4) 0); Z.to_euclidean_division_equations; lia).
  assert (y / 100 = (y - 1) / 100 + (if y mod 100 =? 0 then 1 else 0)) as ->
    by (destruct (Z.eqb_spec (y mod 100) 0); Z.to_euclidean_division_equations; lia).
  assert (y / 400 = (y - 1) / 400 + (if y mod 400 =? 0 then 1 else 0)) as ->
    by (destruct (Z.eqb_spec (y mod 400) 0); Z.to_euclidean_division_equations; lia).
  destruct (Z.eqb_spec (y mod 4) 0), (Z.eqb_spec (y mod 100) 0), (Z.eqb_spec (y mod 400) 0);
    simpl; Z.to_euclidean_division_equations; lia.
Qed.

Lemma year_days_pos y : 365 ≤ year_days y ≤ 366.
Proof. unfold year_days. destruct (is_leap y); lia. Qed.

Lemma month_days_pos y m : 28 ≤ month_days y m ≤ 31.
Proof. unfold month_days. repeat case_match; lia. Qed.

Lemma find_year_spec fuel y d y' d' :
  find_year fuel y d = (y', d') → 0 ≤ d < 365 * Z.of_nat fuel →
  days_before_year y + d = days_before_year y' + d' ∧ y ≤ y' ≤ y + Z.of_nat fuel ∧ 0 ≤ d' < year_days y'.
Proof.
  revert y d. induction fuel as [|fuel IH]; intros y d E Hd; cbn [find_year] in E.
  - lia.
  - destruct (Z.ltb_spec d (year_days y)).
    + injection E as <- <-. lia.
    + pose proof (year_days_pos y).
      apply IH in E as (E1 & E2 & E3); [|lia]. rewrite days_before_year_succ in E1. lia.
Qed.

Lemma days_before_month_succ y m :
  1 ≤ m → days_before_month y (m + 1) = days_before_month y m + month_days y m.
Proof.
  intros Hm. unfold days_before_month. replace (m + 1 - 1) with (m - 1 + 1) by lia.
  rewrite seqZ_app by lia. rewrite foldr_app. change (seqZ (1 + (m - 1)) 1) with [1 + (m - 1)].
  cbn [foldr]. replace (1 + (m - 1)) with m by lia. rewrite Z.add_0_r.
  generalize (month_days y m). intros z. induction (seqZ 1 (m - 1)) as [|k l IH]; simpl; lia.
Qed.

Lemma find_month_spec fuel y m d m' d' :
  find_month fuel y m d = (m', d') → 1 ≤ m → 0 ≤ d →
  days_before_month y m + d = days_before_month y m' + d' ∧ m ≤ m' ≤ m + Z.of_nat fuel ∧
  0 ≤ d' ∧ (d' < month_days y m' ∨ m' = m + Z.of_nat fuel).
Proof.
  revert m d. induction fuel as [|fuel IH]; intros m d E Hm Hd; cbn [find_month] in E.
  - injection E as <- <-. lia.
  - destruct (Z.ltb_spec d (month_days y m)).
    + injection E as <- <-. lia.
    + apply IH in E as (E1 & E2 & E3); [|lia..]. rewrite days_before_month_succ in E1 by done. lia.
Qed.

Lemma days_before_month_13 y : days_before_month y 13 = year_days y.
Proof.
  unfold days_before_month, year_days. change (seqZ 1 (13 - 1)) with [1;2;3;4;5;6;7;8;9;10;11;12].
  cbn -[is_leap]. unfold month_days. destruct (is_leap y); reflexivity.
Qed.

Lemma civil_spec d :
  0 ≤ d < 73000 → ∃ y m dd, civil d = (y, m, dd) ∧ days_of y m dd = d ∧
    1970 ≤ y ≤ 2170 ∧ 1 ≤ m ≤ 12 ∧ 1 ≤ dd ≤ 31.
Proof.
  intros Hd. unfold civil. destruct (find_year 200 1970 d) as [y d1] eqn:Ey.
  destruct (find_month 12 y 1 d1) as [m d2] eqn:Em.
  apply find_year_spec in Ey as (E1 & Hy & Hd1); [|lia].
  apply find_month_spec in Em as (E2 & Hm & Hd2 & Hend); [|lia..].
  change (days_before_month y 1) with 0 in E2. change (days_before_year 1970) with 0 in E1.
  assert (m ≠ 13) as Hm13.
  { intros ->. rewrite days_before_month_13 in E2. lia. }
  exists y, m, (d2 + 1). split; [done|]. pose proof (month_days_pos y m).
  unfold days_of. lia.
Qed.

Lemma length_pad w z : length (pad w z) = w.
Proof. revert z. induction w; intros z; simpl; [done|]. rewrite length_app, IHw. simpl. lia. Qed.

Lemma pad_digits w z : Forall digit_ok (pad w z).
Proof.
  revert z. induction w as [|w IH]; intros z; simpl; [done|].
  apply Forall_app. split; [done|]. constructor; [|done]. apply isdigit_iff.
  pose proof (Z.mod_pos_bound z 10). lia.
Qed.

Lemma scan_num_app w1 w2 acc s t :
  Forall digit_ok s → length s = w1 →
  scan_num (w1 + w2) acc (s ++ t) = scan_num w2 (foldl (λ a c, 10 * a + (c - 48)) acc s) t.
Proof.
  revert w1 acc. induction s as [|c s IH]; intros w1 acc Hs Hl; simpl in Hl; subst w1; [done|].
  apply Forall_cons in Hs as [Hc Hs]. simpl. rewrite Hc. by rewrite IH.
Qed.

Lemma pad_value w z acc :
  0 ≤ z < 10 ^ Z.of_nat w →
  foldl (λ a c, 10 * a + (c - 48)) acc (pad w z) = acc * 10 ^ Z.of_nat w + z.
Proof.
  revert z. induction w as [|w IH]; intros z Hz; [simpl in *; lia|].
  rewrite Nat2Z.inj_succ, Z.pow_succ_r in * by lia. cbn [pad]. rewrite foldl_app, IH; simpl.
  - pose proof (Z.div_mod z 10). lia.
  - split; [apply Z.div_pos; lia|]. apply Z.div_lt_upper_bound; lia.
Qed.

(** A padded number is read back, whatever follows. *)
Lemma scan_pad w z t :
  (0 < w)%nat → 0 ≤ z < 10 ^ Z.of_nat w → scan_field w (pad w z ++ t) = Some (z, t).
Proof.
  intros Hw Hz. unfold scan_field. pose proof (length_pad w z) as Hl.
  pose proof (pad_digits w z) as Hd. pose proof (scan_num_app w 0 0 (pad w z) t Hd Hl) as Hs.
  rewrite Nat.add_0_r, pad_value in Hs by done.
  destruct (pad w z) as [|c s] eqn:E; [simpl in Hl; lia|]. simpl app in *.
  apply Forall_cons in Hd as [-> _]. rewrite Hs. destruct t; simpl; do 2 f_equal; lia.
Qed.

Lemma str2time_date ts t : in_u 32 ts → str2time (date_FT ts ++ t) = Some ts.
Proof.
  intros Hts. unfold in_u in Hts. unfold date_FT.
  destruct (civil_spec (ts / 86400)) as (y & m & d & E & Hdays & Hy & Hm & Hd).
  { split; [apply Z.div_pos; lia|]. apply Z.div_lt_upper_bound; lia. }
  rewrite E. unfold str2time.
  pose proof (Z.mod_pos_bound ts 86400). pose proof (Z.mod_pos_bound (ts mod 86400 / 60) 60).
  pose proof (Z.mod_pos_bound (ts mod 86400) 60).
  assert (0 ≤ ts mod 86400 / 3600 < 24) by (split; [apply Z.div_pos | apply Z.div_lt_upper_bound]; lia).
  do 5 (rewrite <-app_assoc; cbn [app]).
  unfold scan_char. do 6 (rewrite scan_pad by (simpl; lia); cbn [mbind option_bind Z.eqb Pos.eqb]).
  f_equal. rewrite Hdays.
  pose proof (Z.div_mod ts 86400). pose proof (Z.div_mod (ts mod 86400) 60).
  assert (ts mod 86400 / 3600 = ts mod 86400 / 60 / 60) as -> by (rewrite Z.div_div by lia; done).
  pose proof (Z.div_mod (ts mod 86400 / 60) 60). lia.
Qed.

Lemma pad_no c w z : ¬ (48 ≤ c ≤ 57) → c ∉ pad w z.
Proof.
  intros Hc Hin. pose proof (pad_digits w z) as Hd. rewrite Forall_forall in Hd.
  apply Hd, isdigit_iff in Hin. lia.
Qed.

Lemma date_no_comma ts : 44 ∉ date_FT ts.
Proof.
  unfold date_FT. destruct (civil _) as [[y m] d].
  rewrite !not_elem_of_app, !not_elem_of_cons, !not_elem_of_app, !not_elem_of_cons, !not_elem_of_app,
    !not_elem_of_cons, !not_elem_of_app, !not_elem_of_cons, !not_elem_of_app, !not_elem_of_cons.
  repeat split; try lia; apply pad_no; lia.
Qed.

Lemma date_cons ts : date_FT ts ≠ [].
Proof. unfold date_FT. destruct (civil _) as [[y m] d]. intros E. apply app_nil in E as [_ [=]]. Qed.
End calendar.

Section items.
Implicit Types i : NotifyItem.

Lemma digits_no c s : Forall digit_ok s → isdigit c = false → c ∉ s.
Proof. intros Hs Hc Hin. rewrite Forall_forall in Hs. apply Hs in Hin. unfold digit_ok in Hin. congruence. Qed.

Lemma fmt_d_no_comma z : 44 ∉ fmt_d z.
Proof.
  unfold fmt_d. destruct (Z.ltb_spec z 0).
  - rewrite not_elem_of_cons. split; [lia|]. apply digits_no; [apply fmt_u_digits; lia|done].
  - apply digits_no; [apply fmt_u_digits; lia|done].
Qed.

Lemma fmt_d_not_nil z : fmt_d z ≠ [].
Proof.
  unfold fmt_d. destruct (Z.ltb_spec z 0); [done|].
  destruct (fmt_u_cons z) as (c & s & -> & _); [lia|done].
Qed.

Lemma ToString_no_comma u : 44 ∉ ToString u.
Proof.
  intros Hin. pose proof (GetHex_chars u) as Hc. rewrite Forall_forall in Hc.
  destruct (Hc _ Hin) as (d & Hd & E). unfold hexmap in E. destruct (Z.ltb_spec d 10); lia.
Qed.

Lemma ToString_not_nil u : ToString u ≠ [].
Proof. intros E. pose proof (length_GetHex u) as Hl. rewrite E in Hl. done. Qed.

(** what the parser loads into an item *)
Record item_ok i : Prop := {
  ok_timestamp : in_u 32 (item_timestamp i);
  ok_type : is_tx_event (item_type i) = true ∨ is_block_event (item_type i) = true;
  ok_height : in_s 32 (item_height i);
  ok_amount : in_s 64 (item_amount i);
  ok_hash : in_u 256 (item_hash i);
  ok_comma : 44 ∉ item_address i;
  ok_length : (length (item_address i) ≤ 35)%nat;
  ok_block : is_block_event (item_type i) = true → item_amount i = 0 ∧ item_address i = [] }.

Lemma SetHex_ToString u : in_u 256 u → SetHex (ToString u) = u.
Proof. intros Hu. rewrite <-(app_nil_r (ToString u)). by rewrite SetHex_GetHex. Qed.

Lemma str2time_date_nil ts : in_u 32 ts → str2time (date_FT ts) = Some ts.
Proof. intros H. rewrite <-(app_nil_r (date_FT ts)). by apply str2time_date. Qed.

(** the notification service reads back what the parser wrote: [parse]
    of an item's line is the item, for transaction and for block events, with
    its UTC time stamp, for every 32-bit time stamp. *)
Theorem notify_roundtrip i (Hok : item_ok i) : parse (toStr i) = Done (Some i).
Proof.
  destruct Hok as [Hts Hty Hht Ham Hh Hco Hlen Hblk]. unfold toStr, parse, split_limit.
  destruct (is_tx_event (item_type i)) eqn:Etx; [|destruct (is_block_event (item_type i)) eqn:Ebl].
  - rewrite !split_go_item by (auto using date_no_comma, fmt_d_no_comma, ToString_no_comma).
    rewrite split_last by (auto using fmt_d_no_comma, fmt_d_not_nil).
    rewrite !reverse_nil. cbn [app negb andb].
    repeat match goal with |- context [negb (6 =? -1) && ?b] =>
      change (negb (6 =? -1) && b) with false end.
    rewrite str2time_date_nil by done.
    assert (in_s 32 (item_type i)) as Hty32.
    { unfold is_tx_event in Etx. unfold in_s. lia. }
    rewrite !atoi_fmt_d, atoi64_fmt_d, Etx, SetHex_ToString by done.
    unfold clip. rewrite take_ge by done. rewrite wrapU_id by done. by destruct i.
  - rewrite !split_go_item by (auto using date_no_comma, fmt_d_no_comma, ToString_no_comma).
    rewrite split_last by (auto using ToString_no_comma, ToString_not_nil).
    rewrite !reverse_nil. cbn [app negb andb].
    repeat match goal with |- context [negb (6 =? -1) && ?b] =>
      change (negb (6 =? -1) && b) with false end.
    rewrite str2time_date_nil by done.
    assert (in_s 32 (item_type i)) as Hty32.
    { unfold is_block_event in Ebl. unfold in_s. lia. }
    rewrite !atoi_fmt_d, Etx, Ebl, SetHex_ToString by done.
    destruct (Hblk eq_refl) as [E1 E2]. rewrite wrapU_id by done. destruct i; simpl in *. by subst.
  - by destruct Hty.
Qed.
End items.

Module NotifyDemo.
Definition item : NotifyItem :=
  loadtx 1443312000 NOTIFY_EVENT_TX_CONFIRM (lit "1A1zP1eP5QGefi2DMPTfTL5SLmv7DivfNa") 7 376000 (-5000000000).

Lemma item_fine : item_ok item.
Proof.
  constructor; simpl; unfold in_u, in_s; try lia; try done.
  - by left.
  - apply (bool_decide_unpack _). vm_compute. exact I.
Qed.
End NotifyDemo.

Lemma notify_roundtrip_witness :
  parse (toStr NotifyDemo.item) = Done (Some NotifyDemo.item) ∧
  toStr NotifyDemo.item ≠ [].
Proof.
  split.
  - apply (notify_roundtrip NotifyDemo.item). exact NotifyDemo.item_fine.
  - apply (bool_decide_unpack _). vm_compute. exact I.
Defined.
