(* ===== verification/Ledger.v ===== *)
(** * The address tables of the parser (src/jiexi/src/Parser.{h,cc}, KVDB.h)

    For every address the key-value store holds an object (key 20), the list of
    its transactions as numbered nodes (21) with an index from the transaction
    to its number (22), and the numbered list of its unspent outputs (23) with
    an index from the output to its number (24).  The objects are worked on in a
    cache of [AddressInfo]s, which a handler flushes before it ends.

    A table is a map from what its keys are made of; [KvKeys] relates the two. *)
From S2P Require Import Prelude Tx Bytes Text.

Record AddressInfo := {
  txCount_ : Z;
  received_ : Z;
  sent_ : Z;
  unconfirmedTxCount_ : Z;
  unconfirmedReceived_ : Z;
  unconfirmedSent_ : Z;
  unspentTxCount_ : Z;
  unspentTxIndex_ : Z;
  lastConfirmedTxIdx_ : Z }.
#[export] Instance AddressInfo_eq_dec : EqDecision AddressInfo.
Proof. solve_decision. Defined.

Definition newAddressInfo : AddressInfo :=
  {| txCount_ := 0; received_ := 0; sent_ := 0; unconfirmedTxCount_ := 0;
     unconfirmedReceived_ := 0; unconfirmedSent_ := 0; unspentTxCount_ := 0;
     unspentTxIndex_ := -1; lastConfirmedTxIdx_ := -1 |}.

(** fbe::AddressTx *)
Record AddressTx := {
  balance_diff : Z;
  at_tx_hash : bytes;
  tx_height : Z;
  tx_block_time : Z }.
#[export] Instance AddressTx_eq_dec : EqDecision AddressTx.
Proof. solve_decision. Defined.

(** fbe::AddressUnspent *)
Record AddressUnspent := {
  au_position : Z;
  au_position2 : Z;
  au_tx_hash : bytes;
  au_value : Z }.
#[export] Instance AddressUnspent_eq_dec : EqDecision AddressUnspent.
Proof. solve_decision. Defined.

(** The class's node, a copy of an entry with its number. *)
Record AddressTxNode := {
  txBlockTime_ : Z;
  txHeight_ : Z;
  balanceDiff_ : Z;
  idx_ : Z }.

(** The tables, the cache (an object with the use number it was loaded at) and
    the next use number. *)
Record ledger := {
  kv_addr : gmap bytes AddressInfo;                      (** 20_{address} *)
  kv_addr_tx : gmap (bytes * Z) AddressTx;               (** 21_{address}_{010index} *)
  kv_addr_tx_index : gmap (bytes * bytes) bytes;         (** 22_{address}_{tx_hash} *)
  kv_unspent : gmap (bytes * Z) AddressUnspent;          (** 23_{address}_{010index} *)
  kv_unspent_index : gmap (bytes * uint256 * Z) Z;       (** 24_{address}_{tx_hash}_{position} *)
  addrTxCache : gmap bytes (AddressInfo * Z);
  lastUseIdx : Z }.

Definition emptyLedger : ledger :=
  {| kv_addr := ∅; kv_addr_tx := ∅; kv_addr_tx_index := ∅; kv_unspent := ∅;
     kv_unspent_index := ∅; addrTxCache := ∅; lastUseIdx := 0 |}.

Definition with_addr (f : gmap bytes AddressInfo → gmap bytes AddressInfo) (s : ledger) : ledger :=
  {| kv_addr := f (kv_addr s); kv_addr_tx := kv_addr_tx s;
     kv_addr_tx_index := kv_addr_tx_index s; kv_unspent := kv_unspent s;
     kv_unspent_index := kv_unspent_index s; addrTxCache := addrTxCache s;
     lastUseIdx := lastUseIdx s |}.
Definition with_addr_tx (f : gmap (bytes * Z) AddressTx → gmap (bytes * Z) AddressTx)
    (s : ledger) : ledger :=
  {| kv_addr := kv_addr s; kv_addr_tx := f (kv_addr_tx s);
     kv_addr_tx_index := kv_addr_tx_index s; kv_unspent := kv_unspent s;
     kv_unspent_index := kv_unspent_index s; addrTxCache := addrTxCache s;
     lastUseIdx := lastUseIdx s |}.
Definition with_addr_tx_index (f : gmap (bytes * bytes) bytes → gmap (bytes * bytes) bytes)
    (s : ledger) : ledger :=
  {| kv_addr := kv_addr s; kv_addr_tx := kv_addr_tx s;
     kv_addr_tx_index := f (kv_addr_tx_index s); kv_unspent := kv_unspent s;
     kv_unspent_index := kv_unspent_index s; addrTxCache := addrTxCache s;
     lastUseIdx := lastUseIdx s |}.
Definition with_unspent (f : gmap (bytes * Z) AddressUnspent → gmap (bytes * Z) AddressUnspent)
    (s : ledger) : ledger :=
  {| kv_addr := kv_addr s; kv_addr_tx := kv_addr_tx s;
     kv_addr_tx_index := kv_addr_tx_index s; kv_unspent := f (kv_unspent s);
     kv_unspent_index := kv_unspent_index s; addrTxCache := addrTxCache s;
     lastUseIdx := lastUseIdx s |}.
Definition with_unspent_index
    (f : gmap (bytes * uint256 * Z) Z → gmap (bytes * uint256 * Z) Z) (s : ledger) : ledger :=
  {| kv_addr := kv_addr s; kv_addr_tx := kv_addr_tx s;
     kv_addr_tx_index := kv_addr_tx_index s; kv_unspent := kv_unspent s;
     kv_unspent_index := f (kv_unspent_index s); addrTxCache := addrTxCache s;
     lastUseIdx := lastUseIdx s |}.
Definition with_cache (m : gmap bytes (AddressInfo * Z)) (k : Z) (s : ledger) : ledger :=
  {| kv_addr := kv_addr s; kv_addr_tx := kv_addr_tx s;
     kv_addr_tx_index := kv_addr_tx_index s; kv_unspent := kv_unspent s;
     kv_unspent_index := kv_unspent_index s; addrTxCache := m; lastUseIdx := k |}.

(** [KVDB::get] *)
Definition kv_get {S A} (r : option A) : M S A :=
  match r with Some v => mret v | None => raise (Throw "not found key") end.
(** a flatbuffer read from a value that [multiGet] left empty *)
Definition kv_read {S A} (r : option A) : M S A :=
  match r with Some v => mret v | None => raise Undefined end.

(** ** The cache of address objects *)

Definition kMaxCacheCount : Z := 500 * 10000.

(** what a new cache entry starts from *)
Definition stored_info (a : bytes) (s : ledger) : AddressInfo := default newAddressInfo (kv_addr s !! a).

(** half of the entries are dropped, by the use number they were loaded at *)
Definition evict (k : Z) (m : gmap bytes (AddressInfo * Z)) : gmap bytes (AddressInfo * Z) :=
  if kMaxCacheCount <? Z.of_nat (size m)
  then filter (λ p, k - kMaxCacheCount / 2 < p.2.2) m
  else m.

Definition load (a : bytes) (s : ledger) : ledger :=
  match addrTxCache s !! a with
  | Some _ => s
  | None =>
      let k := lastUseIdx s + 1 in
      with_cache (evict k (<[a := (stored_info a s, lastUseIdx s)]> (addrTxCache s))) k s
  end.

Definition getAddressInfo (a : bytes) : M ledger AddressInfo :=
  modify (load a) ;;
  s ← get;
  match addrTxCache s !! a with Some (i, _) => mret i | None => raise AssertFail end.

(** an assignment through the pointer [_getAddressInfo] returned *)
Definition set_info (a : bytes) (f : AddressInfo → AddressInfo) (s : ledger) : ledger :=
  with_cache (alter (λ p, (f p.1, p.2)) a (addrTxCache s)) (lastUseIdx s) s.
Definition updInfo (a : bytes) (f : AddressInfo → AddressInfo) : M ledger unit := modify (set_info a f).

(** [Parser::flushAddressInfo] *)
Definition flushAddressInfo (balance : gmap bytes Z) : M ledger unit :=
  forM (text_items balance) (λ p,
    i ← getAddressInfo p.1;
    modify (with_addr (<[p.1 := i]>))).

(** ** The transactions of an address *)

Definition received_part (d : Z) : Z := if 0 <? d then d else 0.
Definition sent_part (d : Z) : Z := if d <? 0 then i64 (d * -1) else 0.

Definition info_add_tx (d : Z) (i : AddressInfo) : AddressInfo :=
  {| txCount_ := i32 (txCount_ i + 1);
     received_ := i64 (received_ i + received_part d);
     sent_ := i64 (sent_ i + sent_part d);
     unconfirmedTxCount_ := i32 (unconfirmedTxCount_ i + 1);
     unconfirmedReceived_ := i64 (unconfirmedReceived_ i + received_part d);
     unconfirmedSent_ := i64 (unconfirmedSent_ i + sent_part d);
     unspentTxCount_ := unspentTxCount_ i; unspentTxIndex_ := unspentTxIndex_ i;
     lastConfirmedTxIdx_ := lastConfirmedTxIdx_ i |}.

(** [_accpetTx_insertAddressTxs] *)
Definition insertAddressTxs (txhash : bytes) (time : Z) (balance : gmap bytes Z) : M ledger unit :=
  forM (text_items balance) (λ p,
    let a := p.1 in
    i ← getAddressInfo a;
    modify (with_addr_tx (<[(a, txCount_ i) :=
      {| balance_diff := p.2; at_tx_hash := txhash; tx_height := -1; tx_block_time := time |}]>)) ;;
    modify (with_addr_tx_index (<[(a, txhash) := fmt_d (txCount_ i)]>)) ;;
    updInfo a (info_add_tx p.2)).

(** [Parser::_getAddressTxNode] *)
Definition getAddressTxNode (a txhash : bytes) : M ledger AddressTxNode :=
  s ← get;
  v ← kv_get (kv_addr_tx_index s !! (a, txhash));
  match v with
  | [] => raise (Throw "can't find kv item by key")
  | _ =>
      let index := atoi v in
      e ← kv_get (kv_addr_tx s !! (a, index));
      mret {| txBlockTime_ := tx_block_time e; txHeight_ := tx_height e;
              balanceDiff_ := balance_diff e; idx_ := index |}
  end.

(** [Parser::_switchTxNode] *)
Definition switchTxNode (a : bytes) (idx1 idx2 : Z) : M ledger unit :=
  s ← get;
  e1 ← kv_read (kv_addr_tx s !! (a, idx1));
  e2 ← kv_read (kv_addr_tx s !! (a, idx2));
  modify (with_addr_tx (<[(a, idx1) := e2]>)) ;;
  modify (with_addr_tx (<[(a, idx2) := e1]>)) ;;
  modify (with_addr_tx_index (<[(a, at_tx_hash e1) := fmt_d idx2]>)) ;;
  modify (with_addr_tx_index (<[(a, at_tx_hash e2) := fmt_d idx1]>)).

(** the [mutate_] calls on an entry *)
Definition stamp (time height : Z) (e : AddressTx) : AddressTx :=
  {| balance_diff := balance_diff e; at_tx_hash := at_tx_hash e;
     tx_height := height; tx_block_time := time |}.
Definition stampEntry (a : bytes) (idx time height : Z) : M ledger unit :=
  s ← get;
  e ← kv_get (kv_addr_tx s !! (a, idx));
  modify (with_addr_tx (<[(a, idx) := stamp time height e]>)).

Definition info_confirm (d idx : Z) (i : AddressInfo) : AddressInfo :=
  {| txCount_ := txCount_ i; received_ := received_ i; sent_ := sent_ i;
     unconfirmedTxCount_ := i32 (unconfirmedTxCount_ i - 1);
     unconfirmedReceived_ := i64 (unconfirmedReceived_ i - received_part d);
     unconfirmedSent_ := i64 (unconfirmedSent_ i - sent_part d);
     unspentTxCount_ := unspentTxCount_ i; unspentTxIndex_ := unspentTxIndex_ i;
     lastConfirmedTxIdx_ := idx |}.

Definition confirmAddressTxNode (a : bytes) (node : AddressTxNode) : M ledger unit :=
  updInfo a (info_confirm (balanceDiff_ node) (idx_ node)) ;;
  stampEntry a (idx_ node) (txBlockTime_ node) (txHeight_ node).

(** The [while (1)] of [Parser::confirmTx].  Once the node has been moved the
    test succeeds, so two rounds are enough. *)
Fixpoint confirm_loop (fuel : nat) (a txhash : bytes) (i : AddressInfo) : M ledger AddressTxNode :=
  match fuel with
  | O => raise Diverge
  | S fuel =>
      node ← getAddressTxNode a txhash;
      if i32 (lastConfirmedTxIdx_ i + 1) =? idx_ node then mret node
      else switchTxNode a (i32 (lastConfirmedTxIdx_ i + 1)) (idx_ node) ;;
           confirm_loop fuel a txhash i
  end.

Definition confirmAddressTxs (txhash : bytes) (time height : Z) (balance : gmap bytes Z) :
    M ledger unit :=
  forM (text_items balance) (λ p,
    let a := p.1 in
    i ← getAddressInfo a;
    node ← confirm_loop 2 a txhash i;
    confirmAddressTxNode a
      {| txBlockTime_ := time; txHeight_ := height;
         balanceDiff_ := balanceDiff_ node; idx_ := idx_ node |}).

Definition info_unconfirm (d : Z) (i : AddressInfo) : AddressInfo :=
  {| txCount_ := txCount_ i; received_ := received_ i; sent_ := sent_ i;
     unconfirmedTxCount_ := i32 (unconfirmedTxCount_ i + 1);
     unconfirmedReceived_ := i64 (unconfirmedReceived_ i + received_part d);
     unconfirmedSent_ := i64 (unconfirmedSent_ i + sent_part d);
     unspentTxCount_ := unspentTxCount_ i; unspentTxIndex_ := unspentTxIndex_ i;
     lastConfirmedTxIdx_ := i32 (lastConfirmedTxIdx_ i - 1) |}.

Definition unconfirmAddressTxNode (a : bytes) (node : AddressTxNode) : M ledger unit :=
  updInfo a (info_unconfirm (balanceDiff_ node)) ;;
  i ← getAddressInfo a;
  assertM (-1 <=? lastConfirmedTxIdx_ i) ;;
  assertM (i32 (idx_ node - 1) =? lastConfirmedTxIdx_ i) ;;
  stampEntry a (idx_ node) 0 (-1).

Definition unconfirmAddressTxs (txhash : bytes) (balance : gmap bytes Z) : M ledger unit :=
  forM (text_items balance) (λ p,
    getAddressInfo p.1 ;;
    node ← getAddressTxNode p.1 txhash;
    unconfirmAddressTxNode p.1 node).

Definition info_remove_tx (d : Z) (i : AddressInfo) : AddressInfo :=
  {| txCount_ := i32 (txCount_ i - 1);
     received_ := i64 (received_ i - received_part d);
     sent_ := i64 (sent_ i - sent_part d);
     unconfirmedTxCount_ := i32 (unconfirmedTxCount_ i - 1);
     unconfirmedReceived_ := i64 (unconfirmedReceived_ i - received_part d);
     unconfirmedSent_ := i64 (unconfirmedSent_ i - sent_part d);
     unspentTxCount_ := unspentTxCount_ i; unspentTxIndex_ := unspentTxIndex_ i;
     lastConfirmedTxIdx_ := lastConfirmedTxIdx_ i |}.

(** [Parser::_removeAddressTxNode].  The second key is formatted with the
    [uint256] object itself where the format says [%s], which is undefined: the
    call may print any text, or not come back.  [varargs] says what it does with
    the object of a hash: [Some k] when it prints [k], [None] when it ends the
    run.  Both keys are formatted before either is deleted. *)
Definition removeAddressTxNode (varargs : bytes → option bytes) (a : bytes) (idx : Z)
    (txhash : bytes) (d : Z) : M ledger unit :=
  i ← getAddressInfo a;
  assertM (txCount_ i =? i32 (idx + 1)) ;;
  k ← match varargs txhash with Some k => mret k | None => raise Undefined end;
  modify (with_addr_tx (delete (a, idx))) ;;
  modify (with_addr_tx_index (delete (a, k))) ;;
  updInfo a (info_remove_tx d).

(** The [while (1)] of [Parser::_rejectAddressTxs]; two rounds are enough. *)
Fixpoint reject_loop (fuel : nat) (a txhash : bytes) (i : AddressInfo) : M ledger AddressTxNode :=
  match fuel with
  | O => raise Diverge
  | S fuel =>
      node ← getAddressTxNode a txhash;
      if i32 (idx_ node + 1) =? txCount_ i then mret node
      else assertM (2 <=? txCount_ i) ;;
           switchTxNode a (i32 (txCount_ i - 1)) (idx_ node) ;;
           reject_loop fuel a txhash i
  end.

Definition rejectAddressTxs (varargs : bytes → option bytes) (txhash : bytes) (balance : gmap bytes Z) :
    M ledger unit :=
  forM (text_items balance) (λ p,
    let a := p.1 in
    i ← getAddressInfo a;
    node ← reject_loop 2 a txhash i;
    removeAddressTxNode varargs a (i32 (txCount_ i - 1)) txhash (balanceDiff_ node)).

(** ** The unspent outputs of an address *)

Definition info_unspent_new (i : AddressInfo) : AddressInfo :=
  {| txCount_ := txCount_ i; received_ := received_ i; sent_ := sent_ i;
     unconfirmedTxCount_ := unconfirmedTxCount_ i;
     unconfirmedReceived_ := unconfirmedReceived_ i; unconfirmedSent_ := unconfirmedSent_ i;
     unspentTxCount_ := i32 (unspentTxCount_ i + 1); unspentTxIndex_ := i32 (unspentTxIndex_ i + 1);
     lastConfirmedTxIdx_ := lastConfirmedTxIdx_ i |}.
Definition info_unspent_del (i : AddressInfo) : AddressInfo :=
  {| txCount_ := txCount_ i; received_ := received_ i; sent_ := sent_ i;
     unconfirmedTxCount_ := unconfirmedTxCount_ i;
     unconfirmedReceived_ := unconfirmedReceived_ i; unconfirmedSent_ := unconfirmedSent_ i;
     unspentTxCount_ := i32 (unspentTxCount_ i - 1); unspentTxIndex_ := unspentTxIndex_ i;
     lastConfirmedTxIdx_ := lastConfirmedTxIdx_ i |}.

(** [_acceptTx_insertAddressUnspent] *)
Definition insertAddressUnspent (value : Z) (a : bytes) (h : uint256) (position position2 : Z) :
    M ledger unit :=
  getAddressInfo a ;;
  updInfo a info_unspent_new ;;
  i ← getAddressInfo a;
  modify (with_unspent_index (<[(a, h, position) := unspentTxIndex_ i]>)) ;;
  modify (with_unspent (<[(a, unspentTxIndex_ i) :=
    {| au_position := position; au_position2 := position2; au_tx_hash := ToString h;
       au_value := value |}]>)).

(** the records under the keys 23 and 24 of an output, in [_acceptTx_removeUnspentOutputs]
    and in [Parser::rejectTx] *)
Definition deleteUnspent (a : bytes) (h : uint256) (position : Z) : M ledger unit :=
  s ← get;
  k ← kv_get (kv_unspent_index s !! (a, h, position));
  modify (with_unspent (delete (a, k))) ;;
  modify (with_unspent_index (delete (a, h, position))).

(** the loop body of [_acceptTx_removeUnspentOutputs] *)
Definition spendUnspent (a : bytes) (h : uint256) (position : Z) : M ledger unit :=
  getAddressInfo a ;;
  updInfo a info_unspent_del ;;
  deleteUnspent a h position.
