(* ===== verification/LedgerSpec.v ===== *)
(** * What the address tables stand for

    The abstract account of an address: the list of its transactions, of which
    the first [acc_conf] are confirmed, its unspent outputs, the number of
    unspent records made so far and the drift of the unspent counter (the
    counter is not touched when the outputs of a rejected transaction are
    removed).  [Rep] relates a ledger to a map of accounts; [sim] says that an
    operation on the ledger implements one on the accounts, and every operation
    of [Ledger] on one address has such a lemma. *)
From S2P Require Import Prelude Tx Bytes Text Ledger.

Record account := {
  acc_txs : list AddressTx;
  acc_conf : nat;
  acc_unspent : gmap (uint256 * Z) (Z * Z);   (** (hash, position) to (position2, value) *)
  acc_made : nat;
  acc_drift : Z }.

Definition emptyAccount : account :=
  {| acc_txs := []; acc_conf := 0; acc_unspent := ∅; acc_made := 0; acc_drift := 0 |}.

Abbreviation accounts := (gmap bytes account).
Definition acct (a : bytes) (F : accounts) : account := default emptyAccount (F !! a).

Definition with_list (l : list AddressTx) (c : nat) (A : account) : account :=
  {| acc_txs := l; acc_conf := c; acc_unspent := acc_unspent A; acc_made := acc_made A;
     acc_drift := acc_drift A |}.

(** ** The operations on an account *)

Definition acc_index (h : bytes) (l : list AddressTx) : option nat :=
  fst <$> list_find (λ e, at_tx_hash e = h) l.

(** exchange two places *)
Definition swap_at (i j : nat) (l : list AddressTx) : list AddressTx :=
  match l !! i, l !! j with
  | Some x, Some y => <[j := x]> (<[i := y]> l)
  | _, _ => l
  end.

(** a new transaction goes to the end *)
Definition acc_accept (h : bytes) (time d : Z) (A : account) : option account :=
  guard (acc_index h (acc_txs A) = None ∧ Z.of_nat (length (acc_txs A)) + 1 < 2 ^ 31);;
  Some (with_list (acc_txs A ++ [ {| balance_diff := d; at_tx_hash := h; tx_height := -1;
                                     tx_block_time := time |} ]) (acc_conf A) A).

(** a confirmed transaction is exchanged with the first unconfirmed one *)
Definition acc_confirm (h : bytes) (time height : Z) (A : account) : option account :=
  i ← acc_index h (acc_txs A);
  guard (acc_conf A ≤ i)%nat;;
  Some (with_list (alter (stamp time height) (acc_conf A) (swap_at (acc_conf A) i (acc_txs A)))
          (S (acc_conf A)) A).

(** only the last confirmed transaction can be unconfirmed *)
Definition acc_unconfirm (h : bytes) (A : account) : option account :=
  i ← acc_index h (acc_txs A);
  guard (acc_conf A = S i);;
  Some (with_list (alter (stamp 0 (-1)) i (acc_txs A)) i A).

(** A rejected transaction is exchanged with the last one and removed; [k] is
    the index entry that goes with it, which must not be another transaction's,
    and [d] what the transaction brought. *)
Definition acc_reject (k h : bytes) (d : Z) (A : account) : option account :=
  i ← acc_index h (acc_txs A);
  guard (balance_diff <$> acc_txs A !! i = Some d ∧
         (acc_conf A ≤ i)%nat ∧ (k = h ∨ acc_index k (acc_txs A) = None));;
  let l := swap_at (pred (length (acc_txs A))) i (acc_txs A) in
  Some (with_list (take (pred (length (acc_txs A))) l) (acc_conf A) A).

Definition with_outputs (u : gmap (uint256 * Z) (Z * Z)) (k : nat) (drift : Z) (A : account) : account :=
  {| acc_txs := acc_txs A; acc_conf := acc_conf A; acc_unspent := u; acc_made := k; acc_drift := drift |}.

Definition acc_receive (h : uint256) (p p2 v : Z) (A : account) : option account :=
  guard (acc_unspent A !! (h, p) = None ∧ Z.of_nat (acc_made A) + 1 < 2 ^ 31);;
  Some (with_outputs (<[(h, p) := (p2, v)]> (acc_unspent A)) (S (acc_made A)) (acc_drift A) A).

(** an output of value [v] is spent *)
Definition acc_spend (h : uint256) (p v : Z) (A : account) : option account :=
  guard (snd <$> acc_unspent A !! (h, p) = Some v);;
  Some (with_outputs (delete (h, p) (acc_unspent A)) (acc_made A) (acc_drift A) A).

(** an output goes with its transaction; the counter stays *)
Definition acc_revoke (h : uint256) (p v : Z) (A : account) : option account :=
  guard (snd <$> acc_unspent A !! (h, p) = Some v);;
  Some (with_outputs (delete (h, p) (acc_unspent A)) (acc_made A) (acc_drift A + 1) A).

Definition on_account (a : bytes) (f : account → option account) (F : accounts) : option accounts :=
  A ← f (acct a F); Some (<[a := A]> F).

(** the same operation on every address of a list, in order *)
Fixpoint on_accounts {B} (l : list (bytes * B)) (f : B → account → option account) (F : accounts) :
    option accounts :=
  match l with
  | [] => Some F
  | (a, d) :: l => on_account a (f d) F ≫= on_accounts l f
  end.

(** ** The abstraction relation *)

Definition total_of (f : Z → Z) (l : list AddressTx) : Z := foldr (λ e s, f (balance_diff e) + s) 0 l.

(** the address object of an account *)
Definition account_info (A : account) : AddressInfo :=
  {| txCount_ := Z.of_nat (length (acc_txs A));
     received_ := i64 (total_of received_part (acc_txs A));
     sent_ := i64 (total_of sent_part (acc_txs A));
     unconfirmedTxCount_ := Z.of_nat (length (acc_txs A)) - Z.of_nat (acc_conf A);
     unconfirmedReceived_ := i64 (total_of received_part (drop (acc_conf A) (acc_txs A)));
     unconfirmedSent_ := i64 (total_of sent_part (drop (acc_conf A) (acc_txs A)));
     unspentTxCount_ := i32 (Z.of_nat (size (acc_unspent A)) + acc_drift A);
     unspentTxIndex_ := Z.of_nat (acc_made A) - 1;
     lastConfirmedTxIdx_ := Z.of_nat (acc_conf A) - 1 |}.

(** the object as the handlers see it *)
Definition info (a : bytes) (s : ledger) : AddressInfo :=
  match addrTxCache s !! a with Some (i, _) => i | None => stored_info a s end.

(** Every key 24 points to its record under key 23, every record is pointed to
    by exactly one. *)
Record unspent_rep (s : ledger) (a : bytes) (u : gmap (uint256 * Z) (Z * Z)) (k : nat) : Prop := {
  un_some : ∀ h p p2 v, u !! (h, p) = Some (p2, v) → ∃ i,
    kv_unspent_index s !! (a, h, p) = Some i ∧
    kv_unspent s !! (a, i) =
      Some {| au_position := p; au_position2 := p2; au_tx_hash := ToString h; au_value := v |};
  un_none : ∀ h p, u !! (h, p) = None → kv_unspent_index s !! (a, h, p) = None;
  un_inj : ∀ h p h' p' i, kv_unspent_index s !! (a, h, p) = Some i →
    kv_unspent_index s !! (a, h', p') = Some i → (h, p) = (h', p');
  un_back : ∀ i r, kv_unspent s !! (a, i) = Some r →
    i < Z.of_nat k ∧ ∃ h p, kv_unspent_index s !! (a, h, p) = Some i }.

Record account_rep (s : ledger) (a : bytes) (A : account) : Prop := {
  rep_conf : (acc_conf A ≤ length (acc_txs A))%nat;
  rep_len : Z.of_nat (length (acc_txs A)) < 2 ^ 31;
  rep_made : Z.of_nat (acc_made A) < 2 ^ 31;
  rep_tx : ∀ i, kv_addr_tx s !! (a, i) = if decide (0 ≤ i) then acc_txs A !! Z.to_nat i else None;
  rep_index : ∀ i e, acc_txs A !! i = Some e →
    kv_addr_tx_index s !! (a, at_tx_hash e) = Some (fmt_d (Z.of_nat i));
  rep_unspent : unspent_rep s a (acc_unspent A) (acc_made A);
  rep_info : info a s = account_info A }.

(** A handler works on the addresses [D]: only their objects may differ from
    the stored ones.  The cache stays within [C], a set of addresses for which
    it has room. *)
Record fits (C D : gset bytes) (s : ledger) : Prop := {
  fits_cache : dom (addrTxCache s) ⊆ C;
  fits_dirty : D ⊆ C;
  fits_room : Z.of_nat (size C) ≤ kMaxCacheCount }.
Definition clean_but (D : gset bytes) (s : ledger) : Prop :=
  ∀ a, a ∉ D → info a s = stored_info a s.

Record Rep (C D : gset bytes) (s : ledger) (F : accounts) : Prop := {
  Rep_fits : fits C D s;
  Rep_clean : clean_but D s;
  Rep_accounts : ∀ a, account_rep s a (acct a F) }.

(** [m] implements [g]. *)
Definition sim (C D : gset bytes) (m : M ledger unit) (g : accounts → option accounts) : Prop :=
  ∀ s F F', Rep C D s F → g F = Some F' → ∃ s', m s = (Done tt, s') ∧ Rep C D s' F'.

Section frame.
Context (C : gset bytes).
Implicit Types (s : ledger) (a b : bytes) (A : account) (F : accounts) (D : gset bytes).

(** ** What an operation on one address leaves alone *)

Record same_at b s s' : Prop := {
  same_info : info b s' = info b s;
  same_stored : stored_info b s' = stored_info b s;
  same_tx : ∀ i, kv_addr_tx s' !! (b, i) = kv_addr_tx s !! (b, i);
  same_index : ∀ h, kv_addr_tx_index s' !! (b, h) = kv_addr_tx_index s !! (b, h);
  same_unspent : ∀ i, kv_unspent s' !! (b, i) = kv_unspent s !! (b, i);
  same_unspent_index : ∀ h p, kv_unspent_index s' !! (b, h, p) = kv_unspent_index s !! (b, h, p) }.

Lemma same_at_refl b s : same_at b s s.
Proof. by constructor. Qed.

Lemma same_at_trans b s1 s2 s3 : same_at b s1 s2 → same_at b s2 s3 → same_at b s1 s3.
Proof. intros [] []. constructor; intros; etransitivity; eauto. Qed.

Lemma unspent_rep_ext s s' a u k :
  (∀ i, kv_unspent s' !! (a, i) = kv_unspent s !! (a, i)) →
  (∀ h p, kv_unspent_index s' !! (a, h, p) = kv_unspent_index s !! (a, h, p)) →
  unspent_rep s a u k → unspent_rep s' a u k.
Proof.
  intros H3 H4 [U1 U2 U3 U4]. constructor.
  - intros h p p2 v Hu. destruct (U1 _ _ _ _ Hu) as (i & ? & ?).
    exists i. rewrite H3, H4. done.
  - intros h p Hu. rewrite H4. auto.
  - intros h p h' p' i. rewrite !H4. apply U3.
  - intros i r. rewrite H3. intros Hr. destruct (U4 _ _ Hr) as (? & h & p & ?).
    split; [done|]. exists h, p. by rewrite H4.
Qed.

Lemma same_at_rep b s s' A : same_at b s s' → account_rep s b A → account_rep s' b A.
Proof.
  intros [H0 _ H1 H2 H3 H4] [R1 R2 R3 R4 R5 R6 R7]. constructor; try done.
  - intros i. rewrite H1. apply R4.
  - intros i e Hi. rewrite H2. eauto.
  - by eapply unspent_rep_ext.
  - congruence.
Qed.

(** the addresses of the cache, as far as [D] lets it be seen *)
Definition kept D s s' : Prop := dom (addrTxCache s') ∪ D = dom (addrTxCache s) ∪ D.

Lemma kept_trans D s1 s2 s3 : kept D s1 s2 → kept D s2 s3 → kept D s1 s3.
Proof. unfold kept. congruence. Qed.

Lemma kept_fits D s s' : kept D s s' → fits C D s → fits C D s'.
Proof. unfold kept. intros E [H1 H2 H3]. constructor; set_solver. Qed.

Lemma acct_insert a b A F : acct b (<[a := A]> F) = if decide (a = b) then A else acct b F.
Proof. unfold acct. rewrite lookup_insert. by case_decide. Qed.

(** An operation that works on one address only has to be looked at there. *)
Lemma sim_account D a m f :
  a ∈ D →
  (∀ s A A', fits C D s → account_rep s a A → f A = Some A' → ∃ s',
     m s = (Done tt, s') ∧ account_rep s' a A' ∧
     (∀ b, b ≠ a → same_at b s s') ∧ kept D s s') →
  sim C D m (on_account a f).
Proof.
  intros Ha Hm s F F' [Hf Hc HA] HF. unfold on_account in HF.
  apply bind_Some in HF as (A' & HA' & [= <-]).
  destruct (Hm s _ A' Hf (HA a) HA') as (s' & Hrun & Hrep & Hsame & Hk).
  exists s'. split; [done|]. constructor.
  - by eapply kept_fits.
  - intros b Hb. assert (b ≠ a) by set_solver. destruct (Hsame b) as [Hi Hst _ _ _ _]; [done|].
    rewrite Hi, Hst. by apply Hc.
  - intros b. rewrite acct_insert. case_decide as Hab; [by subst|].
    eapply same_at_rep; [by apply Hsame|]. apply HA.
Qed.

Lemma sim_ret D : sim C D (mret tt) Some.
Proof. intros s F F' HR [= <-]. eauto. Qed.

Lemma sim_bind D m1 m2 g1 g2 :
  sim C D m1 g1 → sim C D m2 g2 → sim C D (m1 ;; m2) (λ F, g1 F ≫= g2).
Proof.
  intros H1 H2 s F F' HR HF. apply bind_Some in HF as (F1 & HF1 & HF2).
  destruct (H1 _ _ _ HR HF1) as (s1 & Hr1 & HR1).
  destruct (H2 _ _ _ HR1 HF2) as (s2 & Hr2 & HR2).
  exists s2. split; [|done]. by rewrite (bind_Done _ _ _ _ _ Hr1).
Qed.

Lemma sim_ext D m m' g g' :
  (∀ s, m s = m' s) → (∀ F, g F = g' F) → sim C D m g → sim C D m' g'.
Proof.
  intros Hm Hg H s F F' HR HF. rewrite <-Hg in HF. destruct (H _ _ _ HR HF) as (s' & ? & ?).
  exists s'. by rewrite <-Hm.
Qed.

Lemma sim_accounts {B} D (l : list (bytes * B)) (op : bytes * B → M ledger unit) f :
  (∀ a d, (a, d) ∈ l → sim C D (op (a, d)) (on_account a (f d))) →
  sim C D (forM l op) (on_accounts l f).
Proof.
  induction l as [|[a d] l IH]; intros Hop.
  - apply sim_ret.
  - cbn [forM on_accounts]. apply sim_bind; [apply Hop; set_solver|].
    apply IH. intros b d' Hin. apply Hop. set_solver.
Qed.

(** ** The cache *)

Lemma cached_info a s i u : addrTxCache s !! a = Some (i, u) → info a s = i.
Proof. intros E. unfold info. by rewrite E. Qed.

Lemma load_cache D a s :
  a ∈ D → fits C D s → addrTxCache (load a s) =
    match addrTxCache s !! a with
    | Some _ => addrTxCache s
    | None => <[a := (stored_info a s, lastUseIdx s)]> (addrTxCache s)
    end.
Proof.
  intros Ha Hf. unfold load. destruct (addrTxCache s !! a) as [p|] eqn:E; [done|]. simpl.
  unfold evict. replace (_ <? _) with false; [done|]. symmetry. apply Z.ltb_ge.
  destruct Hf as [H1 H2 H3]. etransitivity; [|exact H3]. apply inj_le. rewrite <-size_dom.
  apply subseteq_size. rewrite dom_insert. set_solver.
Qed.

Lemma load_tables a s :
  kv_addr (load a s) = kv_addr s ∧ kv_addr_tx (load a s) = kv_addr_tx s ∧
  kv_addr_tx_index (load a s) = kv_addr_tx_index s ∧ kv_unspent (load a s) = kv_unspent s ∧
  kv_unspent_index (load a s) = kv_unspent_index s.
Proof. unfold load. by destruct (addrTxCache s !! a). Qed.

Lemma load_info D a b s : a ∈ D → fits C D s → info b (load a s) = info b s.
Proof.
  intros Ha Hf. unfold info. rewrite (load_cache _ _ _ Ha Hf).
  destruct (load_tables a s) as (E & _). unfold stored_info. rewrite E.
  destruct (addrTxCache s !! a) as [p|] eqn:Ea; [done|].
  rewrite lookup_insert. case_decide as Hab; [subst b; by rewrite Ea | done].
Qed.

Lemma load_same D a b s : a ∈ D → fits C D s → same_at b s (load a s).
Proof.
  intros Ha Hf. destruct (load_tables a s) as (E1 & E2 & E3 & E4 & E5).
  constructor; intros; unfold stored_info; rewrite ?E1, ?E2, ?E3, ?E4, ?E5; try done.
  by eapply load_info.
Qed.

Lemma load_kept D a s : a ∈ D → fits C D s → kept D s (load a s).
Proof.
  intros Ha Hf. unfold kept. rewrite (load_cache _ _ _ Ha Hf).
  destruct (addrTxCache s !! a); [done|]. rewrite dom_insert_L. set_solver.
Qed.

Lemma load_fits D a s : a ∈ D → fits C D s → fits C D (load a s).
Proof. intros. eapply kept_fits; [by apply load_kept|done]. Qed.

Lemma load_cached D a s : a ∈ D → fits C D s → is_Some (addrTxCache (load a s) !! a).
Proof.
  intros Ha Hf. rewrite (load_cache _ _ _ Ha Hf).
  destruct (addrTxCache s !! a) eqn:E; [by rewrite E|]. rewrite lookup_insert_eq. eauto.
Qed.

Lemma load_rep D a b s A : a ∈ D → fits C D s → account_rep s b A → account_rep (load a s) b A.
Proof. intros Ha Hf. apply same_at_rep. by eapply load_same. Qed.

Lemma load_id a s : is_Some (addrTxCache s !! a) → load a s = s.
Proof. intros [p E]. unfold load. by rewrite E. Qed.

Lemma getAddressInfo_run D a s :
  a ∈ D → fits C D s → getAddressInfo a s = (Done (info a s), load a s).
Proof.
  intros Ha Hf. unfold getAddressInfo.
  rewrite (bind_Done (modify (load a)) _ s tt (load a s) eq_refl).
  rewrite (bind_Done get _ _ _ _ eq_refl).
  rewrite <-(load_info D a a s Ha Hf). destruct (load_cached D a s Ha Hf) as [[i u] E].
  unfold info. rewrite E. done.
Qed.

Lemma getAddressInfo_cached a s :
  is_Some (addrTxCache s !! a) → getAddressInfo a s = (Done (info a s), s).
Proof.
  intros Hc. unfold getAddressInfo.
  rewrite (bind_Done (modify (load a)) _ s tt (load a s) eq_refl), load_id by done.
  rewrite (bind_Done get _ _ _ _ eq_refl).
  destruct Hc as [[i u] E]. unfold info. rewrite E. done.
Qed.

Lemma info_set_info a b f s :
  is_Some (addrTxCache s !! a) →
  info b (set_info a f s) = if decide (a = b) then f (info a s) else info b s.
Proof.
  intros [[i u] E]. unfold info, set_info, stored_info. simpl. rewrite lookup_alter.
  case_decide as Hab; [|done]. subst b. by rewrite E.
Qed.

Lemma set_info_cached a b f s :
  is_Some (addrTxCache s !! b) → is_Some (addrTxCache (set_info a f s) !! b).
Proof.
  intros [p E]. unfold set_info. simpl. rewrite lookup_alter. case_decide; subst; rewrite E; simpl; eauto.
Qed.

Lemma set_info_kept D a f s : kept D s (set_info a f s).
Proof. unfold kept, set_info. simpl. by rewrite dom_alter_L. Qed.
End frame.

(** ** Lists and totals *)
Section lists.
Implicit Types (l : list AddressTx) (i j c : nat) (h : bytes).

Lemma wrapS_add w x y : 0 < w → wrapS w (wrapS w x + y) = wrapS w (x + y).
Proof.
  intros Hw. unfold wrapS.
  replace ((x + 2 ^ (w - 1)) mod 2 ^ w - 2 ^ (w - 1) + y + 2 ^ (w - 1))
    with ((x + 2 ^ (w - 1)) mod 2 ^ w + y) by lia.
  rewrite Zplus_mod_idemp_l. do 2 f_equal. lia.
Qed.

Lemma wrapS_sub w x y : 0 < w → wrapS w (wrapS w x - y) = wrapS w (x - y).
Proof. intros. rewrite <-!Z.add_opp_r. by apply wrapS_add. Qed.

Lemma i32_small z : in_s 32 z → i32 z = z.
Proof. by apply wrapS_id. Qed.

Lemma total_of_app f l1 l2 : total_of f (l1 ++ l2) = total_of f l1 + total_of f l2.
Proof. induction l1; simpl; lia. Qed.

Lemma total_of_perm f l1 l2 : l1 ≡ₚ l2 → total_of f l1 = total_of f l2.
Proof. induction 1; simpl; lia. Qed.

Lemma total_of_alter f g i l :
  (∀ e, balance_diff (g e) = balance_diff e) → total_of f (alter g i l) = total_of f l.
Proof.
  intros Hg. revert i. induction l as [|e l IH]; intros [|i]; simpl; try done.
  - by rewrite Hg.
  - f_equal. apply IH.
Qed.

Lemma total_of_drop f l c e :
  l !! c = Some e → total_of f (drop c l) = f (balance_diff e) + total_of f (drop (S c) l).
Proof. intros Hc. by rewrite (drop_S _ _ _ Hc). Qed.

Lemma length_swap_at i j l : length (swap_at i j l) = length l.
Proof. unfold swap_at. by repeat case_match; rewrite ?length_insert. Qed.

Lemma lookup_swap_at i j l x y k :
  l !! i = Some x → l !! j = Some y →
  swap_at i j l !! k = if decide (k = j) then Some x else if decide (k = i) then Some y else l !! k.
Proof.
  intros Hi Hj. unfold swap_at. rewrite Hi, Hj.
  repeat case_decide; subst.
  - rewrite list_lookup_insert_eq; [done|]. rewrite length_insert. by eapply lookup_lt_Some.
  - rewrite list_lookup_insert_ne, list_lookup_insert_eq; [done | by eapply lookup_lt_Some | done].
  - by rewrite !list_lookup_insert_ne by done.
Qed.

Lemma swap_at_same i l : swap_at i i l = l.
Proof.
  unfold swap_at. destruct (l !! i) as [x|] eqn:E; [|done].
  rewrite list_insert_insert_eq. by apply list_insert_id.
Qed.

Lemma swap_at_perm i j l : swap_at i j l ≡ₚ l.
Proof.
  unfold swap_at. destruct (l !! i) as [x|] eqn:Ei; [|done].
  destruct (l !! j) as [y|] eqn:Ej; [|done].
  destruct (decide (i = j)) as [->|Hne].
  { rewrite list_insert_insert_eq. rewrite list_insert_id; [done|]. congruence. }
  apply Permutation_inj. split; [by rewrite !length_insert|].
  exists (λ k, if decide (k = i) then j else if decide (k = j) then i else k).
  split.
  - intros k1 k2. repeat case_decide; congruence.
  - intros k. repeat case_decide; subst.
    + rewrite list_lookup_insert_ne, list_lookup_insert_eq; [done | by eapply lookup_lt_Some | done].
    + rewrite list_lookup_insert_eq; [done|]. rewrite length_insert. by eapply lookup_lt_Some.
    + by rewrite !list_lookup_insert_ne by done.
Qed.

Lemma take_swap_at c i j l : (c ≤ i)%nat → (c ≤ j)%nat → take c (swap_at i j l) = take c l.
Proof.
  intros Hi Hj. unfold swap_at. repeat case_match; try done.
  by rewrite !take_insert_ge by lia.
Qed.

Lemma drop_swap_at c i j l : (c ≤ i)%nat → (c ≤ j)%nat → drop c (swap_at i j l) ≡ₚ drop c l.
Proof.
  intros Hi Hj. apply (Permutation_app_inv_l (take c l)).
  rewrite take_drop. rewrite <-(take_swap_at c i j l) by done. rewrite take_drop. apply swap_at_perm.
Qed.

Lemma acc_index_Some h l i :
  acc_index h l = Some i → ∃ e, l !! i = Some e ∧ at_tx_hash e = h ∧
    ∀ j e', l !! j = Some e' → (j < i)%nat → at_tx_hash e' ≠ h.
Proof.
  unfold acc_index. intros H. apply fmap_Some in H as ([j e] & Hf & ->).
  apply list_find_Some in Hf as (He & Hh & Hmin). exists e. eauto.
Qed.

Lemma acc_index_None h l e : acc_index h l = None → e ∈ l → at_tx_hash e ≠ h.
Proof.
  unfold acc_index. intros H Hin. apply fmap_None in H. apply list_find_None in H.
  rewrite Forall_forall in H. by apply H.
Qed.

Lemma fmt_d_inj x y : in_s 32 x → in_s 32 y → fmt_d x = fmt_d y → x = y.
Proof. intros Hx Hy E. by rewrite <-(atoi_fmt_d x), <-(atoi_fmt_d y), E by done. Qed.

Lemma fmt_d_cons z : 0 ≤ z → ∃ b s, fmt_d z = b :: s.
Proof.
  intros Hz. unfold fmt_d. destruct (Z.ltb_spec z 0); [lia|].
  destruct (fmt_u_cons z Hz) as (c & s & -> & _). eauto.
Qed.
End lists.

(** ** The address object follows the account *)
Section infos.
Implicit Types (A : account) (e : AddressTx).

Lemma info_add_tx_spec A e :
  (acc_conf A ≤ length (acc_txs A))%nat → Z.of_nat (length (acc_txs A)) + 1 < 2 ^ 31 →
  info_add_tx (balance_diff e) (account_info A) =
    account_info (with_list (acc_txs A ++ [e]) (acc_conf A) A).
Proof.
  intros Hc Hl. unfold info_add_tx, account_info. simpl.
  rewrite drop_app_le by done. rewrite !total_of_app, length_app. simpl.
  rewrite !wrapS_add by done. rewrite !i32_small by (unfold in_s; lia).
  f_equal; first [lia | f_equal; lia | rewrite i32_small; unfold in_s; lia].
Qed.

Lemma info_confirm_spec A l e time height :
  acc_txs A ≡ₚ l → length l = length (acc_txs A) →
  drop (acc_conf A) l ≡ₚ drop (acc_conf A) (acc_txs A) →
  l !! acc_conf A = Some e → Z.of_nat (length l) < 2 ^ 31 →
  info_confirm (balance_diff e) (Z.of_nat (acc_conf A)) (account_info A) =
    account_info (with_list (alter (stamp time height) (acc_conf A) l) (S (acc_conf A)) A).
Proof.
  intros Hp Hlen Hd He Hl. pose proof (lookup_lt_Some _ _ _ He) as Hlt.
  unfold info_confirm, account_info. simpl.
  rewrite !total_of_alter, length_alter, Hlen by done.
  rewrite !(total_of_perm _ _ _ Hp).
  assert (∀ f, total_of f (drop (acc_conf A) (acc_txs A)) =
    f (balance_diff e) + total_of f (drop (S (acc_conf A)) (alter (stamp time height) (acc_conf A) l))) as Ht.
  { intros f. rewrite <-(total_of_perm _ _ _ Hd), (total_of_drop _ _ _ _ He). f_equal.
    by rewrite drop_alter_lt by lia. }
  rewrite !Ht, !wrapS_sub by done. rewrite i32_small by (unfold in_s; lia).
  f_equal; first [lia | f_equal; lia | rewrite i32_small; unfold in_s; lia].
Qed.

Lemma info_unconfirm_spec A e i :
  acc_txs A !! i = Some e → acc_conf A = S i → Z.of_nat (length (acc_txs A)) < 2 ^ 31 →
  info_unconfirm (balance_diff e) (account_info A) =
    account_info (with_list (alter (stamp 0 (-1)) i (acc_txs A)) i A).
Proof.
  intros He Hc Hl. pose proof (lookup_lt_Some _ _ _ He) as Hlt.
  unfold info_unconfirm, account_info. simpl.
  rewrite !total_of_alter, length_alter by done.
  assert (∀ f, total_of f (drop i (alter (stamp 0 (-1)) i (acc_txs A))) =
    f (balance_diff e) + total_of f (drop (acc_conf A) (acc_txs A))) as Ht.
  { intros f. rewrite (total_of_drop _ _ _ (stamp 0 (-1) e)).
    - by rewrite drop_alter_lt, Hc by lia.
    - by rewrite list_lookup_alter_eq, He. }
  rewrite !Ht, !wrapS_add by done.
  f_equal; first [lia | f_equal; lia | rewrite i32_small; unfold in_s; lia].
Qed.

Lemma info_remove_tx_spec A l e :
  acc_txs A ≡ₚ l ++ [e] → drop (acc_conf A) (acc_txs A) ≡ₚ drop (acc_conf A) l ++ [e] →
  (acc_conf A ≤ length l)%nat → Z.of_nat (length (acc_txs A)) < 2 ^ 31 →
  info_remove_tx (balance_diff e) (account_info A) = account_info (with_list l (acc_conf A) A).
Proof.
  intros Hp Hd Hc Hl. unfold info_remove_tx, account_info. simpl.
  assert (length (acc_txs A) = S (length l)) as Hlen by (rewrite Hp, length_app; simpl; lia).
  rewrite Hlen in *. rewrite !(total_of_perm _ _ _ Hp), !(total_of_perm _ _ _ Hd), !total_of_app. simpl. rewrite !wrapS_sub by done.
  rewrite !i32_small by (unfold in_s; lia).
  f_equal; first [lia | f_equal; lia | rewrite i32_small; unfold in_s; lia].
Qed.

Lemma info_unspent_new_spec A u :
  size u = S (size (acc_unspent A)) → Z.of_nat (acc_made A) + 1 < 2 ^ 31 →
  info_unspent_new (account_info A) =
    account_info (with_outputs u (S (acc_made A)) (acc_drift A) A).
Proof.
  intros Hu Hm. unfold info_unspent_new, account_info. simpl. rewrite Hu.
  rewrite wrapS_add by done. rewrite (i32_small (_ - 1 + 1)) by (unfold in_s; lia).
  f_equal; first [lia | f_equal; lia | rewrite i32_small; unfold in_s; lia].
Qed.

Lemma info_unspent_del_spec A u :
  S (size u) = size (acc_unspent A) →
  info_unspent_del (account_info A) =
    account_info (with_outputs u (acc_made A) (acc_drift A) A).
Proof.
  intros Hu. unfold info_unspent_del, account_info. simpl. rewrite <-Hu.
  rewrite wrapS_sub by done. f_equal. f_equal. lia.
Qed.
End infos.
