(* ===== verification/LedgerRefine.v ===== *)
(** * The address tables implement the accounts

    Every operation of [Ledger] on one address, and every loop over the
    addresses of a transaction, implements the operation of [LedgerSpec] on the
    accounts ([sim]); flushing makes the stored objects agree with the cache. *)
From S2P Require Import Prelude Tx Bytes Text Ledger LedgerSpec.

(** ** The operations implement the account's operations *)
Section locality.
Context (C : gset bytes).
Implicit Types (s : ledger) (a b h : bytes) (A : account) (e : AddressTx) (D : gset bytes).

(** an address that is loaded *)
Record ready D s a A : Prop := {
  ready_fits : fits C D s;
  ready_cached : is_Some (addrTxCache s !! a);
  ready_rep : account_rep s a A }.

(** What an operation on [a] does to the rest. *)
Definition local D a s s' : Prop := (∀ b, b ≠ a → same_at b s s') ∧ kept D s s'.

Lemma local_trans D a s1 s2 s3 : local D a s1 s2 → local D a s2 s3 → local D a s1 s3.
Proof.
  intros [H1 K1] [H2 K2]. split; [|by eapply kept_trans].
  intros b Hb. eapply same_at_trans; eauto.
Qed.

Lemma ready_info D s a A : ready D s a A → info a s = account_info A.
Proof. intros [_ _ H]. apply H. Qed.

Lemma load_ready D a s A : a ∈ D → fits C D s → account_rep s a A → ready D (load a s) a A ∧ local D a s (load a s).
Proof.
  intros Ha Hf Hr. split.
  - constructor; [by apply load_fits | by eapply load_cached | by eapply load_rep].
  - split; [intros; by eapply load_same | by eapply load_kept].
Qed.

(** Operations that begin by loading the address. *)
Lemma sim_loaded D a (k : AddressInfo → M ledger unit) f :
  a ∈ D →
  (∀ s A A', ready D s a A → f A = Some A' → ∃ s',
     k (account_info A) s = (Done tt, s') ∧ account_rep s' a A' ∧ local D a s s') →
  sim C D (getAddressInfo a ≫= k) (on_account a f).
Proof.
  intros Ha Hk. apply sim_account; [done|]. intros s A A' Hf Hr HA.
  destruct (load_ready D a s A Ha Hf Hr) as [Hready Hl].
  destruct (Hk _ _ _ Hready HA) as (s' & Hrun & Hr' & Hl').
  exists s'. rewrite (bind_Done _ _ _ _ _ (getAddressInfo_run C D a s Ha Hf)), (rep_info _ _ _ Hr).
  split; [done|]. split; [done|]. by apply (local_trans _ _ _ _ _ Hl).
Qed.

(** [same_at] and [kept] for explicit states *)
Lemma local_intro D a s s' :
  addrTxCache s' = addrTxCache s ∨ (∃ f, addrTxCache s' = alter f a (addrTxCache s)) →
  kv_addr s' = kv_addr s →
  (∀ b i, b ≠ a → kv_addr_tx s' !! (b, i) = kv_addr_tx s !! (b, i)) →
  (∀ b h, b ≠ a → kv_addr_tx_index s' !! (b, h) = kv_addr_tx_index s !! (b, h)) →
  (∀ b i, b ≠ a → kv_unspent s' !! (b, i) = kv_unspent s !! (b, i)) →
  (∀ b (t : uint256) p, b ≠ a → kv_unspent_index s' !! (b, t, p) = kv_unspent_index s !! (b, t, p)) →
  local D a s s'.
Proof.
  intros Hc Ha H1 H2 H3 H4. split.
  - intros b Hb.
    assert (stored_info b s' = stored_info b s) as Hst by (unfold stored_info; by rewrite Ha).
    constructor; auto. unfold info. rewrite Hst.
    destruct Hc as [-> | [f ->]]; [done|]. by rewrite lookup_alter_ne.
  - unfold kept. destruct Hc as [-> | [f ->]]; [done|]. by rewrite dom_alter_L.
Qed.

End locality.

Ltac local_tac :=
  apply local_intro; simpl; intros;
  [ first [by left | right; by eexists] | try done .. ];
  repeat first [rewrite lookup_insert_ne by congruence | rewrite lookup_delete_ne by congruence];
  done.

Section operations.
Context (C : gset bytes).
Implicit Types (s : ledger) (a b h : bytes) (A : account) (e : AddressTx) (D : gset bytes).

(** *** A new transaction *)
Lemma insertAddressTxs_sim D h (time : Z) (balance : gmap bytes Z) :
  dom balance ⊆ D →
  sim C D (insertAddressTxs h time balance) (on_accounts (text_items balance) (acc_accept h time)).
Proof.
  intros HD. apply sim_accounts. intros a d Hin.
  assert (a ∈ D) as Ha. { apply HD. apply elem_of_map_items in Hin. by eapply elem_of_dom_2. }
  apply sim_loaded; [done|]. intros s A A' [Hf Hc HR] HA.
  unfold acc_accept in HA. apply guard_inv in HA as [[Hnew Hroom] [= <-]].
  eexists. split; [reflexivity|]. split; [|local_tac].
  destruct HR as [R1 R2 R3 R4 R5 R6 R7]. constructor; simpl.
  - rewrite length_app. simpl. lia.
  - rewrite length_app. simpl. lia.
  - done.
  - intros i. rewrite lookup_insert. case_decide as Hi.
    + injection Hi as <-. rewrite decide_True by lia.
      rewrite Nat2Z.id, list_lookup_middle; done.
    + rewrite R4. case_decide; [|done].
      destruct (decide (Z.to_nat i < length (acc_txs A))%nat); [by rewrite lookup_app_l|].
      rewrite !lookup_ge_None_2; rewrite ?length_app; simpl; try done; try lia.
      assert (i ≠ Z.of_nat (length (acc_txs A))) by congruence. lia.
  - intros i x Hi. rewrite lookup_insert. apply lookup_app_Some in Hi as [Hi | [Hle Hi]].
    + rewrite decide_False; [by apply R5|].
      intros [= Heq]. eapply acc_index_None; [exact Hnew | | by symmetry].
      by eapply list_elem_of_lookup_2.
    + apply list_lookup_singleton_Some in Hi as [Hi <-]. simpl.
      rewrite decide_True by done. do 2 f_equal. lia.
  - eapply unspent_rep_ext; [..|exact R6]; done.
  - rewrite info_set_info by done. rewrite decide_True by done.
    change (info a _) with (info a s) at 1. rewrite R7. by apply (info_add_tx_spec A {| balance_diff := d |}).
Qed.

(** *** Finding and moving entries *)

Lemma rep_entry s a A i e :
  account_rep s a A → acc_txs A !! i = Some e → kv_addr_tx s !! (a, Z.of_nat i) = Some e.
Proof.
  intros HR Hi. rewrite (rep_tx _ _ _ HR), decide_True by lia. by rewrite Nat2Z.id.
Qed.

Lemma index_small s a A i e :
  account_rep s a A → acc_txs A !! i = Some e → in_s 32 (Z.of_nat i).
Proof.
  intros HR Hi. apply lookup_lt_Some in Hi. pose proof (rep_len _ _ _ HR). unfold in_s. lia.
Qed.

(** An address lists a transaction once. *)
Lemma rep_hash_inj s a A i j x y :
  account_rep s a A → acc_txs A !! i = Some x → acc_txs A !! j = Some y →
  at_tx_hash x = at_tx_hash y → i = j.
Proof.
  intros HR Hi Hj E. pose proof (rep_index _ _ _ HR _ _ Hi) as H1.
  pose proof (rep_index _ _ _ HR _ _ Hj) as H2. rewrite E in H1.
  assert (Z.of_nat i = Z.of_nat j); [|lia].
  apply fmt_d_inj; [by eapply index_small | by eapply index_small | congruence].
Qed.

Lemma getAddressTxNode_run s a A i e :
  account_rep s a A → acc_txs A !! i = Some e →
  getAddressTxNode a (at_tx_hash e) s =
    (Done {| txBlockTime_ := tx_block_time e; txHeight_ := tx_height e;
             balanceDiff_ := balance_diff e; idx_ := Z.of_nat i |}, s).
Proof.
  intros HR Hi. unfold getAddressTxNode. rewrite (bind_Done get _ _ _ _ eq_refl).
  rewrite (rep_index _ _ _ HR _ _ Hi). simpl.
  pose proof (index_small _ _ _ _ _ HR Hi) as Hs.
  destruct (fmt_d_cons (Z.of_nat i)) as (b & t & E); [lia|].
  unfold mbind, M_bind, mret, M_ret. rewrite E, <-E, atoi_fmt_d by done.
  by rewrite (rep_entry _ _ _ _ _ HR Hi).
Qed.

(** Exchanging two unconfirmed entries. *)
Lemma switchTxNode_run D s a A i j :
  ready C D s a A → (acc_conf A ≤ i)%nat → (acc_conf A ≤ j)%nat → i ≠ j →
  is_Some (acc_txs A !! i) → is_Some (acc_txs A !! j) →
  ∃ s', switchTxNode a (Z.of_nat i) (Z.of_nat j) s = (Done tt, s') ∧
    ready C D s' a (with_list (swap_at i j (acc_txs A)) (acc_conf A) A) ∧ local D a s s'.
Proof.
  intros [Hf Hc HR] Hci Hcj Hij [x Hi] [y Hj]. unfold switchTxNode.
  rewrite (bind_Done get _ _ _ _ eq_refl), (rep_entry _ _ _ _ _ HR Hi), (rep_entry _ _ _ _ _ HR Hj).
  eexists. split; [reflexivity|].
  assert (at_tx_hash x ≠ at_tx_hash y) as Hne.
  { intros E. apply Hij. by eapply (rep_hash_inj s a A). }
  match goal with |- _ ∧ local _ _ _ ?s' => assert (local D a s s') as Hl by local_tac end.
  split; [|done]. constructor; [by eapply kept_fits, Hf; apply Hl | done |].
  pose proof HR as [R1 R2 R3 R4 R5 R6 R7]. constructor; simpl; rewrite ?length_swap_at; try done.
  - intros k. rewrite !lookup_insert, R4.
    destruct (decide (0 ≤ k)) as [Hk|Hk].
    + rewrite (lookup_swap_at i j _ x y) by done.
      repeat case_decide; simplify_eq; try done; try lia; exfalso; eauto with lia;
        match goal with H : _ ≠ _ |- _ => apply H; f_equal; lia end.
    + repeat case_decide; simplify_eq; try done; lia.
  - intros k e Hk. rewrite (lookup_swap_at i j _ x y) in Hk by done. rewrite !lookup_insert.
    case_decide as Hkj; [|case_decide as Hki]; simplify_eq.
    + rewrite decide_False by (intros [=]; congruence). by rewrite decide_True.
    + by rewrite decide_True.
    + rewrite !decide_False; [by apply R5 | |]; intros [= Heq];
        first [apply Hkj, (rep_hash_inj s a A _ _ e y); done | apply Hki, (rep_hash_inj s a A _ _ e x); done].
  - eapply unspent_rep_ext; [..|exact R6]; done.
  - change (info a _) with (info a s) at 1. rewrite R7. unfold account_info. simpl.
    rewrite length_swap_at. f_equal; f_equal; apply total_of_perm; symmetry;
      first [apply swap_at_perm | by apply drop_swap_at].
Qed.

(** *** Confirming and unconfirming *)

Lemma stamp_rep D s a A (i c : nat) e (time height : Z) f :
  ready C D s a A → acc_txs A !! i = Some e → (c ≤ length (acc_txs A))%nat →
  f (account_info A) = account_info (with_list (alter (stamp time height) i (acc_txs A)) c A) →
  account_rep (with_addr_tx (<[(a, Z.of_nat i) := stamp time height e]>) (set_info a f s)) a
    (with_list (alter (stamp time height) i (acc_txs A)) c A).
Proof.
  intros [Hf Hc HR] Hi Hle Hinfo. destruct HR as [R1 R2 R3 R4 R5 R6 R7].
  constructor; simpl; rewrite ?length_alter; try done.
  - intros k. rewrite lookup_insert. case_decide as Hk; [injection Hk as <-|].
    + rewrite decide_True, Nat2Z.id by lia. by rewrite list_lookup_alter_eq, Hi.
    + rewrite R4. case_decide; [|done]. rewrite list_lookup_alter_ne; [done|].
      intros ->. apply Hk. f_equal. lia.
  - intros k x Hk. destruct (decide (i = k)) as [->|Hne].
    + rewrite list_lookup_alter_eq, Hi in Hk. injection Hk as <-. simpl. by apply R5.
    + rewrite list_lookup_alter_ne in Hk by done. by apply R5.
  - eapply unspent_rep_ext; [..|exact R6]; done.
  - change (info a (set_info a f s) = account_info (with_list (alter (stamp time height) i (acc_txs A)) c A)).
    rewrite info_set_info, decide_True by done. by rewrite R7.
Qed.

Lemma stampEntry_run a idx (time height : Z) s e :
  kv_addr_tx s !! (a, idx) = Some e →
  stampEntry a idx time height s = (Done tt, with_addr_tx (<[(a, idx) := stamp time height e]>) s).
Proof. intros E. unfold stampEntry, mbind, M_bind, get. by rewrite E. Qed.

(** The loop ends with the transaction at the place it is moved to. *)
Lemma moved_entry A (i k : nat) e :
  acc_txs A !! i = Some e → is_Some (acc_txs A !! k) → swap_at k i (acc_txs A) !! k = Some e.
Proof.
  intros Hi [x Hk]. rewrite (lookup_swap_at k i _ x e) by done.
  case_decide; [subst; congruence|]. by rewrite decide_True.
Qed.

Lemma confirm_loop_run D s a A i e :
  ready C D s a A → acc_txs A !! i = Some e → (acc_conf A ≤ i)%nat →
  ∃ s', confirm_loop 2 a (at_tx_hash e) (account_info A) s =
      (Done {| txBlockTime_ := tx_block_time e; txHeight_ := tx_height e;
               balanceDiff_ := balance_diff e; idx_ := Z.of_nat (acc_conf A) |}, s') ∧
    ready C D s' a (with_list (swap_at (acc_conf A) i (acc_txs A)) (acc_conf A) A) ∧ local D a s s'.
Proof.
  intros Hr Hi Hci. pose proof (ready_rep _ _ _ _ _ Hr) as HR. pose proof (lookup_lt_Some _ _ _ Hi) as Hlt.
  assert (i32 (lastConfirmedTxIdx_ (account_info A) + 1) = Z.of_nat (acc_conf A)) as Hlast.
  { simpl. pose proof (rep_len _ _ _ HR). rewrite i32_small; unfold in_s; lia. }
  cbn [confirm_loop]. rewrite Hlast.
  rewrite (bind_Done _ _ _ _ _ (getAddressTxNode_run s a A i e HR Hi)). cbn [idx_].
  destruct (decide (i = acc_conf A)) as [->|Hne].
  - rewrite Z.eqb_refl, swap_at_same. exists s. split; [done|]. split; [|by split; [|done]].
    by destruct A.
  - replace (_ =? _) with false by lia.
    assert (is_Some (acc_txs A !! acc_conf A)) as Hk by (apply lookup_lt_is_Some_2; lia).
    destruct (switchTxNode_run D s a A (acc_conf A) i) as (s1 & Hrun & Hr1 & Hl1); try done.
    rewrite (bind_Done _ _ _ _ _ Hrun).
    pose proof (moved_entry A i (acc_conf A) e Hi Hk) as Hmoved.
    rewrite (bind_Done _ _ _ _ _ (getAddressTxNode_run s1 a _ _ e (ready_rep _ _ _ _ _ Hr1) Hmoved)).
    cbn [idx_]. rewrite Z.eqb_refl. by exists s1.
Qed.

Lemma confirmAddressTxs_sim D h (time height : Z) (balance : gmap bytes Z) :
  dom balance ⊆ D →
  sim C D (confirmAddressTxs h time height balance)
    (on_accounts (text_items balance) (λ _, acc_confirm h time height)).
Proof.
  intros HD. apply sim_accounts. intros a d Hin.
  assert (a ∈ D) as Ha. { apply HD. apply elem_of_map_items in Hin. by eapply elem_of_dom_2. }
  apply sim_loaded; [done|]. intros s A A' Hr HA.
  unfold acc_confirm in HA. apply bind_Some in HA as (i & Hi & HA).
  apply guard_inv in HA as [Hci [= <-]].
  apply acc_index_Some in Hi as (e & Hi & <- & _).
  destruct (confirm_loop_run D s a A i e Hr Hi Hci) as (s1 & Hrun & Hr1 & Hl1).
  rewrite (bind_Done _ _ _ _ _ Hrun). cbn [balanceDiff_ idx_].
  pose proof (lookup_lt_Some _ _ _ Hi) as Hlt.
  assert (swap_at (acc_conf A) i (acc_txs A) !! acc_conf A = Some e) as He.
  { apply moved_entry; [done|]. apply lookup_lt_is_Some_2. lia. }
  unfold confirmAddressTxNode, updInfo. cbn [balanceDiff_ idx_ txBlockTime_ txHeight_].
  rewrite (bind_Done (modify _) _ s1 tt _ eq_refl).
  erewrite stampEntry_run; [|by apply (rep_entry s1 a _ _ e (ready_rep _ _ _ _ _ Hr1))].
  eexists. split; [reflexivity|]. split.
  - pose proof (stamp_rep D s1 a _ (acc_conf A) (S (acc_conf A)) e time height
      (info_confirm (balance_diff e) (Z.of_nat (acc_conf A))) Hr1 He) as Hst.
    simpl in Hst. rewrite length_swap_at in Hst. apply Hst; [lia|].
    apply (info_confirm_spec (with_list (swap_at (acc_conf A) i (acc_txs A)) (acc_conf A) A)); simpl; try done.
    rewrite length_swap_at. apply (rep_len _ _ _ (ready_rep _ _ _ _ _ Hr)).
  - eapply local_trans; [exact Hl1|]. local_tac.
Qed.

Lemma unconfirmAddressTxs_sim D h (balance : gmap bytes Z) :
  dom balance ⊆ D →
  sim C D (unconfirmAddressTxs h balance) (on_accounts (text_items balance) (λ _, acc_unconfirm h)).
Proof.
  intros HD. apply sim_accounts. intros a d Hin.
  assert (a ∈ D) as Ha. { apply HD. apply elem_of_map_items in Hin. by eapply elem_of_dom_2. }
  apply (sim_loaded C D a (λ _, node ← getAddressTxNode a h; unconfirmAddressTxNode a node)); [done|].
  intros s A A' Hr HA. pose proof Hr as [Hf Hc HR].
  unfold acc_unconfirm in HA. apply bind_Some in HA as (i & Hi & HA).
  apply guard_inv in HA as [Hci [= <-]].
  apply acc_index_Some in Hi as (e & Hi & <- & _). pose proof (lookup_lt_Some _ _ _ Hi) as Hlt.
  rewrite (bind_Done _ _ _ _ _ (getAddressTxNode_run s a A i e HR Hi)).
  unfold unconfirmAddressTxNode, updInfo. cbn [balanceDiff_ idx_].
  rewrite (bind_Done (modify _) _ s tt _ eq_refl).
  rewrite (bind_Done _ _ _ _ _ (getAddressInfo_cached a _ (set_info_cached a a _ s Hc))).
  rewrite info_set_info, decide_True, (ready_info _ _ _ _ _ Hr) by done.
  pose proof (rep_len _ _ _ HR) as Hlen.
  rewrite (info_unconfirm_spec A e i) by done.
  change (lastConfirmedTxIdx_ (account_info _)) with (Z.of_nat i - 1).
  assert ((-1 <=? Z.of_nat i - 1) = true) as Hge by lia.
  rewrite (bind_Done (assertM _) _ _ tt _ (assertM_true _ _ Hge)).
  rewrite i32_small by (unfold in_s; lia).
  rewrite (bind_Done (assertM _) _ _ tt _ (assertM_true _ _ (Z.eqb_refl _))).
  erewrite stampEntry_run by apply (rep_entry s a _ _ e HR Hi).
  eexists. split; [reflexivity|]. split; [|local_tac].
  apply (stamp_rep D s a A i i e); [done..|lia|].
  by apply info_unconfirm_spec.
Qed.

(** *** Rejecting *)

Lemma reject_loop_run D s a A i e :
  ready C D s a A → acc_txs A !! i = Some e → (acc_conf A ≤ i)%nat →
  ∃ s', reject_loop 2 a (at_tx_hash e) (account_info A) s =
      (Done {| txBlockTime_ := tx_block_time e; txHeight_ := tx_height e; balanceDiff_ := balance_diff e;
               idx_ := Z.of_nat (pred (length (acc_txs A))) |}, s') ∧
    ready C D s' a (with_list (swap_at (pred (length (acc_txs A))) i (acc_txs A)) (acc_conf A) A) ∧
    local D a s s'.
Proof.
  intros Hr Hi Hci. pose proof (ready_rep _ _ _ _ _ Hr) as HR. pose proof (lookup_lt_Some _ _ _ Hi) as Hlt.
  pose proof (rep_len _ _ _ HR) as Hlen.
  assert (i32 (txCount_ (account_info A) - 1) = Z.of_nat (pred (length (acc_txs A)))) as Hlast.
  { cbn [account_info txCount_]. rewrite i32_small; unfold in_s; lia. }
  assert (∀ k, (k < length (acc_txs A))%nat → i32 (Z.of_nat k + 1) = Z.of_nat k + 1) as Hsucc.
  { intros k Hk. apply i32_small. unfold in_s. lia. }
  cbn [reject_loop]. rewrite Hlast.
  rewrite (bind_Done _ _ _ _ _ (getAddressTxNode_run s a A i e HR Hi)). cbn [idx_].
  rewrite Hsucc by done. change (txCount_ (account_info A)) with (Z.of_nat (length (acc_txs A))).
  destruct (decide (i = pred (length (acc_txs A)))) as [->|Hne].
  - assert (Z.of_nat (pred (length (acc_txs A))) + 1 = Z.of_nat (length (acc_txs A))) as -> by lia.
    rewrite Z.eqb_refl, swap_at_same. exists s.
    split; [done|]. split; [|by split; [|done]]. by destruct A.
  - destruct (Z.eqb_spec (Z.of_nat i + 1) (Z.of_nat (length (acc_txs A)))); [lia|].
    assert ((2 <=? Z.of_nat (length (acc_txs A))) = true) as H2 by lia.
    rewrite (bind_Done (assertM _) _ _ tt _ (assertM_true _ _ H2)).
    assert (is_Some (acc_txs A !! pred (length (acc_txs A)))) as Hk by (apply lookup_lt_is_Some_2; lia).
    destruct (switchTxNode_run D s a A (pred (length (acc_txs A))) i) as (s1 & Hrun & Hr1 & Hl1);
      try done; try lia.
    rewrite (bind_Done _ _ _ _ _ Hrun).
    pose proof (moved_entry A i _ e Hi Hk) as Hmoved.
    rewrite (bind_Done _ _ _ _ _ (getAddressTxNode_run s1 a _ _ e (ready_rep _ _ _ _ _ Hr1) Hmoved)).
    cbn [idx_]. rewrite Hsucc by lia.
    assert (Z.of_nat (pred (length (acc_txs A))) + 1 = Z.of_nat (length (acc_txs A))) as -> by lia.
    rewrite Z.eqb_refl. by exists s1.
Qed.

(** The last entry goes; [k] is not the index of another one. *)
Lemma remove_rep D s a A l e k :
  ready C D s a A → acc_txs A = l ++ [e] → (acc_conf A ≤ length l)%nat →
  (∀ x, x ∈ l → at_tx_hash x ≠ k) →
  account_rep (set_info a (info_remove_tx (balance_diff e))
    (with_addr_tx_index (delete (a, k)) (with_addr_tx (delete (a, Z.of_nat (length l))) s))) a
    (with_list l (acc_conf A) A).
Proof.
  intros [Hf Hc HR] Hl Hle Hk. destruct HR as [R1 R2 R3 R4 R5 R6 R7].
  rewrite Hl, length_app in R2. simpl in R2. constructor; simpl; try done.
  - lia.
  - intros j. rewrite lookup_delete, R4, Hl. case_decide as Hj.
    + injection Hj as <-. rewrite decide_True, Nat2Z.id by lia. symmetry. by apply lookup_ge_None_2.
    + case_decide; [|done]. destruct (decide (Z.to_nat j < length l)%nat); [by rewrite lookup_app_l|].
      rewrite !lookup_ge_None_2; rewrite ?length_app; simpl; try done; try lia.
      assert (j ≠ Z.of_nat (length l)) by congruence. lia.
  - intros j x Hj. rewrite lookup_delete, decide_False.
    + apply R5. rewrite Hl. by apply lookup_app_l_Some.
    + intros [= E]. eapply Hk; [by eapply list_elem_of_lookup_2|done].
  - eapply unspent_rep_ext; [..|exact R6]; done.
  - rewrite info_set_info, decide_True by done. change (info a _) with (info a s) at 1. rewrite R7.
    apply info_remove_tx_spec.
    + by rewrite Hl.
    + by rewrite Hl, drop_app_le.
    + done.
    + rewrite Hl, length_app. simpl. lia.
Qed.

(** The removal up to the formatting of the second key: the entry has been
    moved to the end of the list and the assertion has held. *)
Lemma removal_starts D (varargs : bytes → option bytes) s a A h i e :
  ready C D s a A → acc_index h (acc_txs A) = Some i → (acc_conf A ≤ i)%nat → acc_txs A !! i = Some e →
  ∃ s1, ready C D s1 a (with_list (swap_at (pred (length (acc_txs A))) i (acc_txs A)) (acc_conf A) A) ∧
    local D a s s1 ∧
    (node ← reject_loop 2 a h (account_info A);
     removeAddressTxNode varargs a (i32 (txCount_ (account_info A) - 1)) h (balanceDiff_ node)) s =
    (k ← match varargs h with Some k => mret k | None => raise Undefined end;
     modify (with_addr_tx (delete (a, Z.of_nat (length (acc_txs A)) - 1))) ;;
     modify (with_addr_tx_index (delete (a, k))) ;;
     updInfo a (info_remove_tx (balance_diff e))) s1.
Proof.
  intros Hr Hi Hci Hidx. pose proof (acc_index_Some _ _ _ Hi) as (e' & Hi' & He & _).
  assert (e' = e) as -> by congruence. pose proof (lookup_lt_Some _ _ _ Hi') as Hlt.
  destruct (reject_loop_run D s a A i e Hr Hi' Hci) as (s1 & Hrun & Hr1 & Hl1). rewrite He in Hrun.
  exists s1. split; [done|]. split; [done|].
  rewrite (bind_Done _ _ _ _ _ Hrun). cbn [balanceDiff_ idx_ account_info txCount_].
  pose proof (rep_len _ _ _ (ready_rep _ _ _ _ _ Hr)) as Hlen.
  rewrite (i32_small (_ - 1)) by (unfold in_s; lia).
  unfold removeAddressTxNode.
  rewrite (bind_Done _ _ _ _ _ (getAddressInfo_cached a s1 (ready_cached _ _ _ _ _ Hr1))).
  rewrite (ready_info _ _ _ _ _ Hr1). cbn [account_info txCount_ with_list acc_txs].
  rewrite length_swap_at, Z.sub_add, i32_small by (unfold in_s; lia).
  by rewrite (bind_Done (assertM _) _ _ tt _ (assertM_true _ _ (Z.eqb_refl _))).
Qed.

(** [k] is the text the formatting of line 1661 prints, where it is run at all *)
Lemma rejectAddressTxs_sim D (varargs : bytes → option bytes) h (k : bytes) (balance : gmap bytes Z) :
  dom balance ⊆ D → (balance ≠ ∅ → varargs h = Some k) →
  sim C D (rejectAddressTxs varargs h balance)
    (on_accounts (text_items balance) (acc_reject k h)).
Proof.
  intros HD Hprint. apply sim_accounts. intros a d Hin.
  assert (varargs h = Some k) as Hvar.
  { apply Hprint. intros E. rewrite E in Hin. apply elem_of_map_items in Hin. by rewrite lookup_empty in Hin. }
  assert (a ∈ D) as Ha. { apply HD. apply elem_of_map_items in Hin. by eapply elem_of_dom_2. }
  apply sim_loaded; [done|]. intros s A A' Hr HA.
  unfold acc_reject in HA. apply bind_Some in HA as (i & Hi & HA).
  apply guard_inv in HA as [(Hd & Hci & Hk) [= <-]].
  apply acc_index_Some in Hi as Hi'. destruct Hi' as (e & Hie & He & _). pose proof (lookup_lt_Some _ _ _ Hie) as Hlt.
  destruct (removal_starts D varargs s a A h i e Hr Hi Hci Hie) as (s1 & Hr1 & Hl1 & Hrun).
  cbn [fst snd] in Hrun |- *. rewrite Hrun, Hvar.
  set (l := take (pred (length (acc_txs A))) (swap_at (pred (length (acc_txs A))) i (acc_txs A))) in *.
  assert (swap_at (pred (length (acc_txs A))) i (acc_txs A) = l ++ [e]) as Hsplit.
  { subst l. rewrite <-(take_drop (pred (length (acc_txs A))) (swap_at _ i _)) at 1. f_equal.
    erewrite drop_S; [|apply moved_entry; [done|apply lookup_lt_is_Some_2; lia]].
    f_equal. apply drop_ge. rewrite length_swap_at. lia. }
  assert (length l = pred (length (acc_txs A))) as Hll.
  { subst l. rewrite length_take, length_swap_at. lia. }
  assert (∀ x, x ∈ l → at_tx_hash x ≠ k) as Hother.
  { intros x Hx Hxk. assert (x ∈ acc_txs A) as HxA.
    { rewrite <-(swap_at_perm (pred (length (acc_txs A))) i), Hsplit. set_solver. }
    destruct Hk as [Hk|Hk]; [|by eapply acc_index_None].
    apply list_elem_of_lookup in Hx as (j & Hj). pose proof (lookup_lt_Some _ _ _ Hj) as Hjl.
    assert (j = length l); [|lia]. eapply (rep_hash_inj s1 a _ j (length l) x e (ready_rep _ _ _ _ _ Hr1)); simpl.
    - rewrite Hsplit. by apply lookup_app_l_Some.
    - rewrite Hsplit. by apply list_lookup_middle.
    - congruence. }
  eexists. split; [reflexivity|]. split; [|eapply local_trans; [exact Hl1|local_tac]].
  replace (Z.of_nat (length (acc_txs A)) - 1) with (Z.of_nat (length l)) by lia.
  by apply (remove_rep D s1 a (with_list (swap_at (pred (length (acc_txs A))) i (acc_txs A)) (acc_conf A) A) l e);
    simpl; [..|lia|].
Qed.

(** Where the formatting does not come back, the first address ends the run. *)
Lemma rejectAddressTxs_stops D (varargs : bytes → option bytes) h (k : bytes) (balance : gmap bytes Z) s F F' :
  dom balance ⊆ D → balance ≠ ∅ → varargs h = None → Rep C D s F →
  on_accounts (text_items balance) (acc_reject k h) F = Some F' →
  (rejectAddressTxs varargs h balance s).1 = Raise Undefined.
Proof.
  intros HD Hne Hvar [Hf Hc HA] HF.
  assert (∀ p, p ∈ text_items balance → p.1 ∈ D) as Hin.
  { intros [a d] Hp. apply HD. apply elem_of_map_items in Hp. by eapply elem_of_dom_2. }
  unfold rejectAddressTxs. destruct (text_items balance) as [|[a d] l] eqn:El.
  { exfalso. apply Hne. apply map_eq. intros a. rewrite lookup_empty. apply eq_None_not_Some. intros [d Hd].
    apply (elem_of_map_items text_le) in Hd. rewrite El in Hd. by apply elem_of_nil in Hd. }
  cbn [on_accounts] in HF. apply bind_Some in HF as (F1 & HF1 & _). unfold on_account in HF1.
  apply bind_Some in HF1 as (A' & HA' & _). unfold acc_reject in HA'. apply bind_Some in HA' as (i & Hi & HA').
  apply guard_inv in HA' as [(_ & Hci & _) _].
  apply acc_index_Some in Hi as Hi'. destruct Hi' as (e & Hie & _ & _).
  assert (a ∈ D) as Ha by (apply (Hin (a, d)); set_solver).
  destruct (load_ready C D a s (acct a F) Ha Hf (HA a)) as [Hready _].
  destruct (removal_starts D varargs (load a s) a (acct a F) h i e Hready Hi Hci Hie) as (s1 & _ & _ & Hrun).
  cbn [forM fst snd]. rewrite bind_assoc.
  rewrite (bind_Done _ _ _ _ _ (getAddressInfo_run C D a s Ha Hf)), (rep_info _ _ _ (HA a)).
  rewrite Hvar in Hrun. unfold mbind at 1, M_bind at 1. cbn beta. rewrite Hrun. reflexivity.
Qed.

End operations.

Section outputs.
Context (C : gset bytes).
Implicit Types (s : ledger) (a b : bytes) (h : uint256) (A : account) (D : gset bytes).

(** *** Unspent outputs *)

Lemma unspent_insert s s' a h p p2 (v : Z) u k :
  unspent_rep s a u k → u !! (h, p) = None →
  (∀ i, kv_unspent s' !! (a, i) = if decide (i = Z.of_nat k)
     then Some {| au_position := p; au_position2 := p2; au_tx_hash := ToString h; au_value := v |}
     else kv_unspent s !! (a, i)) →
  (∀ h' p', kv_unspent_index s' !! (a, h', p') = if decide ((h', p') = (h, p))
     then Some (Z.of_nat k) else kv_unspent_index s !! (a, h', p')) →
  unspent_rep s' a (<[(h, p) := (p2, v)]> u) (S k).
Proof.
  intros [U1 U2 U3 U4] Hnew H3 H4.
  assert (∀ h' p' i, kv_unspent_index s !! (a, h', p') = Some i → i < Z.of_nat k) as Hlt.
  { intros h' p' i Hi. destruct (u !! (h', p')) as [[q2 w]|] eqn:E.
    - destruct (U1 _ _ _ _ E) as (j & Hj & Hr). assert (i = j) as -> by congruence.
      by eapply U4.
    - rewrite U2 in Hi by done. done. }
  constructor.
  - intros h' p' q2 w Hu. rewrite H4. rewrite lookup_insert in Hu. repeat case_decide; simplify_eq.
    + exists (Z.of_nat k). split; [done|]. by rewrite H3, decide_True.
    + destruct (U1 _ _ _ _ Hu) as (i & Hi & Hr). exists i. split; [done|].
      rewrite H3, decide_False; [done|]. apply Hlt in Hi. lia.
  - intros h' p' Hu. rewrite lookup_insert in Hu. rewrite H4. repeat case_decide; simplify_eq. auto.
  - intros h1 p1 h2 p2' i. rewrite !H4. repeat case_decide; intros E1 E2; simplify_eq; try done.
    + apply Hlt in E2. lia.
    + apply Hlt in E1. lia.
    + by eapply U3.
  - intros i r. rewrite H3. case_decide as Hi.
    + intros _. split; [lia|]. exists h, p. rewrite H4, decide_True by done. by f_equal.
    + intros Hr. destruct (U4 _ _ Hr) as (? & h' & p' & Hx). split; [lia|].
      exists h', p'. rewrite H4, decide_False; [done|]. intros [= -> ->]. rewrite U2 in Hx; done.
Qed.

Lemma unspent_delete s s' a h p i u k :
  unspent_rep s a u k → kv_unspent_index s !! (a, h, p) = Some i →
  (∀ j, kv_unspent s' !! (a, j) = if decide (j = i) then None else kv_unspent s !! (a, j)) →
  (∀ h' p', kv_unspent_index s' !! (a, h', p') = if decide ((h', p') = (h, p))
     then None else kv_unspent_index s !! (a, h', p')) →
  unspent_rep s' a (delete (h, p) u) k.
Proof.
  intros [U1 U2 U3 U4] Hi H3 H4. constructor.
  - intros h' p' q2 w Hu. apply lookup_delete_Some in Hu as [Hne Hu].
    destruct (U1 _ _ _ _ Hu) as (j & Hj & Hr). exists j.
    rewrite H4, H3, !decide_False; [done | | congruence].
    intros ->. apply Hne. symmetry. by eapply U3.
  - intros h' p' Hu. rewrite H4. case_decide; [done|]. apply U2.
    by rewrite lookup_delete_ne in Hu.
  - intros h1 p1 h2 p2 j. rewrite !H4. repeat case_decide; try done. apply U3.
  - intros j r. rewrite H3. case_decide as Hj; [done|]. intros Hr.
    destruct (U4 _ _ Hr) as (? & h' & p' & Hx). split; [done|].
    exists h', p'. rewrite H4, decide_False; [done|]. congruence.
Qed.

Lemma insertAddressUnspent_sim D value a (t : uint256) p p2 :
  a ∈ D → sim C D (insertAddressUnspent value a t p p2) (on_account a (acc_receive t p p2 value)).
Proof.
  intros Ha. unfold insertAddressUnspent.
  apply (sim_loaded C D a (λ _, updInfo a info_unspent_new ;; i ← getAddressInfo a;
    modify (with_unspent_index (<[(a, t, p) := unspentTxIndex_ i]>)) ;;
    modify (with_unspent (<[(a, unspentTxIndex_ i) := _]>)))); [done|].
  intros s A A' Hr HA. pose proof Hr as [Hf Hc HR].
  unfold acc_receive in HA. apply guard_inv in HA as [[Hnew Hroom] [= <-]].
  set (u := <[(t, p) := (p2, value)]> (acc_unspent A)).
  assert (info_unspent_new (account_info A) = account_info (with_outputs u (S (acc_made A)) (acc_drift A) A)) as Hinfo.
  { apply info_unspent_new_spec; [|done]. subst u. by rewrite map_size_insert_None. }
  unfold updInfo. rewrite (bind_Done (modify _) _ s tt _ eq_refl).
  rewrite (bind_Done _ _ _ _ _ (getAddressInfo_cached a _ (set_info_cached a a _ s Hc))).
  rewrite info_set_info, decide_True, (ready_info _ _ _ _ _ Hr), Hinfo by done.
  change (unspentTxIndex_ (account_info _)) with (Z.of_nat (S (acc_made A)) - 1).
  assert (Z.of_nat (S (acc_made A)) - 1 = Z.of_nat (acc_made A)) as -> by lia.
  eexists. split; [reflexivity|]. split; [|local_tac].
  destruct HR as [R1 R2 R3 R4 R5 R6 R7]. constructor; simpl; try done.
  - lia.
  - eapply unspent_insert; [exact R6 | done | |]; intros; simpl; rewrite lookup_insert;
      repeat case_decide; try done; exfalso; congruence.
  - rewrite <-Hinfo, <-R7.
    change (info a (set_info a info_unspent_new s) = info_unspent_new (info a s)).
    by rewrite info_set_info, decide_True.
Qed.

Lemma deleteUnspent_run s a (t : uint256) p i :
  kv_unspent_index s !! (a, t, p) = Some i →
  deleteUnspent a t p s =
    (Done tt, with_unspent_index (delete (a, t, p)) (with_unspent (delete (a, i)) s)).
Proof. intros E. unfold deleteUnspent, mbind, M_bind, get. by rewrite E. Qed.

Lemma delete_unspent_rep s a A (t : uint256) p :
  account_rep s a A → is_Some (acc_unspent A !! (t, p)) → ∃ i,
    kv_unspent_index s !! (a, t, p) = Some i ∧
    ∀ s', kv_unspent s' = delete (a, i) (kv_unspent s) →
      kv_unspent_index s' = delete (a, t, p) (kv_unspent_index s) →
      unspent_rep s' a (delete (t, p) (acc_unspent A)) (acc_made A).
Proof.
  intros HR [[p2 v] Hu]. pose proof (rep_unspent _ _ _ HR) as HU.
  destruct (un_some _ _ _ _ HU _ _ _ _ Hu) as (i & Hi & Hrec). exists i. split; [done|].
  intros s' E3 E4. eapply unspent_delete; [done..| |]; intros;
    rewrite ?E3, ?E4, lookup_delete; repeat case_decide; try done; exfalso; congruence.
Qed.

Lemma size_delete_S {V} (k : uint256 * Z) (u : gmap (uint256 * Z) V) :
  is_Some (u !! k) → S (size (delete k u)) = size u.
Proof.
  intros Hk. rewrite map_size_delete_Some by done.
  assert (size u ≠ 0%nat); [|lia]. intros E. apply map_size_empty_inv in E as ->.
  rewrite lookup_empty in Hk. by destruct Hk.
Qed.

Lemma snd_is_Some {X Y} (o : option (X * Y)) (b : Y) : snd <$> o = Some b → is_Some o.
Proof. destruct o; [eauto|done]. Qed.

Lemma spendUnspent_sim D a (t : uint256) p v :
  a ∈ D → sim C D (spendUnspent a t p) (on_account a (acc_spend t p v)).
Proof.
  intros Ha. unfold spendUnspent.
  apply (sim_loaded C D a (λ _, updInfo a info_unspent_del ;; deleteUnspent a t p)); [done|].
  intros s A A' Hr HA. pose proof Hr as [Hf Hc HR].
  unfold acc_spend in HA. apply guard_inv in HA as [Hin [= <-]]. apply snd_is_Some in Hin.
  destruct (delete_unspent_rep s a A t p HR Hin) as (i & Hi & Hrep).
  unfold updInfo. rewrite (bind_Done (modify _) _ s tt _ eq_refl).
  rewrite (deleteUnspent_run _ a t p i) by done.
  eexists. split; [reflexivity|]. split; [|local_tac].
  destruct HR as [R1 R2 R3 R4 R5 R6 R7]. constructor; simpl; try done.
  - by apply Hrep.
  - change (info a (set_info a info_unspent_del s) = account_info
      (with_outputs (delete (t, p) (acc_unspent A)) (acc_made A) (acc_drift A) A)).
    rewrite info_set_info, decide_True, R7 by done.
    apply info_unspent_del_spec. by apply size_delete_S.
Qed.

Lemma deleteUnspent_sim D a (t : uint256) p v :
  a ∈ D → sim C D (deleteUnspent a t p) (on_account a (acc_revoke t p v)).
Proof.
  intros Ha. apply sim_account; [done|]. intros s A A' Hf HR HA.
  unfold acc_revoke in HA. apply guard_inv in HA as [Hin [= <-]]. apply snd_is_Some in Hin.
  destruct (delete_unspent_rep s a A t p HR Hin) as (i & Hi & Hrep).
  rewrite (deleteUnspent_run _ a t p i) by done.
  eexists. split; [reflexivity|].
  match goal with |- account_rep ?s' _ _ ∧ _ => assert (local D a s s') as [? ?] by local_tac end.
  split; [|done].
  destruct HR as [R1 R2 R3 R4 R5 R6 R7]. constructor; simpl; try done.
  - by apply Hrep.
  - change (info a s = account_info
      (with_outputs (delete (t, p) (acc_unspent A)) (acc_made A) (acc_drift A + 1) A)).
    rewrite R7. unfold account_info. simpl. f_equal. f_equal.
    rewrite <-(size_delete_S (t, p) (acc_unspent A)) by done. lia.
Qed.

(** *** Flushing *)

Definition unchanged s s' : Prop :=
  (∀ b, info b s' = info b s) ∧ kv_addr_tx s' = kv_addr_tx s ∧
  kv_addr_tx_index s' = kv_addr_tx_index s ∧ kv_unspent s' = kv_unspent s ∧
  kv_unspent_index s' = kv_unspent_index s.

Lemma flush_loop D (l : list (bytes * Z)) s :
  fits C D s → (∀ p, p ∈ l → p.1 ∈ D) → ∃ s',
  forM l (λ p, i ← getAddressInfo p.1; modify (with_addr (<[p.1 := i]>))) s = (Done tt, s') ∧
  unchanged s s' ∧ fits C D s' ∧
  (∀ a, (a ∈ l.*1 ∨ info a s = stored_info a s) → info a s' = stored_info a s').
Proof.
  revert s. induction l as [|[a d] l IH]; intros s Hf HD.
  - exists s. split; [done|]. split; [done|]. split; [done|]. intros b [Hb|Hb]; [set_solver|done].
  - assert (a ∈ D) as Ha by (apply (HD (a, d)); set_solver).
    cbn [forM]. rewrite (bind_Done (_ ≫= _) _ s tt (with_addr (<[a := info a s]>) (load a s))).
    2: { cbn [fst]. by rewrite (bind_Done _ _ _ _ _ (getAddressInfo_run C D a s Ha Hf)). }
    set (s1 := with_addr (<[a := info a s]>) (load a s)).
    assert (∀ b, info b s1 = info b s) as Hinfo.
    { intros b. rewrite <-(load_info C D a b s) by done. unfold info.
      change (addrTxCache s1) with (addrTxCache (load a s)).
      destruct (addrTxCache (load a s) !! b) as [[i u]|] eqn:E; [done|].
      unfold stored_info. simpl. rewrite lookup_insert_ne; [done|].
      intros <-. destruct (load_cached C D a s Ha Hf) as [x Hx]. congruence. }
    destruct (IH s1) as (s' & Hrun & (U1 & U2 & U3 & U4 & U5) & Hf' & Hst).
    { destruct (load_fits C D a s Ha Hf). by constructor. }
    { intros q Hq. apply HD. set_solver. }
    destruct (load_tables a s) as (E1 & E2 & E3 & E4 & E5).
    exists s'. split; [done|]. split_and!; [|done|].
    + split_and!; [intros; by rewrite U1, Hinfo | by rewrite U2; simpl; rewrite E2
        | by rewrite U3; simpl; rewrite E3 | by rewrite U4; simpl; rewrite E4 | by rewrite U5; simpl; rewrite E5].
    + intros b Hb. apply Hst. destruct (decide (b = a)) as [->|Hne].
      * right. rewrite Hinfo. unfold stored_info. simpl. by rewrite lookup_insert_eq.
      * destruct Hb as [Hb|Hb]; [left; set_solver|right]. rewrite Hinfo, Hb. unfold stored_info. simpl.
        by rewrite lookup_insert_ne, E1 by done.
Qed.

Lemma fits_mono D D' s : D' ⊆ D → fits C D s → fits C D' s.
Proof. intros HD [H1 H2 H3]. constructor; [done | set_solver | done]. Qed.

(** After the flush every object is stored. *)
Lemma flushAddressInfo_run (balance : gmap bytes Z) s (F : accounts) :
  Rep C (dom balance) s F → ∃ s', flushAddressInfo balance s = (Done tt, s') ∧ Rep C ∅ s' F.
Proof.
  intros [Hf Hcl HA].
  assert (∀ a, a ∈ (text_items balance).*1 ↔ a ∈ dom balance) as Hdom.
  { intros a. rewrite elem_of_dom, list_elem_of_fmap. split.
    - intros ([b d] & -> & Hin). apply elem_of_map_items in Hin. eauto.
    - intros [d Hd]. exists (a, d). split; [done|]. by apply elem_of_map_items. }
  destruct (flush_loop (dom balance) (text_items balance) s Hf) as (s' & Hrun & (U1 & U2 & U3 & U4 & U5) & Hf' & Hst).
  { intros p Hp. apply Hdom. by apply list_elem_of_fmap_2. }
  exists s'. split; [done|]. constructor.
  - eapply fits_mono, Hf'. set_solver.
  - intros a _. apply Hst. destruct (decide (a ∈ dom balance)); [left; by apply Hdom | right; by apply Hcl].
  - intros a. destruct (HA a) as [R1 R2 R3 R4 R5 R6 R7]. constructor; rewrite ?U1, ?U2, ?U3; try done.
    eapply unspent_rep_ext; [..|exact R6]; intros; by rewrite ?U4, ?U5.
Qed.

(** A handler starts from a clean ledger. *)
Lemma Rep_start D s F : Rep C ∅ s F → D ⊆ C → Rep C D s F.
Proof.
  intros [[H1 H2 H3] Hc HA] HD. constructor; [done | intros a _; apply Hc; set_solver | done].
Qed.
End outputs.
