(* ===== verification/ParserTx.v ===== *)
(** * The parser's transaction handlers (src/jiexi/src/Parser.{h,cc}, KVDB.cc
      [getPrevTxOutputs])

    The parser turns the rows of txlogs2 into the key-value store: [acceptTx],
    [confirmTx], [unconfirmTx] and [rejectTx], with everything they call.  What a
    script means (its addresses, its text) is a parameter, declared by the class
    [Scripts]; flatbuffers are records. *)
From S2P Require Import Prelude Tx Bytes Text Serialize TxState Notify Ledger.

(** ** Scripts: [ExtractDestinations] with [CBitcoinAddress::ToString],
    [CScript::ToString] and [GetTxnOutputType] *)
Class Scripts := {
  destinations : bytes → list bytes;
  script_text : bytes → bytes;
  script_type : bytes → bytes }.

(** ** The objects *)

(** fbe::TxInput, fbe::TxOutput, fbe::Tx *)
Record TxInput := {
  ti_script_asm : bytes;
  ti_script_hex : bytes;
  ti_sequence : Z;
  ti_prev_tx_hash : bytes;
  ti_prev_position : Z;
  ti_prev_value : Z;
  ti_prev_addresses : list bytes }.
Record TxOutput := {
  to_addresses : list bytes;
  to_value : Z;
  to_script_asm : bytes;
  to_script_hex : bytes;
  to_script_type : bytes }.
Record TxObject := {
  o_block_height : Z;
  o_block_time : Z;
  o_is_coinbase : bool;
  o_version : Z;
  o_lock_time : Z;
  o_size : Z;
  o_fee : Z;
  o_inputs : list TxInput;
  o_inputs_count : Z;
  o_inputs_value : Z;
  o_outputs : list TxOutput;
  o_outputs_count : Z;
  o_outputs_value : Z;
  o_created_at : Z;
  o_is_double_spend : bool }.

(** fbe::TxSpentBy and fbe::UnconfirmedTx *)
Record TxSpentBy := { sb_position : Z; sb_tx_hash : bytes }.
Record UnconfirmedTx := { un_fee : Z; un_size : Z; un_tx_hash : bytes }.

(** A row of txlogs2 with its transaction. *)
Record TxLog2 := {
  id_ : Z;
  type_ : Z;
  blkHeight_ : Z;
  blkId_ : Z;
  maxBlkTimestamp_ : Z;
  txHex_ : bytes;
  txHash_ : uint256;
  tx_ : CTransaction }.

Definition UNCONFIRM_TX_TIMESTAMP : Z := 1893456000.

(** 01, 02, 03 and the counters under 90 *)
Record tx_tables := {
  kv_tx : gmap uint256 TxObject;
  kv_spent : gmap (uint256 * Z) TxSpentBy;
  kv_unconfirmed : gmap uint256 UnconfirmedTx;
  kv_meta : gmap bytes bytes }.

Definition with_tx (f : gmap uint256 TxObject → gmap uint256 TxObject) (t : tx_tables) : tx_tables :=
  {| kv_tx := f (kv_tx t); kv_spent := kv_spent t; kv_unconfirmed := kv_unconfirmed t; kv_meta := kv_meta t |}.
Definition with_spent (f : gmap (uint256 * Z) TxSpentBy → gmap (uint256 * Z) TxSpentBy)
    (t : tx_tables) : tx_tables :=
  {| kv_tx := kv_tx t; kv_spent := f (kv_spent t); kv_unconfirmed := kv_unconfirmed t; kv_meta := kv_meta t |}.
Definition with_unconfirmed (f : gmap uint256 UnconfirmedTx → gmap uint256 UnconfirmedTx)
    (t : tx_tables) : tx_tables :=
  {| kv_tx := kv_tx t; kv_spent := kv_spent t; kv_unconfirmed := f (kv_unconfirmed t); kv_meta := kv_meta t |}.
Definition with_meta (f : gmap bytes bytes → gmap bytes bytes) (t : tx_tables) : tx_tables :=
  {| kv_tx := kv_tx t; kv_spent := kv_spent t; kv_unconfirmed := kv_unconfirmed t; kv_meta := f (kv_meta t) |}.

(** The handlers' part of class Parser: the address tables, the transaction
    tables, the members that count the unconfirmed pool, the current height and
    the notification log (as items). *)
Record txs_state := {
  led : ledger;
  tables : tx_tables;
  unconfirmedTxsCount_ : Z;
  unconfirmedTxsSize_ : Z;
  currBlockHeight_ : Z;
  notifications : list NotifyItem }.

Definition with_led (l : ledger) (s : txs_state) : txs_state :=
  {| led := l; tables := tables s; unconfirmedTxsCount_ := unconfirmedTxsCount_ s;
     unconfirmedTxsSize_ := unconfirmedTxsSize_ s; currBlockHeight_ := currBlockHeight_ s;
     notifications := notifications s |}.
Definition with_tables (f : tx_tables → tx_tables) (s : txs_state) : txs_state :=
  {| led := led s; tables := f (tables s); unconfirmedTxsCount_ := unconfirmedTxsCount_ s;
     unconfirmedTxsSize_ := unconfirmedTxsSize_ s; currBlockHeight_ := currBlockHeight_ s;
     notifications := notifications s |}.
Definition with_pool (count size : Z) (s : txs_state) : txs_state :=
  {| led := led s; tables := tables s; unconfirmedTxsCount_ := count;
     unconfirmedTxsSize_ := size; currBlockHeight_ := currBlockHeight_ s;
     notifications := notifications s |}.
Definition with_notifications (l : list NotifyItem) (s : txs_state) : txs_state :=
  {| led := led s; tables := tables s; unconfirmedTxsCount_ := unconfirmedTxsCount_ s;
     unconfirmedTxsSize_ := unconfirmedTxsSize_ s; currBlockHeight_ := currBlockHeight_ s;
     notifications := l |}.

(** an operation on the address tables *)
Definition on_led (m : M ledger unit) : M txs_state unit := zoom led with_led m.
Definition setTables (f : tx_tables → tx_tables) : M txs_state unit := modify (with_tables f).

Section handlers.
Context `{Scripts}.

(** ** Helpers *)

(** [KVDB::getPrevTxOutputs]: the outputs the inputs spend, from the stored
    objects of the transactions they belong to *)
Definition prevTxOutputs (t : tx_tables) (tx : CTransaction) : option (list TxOutput) :=
  if IsCoinBase tx then Some []
  else mapM (λ i, o ← kv_tx t !! hash (prevout i); o_outputs o !! Z.to_nat (n (prevout i))) (vin tx).
Definition getPrevTxOutputs (tx : CTransaction) : M txs_state (list TxOutput) :=
  s ← get; kv_read (prevTxOutputs (tables s) tx).

(** the local [addressBalance], a [std::map<string, int64_t>] *)
Definition add_balance (m : gmap bytes Z) (p : bytes * Z) : gmap bytes Z :=
  <[p.1 := i64 (default 0 (m !! p.1) + p.2)]> m.
Definition input_parts (prev : list TxOutput) : list (bytes * Z) :=
  flat_map (λ o, (λ a, (a, i64 (to_value o * -1))) <$> to_addresses o) prev.
Definition output_parts (tx : CTransaction) : list (bytes * Z) :=
  flat_map (λ o, (λ a, (a, nValue o)) <$> destinations (scriptPubKey o)) (vout tx).
Definition addressBalance (prev : list TxOutput) (tx : CTransaction) : gmap bytes Z :=
  foldl add_balance ∅ (input_parts prev ++ output_parts tx).

(** [Parser::getTxAddressBalance] *)
Definition getTxAddressBalance (tx : CTransaction) : M txs_state (gmap bytes Z) :=
  prev ← getPrevTxOutputs tx; mret (addressBalance prev tx).

Definition hex_size (hex : bytes) : Z := Z.of_nat (length hex) / 2.

Definition count_key : bytes := "90_tparser_unconfirmed_txs_count".
Definition size_key : bytes := "90_tparser_unconfirmed_txs_size".

Definition storePool : M txs_state unit :=
  s ← get;
  setTables (with_meta (<[count_key := fmt_d (unconfirmedTxsCount_ s)]>)) ;;
  setTables (with_meta (<[size_key := fmt_d (unconfirmedTxsSize_ s)]>)).
Definition addUnconfirmedTxPool (t : TxLog2) : M txs_state unit :=
  modify (λ s, with_pool (i32 (unconfirmedTxsCount_ s + 1))
    (i64 (unconfirmedTxsSize_ s + hex_size (txHex_ t))) s) ;;
  storePool.
Definition removeUnconfirmedTxPool (t : TxLog2) : M txs_state unit :=
  modify (λ s, with_pool (i32 (unconfirmedTxsCount_ s - 1))
    (i64 (unconfirmedTxsSize_ s - hex_size (txHex_ t))) s) ;;
  storePool.

(** [Parser::init]: the counters of the last run *)
Definition init_counters (t : tx_tables) : Z * Z :=
  let value key := default [] (kv_meta t !! key) in
  (match value count_key with [] => 0 | v => atoi v end,
   match value size_key with [] => 0 | v => atoi64 v end).

(** [notifyBeginHeight_] is fixed at the start; [notifyProducer_] is never null
    while the parser runs. *)
Definition isWriteNotificationLogs (begin : Z) (s : txs_state) : bool :=
  negb (negb (currBlockHeight_ s =? -1) && negb (begin =? -1) && (currBlockHeight_ s <? begin)).
Definition event_type (type : Z) : Z :=
  if type =? LOG2TYPE_TX_ACCEPT then NOTIFY_EVENT_TX_ACCEPT
  else if type =? LOG2TYPE_TX_CONFIRM then NOTIFY_EVENT_TX_CONFIRM
  else if type =? LOG2TYPE_TX_UNCONFIRM then NOTIFY_EVENT_TX_UNCONFIRM
  else if type =? LOG2TYPE_TX_REJECT then NOTIFY_EVENT_TX_REJECT
  else 0.
Definition writeNotificationLogs (begin now : Z) (balance : gmap bytes Z) (t : TxLog2) :
    M txs_state unit :=
  s ← get;
  if isWriteNotificationLogs begin s then
    modify (λ s, with_notifications (notifications s ++
      ((λ p, loadtx now (event_type (type_ t)) p.1 (txHash_ t) (blkHeight_ t) p.2) <$>
         text_items balance)) s)
  else mret tt.

(** ** [acceptTx] *)

Definition make_input (coinbase : bool) (i : CTxIn) (o : option TxOutput) : TxInput :=
  if coinbase then
    {| ti_script_asm := []; ti_script_hex := HexStr (scriptSig i); ti_sequence := nSequence i;
       ti_prev_tx_hash := ToString 0; ti_prev_position := -1; ti_prev_value := 0;
       ti_prev_addresses := [] |}
  else
    {| ti_script_asm := script_text (scriptSig i); ti_script_hex := HexStr (scriptSig i);
       ti_sequence := nSequence i; ti_prev_tx_hash := ToString (hash (prevout i));
       ti_prev_position := i32 (n (prevout i));
       ti_prev_value := default 0 (to_value <$> o);
       ti_prev_addresses := default [] (to_addresses <$> o) |}.
Definition make_output (o : CTxOut) : TxOutput :=
  let asm := script_text (scriptPubKey o) in
  {| to_addresses := destinations (scriptPubKey o); to_value := nValue o;
     to_script_asm := if 2 * 1024 * 1024 <? Z.of_nat (length asm) then [] else asm;
     to_script_hex := HexStr (scriptPubKey o); to_script_type := script_type (scriptPubKey o) |}.

(** the sum of the inputs *)
Definition value_in (prev : list TxOutput) : Z := foldl (λ v o, i64 (v + to_value o)) 0 prev.

Definition make_object (now : Z) (t : TxLog2) (prev : list TxOutput) (valueOut fee : Z) : TxObject :=
  let tx := tx_ t in
  {| o_block_height := -1; o_block_time := 0; o_is_coinbase := IsCoinBase tx;
     o_version := nVersion tx; o_lock_time := nLockTime tx; o_size := i32 (hex_size (txHex_ t));
     o_fee := fee;
     o_inputs := imap (λ k i, make_input (IsCoinBase tx) i (prev !! k)) (vin tx);
     o_inputs_count := i32 (Z.of_nat (length (vin tx))); o_inputs_value := value_in prev;
     o_outputs := make_output <$> vout tx;
     o_outputs_count := i32 (Z.of_nat (length (vout tx))); o_outputs_value := valueOut;
     o_created_at := u32 now; o_is_double_spend := false |}.

(** the calls of [_acceptTx_insertAddressUnspent] in the loop over the outputs *)
Definition insertOutputs (h : uint256) (tx : CTransaction) : M ledger unit :=
  forM (imap pair (vout tx)) (λ p,
    forM (imap pair (destinations (scriptPubKey p.2))) (λ q,
      insertAddressUnspent (nValue p.2) q.2 h (i32 (Z.of_nat p.1)) (wrapS 16 (Z.of_nat q.1)))).

(** [_acceptTx_removeUnspentOutputs] *)
Definition removeUnspentOutputs (tx : CTransaction) (prev : list TxOutput) : M ledger unit :=
  assertM (Nat.eqb (length prev) (length (vin tx))) ;;
  forM (zip (vin tx) prev) (λ p,
    forM (to_addresses p.2) (λ a, spendUnspent a (hash (prevout p.1)) (i32 (n (prevout p.1))))).

(** [_acceptTx_insertSpendTxs] *)
Definition spent_entry (h : uint256) (p : nat * CTxIn) (t : tx_tables) : tx_tables :=
  with_spent (<[(hash (prevout p.2), i32 (n (prevout p.2))) :=
    {| sb_position := i32 (Z.of_nat p.1); sb_tx_hash := ToString h |}]>) t.
Definition insertSpendTxs (h : uint256) (tx : CTransaction) : M txs_state unit :=
  forM (imap pair (vin tx)) (λ p, setTables (spent_entry h p)).

(** The two transactions that appear in two blocks each. *)
Definition is_duplicate (t : TxLog2) : bool :=
  ((blkHeight_ t =? 91842) && (txHash_ t =?
     SetHex "d5d27987d2a3dfc724e359870c6644b40e497bdc0589a033220fe15429d88599")) ||
  ((blkHeight_ t =? 91880) && (txHash_ t =?
     SetHex "e3bf3d07d4b0375638d5f1db5255fe07ba2c4cb067cd81b84ee974b6585fb468")).

Definition accept_fee (tx : CTransaction) (prev : list TxOutput) (valueOut : Z) : Z :=
  if IsCoinBase tx then valueOut else i64 (value_in prev - valueOut).
Definition unconfirmed_entry (t : TxLog2) (fee : Z) : UnconfirmedTx :=
  {| un_fee := fee; un_size := i32 (hex_size (txHex_ t)); un_tx_hash := ToString (txHash_ t) |}.

Definition acceptTx (begin now : Z) (t : TxLog2) : M txs_state unit :=
  let tx := tx_ t in
  assertM (blkHeight_ t =? -1) ;;
  if is_duplicate t then mret tt
  else
    prev ← getPrevTxOutputs tx;
    let balance := addressBalance prev tx in
    on_led (insertOutputs (txHash_ t) tx) ;;
    valueOut ← lift_outcome (GetValueOut tx);
    let fee := accept_fee tx prev valueOut in
    setTables (with_tx (<[txHash_ t := make_object now t prev valueOut fee]>)) ;;
    (if IsCoinBase tx then mret tt
     else on_led (removeUnspentOutputs tx prev) ;; insertSpendTxs (txHash_ t) tx) ;;
    on_led (insertAddressTxs (ToString (txHash_ t)) (maxBlkTimestamp_ t) balance) ;;
    setTables (with_unconfirmed (<[txHash_ t := unconfirmed_entry t fee]>)) ;;
    on_led (flushAddressInfo balance) ;;
    addUnconfirmedTxPool t ;;
    writeNotificationLogs begin now balance t.

(** ** [confirmTx] *)

(** [GetBlockValue] with the fees of the call, 0; [interval] is the halving
    interval of the network. *)
Definition GetBlockValue (interval height : Z) : Z :=
  let halvings := Z.quot height interval in
  if 64 <=? halvings then 0 else Z.shiftr (50 * COIN) halvings.

Definition set_fee (fee : Z) (o : TxObject) : TxObject :=
  {| o_block_height := o_block_height o; o_block_time := o_block_time o;
     o_is_coinbase := o_is_coinbase o; o_version := o_version o; o_lock_time := o_lock_time o;
     o_size := o_size o; o_fee := fee; o_inputs := o_inputs o; o_inputs_count := o_inputs_count o;
     o_inputs_value := o_inputs_value o; o_outputs := o_outputs o;
     o_outputs_count := o_outputs_count o; o_outputs_value := o_outputs_value o;
     o_created_at := o_created_at o; o_is_double_spend := o_is_double_spend o |}.
Definition set_block (height time : Z) (o : TxObject) : TxObject :=
  {| o_block_height := height; o_block_time := time;
     o_is_coinbase := o_is_coinbase o; o_version := o_version o; o_lock_time := o_lock_time o;
     o_size := o_size o; o_fee := o_fee o; o_inputs := o_inputs o; o_inputs_count := o_inputs_count o;
     o_inputs_value := o_inputs_value o; o_outputs := o_outputs o;
     o_outputs_count := o_outputs_count o; o_outputs_value := o_outputs_value o;
     o_created_at := o_created_at o; o_is_double_spend := o_is_double_spend o |}.
Definition set_double_spend (b : bool) (o : TxObject) : TxObject :=
  {| o_block_height := o_block_height o; o_block_time := o_block_time o;
     o_is_coinbase := o_is_coinbase o; o_version := o_version o; o_lock_time := o_lock_time o;
     o_size := o_size o; o_fee := o_fee o; o_inputs := o_inputs o; o_inputs_count := o_inputs_count o;
     o_inputs_value := o_inputs_value o; o_outputs := o_outputs o;
     o_outputs_count := o_outputs_count o; o_outputs_value := o_outputs_value o;
     o_created_at := o_created_at o; o_is_double_spend := b |}.

(** read an object, change it, write it back *)
Definition updateObject (h : uint256) (f : TxObject → outcome TxObject) : M txs_state TxObject :=
  s ← get;
  o ← kv_get (kv_tx (tables s) !! h);
  o ← lift_outcome (f o);
  setTables (with_tx (<[h := o]>)) ;;
  mret o.

Definition confirm_object (interval : Z) (t : TxLog2) (o : TxObject) : outcome TxObject :=
  o ← (if IsCoinBase (tx_ t)
       then v ← GetValueOut (tx_ t); Done (set_fee (i64 (v - GetBlockValue interval (blkHeight_ t))) o)
       else Done o);
  Done (set_block (blkHeight_ t) (maxBlkTimestamp_ t) o).

Definition confirmTx (begin interval now : Z) (t : TxLog2) : M txs_state unit :=
  balance ← getTxAddressBalance (tx_ t);
  on_led (confirmAddressTxs (ToString (txHash_ t)) (maxBlkTimestamp_ t) (blkHeight_ t) balance) ;;
  updateObject (txHash_ t) (confirm_object interval t) ;;
  setTables (with_unconfirmed (delete (txHash_ t))) ;;
  on_led (flushAddressInfo balance) ;;
  removeUnconfirmedTxPool t ;;
  writeNotificationLogs begin now balance t.

(** ** [unconfirmTx] *)

Definition unconfirmTx (begin now : Z) (t : TxLog2) : M txs_state unit :=
  balance ← getTxAddressBalance (tx_ t);
  on_led (unconfirmAddressTxs (ToString (txHash_ t)) balance) ;;
  o ← updateObject (txHash_ t) (λ o, Done (set_block (-1) 0 o));
  setTables (with_unconfirmed (<[txHash_ t :=
    {| un_fee := o_fee o; un_size := o_size o; un_tx_hash := ToString (txHash_ t) |}]>)) ;;
  on_led (flushAddressInfo balance) ;;
  addUnconfirmedTxPool t ;;
  writeNotificationLogs begin now balance t.

(** ** [rejectTx] *)

(** an input: its spent-by record goes, the output it spent is unspent again *)
Definition releaseInput (p : CTxIn * TxOutput) : M txs_state unit :=
  let h := hash (prevout p.1) in
  let pos := i32 (n (prevout p.1)) in
  setTables (with_spent (delete (h, pos))) ;;
  on_led (forM (imap pair (to_addresses p.2)) (λ q,
    insertAddressUnspent (to_value p.2) q.2 h pos (i32 (Z.of_nat q.1)))).

Definition revokeOutputs (h : uint256) (tx : CTransaction) : M ledger unit :=
  forM (imap pair (vout tx)) (λ p,
    forM (destinations (scriptPubKey p.2)) (λ a, deleteUnspent a h (i32 (Z.of_nat p.1)))).

Definition rejectTx (varargs : bytes → option bytes) (begin now : Z) (t : TxLog2) : M txs_state unit :=
  let tx := tx_ t in
  prev ← getPrevTxOutputs tx;
  let balance := addressBalance prev tx in
  (if IsCoinBase tx then mret tt else forM (zip (vin tx) prev) releaseInput) ;;
  on_led (revokeOutputs (txHash_ t) tx) ;;
  updateObject (txHash_ t) (λ o, Done (set_double_spend true o)) ;;
  setTables (with_unconfirmed (delete (txHash_ t))) ;;
  on_led (rejectAddressTxs varargs (ToString (txHash_ t)) balance) ;;
  on_led (flushAddressInfo balance) ;;
  removeUnconfirmedTxPool t ;;
  writeNotificationLogs begin now balance t.

(** ** The transaction's part of a row ([Parser::threadHandleTxlogs]); another
    type is only logged *)
Definition handleTx (varargs : bytes → option bytes) (begin interval now : Z) (t : TxLog2) : M txs_state unit :=
  if type_ t =? LOG2TYPE_TX_ACCEPT then acceptTx begin now t
  else if type_ t =? LOG2TYPE_TX_CONFIRM then confirmTx begin interval now t
  else if type_ t =? LOG2TYPE_TX_UNCONFIRM then unconfirmTx begin now t
  else if type_ t =? LOG2TYPE_TX_REJECT then rejectTx varargs begin now t
  else mret tt.

(** A new process: the members are fresh, the address cache is empty, the
    counters come from the store ([Parser::Parser], [Parser::init]). *)
Definition restart (s : txs_state) : txs_state :=
  {| led := with_cache ∅ 0 (led s); tables := tables s;
     unconfirmedTxsCount_ := (init_counters (tables s)).1;
     unconfirmedTxsSize_ := (init_counters (tables s)).2;
     currBlockHeight_ := -1; notifications := notifications s |}.
End handlers.
