(* ===== verification/ParserRefine.v ===== *)
(** * The transaction handlers implement their effect on the accounts

    What each handler does to the accounts of the addresses ([accept_accounts],
    [confirm_accounts], [unconfirm_accounts], [reject_accounts]), to the
    transaction tables and to the pool counters; and that the handler run on the
    tables does just that. *)
From S2P Require Import Prelude Tx Bytes Text Serialize TxState Notify Ledger LedgerSpec LedgerRefine ParserTx.

Section spec.
Context `{Scripts}.

(** the outputs of a transaction by address: position, place in the output,
    value *)
Definition out_list (tx : CTransaction) : list (bytes * (Z * Z * Z)) :=
  flat_map (λ p, (λ q : nat * bytes,
      (q.2, (i32 (Z.of_nat p.1), wrapS 16 (Z.of_nat q.1), nValue p.2))) <$>
    imap pair (destinations (scriptPubKey p.2))) (imap (@pair nat CTxOut) (vout tx)).
(** the outputs its inputs spend, by address *)
Definition spend_list (tx : CTransaction) (prev : list TxOutput) : list (bytes * (uint256 * Z * Z)) :=
  flat_map (λ p, (λ a, (a, (hash (prevout p.1), i32 (n (prevout p.1)), to_value p.2))) <$> to_addresses p.2)
    (zip (vin tx) prev).
(** the same, when they are unspent again *)
Definition release_list (tx : CTransaction) (prev : list TxOutput) :
    list (bytes * (uint256 * Z * Z * Z)) :=
  flat_map (λ p, (λ q : nat * bytes, (q.2, (hash (prevout p.1), i32 (n (prevout p.1)),
      i32 (Z.of_nat q.1), to_value p.2))) <$> imap pair (to_addresses p.2)) (zip (vin tx) prev).
Definition revoke_list (tx : CTransaction) : list (bytes * (Z * Z)) :=
  flat_map (λ p, (λ a, (a, (i32 (Z.of_nat p.1), nValue p.2))) <$> destinations (scriptPubKey p.2))
    (imap (@pair nat CTxOut) (vout tx)).

Definition accept_accounts (t : TxLog2) (prev : list TxOutput) (F : accounts) : option accounts :=
  F ← on_accounts (out_list (tx_ t)) (λ '(p, p2, v), acc_receive (txHash_ t) p p2 v) F;
  F ← on_accounts (spend_list (tx_ t) prev) (λ '(h, p, v), acc_spend h p v) F;
  on_accounts (text_items (addressBalance prev (tx_ t)))
    (acc_accept (ToString (txHash_ t)) (maxBlkTimestamp_ t)) F.
Definition confirm_accounts (t : TxLog2) (prev : list TxOutput) : accounts → option accounts :=
  on_accounts (text_items (addressBalance prev (tx_ t)))
    (λ _, acc_confirm (ToString (txHash_ t)) (maxBlkTimestamp_ t) (blkHeight_ t)).
Definition unconfirm_accounts (t : TxLog2) (prev : list TxOutput) : accounts → option accounts :=
  on_accounts (text_items (addressBalance prev (tx_ t))) (λ _, acc_unconfirm (ToString (txHash_ t))).
Definition reject_accounts (k : bytes) (t : TxLog2) (prev : list TxOutput) (F : accounts) :
    option accounts :=
  F ← on_accounts (release_list (tx_ t) prev) (λ '(h, p, p2, v), acc_receive h p p2 v) F;
  F ← on_accounts (revoke_list (tx_ t)) (λ '(p, v), acc_revoke (txHash_ t) p v) F;
  on_accounts (text_items (addressBalance prev (tx_ t)))
    (acc_reject k (ToString (txHash_ t))) F.

(** The counters of the pool are stored with every change. *)
Definition store_pool (count size : Z) (T : tx_tables) : tx_tables :=
  with_meta (<[size_key := fmt_d size]>) (with_meta (<[count_key := fmt_d count]>) T).
Definition spent_entries (t : TxLog2) (T : tx_tables) : tx_tables :=
  if IsCoinBase (tx_ t) then T
  else foldl (λ T p, spent_entry (txHash_ t) p T) T (imap pair (vin (tx_ t))).
Definition released (t : TxLog2) (prev : list TxOutput) (T : tx_tables) : tx_tables :=
  if IsCoinBase (tx_ t) then T
  else foldl (λ T p, with_spent (delete (hash (prevout p.1), i32 (n (prevout p.1)))) T) T
         (zip (vin (tx_ t)) prev).

Definition notes (begin now : Z) (balance : gmap bytes Z) (t : TxLog2) (s : txs_state) : list NotifyItem :=
  if isWriteNotificationLogs begin s
  then (λ p, loadtx now (event_type (type_ t)) p.1 (txHash_ t) (blkHeight_ t) p.2) <$> text_items balance
  else [].
End spec.

Section runs.
Context `{Scripts} (C : gset bytes).
Implicit Types (s : txs_state) (t : TxLog2) (F : accounts) (prev : list TxOutput) (D : gset bytes).

(** ** The addresses of a transaction *)

Lemma dom_add_balances (l : list (bytes * Z)) m a :
  a ∈ dom (foldl add_balance m l) ↔ a ∈ dom m ∨ a ∈ l.*1.
Proof.
  revert m. induction l as [|[b v] l IH]; intros m; csimpl.
  - rewrite elem_of_nil. tauto.
  - rewrite IH. unfold add_balance. simpl. rewrite dom_insert, elem_of_union, elem_of_singleton, elem_of_cons.
    tauto.
Qed.

Lemma dom_addressBalance prev tx a :
  a ∈ dom (addressBalance prev tx) ↔ a ∈ (input_parts prev).*1 ∨ a ∈ (output_parts tx).*1.
Proof.
  unfold addressBalance. rewrite dom_add_balances, fmap_app, elem_of_app, dom_empty, elem_of_empty. tauto.
Qed.

Lemma output_address prev tx o a :
  o ∈ vout tx → a ∈ destinations (scriptPubKey o) → a ∈ dom (addressBalance prev tx).
Proof.
  intros Ho Ha. apply dom_addressBalance. right. apply list_elem_of_fmap. exists (a, nValue o).
  split; [done|]. apply list_elem_of_In, in_flat_map. exists o.
  split; [by apply list_elem_of_In|]. apply list_elem_of_In, list_elem_of_fmap. eauto.
Qed.

Lemma input_address prev tx o a :
  o ∈ prev → a ∈ to_addresses o → a ∈ dom (addressBalance prev tx).
Proof.
  intros Ho Ha. apply dom_addressBalance. left. apply list_elem_of_fmap.
  exists (a, i64 (to_value o * -1)). split; [done|].
  apply list_elem_of_In, in_flat_map. exists o.
  split; [by apply list_elem_of_In|]. apply list_elem_of_In, list_elem_of_fmap. eauto.
Qed.

Lemma elem_of_imap_pair {A} (l : list A) k (x : A) : (k, x) ∈ imap pair l → x ∈ l.
Proof.
  intros Hin. apply list_elem_of_lookup in Hin as (i & Hi). rewrite list_lookup_imap in Hi.
  apply fmap_Some in Hi as (y & Hy & [= _ ->]). by eapply list_elem_of_lookup_2.
Qed.

Lemma elem_of_zip_both {A B} (l : list A) (k : list B) x y : (x, y) ∈ zip l k → x ∈ l ∧ y ∈ k.
Proof. intros Hin. split; [by eapply elem_of_zip_l | by eapply elem_of_zip_r]. Qed.

(** ** Nested loops over outputs and addresses *)

Lemma forM_flat_map {S A B} (l : list A) (g : A → list B) (f : B → M S unit) (s : S) :
  forM l (λ x, forM (g x) f) s = forM (flat_map g l) f s.
Proof.
  revert s. induction l as [|x l IH]; intros s; [done|]. cbn [forM flat_map].
  rewrite forM_app. unfold mbind, M_bind. destruct (forM (g x) f s) as [[[]|e] s']; [apply IH|done].
Qed.

Lemma forM_fmap {S A B} (l : list A) (g : A → B) (f : B → M S unit) (s : S) :
  forM (g <$> l) f s = forM l (λ x, f (g x)) s.
Proof.
  revert s. induction l as [|x l IH]; intros s; [done|]. cbn [forM fmap list_fmap].
  unfold mbind, M_bind. destruct (f (g x) s) as [[[]|e] s']; [apply IH|done].
Qed.

Lemma forM_ext {S A} (l : list A) (f g : A → M S unit) (s : S) :
  (∀ x (s : S), f x s = g x s) → forM l f s = forM l g s.
Proof.
  intros Hfg. revert s. induction l as [|x l IH]; intros s; [done|]. cbn [forM].
  unfold mbind, M_bind. rewrite Hfg. destruct (g x s) as [[[]|e] s']; [apply IH|done].
Qed.

(** a loop of loops as the loop over the flattened list *)
Lemma forM_nested {S A B E} (l : list A) (g : A → list B) (k : A → B → E) (f : E → M S unit) (s : S) :
  forM l (λ x, forM (g x) (λ y, f (k x y))) s = forM (flat_map (λ x, k x <$> g x) l) f s.
Proof.
  rewrite <-forM_flat_map. apply forM_ext. intros x s'. by rewrite forM_fmap.
Qed.

Lemma insertOutputs_sim D (h : uint256) prev tx :
  dom (addressBalance prev tx) ⊆ D →
  sim C D (insertOutputs h tx) (on_accounts (out_list tx) (λ '(p, p2, v), acc_receive h p p2 v)).
Proof.
  intros HD.
  eapply (sim_ext C _ (forM (out_list tx) (λ e, insertAddressUnspent e.2.2 e.1 h e.2.1.1 e.2.1.2))); [| done |].
  - intros s. unfold insertOutputs, out_list. symmetry.
    apply (forM_nested _ (λ p, imap pair (destinations (scriptPubKey p.2))) (λ p (q : nat * bytes),
      (q.2, (i32 (Z.of_nat p.1), wrapS 16 (Z.of_nat q.1), nValue p.2)))
      (λ e, insertAddressUnspent e.2.2 e.1 h e.2.1.1 e.2.1.2)).
  - apply sim_accounts. intros a [[p p2] v] Hin. apply insertAddressUnspent_sim. apply HD.
    apply list_elem_of_In, in_flat_map in Hin as ([k o] & Ho & Hin). apply list_elem_of_In in Ho, Hin.
    apply list_elem_of_fmap in Hin as ([j b] & [= -> _ _ _] & Hin).
    eapply output_address; eauto using elem_of_imap_pair.
Qed.

Lemma revokeOutputs_sim D (h : uint256) prev tx :
  dom (addressBalance prev tx) ⊆ D →
  sim C D (revokeOutputs h tx) (on_accounts (revoke_list tx) (λ '(p, v), acc_revoke h p v)).
Proof.
  intros HD. eapply (sim_ext C _ (forM (revoke_list tx) (λ e, deleteUnspent e.1 h e.2.1))); [| done |].
  - intros s. unfold revokeOutputs, revoke_list. symmetry.
    apply (forM_nested _ (λ p, destinations (scriptPubKey p.2)) (λ p a, (a, (i32 (Z.of_nat p.1), nValue p.2)))
      (λ e, deleteUnspent e.1 h e.2.1)).
  - apply sim_accounts. intros a [p v] Hin. apply deleteUnspent_sim. apply HD.
    apply list_elem_of_In, in_flat_map in Hin as ([k o] & Ho & Hin). apply list_elem_of_In in Ho, Hin.
    apply list_elem_of_fmap in Hin as (b & [= -> _ _] & Hin).
    eapply output_address; eauto using elem_of_imap_pair.
Qed.

Lemma removeUnspentOutputs_sim D prev tx :
  dom (addressBalance prev tx) ⊆ D → length prev = length (vin tx) →
  sim C D (removeUnspentOutputs tx prev) (on_accounts (spend_list tx prev) (λ '(h, p, v), acc_spend h p v)).
Proof.
  intros HD Hlen. eapply (sim_ext C _ (forM (spend_list tx prev) (λ e, spendUnspent e.1 e.2.1.1 e.2.1.2))); [| done |].
  - intros s. unfold removeUnspentOutputs, spend_list.
    rewrite (bind_Done (assertM _) _ s tt s) by (apply assertM_true, Nat.eqb_eq, Hlen). symmetry.
    apply (forM_nested _ (λ p, to_addresses p.2) (λ p a, (a, (hash (prevout p.1), i32 (n (prevout p.1)), to_value p.2)))
      (λ e, spendUnspent e.1 e.2.1.1 e.2.1.2)).
  - apply sim_accounts. intros a [[h p] v] Hin. apply spendUnspent_sim. apply HD.
    apply list_elem_of_In, in_flat_map in Hin as ([i o] & Ho & Hin). apply list_elem_of_In in Ho, Hin.
    apply list_elem_of_fmap in Hin as (b & [= -> _ _ _] & Hin).
    eapply input_address; [by eapply elem_of_zip_both|done].
Qed.

(** ** Pieces of the handlers *)

Lemma on_led_run D m g s F F' :
  sim C D m g → Rep C D (led s) F → g F = Some F' →
  ∃ l, on_led m s = (Done tt, with_led l s) ∧ Rep C D l F'.
Proof.
  intros Hsim HR HF. destruct (Hsim _ _ _ HR HF) as (l & Hrun & HR').
  exists l. split; [|done]. by apply zoom_Done.
Qed.

Lemma forM_setTables {A} (l : list A) (f : A → tx_tables → tx_tables) s :
  forM l (λ x, setTables (f x)) s = (Done tt, with_tables (λ T, foldl (λ T x, f x T) T l) s).
Proof.
  revert s. induction l as [|x l IH]; intros s; [by destruct s|]. cbn [forM].
  rewrite (bind_Done (setTables (f x)) _ s tt (with_tables (f x) s) eq_refl). by rewrite IH.
Qed.

Definition counted (count size : Z) s : txs_state :=
  with_pool count size (with_tables (store_pool count size) s).

Lemma addUnconfirmedTxPool_run t s :
  addUnconfirmedTxPool t s =
    (Done tt, counted (i32 (unconfirmedTxsCount_ s + 1)) (i64 (unconfirmedTxsSize_ s + hex_size (txHex_ t))) s).
Proof. reflexivity. Qed.

Lemma removeUnconfirmedTxPool_run t s :
  removeUnconfirmedTxPool t s =
    (Done tt, counted (i32 (unconfirmedTxsCount_ s - 1)) (i64 (unconfirmedTxsSize_ s - hex_size (txHex_ t))) s).
Proof. reflexivity. Qed.

Definition noted (begin now : Z) (balance : gmap bytes Z) t s : txs_state :=
  with_notifications (notifications s ++ notes begin now balance t s) s.

Lemma writeNotificationLogs_run begin now balance t s :
  writeNotificationLogs begin now balance t s = (Done tt, noted begin now balance t s).
Proof.
  unfold writeNotificationLogs, noted, notes. rewrite (bind_Done get _ s s s eq_refl).
  destruct (isWriteNotificationLogs begin s); [done|]. rewrite app_nil_r. by destruct s.
Qed.

(** The end of every handler: the flush, the counters, the notifications. *)
Lemma handler_end_run (pool : M txs_state unit) count size begin now balance t s F :
  (∀ l, pool (with_led l s) = (Done tt, counted count size (with_led l s))) →
  Rep C (dom balance) (led s) F → ∃ l,
  (on_led (flushAddressInfo balance) ;; pool ;; writeNotificationLogs begin now balance t) s =
    (Done tt, noted begin now balance t (counted count size (with_led l s))) ∧ Rep C ∅ l F.
Proof.
  intros Hpool HR. destruct (flushAddressInfo_run C balance (led s) F HR) as (l & Hrun & HR').
  exists l. split; [|done]. unfold on_led.
  rewrite (bind_Done _ _ _ _ _ (zoom_Done led with_led _ s _ _ Hrun)).
  rewrite (bind_Done _ _ _ _ _ (Hpool l)). apply writeNotificationLogs_run.
Qed.

Lemma getPrevTxOutputs_run tx prev s :
  prevTxOutputs (tables s) tx = Some prev → getPrevTxOutputs tx s = (Done prev, s).
Proof. intros E. unfold getPrevTxOutputs, mbind, M_bind, get. by rewrite E. Qed.

Lemma getTxAddressBalance_run tx prev s :
  prevTxOutputs (tables s) tx = Some prev →
  getTxAddressBalance tx s = (Done (addressBalance prev tx), s).
Proof. intros E. unfold getTxAddressBalance. by rewrite (bind_Done _ _ _ _ _ (getPrevTxOutputs_run tx prev s E)). Qed.

Lemma prevTxOutputs_length T tx prev :
  prevTxOutputs T tx = Some prev → IsCoinBase tx = false → length prev = length (vin tx).
Proof.
  unfold prevTxOutputs. intros E Hc. rewrite Hc in E. apply mapM_Some in E. symmetry.
  by eapply Forall2_length.
Qed.

Lemma prev_coinbase T tx prev : prevTxOutputs T tx = Some prev → IsCoinBase tx = true → prev = [].
Proof. unfold prevTxOutputs. intros E Hc. rewrite Hc in E. by injection E as <-. Qed.

Lemma zip_nil_r {A B} (l : list A) : zip l ([] : list B) = [].
Proof. by destruct l. Qed.

Lemma updateObject_run h f o o' s :
  kv_tx (tables s) !! h = Some o → f o = Done o' →
  updateObject h f s = (Done o', with_tables (with_tx (<[h := o']>)) s).
Proof. intros E Hf. unfold updateObject, mbind, M_bind, get. rewrite E. simpl. unfold lift_outcome. by rewrite Hf. Qed.

(** ** The handlers *)

Lemma acceptTx_run begin now t s F F' prev valueOut :
  let balance := addressBalance prev (tx_ t) in
  let fee := accept_fee (tx_ t) prev valueOut in
  Rep C ∅ (led s) F → dom balance ⊆ C → blkHeight_ t = -1 →
  prevTxOutputs (tables s) (tx_ t) = Some prev → GetValueOut (tx_ t) = Done valueOut →
  accept_accounts t prev F = Some F' →
  ∃ l, acceptTx begin now t s = (Done tt, noted begin now balance t
      (counted (i32 (unconfirmedTxsCount_ s + 1)) (i64 (unconfirmedTxsSize_ s + hex_size (txHex_ t)))
        (with_led l (with_tables (λ T, with_unconfirmed (<[txHash_ t := unconfirmed_entry t fee]>)
          (spent_entries t (with_tx (<[txHash_ t := make_object now t prev valueOut fee]>) T))) s)))) ∧
    Rep C ∅ l F'.
Proof.
  intros balance fee HR Hfit Hh Hprev Hval HF.
  apply (Rep_start C (dom balance)) in HR; [|done].
  unfold accept_accounts in HF.
  apply bind_Some in HF as (F1 & HF1 & HF). apply bind_Some in HF as (F2 & HF2 & HF3).
  unfold acceptTx. rewrite Hh.
  rewrite (bind_Done (assertM (-1 =? -1)) _ s tt s eq_refl).
  assert (is_duplicate t = false) as -> by (unfold is_duplicate; by rewrite Hh).
  rewrite (bind_Done _ _ _ _ _ (getPrevTxOutputs_run _ _ _ Hprev)).
  fold balance.
  destruct (on_led_run _ _ _ s _ _ (insertOutputs_sim (dom balance) (txHash_ t) prev (tx_ t) (reflexivity _)) HR HF1)
    as (l1 & Hrun1 & HR1).
  rewrite (bind_Done _ _ _ _ _ Hrun1). rewrite Hval.
  rewrite (bind_Done (lift_outcome _) _ (with_led l1 s) valueOut (with_led l1 s) eq_refl).
  fold fee. rewrite (bind_Done (setTables _) _ (with_led l1 s) tt _ eq_refl).
  set (s1 := with_tables _ (with_led l1 s)).
  assert (∃ l2, (if IsCoinBase (tx_ t) then mret tt
     else on_led (removeUnspentOutputs (tx_ t) prev) ;; insertSpendTxs (txHash_ t) (tx_ t)) s1 =
     (Done tt, with_led l2 (with_tables (spent_entries t) s1)) ∧ Rep C (dom balance) l2 F2) as (l2 & Hrun2 & HR2).
  { unfold spent_entries. destruct (IsCoinBase (tx_ t)) eqn:Ecb.
    - exists l1. split; [done|]. apply prev_coinbase in Hprev; [|done]. subst prev.
      unfold spend_list in HF2. rewrite zip_nil_r in HF2. by injection HF2 as <-.
    - destruct (on_led_run _ _ _ s1 _ _ (removeUnspentOutputs_sim (dom balance) prev (tx_ t) (reflexivity _)
        (prevTxOutputs_length _ _ _ Hprev Ecb)) HR1 HF2) as (l2 & Hrun2 & HR2).
      exists l2. split; [|done]. rewrite (bind_Done _ _ _ _ _ Hrun2).
      unfold insertSpendTxs. by rewrite forM_setTables. }
  rewrite (bind_Done _ _ _ _ _ Hrun2). set (s2 := with_led l2 _).
  destruct (on_led_run _ _ _ s2 _ _ (insertAddressTxs_sim C (dom balance) (ToString (txHash_ t))
    (maxBlkTimestamp_ t) balance (reflexivity _)) HR2 HF3) as (l3 & Hrun3 & HR3).
  rewrite (bind_Done _ _ _ _ _ Hrun3).
  rewrite (bind_Done (setTables _) _ (with_led l3 s2) tt _ eq_refl).
  destruct (handler_end_run (addUnconfirmedTxPool t) (i32 (unconfirmedTxsCount_ s + 1))
    (i64 (unconfirmedTxsSize_ s + hex_size (txHex_ t))) begin now balance t
    (with_tables (with_unconfirmed (<[txHash_ t := unconfirmed_entry t fee]>)) (with_led l3 s2)) F' (λ l, eq_refl) HR3)
    as (l4 & Hrun4 & HR4).
  exists l4. split; [|done]. rewrite Hrun4. reflexivity.
Qed.

Lemma confirm_object_run interval t o valueOut :
  (IsCoinBase (tx_ t) = true → GetValueOut (tx_ t) = Done valueOut) →
  confirm_object interval t o = Done (set_block (blkHeight_ t) (maxBlkTimestamp_ t)
    (if IsCoinBase (tx_ t) then set_fee (i64 (valueOut - GetBlockValue interval (blkHeight_ t))) o else o)).
Proof.
  intros Hv. unfold confirm_object. destruct (IsCoinBase (tx_ t)); [by rewrite Hv|done].
Qed.

Lemma confirmTx_run begin interval now t s F F' prev o o' :
  let balance := addressBalance prev (tx_ t) in
  Rep C ∅ (led s) F → dom balance ⊆ C →
  prevTxOutputs (tables s) (tx_ t) = Some prev → kv_tx (tables s) !! txHash_ t = Some o →
  confirm_object interval t o = Done o' →
  confirm_accounts t prev F = Some F' →
  ∃ l, confirmTx begin interval now t s = (Done tt, noted begin now balance t
      (counted (i32 (unconfirmedTxsCount_ s - 1)) (i64 (unconfirmedTxsSize_ s - hex_size (txHex_ t)))
        (with_led l (with_tables (λ T, with_unconfirmed (delete (txHash_ t))
          (with_tx (<[txHash_ t := o']>) T)) s)))) ∧
    Rep C ∅ l F'.
Proof.
  intros balance HR Hfit Hprev Ho Hobj HF. apply (Rep_start C (dom balance)) in HR; [|done].
  unfold confirmTx. rewrite (bind_Done _ _ _ _ _ (getTxAddressBalance_run _ _ _ Hprev)). fold balance.
  destruct (on_led_run _ _ _ s _ _ (confirmAddressTxs_sim C (dom balance) (ToString (txHash_ t))
    (maxBlkTimestamp_ t) (blkHeight_ t) balance (reflexivity _)) HR HF) as (l1 & Hrun1 & HR1).
  rewrite (bind_Done _ _ _ _ _ Hrun1).
  rewrite (bind_Done _ _ _ _ _ (updateObject_run (txHash_ t) _ o o' (with_led l1 s) Ho Hobj)).
  set (s1 := with_tables _ (with_led l1 s)).
  rewrite (bind_Done (setTables _) _ s1 tt _ eq_refl).
  destruct (handler_end_run (removeUnconfirmedTxPool t) (i32 (unconfirmedTxsCount_ s - 1))
    (i64 (unconfirmedTxsSize_ s - hex_size (txHex_ t))) begin now balance t
    (with_tables (with_unconfirmed (delete (txHash_ t))) s1) F' (λ l, eq_refl) HR1) as (l2 & Hrun2 & HR2).
  exists l2. split; [|done]. rewrite Hrun2. reflexivity.
Qed.

Lemma unconfirmTx_run begin now t s F F' prev o :
  let balance := addressBalance prev (tx_ t) in
  Rep C ∅ (led s) F → dom balance ⊆ C →
  prevTxOutputs (tables s) (tx_ t) = Some prev → kv_tx (tables s) !! txHash_ t = Some o →
  unconfirm_accounts t prev F = Some F' →
  ∃ l, unconfirmTx begin now t s = (Done tt, noted begin now balance t
      (counted (i32 (unconfirmedTxsCount_ s + 1)) (i64 (unconfirmedTxsSize_ s + hex_size (txHex_ t)))
        (with_led l (with_tables (λ T, with_unconfirmed (<[txHash_ t :=
            {| un_fee := o_fee o; un_size := o_size o; un_tx_hash := ToString (txHash_ t) |}]>)
          (with_tx (<[txHash_ t := set_block (-1) 0 o]>) T)) s)))) ∧
    Rep C ∅ l F'.
Proof.
  intros balance HR Hfit Hprev Ho HF. apply (Rep_start C (dom balance)) in HR; [|done].
  unfold unconfirmTx. rewrite (bind_Done _ _ _ _ _ (getTxAddressBalance_run _ _ _ Hprev)). fold balance.
  destruct (on_led_run _ _ _ s _ _ (unconfirmAddressTxs_sim C (dom balance) (ToString (txHash_ t))
    balance (reflexivity _)) HR HF) as (l1 & Hrun1 & HR1).
  rewrite (bind_Done _ _ _ _ _ Hrun1).
  rewrite (bind_Done _ _ _ _ _ (updateObject_run (txHash_ t) _ o (set_block (-1) 0 o) (with_led l1 s) Ho eq_refl)).
  set (s1 := with_tables _ (with_led l1 s)).
  rewrite (bind_Done (setTables _) _ s1 tt _ eq_refl).
  match goal with |- context [with_unconfirmed ?f] =>
    destruct (handler_end_run (addUnconfirmedTxPool t) (i32 (unconfirmedTxsCount_ s + 1))
      (i64 (unconfirmedTxsSize_ s + hex_size (txHex_ t))) begin now balance t
      (with_tables (with_unconfirmed f) s1) F' (λ l, eq_refl) HR1) as (l2 & Hrun2 & HR2) end.
  exists l2. split; [|done]. rewrite Hrun2. reflexivity.
Qed.

Lemma on_accounts_app {B} (l1 l2 : list (bytes * B)) f F :
  on_accounts (l1 ++ l2) f F = on_accounts l1 f F ≫= on_accounts l2 f.
Proof.
  revert F. induction l1 as [|[a b] l1 IH]; intros F; [done|]. simpl.
  destruct (on_account a (f b) F) as [F1|]; [apply IH|done].
Qed.

Lemma release_run D (l : list (CTxIn * TxOutput)) s F F' :
  (∀ p a, p ∈ l → a ∈ to_addresses p.2 → a ∈ D) →
  Rep C D (led s) F →
  on_accounts (flat_map (λ p, (λ q : nat * bytes, (q.2, (hash (prevout p.1), i32 (n (prevout p.1)),
      i32 (Z.of_nat q.1), to_value p.2))) <$> imap pair (to_addresses p.2)) l)
    (λ '(h, p, p2, v), acc_receive h p p2 v) F = Some F' →
  ∃ l', forM l releaseInput s = (Done tt, with_led l'
      (with_tables (λ T, foldl (λ T p, with_spent (delete (hash (prevout p.1), i32 (n (prevout p.1)))) T) T l) s)) ∧
    Rep C D l' F'.
Proof.
  revert s F. induction l as [|[i o] l IH]; intros s F HD HR HF.
  - injection HF as <-. exists (led s). split; [by destruct s|done].
  - cbn [flat_map] in HF. rewrite on_accounts_app in HF. apply bind_Some in HF as (F1 & HF1 & HF2).
    cbn [forM].
    set (s1 := with_tables (with_spent (delete (hash (prevout i), i32 (n (prevout i))))) s).
    assert (sim C D (forM (imap pair (to_addresses (i, o).2)) (λ q, insertAddressUnspent (to_value (i, o).2) q.2
        (hash (prevout (i, o).1)) (i32 (n (prevout (i, o).1))) (i32 (Z.of_nat q.1))))
      (on_accounts ((λ q : nat * bytes, (q.2, (hash (prevout i), i32 (n (prevout i)), i32 (Z.of_nat q.1), to_value o)))
         <$> imap pair (to_addresses o)) (λ '(h, p, p2, v), acc_receive h p p2 v))) as Hsim.
    { eapply (sim_ext C _ (forM ((λ q : nat * bytes, (q.2, (hash (prevout i), i32 (n (prevout i)),
          i32 (Z.of_nat q.1), to_value o))) <$> imap pair (to_addresses o))
        (λ e, insertAddressUnspent e.2.2 e.1 e.2.1.1.1 e.2.1.1.2 e.2.1.2))); [| done |].
      - intros l0. by rewrite forM_fmap.
      - apply sim_accounts. intros a [[[h p] p2] v] Hin. apply insertAddressUnspent_sim.
        apply list_elem_of_fmap in Hin as ([j b] & [= -> _ _ _ _] & Hin).
        apply (HD (i, o)); [set_solver|]. by eapply elem_of_imap_pair. }
    destruct (on_led_run D _ _ s1 F F1 Hsim HR HF1) as (l1 & Hrun1 & HR1).
    rewrite (bind_Done (releaseInput (i, o)) _ s tt (with_led l1 s1) Hrun1).
    destruct (IH (with_led l1 s1) F1) as (l2 & Hrun2 & HR2); [|done|done|].
    { intros p a Hp. apply HD. set_solver. }
    exists l2. split; [|done]. rewrite Hrun2. reflexivity.
Qed.

Lemma released_kv_tx t prev T : kv_tx (released t prev T) = kv_tx T.
Proof.
  unfold released. destruct (IsCoinBase _); [done|]. generalize (zip (vin (tx_ t)) prev). intros l.
  revert T. induction l as [|p l IH]; intros T; [done|]. cbn [foldl]. apply (IH (with_spent _ T)).
Qed.

(** [rejectTx] up to the removal of the address entries *)
Lemma rejectTx_starts (varargs : bytes → option bytes) begin now t s F F1 F2 prev o :
  let balance := addressBalance prev (tx_ t) in
  Rep C ∅ (led s) F → dom balance ⊆ C →
  prevTxOutputs (tables s) (tx_ t) = Some prev → kv_tx (tables s) !! txHash_ t = Some o →
  on_accounts (release_list (tx_ t) prev) (λ '(h, p, p2, v), acc_receive h p p2 v) F = Some F1 →
  on_accounts (revoke_list (tx_ t)) (λ '(p, v), acc_revoke (txHash_ t) p v) F1 = Some F2 →
  ∃ l, rejectTx varargs begin now t s =
      (on_led (rejectAddressTxs varargs (ToString (txHash_ t)) balance) ;;
       on_led (flushAddressInfo balance) ;; removeUnconfirmedTxPool t ;; writeNotificationLogs begin now balance t)
      (with_led l (with_tables (λ T, with_unconfirmed (delete (txHash_ t))
          (with_tx (<[txHash_ t := set_double_spend true o]>) (released t prev T))) s)) ∧
    Rep C (dom balance) l F2.
Proof.
  intros balance HR Hfit Hprev Ho HF1 HF2. apply (Rep_start C (dom balance)) in HR; [|done].
  unfold rejectTx. rewrite (bind_Done _ _ _ _ _ (getPrevTxOutputs_run _ _ _ Hprev)). fold balance.
  assert (∃ l1, (if IsCoinBase (tx_ t) then mret tt else forM (zip (vin (tx_ t)) prev) releaseInput) s =
     (Done tt, with_led l1 (with_tables (released t prev) s)) ∧ Rep C (dom balance) l1 F1) as (l1 & Hrun1 & HR1).
  { unfold released. destruct (IsCoinBase (tx_ t)) eqn:Ecb.
    - apply prev_coinbase in Hprev; [|done]. subst prev. unfold release_list in HF1.
      rewrite zip_nil_r in HF1. injection HF1 as <-. exists (led s). split; [by destruct s|done].
    - apply (release_run (dom balance) _ s F F1); [|done|done].
      intros [i o'] a Hp Ha. eapply input_address; [by eapply elem_of_zip_both|done]. }
  rewrite (bind_Done _ _ _ _ _ Hrun1). set (s1 := with_led l1 _).
  destruct (on_led_run _ _ _ s1 _ _ (revokeOutputs_sim (dom balance) (txHash_ t) prev (tx_ t) (reflexivity _)) HR1 HF2)
    as (l2 & Hrun2 & HR2).
  rewrite (bind_Done _ _ _ _ _ Hrun2).
  assert (kv_tx (tables (with_led l2 s1)) !! txHash_ t = Some o) as Ho'.
  { subst s1. cbn [with_led with_tables tables]. by rewrite released_kv_tx. }
  rewrite (bind_Done _ _ _ _ _ (updateObject_run (txHash_ t) _ o (set_double_spend true o) _ Ho' eq_refl)).
  set (s2 := with_tables _ (with_led l2 s1)).
  rewrite (bind_Done (setTables _) _ s2 tt _ eq_refl).
  exists l2. split; [reflexivity|done].
Qed.

(** [k] is the text line 1661 formats, where the transaction touches an address *)
Lemma rejectTx_run (varargs : bytes → option bytes) (k : bytes) begin now t s F F' prev o :
  let balance := addressBalance prev (tx_ t) in
  Rep C ∅ (led s) F → dom balance ⊆ C →
  prevTxOutputs (tables s) (tx_ t) = Some prev → kv_tx (tables s) !! txHash_ t = Some o →
  (balance ≠ ∅ → varargs (ToString (txHash_ t)) = Some k) → reject_accounts k t prev F = Some F' →
  ∃ l, rejectTx varargs begin now t s = (Done tt, noted begin now balance t
      (counted (i32 (unconfirmedTxsCount_ s - 1)) (i64 (unconfirmedTxsSize_ s - hex_size (txHex_ t)))
        (with_led l (with_tables (λ T, with_unconfirmed (delete (txHash_ t))
          (with_tx (<[txHash_ t := set_double_spend true o]>) (released t prev T))) s)))) ∧
    Rep C ∅ l F'.
Proof.
  intros balance HR Hfit Hprev Ho Hk HF. unfold reject_accounts in HF.
  apply bind_Some in HF as (F1 & HF1 & HF). apply bind_Some in HF as (F2 & HF2 & HF3).
  destruct (rejectTx_starts varargs begin now t s F F1 F2 prev o HR Hfit Hprev Ho HF1 HF2) as (l2 & -> & HR2).
  fold balance in HR2. set (s3 := with_led l2 _).
  destruct (on_led_run _ _ _ s3 _ _ (rejectAddressTxs_sim C (dom balance) varargs (ToString (txHash_ t)) k
    balance (reflexivity _) Hk) HR2 HF3) as (l3 & Hrun3 & HR3). fold balance.
  rewrite (bind_Done _ _ _ _ _ Hrun3).
  destruct (handler_end_run (removeUnconfirmedTxPool t) (i32 (unconfirmedTxsCount_ s - 1))
    (i64 (unconfirmedTxsSize_ s - hex_size (txHex_ t))) begin now balance t
    (with_led l3 s3) F' (λ l, eq_refl) HR3) as (l4 & Hrun4 & HR4).
  exists l4. split; [|done]. rewrite Hrun4. reflexivity.
Qed.

(** A formatting that does not come back ends the run. *)
Lemma rejectTx_stops (varargs : bytes → option bytes) (k : bytes) begin now t s F F' prev o :
  let balance := addressBalance prev (tx_ t) in
  Rep C ∅ (led s) F → dom balance ⊆ C →
  prevTxOutputs (tables s) (tx_ t) = Some prev → kv_tx (tables s) !! txHash_ t = Some o →
  balance ≠ ∅ → varargs (ToString (txHash_ t)) = None → reject_accounts k t prev F = Some F' →
  (rejectTx varargs begin now t s).1 = Raise Undefined.
Proof.
  intros balance HR Hfit Hprev Ho Hne Hv HF. unfold reject_accounts in HF.
  apply bind_Some in HF as (F1 & HF1 & HF). apply bind_Some in HF as (F2 & HF2 & HF3).
  destruct (rejectTx_starts varargs begin now t s F F1 F2 prev o HR Hfit Hprev Ho HF1 HF2) as (l2 & -> & HR2).
  pose proof (rejectAddressTxs_stops C (dom balance) varargs (ToString (txHash_ t)) k balance _ F2 F'
    (reflexivity _) Hne Hv HR2 HF3) as Hstop.
  fold balance. unfold mbind at 1, M_bind at 1, on_led at 1. unfold zoom. cbn [led with_led with_tables].
  destruct (rejectAddressTxs _ _ _ l2) as [r l3]. cbn in Hstop. by subst r.
Qed.
End runs.
