(* ===== verification/ParserBlock.v ===== *)
(** * The parser's block handlers (src/jiexi/src/Parser.cc [_insertBlock],
      [_insertBlockTxs], [acceptBlock], [rejectBlock], [_insertOrphanBlockHash],
      [_removeOrphanBlockHash], [_getBlockRawHexByBlockId]; Common.cc
      [TargetToPdiff])

    The block tables: 10 the hash of each height, 11 the block objects, 12 the
    transaction hashes of a block in batches of 500, 13 the orphans of each
    height, 14 the blocks by time stamp.  The double-precision difficulty of a
    block object, a function of its bits, is left out. *)
From S2P Require Import Prelude Tx Bytes Text Serialize Db Notify Ledger ParserTx.

(** fbe::Block *)
Record BlockObject := {
  bo_height : Z;
  bo_bits : Z;
  bo_created_at : Z;
  bo_mrkl_root : bytes;
  bo_next_block_hash : bytes;
  bo_nonce : Z;
  bo_pool_difficulty : Z;
  bo_prev_block_hash : bytes;
  bo_reward_block : Z;
  bo_reward_fees : Z;
  bo_size : Z;
  bo_timestamp : Z;
  bo_tx_count : Z;
  bo_version : Z;
  bo_is_orphan : bool;
  bo_curr_max_timestamp : Z }.

Definition set_next (next : bytes) (b : BlockObject) : BlockObject :=
  {| bo_height := bo_height b; bo_bits := bo_bits b; bo_created_at := bo_created_at b;
     bo_mrkl_root := bo_mrkl_root b; bo_next_block_hash := next; bo_nonce := bo_nonce b;
     bo_pool_difficulty := bo_pool_difficulty b; bo_prev_block_hash := bo_prev_block_hash b;
     bo_reward_block := bo_reward_block b; bo_reward_fees := bo_reward_fees b; bo_size := bo_size b;
     bo_timestamp := bo_timestamp b; bo_tx_count := bo_tx_count b; bo_version := bo_version b;
     bo_is_orphan := bo_is_orphan b; bo_curr_max_timestamp := bo_curr_max_timestamp b |}.
Definition set_orphan (o : bool) (b : BlockObject) : BlockObject :=
  {| bo_height := bo_height b; bo_bits := bo_bits b; bo_created_at := bo_created_at b;
     bo_mrkl_root := bo_mrkl_root b; bo_next_block_hash := bo_next_block_hash b; bo_nonce := bo_nonce b;
     bo_pool_difficulty := bo_pool_difficulty b; bo_prev_block_hash := bo_prev_block_hash b;
     bo_reward_block := bo_reward_block b; bo_reward_fees := bo_reward_fees b; bo_size := bo_size b;
     bo_timestamp := bo_timestamp b; bo_tx_count := bo_tx_count b; bo_version := bo_version b;
     bo_is_orphan := o; bo_curr_max_timestamp := bo_curr_max_timestamp b |}.

Record block_tables := {
  kv_height : gmap Z bytes;                    (** 10_{010height} *)
  kv_block : gmap uint256 BlockObject;         (** 11_{block_hash} *)
  kv_block_txs : gmap (uint256 * Z) bytes;     (** 12_{block_hash}_{n} *)
  kv_orphan : gmap Z bytes;                    (** 13_{010height} *)
  kv_block_time : gmap (Z * Z) bytes }.        (** 14_{010timestamp}_{010height} *)

Definition with_height (f : gmap Z bytes → gmap Z bytes) (t : block_tables) : block_tables :=
  {| kv_height := f (kv_height t); kv_block := kv_block t; kv_block_txs := kv_block_txs t;
     kv_orphan := kv_orphan t; kv_block_time := kv_block_time t |}.
Definition with_block (f : gmap uint256 BlockObject → gmap uint256 BlockObject) (t : block_tables) :
    block_tables :=
  {| kv_height := kv_height t; kv_block := f (kv_block t); kv_block_txs := kv_block_txs t;
     kv_orphan := kv_orphan t; kv_block_time := kv_block_time t |}.
Definition with_block_txs (f : gmap (uint256 * Z) bytes → gmap (uint256 * Z) bytes) (t : block_tables) :
    block_tables :=
  {| kv_height := kv_height t; kv_block := kv_block t; kv_block_txs := f (kv_block_txs t);
     kv_orphan := kv_orphan t; kv_block_time := kv_block_time t |}.
Definition with_orphan (f : gmap Z bytes → gmap Z bytes) (t : block_tables) : block_tables :=
  {| kv_height := kv_height t; kv_block := kv_block t; kv_block_txs := kv_block_txs t;
     kv_orphan := f (kv_orphan t); kv_block_time := kv_block_time t |}.
Definition with_block_time (f : gmap (Z * Z) bytes → gmap (Z * Z) bytes) (t : block_tables) : block_tables :=
  {| kv_height := kv_height t; kv_block := kv_block t; kv_block_txs := kv_block_txs t;
     kv_orphan := kv_orphan t; kv_block_time := f (kv_block_time t) |}.

(** Class Parser: the transaction handlers' part and the block tables. *)
Record parser := { txs : txs_state; blks : block_tables }.
Definition with_txs (s : txs_state) (p : parser) : parser := {| txs := s; blks := blks p |}.
Definition with_blks (t : block_tables) (p : parser) : parser := {| txs := txs p; blks := t |}.
Definition setBlocks (f : block_tables → block_tables) : M parser unit :=
  modify (λ p, with_blks (f (blks p)) p).
Definition set_curr_height (h : Z) (s : txs_state) : txs_state :=
  {| led := led s; tables := tables s; unconfirmedTxsCount_ := unconfirmedTxsCount_ s;
     unconfirmedTxsSize_ := unconfirmedTxsSize_ s; currBlockHeight_ := h;
     notifications := notifications s |}.

(** ** Hashes of orphaned blocks: 64 characters each, in order *)

Fixpoint chunks64 (k : nat) (value : bytes) : list bytes :=
  match k with O => [] | S k => take 64 value :: chunks64 k (drop 64 value) end.
Definition orphan_set (value : bytes) : gset bytes :=
  list_to_set (chunks64 (length value / 64) value).
Definition orphan_text (X : gset bytes) : bytes := concat (take 64 <$> text_sorted X).

Definition removeOrphanBlockHash (hash value : bytes) : bytes :=
  orphan_text (orphan_set value ∖ {[hash]}).
Definition insertOrphanBlockHash (hash value : bytes) : bytes :=
  match value with
  | [] => take 64 hash
  | _ => orphan_text (orphan_set value ∪ {[hash]})
  end.

(** ** [acceptBlock] *)

(** the quotient of two big numbers, through its decimal text and [strtoull] *)
Definition TargetToPdiff (target : uint256) : outcome Z :=
  if target =? 0 then Raise (Throw "CBigNum::operator/ : BN_div failed")
  else Done (Z.min ((2 ^ 224 - 1) / target) (2 ^ 64 - 1)).

(** [_getBlockRawHexByBlockId] *)
Definition getBlockRawHexByBlockId (db : database) (id : Z) : outcome bytes :=
  match List.find (λ b, rb_id b =? id) (raw_blocks db) with
  | None => Raise (Throw "can't find block by blkID from DB")
  | Some b => if Z.of_nat (length (rb_hex b)) mod 2 =? 0 then Done (rb_hex b) else Raise AssertFail
  end.

Definition decodeBlock (db : database) (id : Z) : outcome (CBlock * bytes) :=
  hex ← getBlockRawHexByBlockId db id;
  match DecodeHexBlk hex with
  | None => Raise (Throw "decode block hex failure")
  | Some blk => Done (blk, hex)
  end.

Section blocks.
Context `{Hashing} `{Scripts}.

Definition block_object (now : Z) (blk : CBlock) (height size maxBlkTimestamp pdiff reward fees : Z) :
    BlockObject :=
  let h := header blk in
  {| bo_height := height; bo_bits := nBits h; bo_created_at := u32 now;
     bo_mrkl_root := ToString (hashMerkleRoot h); bo_next_block_hash := ToString 0;
     bo_nonce := nNonce h; bo_pool_difficulty := pdiff;
     bo_prev_block_hash := ToString (hashPrevBlock h); bo_reward_block := reward;
     bo_reward_fees := fees; bo_size := size; bo_timestamp := nTime h;
     bo_tx_count := u32 (Z.of_nat (length (vtx blk))); bo_version := hdr_nVersion h;
     bo_is_orphan := false; bo_curr_max_timestamp := maxBlkTimestamp |}.

(** [_insertBlock].  The hash is written over the first 64 bytes of the
    previous block's next hash, in place. *)
Definition insertBlock (interval now : Z) (blk : CBlock) (height size maxBlkTimestamp : Z) : M parser unit :=
  let h := BlockHash blk in
  pdiff ← lift_outcome (TargetToPdiff h);
  let rewardBlock := GetBlockValue interval height in
  cb ← kv_read (head (vtx blk));
  v ← lift_outcome (GetValueOut cb);
  let rewardFees := i64 (v - rewardBlock) in
  assertM (0 <=? rewardFees) ;;
  setBlocks (with_block (<[h :=
    block_object now blk height size maxBlkTimestamp pdiff rewardBlock rewardFees]>)) ;;
  setBlocks (with_height (<[height := ToString h]>)) ;;
  if 0 <? height then
    p ← get;
    prev ← kv_get (kv_block (blks p) !! hashPrevBlock (header blk));
    if Nat.ltb (length (bo_next_block_hash prev)) (length (ToString h)) then raise Undefined
    else setBlocks (with_block (<[hashPrevBlock (header blk) :=
           set_next (ToString h ++ drop (length (ToString h)) (bo_next_block_hash prev)) prev]>))
  else mret tt.

(** [_insertBlockTxs]: [i] counts the transactions, [value] is the batch so
    far. *)
Definition kBatchSize : Z := 500.
Fixpoint insertBlockTxs_loop (h : uint256) (i : Z) (value : bytes) (txs : list CTransaction) :
    M parser unit :=
  match txs with
  | [] =>
      if Nat.eqb (length value) 0 then mret tt
      else setBlocks (with_block_txs (<[(h, i / kBatchSize) := value]>))
  | tx :: txs =>
      let value := value ++ ToString (TxHash tx) in
      if (i + 1) mod kBatchSize =? 0 then
        setBlocks (with_block_txs (<[(h, i / kBatchSize) := value]>)) ;;
        insertBlockTxs_loop h (i + 1) [] txs
      else insertBlockTxs_loop h (i + 1) value txs
  end.
Definition insertBlockTxs (blk : CBlock) : M parser unit :=
  insertBlockTxs_loop (BlockHash blk) 0 [] (vtx blk).

Definition notifyBlock (now type : Z) (h : uint256) (height : Z) : M parser unit :=
  modify (λ p, with_txs (with_notifications (notifications (txs p) ++ [loadblock now type h height])
    (txs p)) p).
Definition setCurrBlockHeight (h : Z) : M parser unit :=
  modify (λ p, with_txs (set_curr_height h (txs p)) p).

(** a block found again among the orphans leaves them *)
Definition removeOrphan (h : uint256) (height : Z) : M parser unit :=
  p ← get;
  match kv_orphan (blks p) !! height with
  | None => mret tt
  | Some value =>
      match removeOrphanBlockHash (ToString h) value with
      | [] => setBlocks (with_orphan (delete height))
      | value => setBlocks (with_orphan (<[height := value]>))
      end
  end.

(** The block's hash is handed out for a callback. *)
Definition acceptBlock (interval now : Z) (db : database) (t : TxLog2) : M parser bytes :=
  '(blk, hex) ← lift_outcome (decodeBlock db (blkId_ t));
  let h := BlockHash blk in
  insertBlock interval now blk (blkHeight_ t) (Z.quot (i32 (Z.of_nat (length hex))) 2) (maxBlkTimestamp_ t) ;;
  insertBlockTxs blk ;;
  removeOrphan h (blkHeight_ t) ;;
  setBlocks (with_block_time (<[(maxBlkTimestamp_ t, blkHeight_ t) := ToString h]>)) ;;
  setCurrBlockHeight (blkHeight_ t) ;;
  notifyBlock now NOTIFY_EVENT_BLOCK_ACCEPT h (blkHeight_ t) ;;
  mret (ToString h).

(** ** [rejectBlock] *)

(** the previous block's next hash is filled with zeros *)
Definition unlinkBlock (height : Z) (prevHash : uint256) : M parser unit :=
  if 0 <? height then
    p ← get;
    prev ← kv_get (kv_block (blks p) !! prevHash);
    assertM (Nat.eqb (length (bo_next_block_hash prev)) 64) ;;
    setBlocks (with_block (<[prevHash := set_next (replicate 64 48) prev]>))
  else mret tt.

Definition rejectBlock (now : Z) (db : database) (t : TxLog2) : M parser unit :=
  let height := blkHeight_ t in
  '(blk, hex) ← lift_outcome (decodeBlock db (blkId_ t));
  let h := BlockHash blk in
  p ← get;
  setBlocks (with_orphan (<[height :=
    insertOrphanBlockHash (ToString h) (default [] (kv_orphan (blks p) !! height))]>)) ;;
  setBlocks (with_height (delete height)) ;;
  p ← get;
  b ← kv_get (kv_block (blks p) !! h);
  setBlocks (with_block (<[h := set_orphan true b]>)) ;;
  setBlocks (with_block_time (delete (maxBlkTimestamp_ t, height))) ;;
  unlinkBlock height (hashPrevBlock (header blk)) ;;
  setCurrBlockHeight height ;;
  notifyBlock now NOTIFY_EVENT_BLOCK_REJECT h height.
End blocks.
