(* ===== verification/Balances.v ===== *)
(** * Balances

    What a transaction brings to an address is a sum of 64-bit numbers, kept
    modulo [2^64]; [≡64] is that congruence.  An account is sound when its
    transactions bring as much as its unspent outputs are worth; the accounts
    of accepted and rejected transactions stay sound. *)
From S2P Require Import Prelude Tx Bytes Text Notify Ledger LedgerSpec LedgerRefine ParserTx ParserRefine.

(** ** Numbers modulo [2^64] *)
Definition cong64 (x y : Z) : Prop := i64 x = i64 y.
Infix "≡64" := cong64 (at level 70).

#[export] Instance cong64_equiv : Equivalence cong64.
Proof. unfold cong64. split; [done | by intros x y -> | by intros x y z -> ->]. Qed.

Lemma i64_cong x : i64 x ≡64 x.
Proof.
  unfold cong64. pose proof (wrapS_add 64 x 0 ltac:(lia)) as E. by rewrite !Z.add_0_r in E.
Qed.

#[export] Instance add_cong64 : Proper (cong64 ==> cong64 ==> cong64) Z.add.
Proof.
  intros x x' Hx y y' Hy. unfold cong64 in *.
  rewrite <-(wrapS_add 64 x y), Hx, wrapS_add by lia.
  rewrite (Z.add_comm x' y), (Z.add_comm x' y').
  rewrite <-(wrapS_add 64 y x'), Hy, wrapS_add by lia. done.
Qed.

Lemma cong64_mod x y : x ≡64 y ↔ x mod 2 ^ 64 = y mod 2 ^ 64.
Proof.
  unfold cong64. split; intros E.
  - rewrite <-(wrapS_wrapU 64 x), E, wrapS_wrapU; lia.
  - rewrite <-(wrapS_mod 64 x), E, wrapS_mod; lia.
Qed.

#[export] Instance opp_cong64 : Proper (cong64 ==> cong64) Z.opp.
Proof.
  intros x y E. apply cong64_mod. apply cong64_mod in E.
  rewrite <-!(Z.sub_0_l), <-(Zminus_mod_idemp_r 0 x), E, Zminus_mod_idemp_r. done.
Qed.

#[export] Instance sub_cong64 : Proper (cong64 ==> cong64 ==> cong64) Z.sub.
Proof. intros x x' Hx y y' Hy. rewrite <-!Z.add_opp_r. by rewrite Hx, Hy. Qed.

#[export] Instance i64_proper : Proper (cong64 ==> (=)) (wrapS 64).
Proof. by intros x y E. Qed.

(** ** Sums over the entries of one address *)
Definition sum_at {B} (a : bytes) (w : B → Z) (l : list (bytes * B)) : Z :=
  foldr (λ p s, (if decide (p.1 = a) then w p.2 else 0) + s) 0 l.

Section sums.
Context {B : Type}.
Implicit Types (l : list (bytes * B)) (w : B → Z).

Lemma sum_at_app a w l1 l2 : sum_at a w (l1 ++ l2) = sum_at a w l1 + sum_at a w l2.
Proof. induction l1 as [|p l1 IH]; simpl; [done|]. rewrite IH. lia. Qed.

Lemma sum_at_absent a w l : a ∉ l.*1 → sum_at a w l = 0.
Proof.
  induction l as [|[b x] l IH]; csimpl; [done|]. rewrite not_elem_of_cons. intros [Hb Hl].
  rewrite decide_False by done. rewrite IH by done. lia.
Qed.

Lemma sum_at_one a w l x : NoDup l.*1 → (a, x) ∈ l → sum_at a w l = w x.
Proof.
  induction l as [|[b y] l IH]; csimpl; [set_solver|]. intros [Hb Hl]%NoDup_cons [[= -> ->]|Hin]%elem_of_cons.
  - rewrite decide_True, sum_at_absent by done. lia.
  - rewrite decide_False, IH; [lia | done | done |]. intros ->. apply Hb. by apply (list_elem_of_fmap_2 fst _ (a, x)).
Qed.

(** a measure of accounts that [f] moves by [w] *)
Lemma on_accounts_measure (μ : account → Z) w (f : B → account → option account) l F F' :
  (∀ b A A', f b A = Some A' → μ A' = μ A + w b) →
  on_accounts l f F = Some F' → ∀ a, μ (acct a F') = μ (acct a F) + sum_at a w l.
Proof.
  intros Hf. revert F. induction l as [|[b x] l IH]; intros F HF a.
  - injection HF as <-. simpl. lia.
  - simpl in HF. apply bind_Some in HF as (F1 & HF1 & HF2).
    rewrite (IH _ HF2 a). unfold on_account in HF1. apply bind_Some in HF1 as (A & HA & [= <-]).
    rewrite acct_insert. simpl. case_decide as Hab; [subst; rewrite (Hf _ _ _ HA); lia | lia].
Qed.
End sums.

(** the balance map holds the sums *)
Lemma add_balances_sum (l : list (bytes * Z)) (m : gmap bytes Z) a :
  default 0 (foldl add_balance m l !! a) ≡64 default 0 (m !! a) + sum_at a id l.
Proof.
  revert m. induction l as [|[b v] l IH]; intros m; simpl.
  - by rewrite Z.add_0_r.
  - rewrite IH. unfold add_balance. simpl. rewrite lookup_insert. case_decide as Hb.
    + subst b. simpl. rewrite i64_cong. unfold id. by rewrite Z.add_assoc.
    + by rewrite Z.add_0_l.
Qed.

Lemma sum_at_items (m : gmap bytes Z) a : sum_at a id (text_items m) = default 0 (m !! a).
Proof.
  destruct (m !! a) as [v|] eqn:E; simpl.
  - apply (sum_at_one a id _ v); [apply NoDup_map_items|]. by apply elem_of_map_items.
  - apply sum_at_absent. intros Hin. apply list_elem_of_fmap in Hin as ([b v] & -> & Hin).
    apply elem_of_map_items in Hin. simpl in E. congruence.
Qed.

(** ** Worth and flow *)

(** what the unspent outputs are worth, and what the transactions brought *)
Definition worth (A : account) : Z := map_fold (λ _ pv s, pv.2 + s) 0 (acc_unspent A).
Definition flow (A : account) : Z := total_of id (acc_txs A).
Definition sound (F : accounts) : Prop := ∀ a, worth (acct a F) ≡64 flow (acct a F).

Section measures.
Implicit Types A : account.

Lemma worth_insert (k : uint256 * Z) (p2 v : Z) (m : gmap (uint256 * Z) (Z * Z)) :
  m !! k = None →
  map_fold (λ _ pv s, pv.2 + s) 0 (<[k := (p2, v)]> m) = v + map_fold (λ _ pv s, pv.2 + s) 0 m.
Proof.
  intros Hk. rewrite map_fold_insert_L; [done | intros; lia | done].
Qed.

Lemma acc_receive_worth h p p2 v A A' : acc_receive h p p2 v A = Some A' → worth A' = worth A + v.
Proof.
  intros H. apply guard_inv in H as [[Hn _] [= <-]]. unfold worth. simpl.
  rewrite worth_insert by done. lia.
Qed.

Lemma worth_delete (m : gmap (uint256 * Z) (Z * Z)) (k : uint256 * Z) (v : Z) :
  snd <$> m !! k = Some v →
  map_fold (λ _ pv s, pv.2 + s) 0 (delete k m) = map_fold (λ _ pv s, pv.2 + s) 0 m - v.
Proof.
  intros H. apply fmap_Some in H as ([p2 v'] & Hk & ->).
  rewrite (map_fold_delete_L _ 0 k (p2, v') m); [simpl; lia | intros; lia | done].
Qed.

Lemma acc_spend_worth h p v A A' : acc_spend h p v A = Some A' → worth A' = worth A - v.
Proof. intros H. apply guard_inv in H as [Hv [= <-]]. unfold worth. simpl. by apply worth_delete. Qed.

Lemma acc_revoke_worth h p v A A' : acc_revoke h p v A = Some A' → worth A' = worth A - v.
Proof. intros H. apply guard_inv in H as [Hv [= <-]]. unfold worth. simpl. by apply worth_delete. Qed.

Lemma acc_accept_flow h time d A A' :
  acc_accept h time d A = Some A' → flow A' = flow A + d ∧ worth A' = worth A.
Proof.
  intros H. apply guard_inv in H as [_ [= <-]]. split; [|done]. unfold flow. simpl.
  rewrite total_of_app. simpl. unfold id. lia.
Qed.

Lemma acc_confirm_flow h time height A A' :
  acc_confirm h time height A = Some A' → flow A' = flow A ∧ worth A' = worth A.
Proof.
  unfold acc_confirm. intros H. apply bind_Some in H as (i & _ & H). apply guard_inv in H as [_ [= <-]].
  split; [|done]. unfold flow. simpl. rewrite total_of_alter by done. apply total_of_perm, swap_at_perm.
Qed.

Lemma acc_unconfirm_flow h A A' : acc_unconfirm h A = Some A' → flow A' = flow A ∧ worth A' = worth A.
Proof.
  unfold acc_unconfirm. intros H. apply bind_Some in H as (i & _ & H). apply guard_inv in H as [_ [= <-]].
  split; [|done]. unfold flow. simpl. by rewrite total_of_alter.
Qed.

Lemma acc_reject_flow k h d A A' :
  acc_reject k h d A = Some A' → flow A' = flow A - d ∧ worth A' = worth A.
Proof.
  unfold acc_reject. intros H. apply bind_Some in H as (i & Hi & H).
  apply guard_inv in H as [(Hd & _ & _) [= <-]]. split; [|done]. unfold flow. simpl.
  apply acc_index_Some in Hi as (e & He & _ & _). rewrite He in Hd. injection Hd as <-.
  pose proof (lookup_lt_Some _ _ _ He) as Hlt. set (m := pred (length (acc_txs A))).
  rewrite <-(total_of_perm id _ _ (swap_at_perm m i (acc_txs A))).
  rewrite <-(take_drop m (swap_at m i (acc_txs A))) at 2. rewrite total_of_app.
  erewrite drop_S; [|apply moved_entry; [exact He | apply lookup_lt_is_Some_2; subst m; lia]].
  rewrite drop_ge by (rewrite length_swap_at; subst m; lia). simpl. unfold id. lia.
Qed.
End measures.

(** ** What a transaction moves *)
Section moves.
Context `{Scripts}.
Implicit Types (tx : CTransaction) (prev : list TxOutput) (a : bytes) (F : accounts) (t : TxLog2).

Lemma sum_at_fmap {B E} a (w : E → Z) (g : B → bytes * E) (l : list B) :
  sum_at a w (g <$> l) = foldr (λ x s, (if decide ((g x).1 = a) then w (g x).2 else 0) + s) 0 l.
Proof. induction l as [|x l IH]; csimpl; [done|]. by rewrite IH. Qed.

Lemma sum_at_opp {B} a (w : B → Z) l : sum_at a (λ e, - w e) l = - sum_at a w l.
Proof. induction l as [|p l IH]; simpl; [done|]. rewrite IH. case_decide; lia. Qed.

Lemma sum_at_zero {B} a (l : list (bytes * B)) : sum_at a (λ _, 0) l = 0.
Proof. induction l as [|p l IH]; simpl; [done|]. rewrite IH. case_decide; lia. Qed.

Lemma foldr_imap {A} (c : A → Z) (l : list A) (f : nat → nat) :
  foldr (λ (q : nat * A) s, c q.2 + s) 0 (imap (λ k x, (f k, x)) l) = foldr (λ x s, c x + s) 0 l.
Proof.
  revert f. induction l as [|x l IH]; intros f; [done|]. rewrite imap_cons. simpl.
  f_equal. apply (IH (f ∘ S)).
Qed.

Lemma sum_at_flat_imap {A B E} a (w : B → Z) (w' : E → Z) (g : nat * A → list (bytes * B))
    (g' : A → list (bytes * E)) (l : list A) (f : nat → nat) :
  (∀ k x, sum_at a w (g (k, x)) = sum_at a w' (g' x)) →
  sum_at a w (flat_map g (imap (λ k x, (f k, x)) l)) = sum_at a w' (flat_map g' l).
Proof.
  intros Hg. revert f. induction l as [|x l IH]; intros f; [done|]. rewrite imap_cons. simpl.
  rewrite !sum_at_app, Hg. f_equal. apply (IH (f ∘ S)).
Qed.

Lemma sum_at_outs tx a : sum_at a (λ '(_, _, v), v) (out_list tx) = sum_at a id (output_parts tx).
Proof.
  unfold out_list, output_parts.
  apply (sum_at_flat_imap a (λ '(_, _, v), v) id _ (λ o, (λ b, (b, nValue o)) <$> destinations (scriptPubKey o))
    (vout tx) (λ k, k)).
  intros k o. rewrite !sum_at_fmap. simpl.
  exact (foldr_imap (λ b : bytes, if decide (b = a) then nValue o else 0) _ (λ k, k)).
Qed.

Lemma sum_at_revokes tx a : sum_at a snd (revoke_list tx) = sum_at a id (output_parts tx).
Proof.
  unfold revoke_list, output_parts.
  apply (sum_at_flat_imap a snd id _ (λ o, (λ b, (b, nValue o)) <$> destinations (scriptPubKey o))
    (vout tx) (λ k, k)).
  intros k o. by rewrite !sum_at_fmap.
Qed.

Lemma sum_at_spends_gen (l : list CTxIn) prev a :
  (length prev ≤ length l)%nat →
  - sum_at a snd (flat_map (λ p, (λ b, (b, (hash (prevout p.1), i32 (n (prevout p.1)), to_value p.2)))
      <$> to_addresses p.2) (zip l prev)) ≡64 sum_at a id (input_parts prev).
Proof.
  revert l. induction prev as [|o prev IH]; intros [|i l] Hl; simpl in Hl; [done..|lia|].
  simpl. rewrite !sum_at_app, Z.opp_add_distr, (IH l) by lia.
  apply add_cong64; [|done]. rewrite !sum_at_fmap. simpl. clear.
  induction (to_addresses o) as [|b bs IH]; [done|]. simpl. rewrite Z.opp_add_distr, IH.
  apply add_cong64; [|done]. case_decide; [|done]. unfold id. rewrite i64_cong.
  by replace (to_value o * -1) with (- to_value o) by lia.
Qed.

Lemma prev_length T tx prev : prevTxOutputs T tx = Some prev → (length prev ≤ length (vin tx))%nat.
Proof.
  intros E. destruct (IsCoinBase tx) eqn:Ec.
  - apply prev_coinbase in E; [|done]. subst. simpl. lia.
  - rewrite (prevTxOutputs_length _ _ _ E Ec). lia.
Qed.

Lemma sum_at_releases_gen (l : list CTxIn) prev a :
  sum_at a snd (flat_map (λ p, (λ q : nat * bytes, (q.2, (hash (prevout p.1), i32 (n (prevout p.1)),
      i32 (Z.of_nat q.1), to_value p.2))) <$> imap pair (to_addresses p.2)) (zip l prev)) =
  sum_at a snd (flat_map (λ p, (λ b, (b, (hash (prevout p.1), i32 (n (prevout p.1)), to_value p.2)))
      <$> to_addresses p.2) (zip l prev)).
Proof.
  induction (zip l prev) as [|[i o] k IH]; [done|]. simpl. rewrite !sum_at_app, IH. f_equal.
  rewrite !sum_at_fmap. simpl.
  exact (foldr_imap (λ b : bytes, if decide (b = a) then to_value o else 0) _ (λ k, k)).
Qed.

Lemma balance_of_parts prev tx a :
  default 0 (addressBalance prev tx !! a) ≡64
    sum_at a id (input_parts prev) + sum_at a id (output_parts tx).
Proof. unfold addressBalance. rewrite add_balances_sum, sum_at_app. simpl. done. Qed.

(** The phases of the handlers, on every account. *)
Lemma phase {B} (w f : B → Z) (g : B → account → option account) l F F' :
  (∀ b A A', g b A = Some A' → worth A' = worth A + w b ∧ flow A' = flow A + f b) →
  on_accounts l g F = Some F' →
  ∀ a, worth (acct a F') = worth (acct a F) + sum_at a w l ∧ flow (acct a F') = flow (acct a F) + sum_at a f l.
Proof.
  intros Hg HF a. split.
  - apply (on_accounts_measure worth w _ _ _ _ (λ b A A' E, proj1 (Hg b A A' E)) HF).
  - apply (on_accounts_measure flow f _ _ _ _ (λ b A A' E, proj2 (Hg b A A' E)) HF).
Qed.

Lemma received_phase h (l : list (bytes * (Z * Z * Z))) F F' :
  on_accounts l (λ '(p, p2, v), acc_receive h p p2 v) F = Some F' →
  ∀ a, worth (acct a F') = worth (acct a F) + sum_at a (λ '(_, _, v), v) l ∧
       flow (acct a F') = flow (acct a F) + sum_at a (λ _, 0) l.
Proof.
  apply phase. intros b A A' E. destruct b as [[p p2] v]. split; [exact (acc_receive_worth _ _ _ _ _ _ E)|].
  apply guard_inv in E as [_ [= <-]]. unfold flow. simpl. lia.
Qed.

Lemma released_phase (l : list (bytes * (uint256 * Z * Z * Z))) F F' :
  on_accounts l (λ '(h, p, p2, v), acc_receive h p p2 v) F = Some F' →
  ∀ a, worth (acct a F') = worth (acct a F) + sum_at a snd l ∧
       flow (acct a F') = flow (acct a F) + sum_at a (λ _, 0) l.
Proof.
  apply phase. intros b A A' E. destruct b as [[[h p] p2] v]. split; [exact (acc_receive_worth _ _ _ _ _ _ E)|].
  apply guard_inv in E as [_ [= <-]]. unfold flow. simpl. lia.
Qed.

Lemma spent_phase (l : list (bytes * (uint256 * Z * Z))) F F' :
  on_accounts l (λ '(h, p, v), acc_spend h p v) F = Some F' →
  ∀ a, worth (acct a F') = worth (acct a F) + sum_at a (λ e, - snd e) l ∧
       flow (acct a F') = flow (acct a F) + sum_at a (λ _, 0) l.
Proof.
  apply phase. intros b A A' E. destruct b as [[h p] v]. split.
  - rewrite (acc_spend_worth _ _ _ _ _ E). simpl. lia.
  - apply guard_inv in E as [_ [= <-]]. unfold flow. simpl. lia.
Qed.

Lemma revoked_phase h (l : list (bytes * (Z * Z))) F F' :
  on_accounts l (λ '(p, v), acc_revoke h p v) F = Some F' →
  ∀ a, worth (acct a F') = worth (acct a F) + sum_at a (λ e, - snd e) l ∧
       flow (acct a F') = flow (acct a F) + sum_at a (λ _, 0) l.
Proof.
  apply phase. intros b A A' E. destruct b as [p v]. split.
  - rewrite (acc_revoke_worth _ _ _ _ _ E). simpl. lia.
  - apply guard_inv in E as [_ [= <-]]. unfold flow. simpl. lia.
Qed.

Lemma entry_phase (c : Z → Z) (g : Z → account → option account) (l : list (bytes * Z)) F F' :
  (∀ d A A', g d A = Some A' → flow A' = flow A + c d ∧ worth A' = worth A) →
  on_accounts l g F = Some F' →
  ∀ a, worth (acct a F') = worth (acct a F) ∧ flow (acct a F') = flow (acct a F) + sum_at a c l.
Proof.
  intros Hg HF a. destruct (phase (λ _, 0) c g l F F') with (a := a) as [W V]; [| done |].
  - intros b A A' E. destruct (Hg _ _ _ E) as [? ->]. lia.
  - rewrite sum_at_zero in W. lia.
Qed.

(** Accepting, confirming, unconfirming and rejecting a transaction move
    worth and flow alike. *)
Lemma accept_sound t prev T F F' :
  prevTxOutputs T (tx_ t) = Some prev → accept_accounts t prev F = Some F' → sound F → sound F'.
Proof.
  intros Hp HF Hs a. unfold accept_accounts in HF.
  apply bind_Some in HF as (F1 & HF1 & HF). apply bind_Some in HF as (F2 & HF2 & HF3).
  destruct (received_phase _ _ _ _ HF1 a) as [W1 V1]. destruct (spent_phase _ _ _ HF2 a) as [W2 V2].
  destruct (entry_phase id _ _ _ _ (acc_accept_flow _ _) HF3 a) as [W3 V3].
  rewrite W3, W2, W1, V3, V2, V1, !sum_at_zero, !Z.add_0_r, sum_at_opp, (Hs a).
  rewrite sum_at_items, balance_of_parts, sum_at_outs.
  unfold spend_list. rewrite (sum_at_spends_gen _ _ _ (prev_length _ _ _ Hp)).
  by rewrite <-Z.add_assoc, (Z.add_comm (sum_at a id (output_parts _))).
Qed.

Lemma reject_sound k t prev T F F' :
  prevTxOutputs T (tx_ t) = Some prev → reject_accounts k t prev F = Some F' → sound F → sound F'.
Proof.
  intros Hp HF Hs a. unfold reject_accounts in HF.
  apply bind_Some in HF as (F1 & HF1 & HF). apply bind_Some in HF as (F2 & HF2 & HF3).
  destruct (released_phase _ _ _ HF1 a) as [W1 V1]. destruct (revoked_phase _ _ _ _ HF2 a) as [W2 V2].
  destruct (entry_phase Z.opp _ _ _ _ (λ d A A' E, acc_reject_flow _ _ d A A' E) HF3 a) as [W3 V3].
  rewrite W3, W2, W1, V3, V2, V1, !sum_at_zero, !Z.add_0_r, sum_at_opp, (Hs a).
  rewrite (sum_at_opp a id), sum_at_items, balance_of_parts, sum_at_revokes.
  unfold release_list. rewrite sum_at_releases_gen.
  rewrite <-(Z.opp_involutive (sum_at a snd _)), (sum_at_spends_gen _ _ _ (prev_length _ _ _ Hp)).
  by rewrite Z.opp_add_distr, Z.add_assoc.
Qed.

Lemma confirm_sound t prev F F' : confirm_accounts t prev F = Some F' → sound F → sound F'.
Proof.
  intros HF Hs a. unshelve epose proof (entry_phase (λ _, 0) _ _ F F' _ HF a) as [W V].
  { intros d A A' E. rewrite Z.add_0_r. exact (acc_confirm_flow _ _ _ _ _ E). }
  by rewrite W, V, sum_at_zero, Z.add_0_r.
Qed.

Lemma unconfirm_sound t prev F F' : unconfirm_accounts t prev F = Some F' → sound F → sound F'.
Proof.
  intros HF Hs a. unshelve epose proof (entry_phase (λ _, 0) _ _ F F' _ HF a) as [W V].
  { intros d A A' E. rewrite Z.add_0_r. exact (acc_unconfirm_flow _ _ _ E). }
  by rewrite W, V, sum_at_zero, Z.add_0_r.
Qed.
End moves.
