(* ===== verification/Utxo.v ===== *)
(** * The outputs a transaction makes and spends

    The lists of [ParserRefine] by membership: an output is created at a
    position for an address, at a place in the output's address list; no list
    names an address and an outpoint twice.  [receive_all] and [remove_all] give
    what a whole list does to the accounts. *)
From S2P Require Import Prelude Tx Bytes Text Ledger LedgerSpec LedgerRefine ParserTx ParserRefine.

(** ** Lists of lists with distinct keys *)
Lemma NoDup_flat_map_tag {A B K T} (l : list A) (g : A → list B) (key : B → K) (tag : K → T) (f : A → T) :
  NoDup (f <$> l) → (∀ x y, x ∈ l → y ∈ g x → tag (key y) = f x) → (∀ x, x ∈ l → NoDup (key <$> g x)) →
  NoDup (key <$> flat_map g l).
Proof.
  induction l as [|x l IH]; csimpl; [constructor|]. intros [Hx Hnd]%NoDup_cons Htag Hg.
  rewrite fmap_app. apply NoDup_app. split; [apply Hg; left|]. split.
  - intros k (y & -> & Hy)%list_elem_of_fmap (z & Ez & Hz)%list_elem_of_fmap.
    apply list_elem_of_In, in_flat_map in Hz as (x' & Hx' & Hz). apply list_elem_of_In in Hx', Hz.
    apply Hx. rewrite <-(Htag x y), Ez by (done || left). rewrite (Htag x' z) by (done || by right).
    by apply list_elem_of_fmap_2.
  - apply IH; [done| |]; intros; [apply Htag | apply Hg]; (done || by right).
Qed.

Lemma NoDup_fmap_on {A B} (f : A → B) (l : list A) :
  (∀ x y, x ∈ l → y ∈ l → f x = f y → x = y) → NoDup l → NoDup (f <$> l).
Proof.
  induction l as [|x l IH]; csimpl; [constructor|]. intros Hinj [Hx Hnd]%NoDup_cons.
  constructor; [|apply IH; [|done]; intros; apply Hinj; (done || by right)].
  intros (y & E & Hy)%list_elem_of_fmap. apply Hx. replace x with y; [done|].
  apply Hinj; [by right | left | done].
Qed.

Lemma elem_of_imap {A B} (f : nat → A → B) (l : list A) y :
  y ∈ imap f l ↔ ∃ k x, l !! k = Some x ∧ y = f k x.
Proof.
  rewrite list_elem_of_lookup. split.
  - intros (k & Hk). rewrite list_lookup_imap in Hk. apply fmap_Some in Hk as (x & ? & ->). eauto.
  - intros (k & x & Hk & ->). exists k. by rewrite list_lookup_imap, Hk.
Qed.

Lemma NoDup_imap_fst {A} (l : list A) : NoDup (imap (λ k _, k) l).
Proof.
  apply NoDup_alt. intros i j k Hi Hj. rewrite list_lookup_imap in Hi, Hj.
  destruct (l !! i), (l !! j); simplify_eq/=. congruence.
Qed.

Lemma elem_of_zip_lookup {A B} (l : list A) (k : list B) x y :
  (x, y) ∈ zip l k ↔ ∃ i, l !! i = Some x ∧ k !! i = Some y.
Proof.
  rewrite list_elem_of_lookup. split; intros (i & Hi); exists i.
  - by apply lookup_zip_Some in Hi.
  - by apply lookup_zip_Some.
Qed.

Lemma elem_of_flat_map {A B} (g : A → list B) (l : list A) y :
  y ∈ flat_map g l ↔ ∃ x, x ∈ l ∧ y ∈ g x.
Proof.
  rewrite list_elem_of_In, in_flat_map. split; intros (x & H1 & H2); exists x; by rewrite ?list_elem_of_In in *.
Qed.

Lemma on_accounts_fmap {B E} (g : B → E) (l : list (bytes * B)) (f : E → account → option account) F :
  on_accounts (prod_map id g <$> l) f F = on_accounts l (λ b, f (g b)) F.
Proof.
  revert F. induction l as [|[a b] l IH]; intros F; [done|]. simpl.
  destruct (on_account a (f (g b)) F); [apply IH|done].
Qed.

(** ** What a whole list does *)

(** [A'] has the transactions of [A]. *)
Definition same_txs (A A' : account) : Prop := acc_txs A' = acc_txs A ∧ acc_conf A' = acc_conf A.

Lemma receive_all (l : list (bytes * (uint256 * Z * Z * Z))) F :
  NoDup ((λ e, (e.1, e.2.1.1)) <$> l) →
  (∀ a h p p2 v, (a, (h, p, p2, v)) ∈ l → acc_unspent (acct a F) !! (h, p) = None) →
  (∀ a, Z.of_nat (acc_made (acct a F) + length l) < 2 ^ 31) →
  ∃ F', on_accounts l (λ '(h, p, p2, v), acc_receive h p p2 v) F = Some F' ∧ ∀ a,
    same_txs (acct a F) (acct a F') ∧ (acc_made (acct a F') ≤ acc_made (acct a F) + length l)%nat ∧
    ∀ h p p2 v, acc_unspent (acct a F') !! (h, p) = Some (p2, v) ↔
      acc_unspent (acct a F) !! (h, p) = Some (p2, v) ∨ (a, (h, p, p2, v)) ∈ l.
Proof.
  revert F. induction l as [|[b [[[g q] q2] w]] l IH]; intros F Hnd Hnone Hmade.
  - exists F. split; [done|]. intros a. split; [done|]. split; [lia|]. intros. set_solver.
  - csimpl in Hnd. apply NoDup_cons in Hnd as [Hfresh Hnd]. cbn [length] in Hmade.
    assert (acc_unspent (acct b F) !! (g, q) = None) as Hb by (apply (Hnone b g q q2 w); left).
    set (A1 := with_outputs (<[(g, q) := (q2, w)]> (acc_unspent (acct b F))) (S (acc_made (acct b F)))
      (acc_drift (acct b F)) (acct b F)).
    assert (on_account b (acc_receive g q q2 w) F = Some (<[b := A1]> F)) as H1.
    { unfold on_account, acc_receive. rewrite guard_intro; [done|]. split; [done|]. specialize (Hmade b). lia. }
    destruct (IH (<[b := A1]> F)) as (F' & HF' & Hall); [done | | |].
    + intros a h p p2 v Hin. rewrite acct_insert. case_decide as Hab; [|apply (Hnone a h p p2 v); by right].
      subst a. simpl. rewrite lookup_insert_ne; [apply (Hnone b h p p2 v); by right|].
      intros [= -> ->]. apply Hfresh. apply list_elem_of_fmap. by exists (b, (h, p, p2, v)).
    + intros a. specialize (Hmade a). rewrite acct_insert. case_decide; subst; simpl; lia.
    + exists F'. split; [cbn [on_accounts]; by rewrite H1|]. intros a.
      destruct (Hall a) as ([H2 H3] & H4 & H5). rewrite acct_insert in H2, H3, H4, H5.
      case_decide as Hab; [subst a|].
      * split; [by split|]. split; [simpl in *; lia|]. intros h p p2 v. rewrite H5. simpl. rewrite elem_of_cons.
        rewrite lookup_insert. case_decide as E; [injection E as <- <-; rewrite Hb|].
        -- split; intros Hx; destruct_or? Hx; simplify_eq; auto.
        -- split; intros Hx; destruct_or? Hx; simplify_eq; auto.
      * split; [by split|]. split; [cbn [length]; lia|]. intros h p p2 v. rewrite H5, elem_of_cons. naive_solver.
Qed.

(** an operation that takes an output of value [v] away *)
Definition takes (op : uint256 → Z → Z → account → option account) : Prop :=
  ∀ h p v A, snd <$> acc_unspent A !! (h, p) = Some v → ∃ A', op h p v A = Some A' ∧ same_txs A A' ∧
    acc_made A' = acc_made A ∧ acc_unspent A' = delete (h, p) (acc_unspent A).

Lemma acc_spend_takes : takes acc_spend.
Proof. intros h p v A Hv. unfold acc_spend. rewrite guard_intro by done. by eexists. Qed.
Lemma acc_revoke_takes : takes acc_revoke.
Proof. intros h p v A Hv. unfold acc_revoke. rewrite guard_intro by done. by eexists. Qed.

Lemma remove_all op (l : list (bytes * (uint256 * Z * Z))) F :
  takes op → NoDup ((λ e, (e.1, e.2.1)) <$> l) →
  (∀ a h p v, (a, (h, p, v)) ∈ l → snd <$> acc_unspent (acct a F) !! (h, p) = Some v) →
  ∃ F', on_accounts l (λ '(h, p, v), op h p v) F = Some F' ∧ ∀ a,
    same_txs (acct a F) (acct a F') ∧ acc_made (acct a F') = acc_made (acct a F) ∧
    ∀ h p x, acc_unspent (acct a F') !! (h, p) = Some x ↔
      acc_unspent (acct a F) !! (h, p) = Some x ∧ ∀ v, (a, (h, p, v)) ∉ l.
Proof.
  intros Hop. revert F. induction l as [|[b [[g q] w]] l IH]; intros F Hnd Hsome.
  - exists F. split; [done|]. intros a. do 2 (split; [done|]). intros h p x. set_solver.
  - csimpl in Hnd. apply NoDup_cons in Hnd as [Hfresh Hnd].
    destruct (Hop g q w (acct b F)) as (A1 & H1 & H2 & H3 & H4); [apply Hsome; left|].
    assert (∀ v, (b, (g, q, v)) ∉ l) as Hl.
    { intros v Hin. apply Hfresh. apply list_elem_of_fmap. by exists (b, (g, q, v)). }
    destruct (IH (<[b := A1]> F)) as (F' & HF' & Hall); [done | |].
    + intros a h p v Hin. rewrite acct_insert. case_decide as Hab; [|apply Hsome; by right].
      subst a. rewrite H4, lookup_delete_ne; [apply Hsome; by right|]. intros [= -> ->]. by apply (Hl v).
    + exists F'. split; [cbn [on_accounts]; unfold on_account; rewrite H1; done|]. intros a.
      destruct (Hall a) as ([H5 H6] & H7 & H8). rewrite acct_insert in H5, H6, H7, H8.
      case_decide as Hab; [subst a|].
      * destruct H2 as [H9 H10]. unfold same_txs. rewrite H5, H6, H7. do 2 (split; [done|]). intros h p x.
        rewrite H8, H4, lookup_delete_Some. setoid_rewrite elem_of_cons.
        split; [|naive_solver]. intros [[Hne Hx] Hn]. split; [done|]. intros v [[= <- <- _]|Hin]; naive_solver.
      * split; [by split|]. split; [done|]. intros h p x. rewrite H8. setoid_rewrite elem_of_cons. naive_solver.
Qed.

(** ** The outputs of a transaction *)
Section outputs.
Context `{Scripts}.
Implicit Types (tx : CTransaction) (a : bytes) (o : CTxOut) (prev : list TxOutput).

(** [tx] has, at position [p], an output of value [v] whose [p2]-th address is
    [a]. *)
Definition created tx (p : Z) a (p2 v : Z) : Prop :=
  ∃ (k j : nat) o, vout tx !! k = Some o ∧ destinations (scriptPubKey o) !! j = Some a ∧
    p = Z.of_nat k ∧ p2 = Z.of_nat j ∧ v = nValue o.

(** Positions fit the keys, and no output lists an address twice. *)
Record outs_ok tx : Prop := {
  outs_count : Z.of_nat (length (vout tx)) < 2 ^ 31;
  outs_addresses : ∀ o, o ∈ vout tx → NoDup (destinations (scriptPubKey o));
  outs_places : ∀ o, o ∈ vout tx → Z.of_nat (length (destinations (scriptPubKey o))) < 2 ^ 15 }.

Lemma i16_small x : 0 ≤ x < 2 ^ 15 → wrapS 16 x = x.
Proof. intros Hx. apply wrapS_id; [lia|]. unfold in_s. lia. Qed.

Lemma outs_position tx k o : outs_ok tx → vout tx !! k = Some o → i32 (Z.of_nat k) = Z.of_nat k.
Proof. intros Hok Hk. apply lookup_lt_Some in Hk. pose proof (outs_count _ Hok). apply i32_small. unfold in_s. lia. Qed.

Lemma outs_place tx k o j a :
  outs_ok tx → vout tx !! k = Some o → destinations (scriptPubKey o) !! j = Some a → Z.of_nat j < 2 ^ 15.
Proof.
  intros Hok Hk Hj. apply list_elem_of_lookup_2 in Hk. apply lookup_lt_Some in Hj.
  pose proof (outs_places _ Hok _ Hk). lia.
Qed.

Lemma created_value tx p a p2 v p2' v' : created tx p a p2 v → created tx p a p2' v' → v = v'.
Proof. intros (k & j & o & Ho & _ & -> & _ & ->) (k' & j' & o' & Ho' & _ & Ek & _ & ->). simplify_eq. done. Qed.

Lemma created_place tx p a p2 v p2' v' :
  outs_ok tx → created tx p a p2 v → created tx p a p2' v' → p2 = p2'.
Proof.
  intros Hok (k & j & o & Ho & Hj & -> & -> & _) (k' & j' & o' & Ho' & Hj' & Ek & -> & _). simplify_eq.
  f_equal. eapply NoDup_lookup; [|done|done]. eapply outs_addresses; [done|]. by eapply list_elem_of_lookup_2.
Qed.

Lemma elem_of_out_list tx a p p2 v :
  outs_ok tx → (a, (p, p2, v)) ∈ out_list tx ↔ created tx p a p2 v.
Proof.
  intros Hok. unfold out_list. rewrite elem_of_flat_map. split.
  - intros ([k o] & (k' & o' & Hk & [= -> ->])%elem_of_imap & Hin).
    apply list_elem_of_fmap in Hin as ([j b] & [= -> -> -> ->] & (j' & b' & Hj & [= -> ->])%elem_of_imap). simpl in *.
    exists k', j', o'. split_and!; try done; [by eapply outs_position|].
    apply i16_small. split; [lia|]. by eapply outs_place.
  - intros (k & j & o & Hk & Hj & -> & -> & ->). exists (k, o). split; [apply elem_of_imap; eauto|].
    apply list_elem_of_fmap. exists (j, a). simpl. split; [|apply elem_of_imap; eauto].
    rewrite (outs_position tx k o), i16_small; [done | | done | done]. split; [lia|]. by eapply outs_place.
Qed.

Lemma imap_pair_fst {A} (l : list A) : NoDup ((λ q : nat * A, q.1) <$> imap pair l).
Proof. rewrite fmap_imap. apply NoDup_imap_fst. Qed.

Lemma imap_pair_snd {A} (l : list A) : (λ q : nat * A, q.2) <$> imap pair l = l.
Proof. rewrite fmap_imap. trans (id <$> l); [exact (imap_const id l) | apply list_fmap_id]. Qed.

Lemma vout_positions tx : outs_ok tx → NoDup ((λ p : nat * CTxOut, i32 (Z.of_nat p.1)) <$> imap pair (vout tx)).
Proof.
  intros Hok. apply NoDup_fmap_on.
  - intros [k o] [k' o'] (? & ? & Hk & [= <- <-])%elem_of_imap (? & ? & Hk' & [= <- <-])%elem_of_imap E. simpl in E.
    rewrite (outs_position tx k o), (outs_position tx k' o') in E by done. simplify_eq. done.
  - apply (NoDup_fmap_1 fst), imap_pair_fst.
Qed.

Lemma NoDup_out_list tx :
  outs_ok tx → NoDup ((λ e : bytes * (Z * Z * Z), (e.1, e.2.1.1)) <$> out_list tx).
Proof.
  intros Hok. unfold out_list.
  apply (NoDup_flat_map_tag _ _ _ snd (λ p : nat * CTxOut, i32 (Z.of_nat p.1))); [by apply vout_positions | |].
  - intros [k o] y _ (q & -> & _)%list_elem_of_fmap. done.
  - intros [k o] (k' & o' & Hk & [= -> ->])%elem_of_imap. rewrite <-list_fmap_compose.
    apply (NoDup_fmap_1 fst). rewrite <-list_fmap_compose.
    change (NoDup ((λ q : nat * bytes, q.2) <$> imap pair (destinations (scriptPubKey o')))).
    rewrite imap_pair_snd. apply (outs_addresses _ Hok). by eapply list_elem_of_lookup_2.
Qed.

Lemma elem_of_revoke_list tx a p v :
  outs_ok tx → (a, (p, v)) ∈ revoke_list tx ↔ ∃ p2, created tx p a p2 v.
Proof.
  intros Hok. unfold revoke_list. rewrite elem_of_flat_map. split.
  - intros ([k o] & (k' & o' & Hk & [= -> ->])%elem_of_imap & Hin).
    apply list_elem_of_fmap in Hin as (b & [= -> -> ->] & Hj). apply list_elem_of_lookup in Hj as (j & Hj).
    exists (Z.of_nat j), k', j, o'. simpl in *. rewrite (outs_position tx k' o'); done.
  - intros (p2 & k & j & o & Hk & Hj & -> & -> & ->). exists (k, o). split; [apply elem_of_imap; eauto|].
    apply list_elem_of_fmap. exists a. simpl. rewrite (outs_position tx k o) by done. split; [done|].
    by eapply list_elem_of_lookup_2.
Qed.

Lemma NoDup_revoke_list tx :
  outs_ok tx → NoDup ((λ e : bytes * (Z * Z), (e.1, e.2.1)) <$> revoke_list tx).
Proof.
  intros Hok. unfold revoke_list.
  apply (NoDup_flat_map_tag _ _ _ snd (λ p : nat * CTxOut, i32 (Z.of_nat p.1))); [by apply vout_positions | |].
  - intros [k o] y _ (q & -> & _)%list_elem_of_fmap. done.
  - intros [k o] (k' & o' & Hk & [= -> ->])%elem_of_imap. rewrite <-list_fmap_compose.
    apply (NoDup_fmap_1 fst). rewrite <-list_fmap_compose.
    change (NoDup ((λ b : bytes, b) <$> destinations (scriptPubKey o'))). rewrite list_fmap_id.
    apply (outs_addresses _ Hok). by eapply list_elem_of_lookup_2.
Qed.
End outputs.

(** ** The outputs a transaction spends *)
Section inputs.
Context `{Scripts} (body : uint256 → CTransaction).
Implicit Types (tx : CTransaction) (a : bytes) (prev : list TxOutput).

(** The outpoints of a transaction, as the keys show them; [body] is the
    transaction of each hash. *)
Definition points tx : list (uint256 * Z) :=
  if IsCoinBase tx then [] else (λ i, (hash (prevout i), i32 (n (prevout i)))) <$> vin tx.
Definition made_outputs (h : uint256) : list TxOutput := make_output <$> vout (body h).
Definition prev_of tx : option (list TxOutput) :=
  if IsCoinBase tx then Some []
  else mapM (λ i, made_outputs (hash (prevout i)) !! Z.to_nat (n (prevout i))) (vin tx).

(** No outpoint is spent twice, and what is spent comes from transactions whose
    positions fit the keys. *)
Record ins_ok tx : Prop := {
  ins_distinct : NoDup (points tx);
  ins_range : IsCoinBase tx = false → ∀ i, i ∈ vin tx → 0 ≤ n (prevout i) < 2 ^ 31;
  ins_count : Z.of_nat (length (vin tx)) < 2 ^ 31;
  ins_prev : is_Some (prev_of tx);
  ins_outs : ∀ k, k ∈ points tx → outs_ok (body k.1) }.

Lemma ins_point tx i : ins_ok tx → IsCoinBase tx = false → i ∈ vin tx → i32 (n (prevout i)) = n (prevout i).
Proof. intros Hok Hc Hi. pose proof (ins_range _ Hok Hc _ Hi). apply i32_small. unfold in_s. lia. Qed.

(** an input with the output it spends *)
Lemma elem_of_spent tx prev i o :
  ins_ok tx → prev_of tx = Some prev → (i, o) ∈ zip (vin tx) prev →
  IsCoinBase tx = false ∧ i ∈ vin tx ∧ ∃ k out, n (prevout i) = Z.of_nat k ∧
    vout (body (hash (prevout i))) !! k = Some out ∧ o = make_output out.
Proof.
  intros Hok Hp (k & Hi & Ho)%elem_of_zip_lookup. unfold prev_of in Hp. destruct (IsCoinBase tx) eqn:Hc.
  { injection Hp as <-. done. }
  split; [done|]. assert (i ∈ vin tx) as Hin by (by eapply list_elem_of_lookup_2). split; [done|].
  apply mapM_Some in Hp. pose proof (Forall2_lookup_lr _ _ _ _ _ _ Hp Hi Ho) as E.
  unfold made_outputs in E. simpl in E. rewrite list_lookup_fmap in E. apply fmap_Some in E as (out & Hout & ->).
  exists (Z.to_nat (n (prevout i))), out. split_and!; try done.
  pose proof (ins_range _ Hok Hc _ Hin). lia.
Qed.

Lemma spent_position tx prev k i :
  prev_of tx = Some prev → IsCoinBase tx = false → vin tx !! k = Some i → ∃ o, prev !! k = Some o.
Proof.
  intros Hp Hc Hi. unfold prev_of in Hp. rewrite Hc in Hp. apply mapM_Some in Hp.
  destruct (Forall2_lookup_l _ _ _ _ _ Hp Hi) as (o & Ho & _). eauto.
Qed.

Lemma elem_of_points tx k :
  k ∈ points tx ↔ IsCoinBase tx = false ∧ ∃ i, i ∈ vin tx ∧ k = (hash (prevout i), i32 (n (prevout i))).
Proof.
  unfold points. destruct (IsCoinBase tx); [set_solver|]. rewrite list_elem_of_fmap. naive_solver.
Qed.

(** A spent outpoint has its output among the previous outputs. *)
Lemma point_output tx prev g p a p2 v :
  ins_ok tx → prev_of tx = Some prev → (g, p) ∈ points tx → created (body g) p a p2 v →
  ∃ i k j out, (i, make_output out) ∈ zip (vin tx) prev ∧ hash (prevout i) = g ∧ i32 (n (prevout i)) = p ∧
    p = Z.of_nat k ∧ vout (body g) !! k = Some out ∧ destinations (scriptPubKey out) !! j = Some a ∧
    p2 = Z.of_nat j ∧ v = nValue out.
Proof.
  intros Hok Hp (Hc & i & Hi & [= -> ->])%elem_of_points (k & j & out & Hk & Hj & Ek & -> & ->).
  apply list_elem_of_lookup in Hi as (m & Hm). destruct (spent_position _ _ _ _ Hp Hc Hm) as (o & Ho).
  assert ((i, o) ∈ zip (vin tx) prev) as Hz by (apply elem_of_zip_lookup; eauto).
  destruct (elem_of_spent _ _ _ _ Hok Hp Hz) as (_ & Hi & k' & out' & Ek' & Hk' & ->).
  rewrite (ins_point tx i) in * by done. assert (k' = k) as -> by lia. simplify_eq.
  exists i, k, j, out. by rewrite (ins_point tx i).
Qed.

Lemma elem_of_release_list tx prev a g p p2 v :
  ins_ok tx → prev_of tx = Some prev →
  (a, (g, p, p2, v)) ∈ release_list tx prev ↔ (g, p) ∈ points tx ∧ created (body g) p a p2 v.
Proof.
  intros Hok Hp. unfold release_list. rewrite elem_of_flat_map. split.
  - intros ([i o] & Hz & ([j b] & [= -> -> -> -> ->] & Hin)%list_elem_of_fmap).
    apply elem_of_imap in Hin as (j' & b' & Hj & [= -> ->]).
    destruct (elem_of_spent _ _ _ _ Hok Hp Hz) as (Hc & Hi & k & out & Ek & Hk & ->).
    assert ((hash (prevout i), i32 (n (prevout i))) ∈ points tx) as Hpt by (apply elem_of_points; eauto).
    split; [done|]. simpl in *. rewrite (ins_point tx i) by done.
    exists k, j', out. split_and!; try done. apply i32_small.
    pose proof (outs_place _ _ _ _ _ (ins_outs _ Hok _ Hpt) Hk Hj). unfold in_s. lia.
  - intros [Hpt Hcr]. destruct (point_output _ _ _ _ _ _ _ Hok Hp Hpt Hcr)
      as (i & k & j & out & Hz & <- & <- & Ek & Hk & Hj & -> & ->).
    exists (i, make_output out). split; [done|]. apply list_elem_of_fmap. exists (j, a). simpl.
    split; [|apply elem_of_imap; eauto]. do 2 f_equal. f_equal. symmetry. apply i32_small.
    pose proof (outs_place _ _ _ _ _ (ins_outs _ Hok _ Hpt) Hk Hj). unfold in_s. lia.
Qed.

Lemma elem_of_spend_list tx prev a g p v :
  ins_ok tx → prev_of tx = Some prev →
  (a, (g, p, v)) ∈ spend_list tx prev ↔ (g, p) ∈ points tx ∧ ∃ p2, created (body g) p a p2 v.
Proof.
  intros Hok Hp. unfold spend_list. rewrite elem_of_flat_map. split.
  - intros ([i o] & Hz & (b & [= -> -> -> ->] & Hin)%list_elem_of_fmap).
    destruct (elem_of_spent _ _ _ _ Hok Hp Hz) as (Hc & Hi & k & out & Ek & Hk & ->).
    apply list_elem_of_lookup in Hin as (j & Hj). split; [apply elem_of_points; eauto|].
    simpl in *. rewrite (ins_point tx i) by done. exists (Z.of_nat j), k, j, out. done.
  - intros [Hpt (p2 & Hcr)]. destruct (point_output _ _ _ _ _ _ _ Hok Hp Hpt Hcr)
      as (i & k & j & out & Hz & <- & <- & Ek & Hk & Hj & -> & ->).
    exists (i, make_output out). split; [done|]. apply list_elem_of_fmap. exists a. split; [done|].
    by eapply list_elem_of_lookup_2.
Qed.

Lemma zip_points tx prev :
  ins_ok tx → prev_of tx = Some prev →
  NoDup ((λ p : CTxIn * TxOutput, (hash (prevout p.1), i32 (n (prevout p.1)))) <$> zip (vin tx) prev).
Proof.
  intros Hok Hp. pose proof (ins_distinct _ Hok) as Hnd. unfold points, prev_of in *.
  destruct (IsCoinBase tx).
  - injection Hp as <-. rewrite zip_nil_r. constructor.
  - change (NoDup (((λ i, (hash (prevout i), i32 (n (prevout i)))) ∘ fst) <$> zip (vin tx) prev)).
    rewrite list_fmap_compose, fst_zip; [done|]. apply mapM_Some, Forall2_length in Hp. lia.
Qed.

Lemma NoDup_addresses tx prev i o :
  ins_ok tx → prev_of tx = Some prev → (i, o) ∈ zip (vin tx) prev → NoDup (to_addresses o).
Proof.
  intros Hok Hp Hz. destruct (elem_of_spent _ _ _ _ Hok Hp Hz) as (Hc & Hi & k & out & Ek & Hk & ->).
  apply (outs_addresses (body (hash (prevout i)))); [|by eapply list_elem_of_lookup_2].
  apply (ins_outs _ Hok (hash (prevout i), i32 (n (prevout i)))). apply elem_of_points. eauto.
Qed.

Lemma NoDup_spend_list tx prev :
  ins_ok tx → prev_of tx = Some prev →
  NoDup ((λ e : bytes * (uint256 * Z * Z), (e.1, e.2.1)) <$> spend_list tx prev).
Proof.
  intros Hok Hp. unfold spend_list.
  apply (NoDup_flat_map_tag _ _ _ snd
    (λ p : CTxIn * TxOutput, (hash (prevout p.1), i32 (n (prevout p.1))))); [by apply zip_points | |].
  - intros [i o] y _ (q & -> & _)%list_elem_of_fmap. done.
  - intros [i o] Hz. rewrite <-list_fmap_compose. apply (NoDup_fmap_1 fst). rewrite <-list_fmap_compose.
    change (NoDup ((λ b : bytes, b) <$> to_addresses o)). rewrite list_fmap_id. by eapply NoDup_addresses.
Qed.

Lemma NoDup_release_list tx prev :
  ins_ok tx → prev_of tx = Some prev →
  NoDup ((λ e : bytes * (uint256 * Z * Z * Z), (e.1, e.2.1.1)) <$> release_list tx prev).
Proof.
  intros Hok Hp. unfold release_list.
  apply (NoDup_flat_map_tag _ _ _ snd
    (λ p : CTxIn * TxOutput, (hash (prevout p.1), i32 (n (prevout p.1))))); [by apply zip_points | |].
  - intros [i o] y _ (q & -> & _)%list_elem_of_fmap. done.
  - intros [i o] Hz. rewrite <-list_fmap_compose. apply (NoDup_fmap_1 fst). rewrite <-list_fmap_compose.
    change (NoDup ((λ q : nat * bytes, q.2) <$> imap pair (to_addresses o))). rewrite imap_pair_snd.
    by eapply NoDup_addresses.
Qed.
End inputs.
