(* ===== verification/ParserSpec.v ===== *)
(** * What the parser shows

    The world the rows of txlogs2 describe: the confirmed transactions in the
    order of the chain and the unconfirmed ones.  A row takes the world one legal
    step further ([tx_step]).  [shows] says that the parser's tables are those of
    a world: every address has its confirmed transactions in order, its
    unconfirmed ones behind them, and as unspent outputs exactly those of live
    transactions that no live transaction spends. *)
From S2P Require Import Prelude Tx Bytes Text Serialize TxState Notify Ledger LedgerSpec LedgerRefine ParserTx ParserRefine.
From S2P Require Import Balances Utxo.

Record world := {
  w_chain : list (uint256 * (Z * Z));   (** hash, height, time *)
  w_pool : gmap uint256 Z;              (** the time shown *)
  w_work : nat }.                       (** a bound on what was ever indexed *)

Definition emptyWorld : world := {| w_chain := []; w_pool := ∅; w_work := 0 |}.
Definition confirmed (w : world) (h : uint256) : Prop := h ∈ (w_chain w).*1.
Definition live (w : world) (h : uint256) : Prop := confirmed w h ∨ is_Some (w_pool w !! h).

Section spec.
Context `{Scripts} (body : uint256 → CTransaction) (hexes : uint256 → bytes) (C : gset bytes).
Implicit Types (w : world) (h g : uint256) (a : bytes) (t : TxLog2) (A : account) (F : accounts).

(** what a transaction brings to each address *)
Definition prev h : list TxOutput := default [] (prev_of body (body h)).
Definition bal h : gmap bytes Z := addressBalance (prev h) (body h).
Definition touches a h : Prop := is_Some (bal h !! a).
#[export] Instance touches_dec a h : Decision (touches a h).
Proof. unfold touches. apply _. Defined.
Definition spent w (k : uint256 * Z) : Prop := ∃ g, live w g ∧ k ∈ points (body g).

(** A transaction the parser can take: its numbers fit, its addresses fit the
    cache. *)
Record tx_fine h : Prop := {
  fine_hash : in_u 256 h;
  fine_outs : outs_ok (body h);
  fine_ins : ins_ok body (body h);
  fine_value : ∃ v, GetValueOut (body h) = Done v;
  fine_cache : dom (bal h) ⊆ C }.

(** The row carries the transaction of its hash. *)
Definition row_of t : Prop := tx_ t = body (txHash_ t) ∧ txHex_ t = hexes (txHash_ t).

(** the index records a row may make *)
Definition work_of h : nat := S (length (out_list (body h)) + length (release_list (body h) (prev h))).

Inductive tx_step w t : world → Prop :=
| accepts :
    type_ t = LOG2TYPE_TX_ACCEPT → row_of t → blkHeight_ t = -1 →
    ¬ live w (txHash_ t) → tx_fine (txHash_ t) →
    (∀ k, k ∈ points (body (txHash_ t)) → live w k.1 ∧ ¬ spent w k) →
    Z.of_nat (w_work w + work_of (txHash_ t)) < 2 ^ 31 →
    tx_step w t {| w_chain := w_chain w; w_pool := <[txHash_ t := maxBlkTimestamp_ t]> (w_pool w);
                   w_work := w_work w + work_of (txHash_ t) |}
| confirms :
    type_ t = LOG2TYPE_TX_CONFIRM → row_of t → is_Some (w_pool w !! txHash_ t) →
    tx_step w t {| w_chain := w_chain w ++ [(txHash_ t, (blkHeight_ t, maxBlkTimestamp_ t))];
                   w_pool := delete (txHash_ t) (w_pool w); w_work := w_work w |}
| unconfirms c x :
    type_ t = LOG2TYPE_TX_UNCONFIRM → row_of t → w_chain w = c ++ [(txHash_ t, x)] →
    tx_step w t {| w_chain := c; w_pool := <[txHash_ t := 0]> (w_pool w); w_work := w_work w |}
| rejects :
    type_ t = LOG2TYPE_TX_REJECT → row_of t → is_Some (w_pool w !! txHash_ t) →
    (∀ k, spent w k → k.1 ≠ txHash_ t) →
    Z.of_nat (w_work w + work_of (txHash_ t)) < 2 ^ 31 →
    tx_step w t {| w_chain := w_chain w; w_pool := delete (txHash_ t) (w_pool w);
                   w_work := w_work w + work_of (txHash_ t) |}.

(** ** Worlds that occur *)
Record world_ok w : Prop := {
  ok_distinct : NoDup (w_chain w).*1;
  ok_apart : ∀ h, confirmed w h → w_pool w !! h = None;
  ok_fine : ∀ h, live w h → tx_fine h;
  ok_parents : ∀ h k, live w h → k ∈ points (body h) → live w k.1;
  ok_once : ∀ h g k, live w h → live w g → k ∈ points (body h) → k ∈ points (body g) → h = g;
  ok_work : Z.of_nat (w_work w) < 2 ^ 31;
  ok_count : (length (w_chain w) + size (w_pool w) ≤ w_work w)%nat }.

(** ** What an address shows *)
Definition chain_entry a (x : uint256 * (Z * Z)) : AddressTx :=
  {| balance_diff := default 0 (bal x.1 !! a); at_tx_hash := ToString x.1; tx_height := x.2.1;
     tx_block_time := x.2.2 |}.
Definition pool_entry a (x : uint256 * Z) : AddressTx :=
  {| balance_diff := default 0 (bal x.1 !! a); at_tx_hash := ToString x.1; tx_height := -1;
     tx_block_time := x.2 |}.
Definition chain_of w a : list (uint256 * (Z * Z)) := filter (λ x, touches a x.1) (w_chain w).
Definition pool_of w a : list (uint256 * Z) := filter (λ x, touches a x.1) (map_to_list (w_pool w)).

Record history w a A : Prop := {
  hist_conf : take (acc_conf A) (acc_txs A) = chain_entry a <$> chain_of w a;
  hist_pool : drop (acc_conf A) (acc_txs A) ≡ₚ pool_entry a <$> pool_of w a;
  hist_count : (acc_conf A ≤ length (acc_txs A))%nat }.
Record outputs w a A : Prop := {
  outs_unspent : ∀ h p p2 v, acc_unspent A !! (h, p) = Some (p2, v) ↔
    live w h ∧ created (body h) p a p2 v ∧ ¬ spent w (h, p);
  outs_made : (acc_made A ≤ w_work w)%nat }.
Definition account_of w a A : Prop := history w a A ∧ outputs w a A.

(** ** What the transaction tables show *)

(** the block a transaction is shown in *)
Definition shown_at w h (x : Z * Z) : Prop :=
  (h, x) ∈ w_chain w ∨ (is_Some (w_pool w !! h) ∧ x = (-1, 0)).

(** the object of a transaction, but for its block, the fee of a coinbase and the
    time it was made *)
Record object_of h (o : TxObject) : Prop := {
  obj_coinbase : o_is_coinbase o = IsCoinBase (body h);
  obj_version : o_version o = nVersion (body h);
  obj_lock_time : o_lock_time o = nLockTime (body h);
  obj_inputs : o_inputs o = imap (λ k i, make_input (IsCoinBase (body h)) i (prev h !! k)) (vin (body h));
  obj_inputs_count : o_inputs_count o = i32 (Z.of_nat (length (vin (body h))));
  obj_inputs_value : o_inputs_value o = value_in (prev h);
  obj_outputs : o_outputs o = made_outputs body h;
  obj_outputs_count : o_outputs_count o = i32 (Z.of_nat (length (vout (body h))));
  obj_outputs_value : GetValueOut (body h) = Done (o_outputs_value o);
  obj_fee : IsCoinBase (body h) = false → o_fee o = i64 (value_in (prev h) - o_outputs_value o) }.

Record tables_of w (T : tx_tables) : Prop := {
  tab_made : ∀ h o, kv_tx T !! h = Some o → object_of h o;
  tab_objects : ∀ h x, shown_at w h x → ∃ o, kv_tx T !! h = Some o ∧
    (o_block_height o, o_block_time o) = x ∧ o_is_double_spend o = false ∧ o_size o = i32 (hex_size (hexes h));
  tab_spent : ∀ k s, kv_spent T !! k = Some s ↔ ∃ g (i : nat), live w g ∧ points (body g) !! i = Some k ∧
    s = {| sb_position := Z.of_nat i; sb_tx_hash := ToString g |};
  tab_pool : ∀ h e, kv_unconfirmed T !! h = Some e ↔ is_Some (w_pool w !! h) ∧ ∃ o, kv_tx T !! h = Some o ∧
    e = {| un_fee := o_fee o; un_size := i32 (hex_size (hexes h)); un_tx_hash := ToString h |} }.

Lemma tab_outputs w T h o : tables_of w T → kv_tx T !! h = Some o → o_outputs o = made_outputs body h.
Proof. intros HT Ho. by apply obj_outputs, (tab_made _ _ HT). Qed.

Definition pool_bytes w : Z := map_fold (λ h _ s, hex_size (hexes h) + s) 0 (w_pool w).

(** ** The parser *)
Record shows w (s : txs_state) : Prop := {
  shows_accounts : ∃ F, Rep C ∅ (led s) F ∧ sound F ∧ ∀ a, account_of w a (acct a F);
  shows_tables : tables_of w (tables s);
  shows_count : unconfirmedTxsCount_ s = Z.of_nat (size (w_pool w));
  shows_size : unconfirmedTxsSize_ s = i64 (pool_bytes w);
  shows_stored : init_counters (tables s) = (unconfirmedTxsCount_ s, unconfirmedTxsSize_ s) }.
End spec.
