(* ===== verification/ParserHistory.v ===== *)
(** * The history of an address, row by row

    Each kind of row moves the transaction list of an address as the world says:
    the lemmas [history_accept], [history_confirm], [history_unconfirm] and
    [history_reject] are about one account, [each_account] puts the accounts
    together. *)
From S2P Require Import Prelude Tx Bytes Text Serialize Notify Ledger LedgerSpec LedgerRefine ParserTx ParserRefine.
From S2P Require Import Balances Utxo ParserSpec.

Lemma each_account {B} (l : list (bytes * B)) (f : B → account → option account) (F : accounts) :
  NoDup l.*1 → (∀ a b, (a, b) ∈ l → is_Some (f b (acct a F))) →
  ∃ F', on_accounts l f F = Some F' ∧ (∀ a b, (a, b) ∈ l → f b (acct a F) = Some (acct a F')) ∧
    ∀ a, a ∉ l.*1 → acct a F' = acct a F.
Proof.
  revert F. induction l as [|[a b] l IH]; intros F Hnd Hf; [by exists F; set_solver|].
  csimpl in Hnd. apply NoDup_cons in Hnd as [Ha Hnd]. destruct (Hf a b) as [A HA]; [left|].
  destruct (IH (<[a := A]> F)) as (F' & HF' & Hin & Hout); [done | |].
  - intros a' b' Hin. rewrite acct_insert. case_decide; [|apply Hf; by right].
    subst a'. destruct Ha. by apply (list_elem_of_fmap_2 fst _ (a, b')).
  - exists F'. split; [cbn [on_accounts]; unfold on_account; by rewrite HA|]. split.
    + intros a' b' [[= -> ->]|Hl]%elem_of_cons.
      * by rewrite Hout, acct_insert, decide_True.
      * rewrite <-(Hin a' b') by done. rewrite acct_insert, decide_False; [done|]. intros E. subst a'.
        apply Ha. by apply (list_elem_of_fmap_2 fst _ (a, b')).
    + intros a' Hn. csimpl in Hn. apply not_elem_of_cons in Hn as [Hne Hn].
      rewrite Hout, acct_insert, decide_False by done. done.
Qed.

Lemma acc_index_intro h (l : list AddressTx) i e :
  NoDup (at_tx_hash <$> l) → l !! i = Some e → at_tx_hash e = h → acc_index h l = Some i.
Proof.
  intros Hnd Hi <-. unfold acc_index.
  assert (list_find (λ e', at_tx_hash e' = at_tx_hash e) l = Some (i, e)) as ->; [|done].
  apply list_find_Some. split_and!; [done | done |]. intros j y Hj Hlt E.
  assert (j = i); [|lia]. eapply NoDup_lookup; [done | by rewrite list_lookup_fmap, Hj |].
  by rewrite list_lookup_fmap, Hi, E.
Qed.

Lemma acc_index_none h (l : list AddressTx) : h ∉ at_tx_hash <$> l → acc_index h l = None.
Proof.
  intros Hn. unfold acc_index. rewrite (proj2 (list_find_None _ _)); [done|].
  apply Forall_forall. intros e He E. apply Hn. apply list_elem_of_fmap. eauto.
Qed.

Section history.
Context `{Scripts} (body : uint256 → CTransaction) (C : gset bytes).
Implicit Types (w : world) (h g : uint256) (a : bytes) (A : account).
Abbreviation world_ok := (world_ok body C).
Abbreviation history := (history body).
Abbreviation touches := (touches body).
Abbreviation bal := (bal body).

(** ** The entries of an address *)

Lemma pool_elem w h tm : (h, tm) ∈ map_to_list (w_pool w) ↔ w_pool w !! h = Some tm.
Proof. apply elem_of_map_to_list. Qed.

(** the hashes of an address's entries *)
Definition hashes w a : list uint256 := (chain_of body w a).*1 ++ (pool_of body w a).*1.

Lemma elem_of_hashes w a h : h ∈ hashes w a ↔ live w h ∧ touches a h.
Proof.
  unfold hashes, live, confirmed, chain_of, pool_of. rewrite elem_of_app, !list_elem_of_fmap. split.
  - intros [([g x] & -> & [Ht Hin]%list_elem_of_filter)|([g x] & -> & [Ht Hin]%list_elem_of_filter)]; simpl in *.
    + split; [|done]. left. by exists (g, x).
    + apply pool_elem in Hin. split; [|done]. right. eauto.
  - intros [[Hl|[tm Hp]] Ht].
    + destruct Hl as ([g x] & -> & Hin). left. exists (g, x). split; [done|].
      by apply list_elem_of_filter.
    + right. exists (h, tm). split; [done|]. apply list_elem_of_filter. split; [done|]. by apply pool_elem.
Qed.

Lemma NoDup_filter_fst {B} (P : uint256 * B → Prop) `{!∀ x, Decision (P x)} (l : list (uint256 * B)) :
  NoDup l.*1 → NoDup (filter P l).*1.
Proof. intros Hnd. eapply sublist_NoDup; [exact Hnd|]. apply fmap_sublist, sublist_filter. Qed.

Lemma NoDup_hashes w a : world_ok w → NoDup (hashes w a).
Proof.
  intros Hok. unfold hashes. apply NoDup_app. split_and!.
  - apply NoDup_filter_fst, Hok.
  - intros h Hc Hp.
    apply list_elem_of_fmap in Hc as ([g x] & -> & [_ Hc]%list_elem_of_filter).
    apply list_elem_of_fmap in Hp as ([g' tm] & Eg & [_ Hp]%list_elem_of_filter). simpl in Eg. subst g'.
    apply pool_elem in Hp. rewrite (ok_apart _ _ _ Hok g) in Hp; [done|].
    by apply (list_elem_of_fmap_2 fst _ (g, x)).
  - apply NoDup_filter_fst, NoDup_fst_map_to_list.
Qed.

Lemma entries_perm w a A :
  history w a A → acc_txs A ≡ₚ (chain_entry body a <$> chain_of body w a) ++ (pool_entry body a <$> pool_of body w a).
Proof.
  intros [H1 H2 H3]. rewrite <-(take_drop (acc_conf A) (acc_txs A)) at 1. by rewrite H1, H2.
Qed.

Lemma entries_hashes w a A : history w a A → at_tx_hash <$> acc_txs A ≡ₚ ToString <$> hashes w a.
Proof.
  intros Hh. rewrite (entries_perm _ _ _ Hh). unfold hashes. by rewrite !fmap_app, <-!list_fmap_compose.
Qed.

Lemma ToString_inj w h g : world_ok w → live w h → live w g → ToString h = ToString g → h = g.
Proof.
  intros Hok Hh Hg E. apply GetHex_inj; [| |done]; by eapply fine_hash, ok_fine.
Qed.

Lemma NoDup_entries w a A : world_ok w → history w a A → NoDup (at_tx_hash <$> acc_txs A).
Proof.
  intros Hok Hh. rewrite (entries_hashes _ _ _ Hh). apply NoDup_fmap_on; [|by apply NoDup_hashes].
  intros h g [Hl _]%elem_of_hashes [Hl' _]%elem_of_hashes. by eapply ToString_inj.
Qed.

Lemma entry_absent w a A h :
  world_ok w → history w a A → in_u 256 h → ¬ live w h → acc_index (ToString h) (acc_txs A) = None.
Proof.
  intros Hok Hh Hr Hn. apply acc_index_none. rewrite (entries_hashes _ _ _ Hh).
  intros (g & E & [Hg _]%elem_of_hashes)%list_elem_of_fmap. apply Hn.
  replace h with g; [done|]. symmetry. apply GetHex_inj; [done| |done]. by eapply fine_hash, ok_fine.
Qed.

Lemma entry_balance w a A e :
  history w a A → e ∈ acc_txs A → ∃ h, live w h ∧ at_tx_hash e = ToString h ∧
    balance_diff e = default 0 (bal h !! a).
Proof.
  intros Hh He. rewrite (entries_perm _ _ _ Hh) in He. apply elem_of_app in He as [He|He].
  - apply list_elem_of_fmap in He as ([h x] & -> & Hin). exists h. split; [|done].
    apply (elem_of_hashes w a). unfold hashes. apply elem_of_app. left. by apply (list_elem_of_fmap_2 fst _ (h, x)).
  - apply list_elem_of_fmap in He as ([h x] & -> & Hin). exists h. split; [|done].
    apply (elem_of_hashes w a). unfold hashes. apply elem_of_app. right. by apply (list_elem_of_fmap_2 fst _ (h, x)).
Qed.

Lemma history_length w a A : world_ok w → history w a A → (length (acc_txs A) ≤ w_work w)%nat.
Proof.
  intros Hok Hh. rewrite (Permutation_length (entries_perm _ _ _ Hh)), length_app, !length_fmap.
  unfold chain_of, pool_of. pose proof (ok_count _ _ _ Hok) as Hc.
  rewrite <-length_map_to_list in Hc.
  pose proof (length_filter (λ x, touches a x.1) (w_chain w)).
  pose proof (length_filter (λ x, touches a x.1) (map_to_list (w_pool w))). lia.
Qed.

(** ** The pool of an address *)
Definition pool_at a (m : gmap uint256 Z) : list (uint256 * Z) := filter (λ x, touches a x.1) (map_to_list m).

Lemma pool_insert a m h tm :
  m !! h = None → pool_at a (<[h := tm]> m) ≡ₚ if decide (touches a h) then (h, tm) :: pool_at a m else pool_at a m.
Proof. intros Hn. unfold pool_at. rewrite (map_to_list_insert m h tm) by done. rewrite filter_cons. done. Qed.

Lemma pool_delete a m h tm :
  m !! h = Some tm →
  pool_at a m ≡ₚ if decide (touches a h) then (h, tm) :: pool_at a (delete h m) else pool_at a (delete h m).
Proof.
  intros Hs. rewrite <-(pool_insert a (delete h m) h tm) by apply lookup_delete_eq.
  by rewrite insert_delete_id.
Qed.

(** ** Accounts that keep their transactions *)

Lemma history_same w a A A' : same_txs A A' → history w a A → history w a A'.
Proof. intros [E1 E2] [H1 H2 H3]. by constructor; rewrite E1, ?E2. Qed.

Lemma history_ext w w' a A :
  chain_of body w' a = chain_of body w a → pool_of body w' a ≡ₚ pool_of body w a →
  history w a A → history w' a A.
Proof.
  intros Ec Ep [H1 H2 H3]. constructor; [by rewrite Ec | | done].
  etrans; [exact H2|]. by apply fmap_Permutation.
Qed.

(** ** Accept *)

Lemma history_accept w a A h tm d k :
  world_ok w → history w a A → in_u 256 h → ¬ live w h → bal h !! a = Some d → Z.of_nat (w_work w) + 1 < 2 ^ 31 →
  ∃ A', acc_accept (ToString h) tm d A = Some A' ∧
    history {| w_chain := w_chain w; w_pool := <[h := tm]> (w_pool w); w_work := k |} a A' ∧
    acc_unspent A' = acc_unspent A ∧ acc_made A' = acc_made A.
Proof.
  intros Hok Hh Hr Hn Hd Hw. pose proof (history_length _ _ _ Hok Hh) as Hlen. unfold acc_accept.
  rewrite guard_intro.
  2: { split; [by eapply entry_absent | lia]. }
  eexists. split; [done|]. split; [|done]. destruct Hh as [H1 H2 H3]. constructor; simpl.
  - rewrite take_app_le by done. exact H1.
  - rewrite drop_app_le by done. rewrite H2.
    assert (w_pool w !! h = None) as Hp by (apply eq_None_not_Some; intros ?; apply Hn; by right).
    change (pool_of body {| w_chain := w_chain w; w_pool := <[h := tm]> (w_pool w); w_work := k |} a)
      with (pool_at a (<[h := tm]> (w_pool w))).
    rewrite (fmap_Permutation _ _ _ (pool_insert a _ h tm Hp)).
    rewrite decide_True by (unfold ParserSpec.touches; by rewrite Hd). csimpl.
    rewrite Permutation_app_comm. simpl. apply Permutation_cons; [|done].
    unfold pool_entry. simpl. by rewrite Hd.
  - rewrite length_app. lia.
Qed.

Lemma history_insert_other w a A h tm k :
  history w a A → w_pool w !! h = None → ¬ touches a h →
  history {| w_chain := w_chain w; w_pool := <[h := tm]> (w_pool w); w_work := k |} a A.
Proof.
  intros Hh Hp Ht. apply (history_ext w); [done | | exact Hh].
  rewrite (pool_insert a (w_pool w) h tm Hp). by rewrite decide_False.
Qed.

Lemma history_delete_other w a A h tm c k :
  history w a A → w_pool w !! h = Some tm → ¬ touches a h →
  filter (λ x, touches a x.1) c = chain_of body w a →
  history {| w_chain := c; w_pool := delete h (w_pool w); w_work := k |} a A.
Proof.
  intros Hh Hp Ht Hc. apply (history_ext w); [exact Hc | | exact Hh].
  symmetry. rewrite (pool_delete a (w_pool w) h tm Hp). by rewrite decide_False.
Qed.

(** ** An unconfirmed entry *)

(** where an unconfirmed transaction stands *)
Lemma pool_index w a A h tm :
  world_ok w → history w a A → w_pool w !! h = Some tm → touches a h →
  ∃ i, acc_index (ToString h) (acc_txs A) = Some i ∧ acc_txs A !! i = Some (pool_entry body a (h, tm)) ∧
    (acc_conf A ≤ i)%nat.
Proof.
  intros Hok Hh Hp Ht. pose proof (hist_pool _ _ _ _ Hh) as H2.
  assert (pool_entry body a (h, tm) ∈ drop (acc_conf A) (acc_txs A)) as Hin.
  { rewrite H2. apply list_elem_of_fmap_2, list_elem_of_filter. split; [done|]. by apply pool_elem. }
  apply list_elem_of_lookup in Hin as (j & Hj). rewrite lookup_drop in Hj.
  exists (acc_conf A + j)%nat. split_and!; [|done|lia].
  eapply acc_index_intro; [by eapply NoDup_entries | exact Hj | done].
Qed.

Lemma history_confirm w a A h tm0 tm ht k :
  world_ok w → history w a A → w_pool w !! h = Some tm0 → touches a h →
  ∃ A', acc_confirm (ToString h) tm ht A = Some A' ∧
    history {| w_chain := w_chain w ++ [(h, (ht, tm))]; w_pool := delete h (w_pool w); w_work := k |} a A' ∧
    acc_unspent A' = acc_unspent A ∧ acc_made A' = acc_made A.
Proof.
  intros Hok Hh Hp Ht. destruct (pool_index _ _ _ _ _ Hok Hh Hp Ht) as (i & Hi & He & Hle).
  unfold acc_confirm. rewrite Hi. cbn [mbind option_bind]. rewrite guard_intro by done.
  eexists. split; [done|]. split; [|done]. destruct Hh as [H1 H2 H3].
  pose proof (lookup_lt_Some _ _ _ He) as Hlt. set (l := swap_at (acc_conf A) i (acc_txs A)).
  assert (l !! acc_conf A = Some (pool_entry body a (h, tm0))) as Hl.
  { apply moved_entry; [done|]. apply lookup_lt_is_Some_2. lia. }
  assert (length l = length (acc_txs A)) as El by apply length_swap_at.
  constructor; cbn [acc_conf acc_txs with_list w_chain w_pool].
  - unfold chain_of. cbn [w_chain]. rewrite filter_app, filter_cons, decide_True by done.
    rewrite filter_nil, fmap_app. csimpl.
    rewrite (take_S_r _ _ (chain_entry body a (h, (ht, tm)))).
    + f_equal. rewrite take_alter_ge by lia. unfold l. rewrite take_swap_at by lia. exact H1.
    + by rewrite list_lookup_alter_eq, Hl.
  - rewrite drop_alter_lt by lia.
    apply (Permutation_cons_inv (a := pool_entry body a (h, tm0))).
    rewrite <-(drop_S l _ (acc_conf A) Hl). unfold l. rewrite drop_swap_at by lia.
    rewrite H2. change (pool_of body w a) with (pool_at a (w_pool w)).
    rewrite (fmap_Permutation _ _ _ (pool_delete a _ h tm0 Hp)). by rewrite decide_True.
  - rewrite length_alter. lia.
Qed.

Lemma history_reject w a A h tm x d k :
  world_ok w → history w a A → w_pool w !! h = Some tm → bal h !! a = Some d →
  x = ToString h ∨ acc_index x (acc_txs A) = None →
  ∃ A', acc_reject x (ToString h) d A = Some A' ∧
    history {| w_chain := w_chain w; w_pool := delete h (w_pool w); w_work := k |} a A' ∧
    acc_unspent A' = acc_unspent A ∧ acc_made A' = acc_made A.
Proof.
  intros Hok Hh Hp Hd Hx. assert (touches a h) as Ht by (unfold ParserSpec.touches; by rewrite Hd).
  destruct (pool_index _ _ _ _ _ Hok Hh Hp Ht) as (i & Hi & He & Hle).
  unfold acc_reject. rewrite Hi. cbn [mbind option_bind].
  rewrite guard_intro by (split_and!; [by rewrite He; simpl; rewrite Hd | done | done]).
  eexists. split; [done|]. split; [|done]. destruct Hh as [H1 H2 H3].
  pose proof (lookup_lt_Some _ _ _ He) as Hlt. set (m := pred (length (acc_txs A))).
  set (l := swap_at m i (acc_txs A)).
  assert (l !! m = Some (pool_entry body a (h, tm))) as Hl.
  { apply moved_entry; [done|]. apply lookup_lt_is_Some_2. lia. }
  assert (length l = length (acc_txs A)) as El by apply length_swap_at.
  assert (take m l ++ [pool_entry body a (h, tm)] = l) as Eapp.
  { rewrite <-(take_S_r _ _ _ Hl). apply take_ge. lia. }
  constructor; cbn [acc_conf acc_txs with_list w_chain w_pool].
  - rewrite take_take, Nat.min_l by lia. unfold l. rewrite take_swap_at by lia. exact H1.
  - apply (Permutation_cons_inv (a := pool_entry body a (h, tm))). rewrite Permutation_cons_append.
    rewrite <-drop_app_le by (rewrite length_take; lia). rewrite Eapp. unfold l. rewrite drop_swap_at by lia.
    rewrite H2. change (pool_of body w a) with (pool_at a (w_pool w)).
    rewrite (fmap_Permutation _ _ _ (pool_delete a _ h tm Hp)). by rewrite decide_True.
  - rewrite length_take. lia.
Qed.

(** ** Unconfirm *)
Lemma history_unconfirm w a A h c x k :
  world_ok w → history w a A → w_chain w = c ++ [(h, x)] → touches a h →
  ∃ A', acc_unconfirm (ToString h) A = Some A' ∧
    history {| w_chain := c; w_pool := <[h := 0]> (w_pool w); w_work := k |} a A' ∧
    acc_unspent A' = acc_unspent A ∧ acc_made A' = acc_made A.
Proof.
  intros Hok Hh Hc Ht. pose proof (NoDup_entries _ _ _ Hok Hh) as Hnd. destruct Hh as [H1 H2 H3].
  set (m := length (filter (λ y, touches a y.1) c)).
  unfold chain_of in H1. rewrite Hc, filter_app, filter_cons, decide_True, filter_nil, fmap_app in H1 by done.
  csimpl in H1.
  assert (acc_conf A = S m) as Em.
  { apply (f_equal length) in H1. rewrite length_take, length_app, length_fmap in H1. simpl in H1. subst m. lia. }
  assert (acc_txs A !! m = Some (chain_entry body a (h, x))) as He.
  { rewrite <-(lookup_take_lt _ (acc_conf A) m) by lia. rewrite H1.
    rewrite lookup_app_r by (rewrite length_fmap; subst m; lia). rewrite length_fmap. subst m.
    by rewrite Nat.sub_diag. }
  assert (w_pool w !! h = None) as Hp.
  { apply (ok_apart _ _ _ Hok). unfold confirmed. rewrite Hc, fmap_app. set_solver. }
  unfold acc_unconfirm. rewrite (acc_index_intro _ _ _ _ Hnd He) by done. cbn [mbind option_bind].
  rewrite guard_intro by done.
  eexists. split; [done|]. split; [|done].
  constructor; cbn [acc_conf acc_txs with_list w_chain w_pool].
  - rewrite take_alter_ge by lia. unfold chain_of. cbn [w_chain].
    apply (f_equal (take m)) in H1. rewrite take_take, Nat.min_l in H1 by lia. rewrite H1.
    apply take_app_length'. by rewrite length_fmap.
  - change (pool_of body {| w_chain := c; w_pool := <[h := 0]> (w_pool w); w_work := k |} a)
      with (pool_at a (<[h := 0]> (w_pool w))).
    rewrite (fmap_Permutation _ _ _ (pool_insert a _ h 0 Hp)). rewrite decide_True by done. csimpl.
    erewrite drop_S by (rewrite list_lookup_alter_eq, He; done). rewrite drop_alter_lt by lia.
    apply Permutation_cons; [done|]. rewrite <-Em. exact H2.
  - rewrite length_alter. lia.
Qed.

Lemma history_unconfirm_other w a A h c x k :
  world_ok w → history w a A → w_chain w = c ++ [(h, x)] → ¬ touches a h →
  history {| w_chain := c; w_pool := <[h := 0]> (w_pool w); w_work := k |} a A.
Proof.
  intros Hok Hh Hc Ht.
  assert (w_pool w !! h = None) as Hp.
  { apply (ok_apart _ _ _ Hok). unfold confirmed. rewrite Hc, fmap_app. set_solver. }
  apply (history_ext w); [| |exact Hh].
  - unfold chain_of. cbn [w_chain]. rewrite Hc, filter_app, filter_cons, decide_False by done. by rewrite filter_nil, app_nil_r.
  - change (pool_at a (<[h := 0]> (w_pool w)) ≡ₚ pool_at a (w_pool w)). rewrite (pool_insert a _ h 0 Hp).
    by rewrite decide_False.
Qed.
End history.
