(* ===== verification/ParserSteps.v ===== *)
(** * Legal rows keep the parser's world

    The worlds stay well formed ([accept_world] and its siblings), and the
    accounts of a world become those of the next one ([accept_accounts_of] and
    its siblings). *)
From S2P Require Import Prelude Tx Bytes Text Serialize TxState Notify Ledger LedgerSpec LedgerRefine ParserTx ParserRefine.
From S2P Require Import Balances Utxo ParserSpec ParserHistory.

Section steps.
Context `{Scripts} (body : uint256 → CTransaction) (C : gset bytes).
Implicit Types (w : world) (h g : uint256) (a : bytes) (t : TxLog2) (A : account) (F : accounts).
Abbreviation world_ok := (world_ok body C).
Abbreviation history := (history body).
Abbreviation outputs := (outputs body).
Abbreviation account_of := (account_of body).
Abbreviation touches := (touches body).
Abbreviation bal := (bal body).
Abbreviation prev := (prev body).
Abbreviation spent := (spent body).
Abbreviation work_of := (work_of body).
Abbreviation tx_fine := (tx_fine body C).

(** ** The worlds *)

Definition accept_of w h tm : world :=
  {| w_chain := w_chain w; w_pool := <[h := tm]> (w_pool w); w_work := w_work w + work_of h |}.
Definition confirm_of w h (x : Z * Z) : world :=
  {| w_chain := w_chain w ++ [(h, x)]; w_pool := delete h (w_pool w); w_work := w_work w |}.
Definition unconfirm_of w h (c : list (uint256 * (Z * Z))) : world :=
  {| w_chain := c; w_pool := <[h := 0]> (w_pool w); w_work := w_work w |}.
Definition reject_of w h : world :=
  {| w_chain := w_chain w; w_pool := delete h (w_pool w); w_work := w_work w + work_of h |}.

Lemma live_accept w h tm g : live (accept_of w h tm) g ↔ live w g ∨ g = h.
Proof.
  unfold live, confirmed, accept_of. simpl. rewrite lookup_insert.
  destruct (decide (h = g)) as [->|Hne]; [|naive_solver].
  split; [naive_solver|]. intros _. right. eauto.
Qed.

Lemma live_confirm w h x g : is_Some (w_pool w !! h) → live (confirm_of w h x) g ↔ live w g.
Proof.
  clear body C.
  intros Hp. unfold live, confirmed, confirm_of. simpl. rewrite fmap_app, elem_of_app. csimpl.
  rewrite list_elem_of_singleton, lookup_delete. destruct (decide (h = g)) as [->|Hne].
  - naive_solver.
  - split; [|naive_solver]. intros [[?| ->]|?]; [by left | done | by right].
Qed.

Lemma live_unconfirm w h c x g : w_chain w = c ++ [(h, x)] → live (unconfirm_of w h c) g ↔ live w g.
Proof.
  clear body C.
  intros Hc. unfold live, confirmed, unconfirm_of. simpl. rewrite Hc, fmap_app, elem_of_app. csimpl.
  rewrite list_elem_of_singleton, lookup_insert. destruct (decide (h = g)) as [->|Hne].
  - split; [|right; eauto]. intros _. left. by right.
  - split; [naive_solver|]. intros [[?| ->]|?]; [by left | done | by right].
Qed.

Lemma live_reject w h g : world_ok w → is_Some (w_pool w !! h) → live (reject_of w h) g ↔ live w g ∧ g ≠ h.
Proof.
  intros Hok Hp. unfold live, confirmed, reject_of. simpl. rewrite lookup_delete.
  destruct (decide (h = g)) as [->|Hne]; [|naive_solver].
  split; [|naive_solver]. intros [Hc|[? Hc]]; [|done].
  pose proof (ok_apart _ _ _ Hok _ Hc) as E. rewrite E in Hp. by destruct Hp.
Qed.

Lemma live_pool w h : is_Some (w_pool w !! h) → live w h.
Proof. by right. Qed.

(** What depends on the live transactions only. *)
Lemma spent_ext w w' k : (∀ g, live w' g ↔ live w g) → spent w' k ↔ spent w k.
Proof. intros E. unfold ParserSpec.spent. by setoid_rewrite E. Qed.

Lemma outputs_ext w w' a A :
  (∀ g, live w' g ↔ live w g) → w_work w = w_work w' → outputs w a A → outputs w' a A.
Proof.
  intros E Ew [H1 H2]. constructor; [|by rewrite <-Ew]. intros h p p2 v. rewrite H1, E.
  by rewrite (spent_ext w w').
Qed.

Lemma size_insert_new (m : gmap uint256 Z) h tm : m !! h = None → size (<[h := tm]> m) = S (size m).
Proof. intros Hn. by apply map_size_insert_None. Qed.

Lemma size_delete_pool (m : gmap uint256 Z) h : is_Some (m !! h) → size m = S (size (delete h m)).
Proof.
  intros [tm Hs]. rewrite <-(size_insert_new _ h tm) by apply lookup_delete_eq. by rewrite insert_delete_id.
Qed.

Lemma not_live_pool w h : ¬ live w h → w_pool w !! h = None.
Proof. intros Hn. apply eq_None_not_Some. intros Hs. apply Hn. by right. Qed.

Lemma accept_world w h tm :
  world_ok w → ¬ live w h → tx_fine h →
  (∀ k, k ∈ points (body h) → live w k.1 ∧ ¬ spent w k) → Z.of_nat (w_work w + work_of h) < 2 ^ 31 →
  world_ok (accept_of w h tm).
Proof.
  intros Hok Hn Hf Hpt Hw. constructor.
  - apply Hok.
  - intros g Hg. simpl. rewrite lookup_insert_ne; [by apply Hok|]. intros ->. apply Hn. by left.
  - intros g [Hg| ->]%live_accept; [by apply Hok|done].
  - intros g k Hg Hk. apply live_accept. left. apply live_accept in Hg as [Hg| ->].
    + by eapply ok_parents.
    + by apply Hpt.
  - intros g g' k Hg Hg' Hk Hk'. apply live_accept in Hg as [Hg| ->], Hg' as [Hg'| ->]; [| | |done].
    + by eapply ok_once.
    + destruct (proj2 (Hpt _ Hk')). by exists g.
    + destruct (proj2 (Hpt _ Hk)). by exists g'.
  - exact Hw.
  - simpl. rewrite size_insert_new by by apply not_live_pool. pose proof (ok_count _ _ _ Hok).
    unfold ParserSpec.work_of. lia.
Qed.

Lemma same_live_world w w' :
  world_ok w → (∀ g, live w' g ↔ live w g) → NoDup (w_chain w').*1 →
  (∀ h, confirmed w' h → w_pool w' !! h = None) → w_work w' = w_work w →
  (length (w_chain w') + size (w_pool w') ≤ w_work w')%nat → world_ok w'.
Proof.
  intros Hok E Hd Hap Hw Hc. constructor; try done.
  - intros h Hh%E. by apply Hok.
  - intros h k Hh%E Hk. apply E. by eapply ok_parents.
  - intros h g k Hh%E Hg%E. by eapply ok_once.
  - rewrite Hw. apply Hok.
Qed.

Lemma confirm_world w h x : world_ok w → is_Some (w_pool w !! h) → world_ok (confirm_of w h x).
Proof.
  intros Hok Hp. assert (¬ confirmed w h) as Hn.
  { intros Hc. rewrite (ok_apart _ _ _ Hok _ Hc) in Hp. by destruct Hp. }
  apply (same_live_world w); [done | intros; by apply live_confirm | | | done |].
  - simpl. rewrite fmap_app. apply NoDup_app. split_and!; [apply Hok | | csimpl; apply NoDup_singleton].
    intros g Hg ->%list_elem_of_singleton. by apply Hn.
  - intros g Hg. simpl. rewrite lookup_delete. case_decide as E; [done|].
    unfold confirmed, confirm_of in Hg. simpl in Hg. rewrite fmap_app in Hg. csimpl in Hg.
    apply elem_of_app in Hg as [Hg|Hg]; [by apply Hok|]. apply list_elem_of_singleton in Hg. by destruct E.
  - simpl. rewrite length_app. simpl. pose proof (ok_count _ _ _ Hok) as Hc.
    rewrite (size_delete_pool _ _ Hp) in Hc. lia.
Qed.

Lemma unconfirm_world w h c x : world_ok w → w_chain w = c ++ [(h, x)] → world_ok (unconfirm_of w h c).
Proof.
  intros Hok Hc. pose proof (ok_distinct _ _ _ Hok) as Hnd. rewrite Hc, fmap_app in Hnd. csimpl in Hnd.
  apply NoDup_app in Hnd as (Hnd & Hdis & _).
  assert (w_pool w !! h = None) as Hp.
  { apply (ok_apart _ _ _ Hok). unfold confirmed. rewrite Hc, fmap_app. set_solver. }
  apply (same_live_world w); [done | intros; by eapply live_unconfirm | done | | done |].
  - intros g Hg. simpl. rewrite lookup_insert_ne.
    + apply (ok_apart _ _ _ Hok). unfold confirmed. rewrite Hc, fmap_app. apply elem_of_app. by left.
    + intros ->. apply (Hdis _ Hg). left.
  - simpl. rewrite size_insert_new by done. pose proof (ok_count _ _ _ Hok) as Hl.
    rewrite Hc, length_app in Hl. simpl in Hl. lia.
Qed.

Lemma reject_world w h :
  world_ok w → is_Some (w_pool w !! h) → (∀ k, spent w k → k.1 ≠ h) →
  Z.of_nat (w_work w + work_of h) < 2 ^ 31 → world_ok (reject_of w h).
Proof.
  intros Hok Hp Hsp Hw. constructor.
  - apply Hok.
  - intros g Hg. simpl. rewrite lookup_delete. case_decide; [done|]. by apply Hok.
  - intros g [Hg _]%live_reject; [by apply Hok | done | done].
  - intros g k Hg Hk. apply live_reject in Hg as [Hg Hne]; [|done..]. apply live_reject; [done..|].
    split; [by eapply ok_parents|]. apply Hsp. by exists g.
  - intros g g' k Hg Hg'. apply live_reject in Hg as [Hg _], Hg' as [Hg' _]; [|done..]. by eapply ok_once.
  - exact Hw.
  - simpl. pose proof (ok_count _ _ _ Hok) as Hc. rewrite (size_delete_pool _ _ Hp) in Hc. lia.
Qed.

(** ** The accounts *)

Lemma prev_Some h : tx_fine h → prev_of body (body h) = Some (prev h).
Proof. intros Hf. unfold ParserSpec.prev. by destruct (ins_prev _ _ (fine_ins _ _ _ Hf)) as [l ->]. Qed.

Lemma items_NoDup (m : gmap bytes Z) : NoDup (text_items m).*1.
Proof. apply NoDup_map_items. Qed.

(** the entries of a transaction, on every address *)
Lemma entries_all (Q Q' : bytes → account → Prop) h (f : Z → account → option account) F :
  (∀ a d A, Q a A → bal h !! a = Some d → ∃ A', f d A = Some A' ∧ Q' a A') →
  (∀ a A, Q a A → ¬ touches a h → Q' a A) →
  (∀ a, Q a (acct a F)) →
  ∃ F', on_accounts (text_items (bal h)) f F = Some F' ∧ ∀ a, Q' a (acct a F').
Proof.
  intros Hin Hout HQ. destruct (each_account (text_items (bal h)) f F) as (F' & HF' & H1 & H2).
  - apply items_NoDup.
  - intros a d Hd%elem_of_map_items. destruct (Hin a d (acct a F)) as (A' & -> & _); [done..|]. eauto.
  - exists F'. split; [done|]. intros a. destruct (bal h !! a) as [d|] eqn:Hd.
    + destruct (Hin a d (acct a F)) as (A' & E & HA'); [done..|].
      rewrite (H1 a d) in E by by apply elem_of_map_items. by injection E as <-.
    + rewrite H2.
      * apply Hout; [done|]. unfold ParserSpec.touches. rewrite Hd. by intros [].
      * intros ([b d] & Eb & Hb%elem_of_map_items)%list_elem_of_fmap. simpl in Eb. congruence.
Qed.

(** the outputs of [h], as records of [h] *)
Definition with_hash h (e : Z * Z * Z) : uint256 * Z * Z * Z := let '(p, p2, v) := e in (h, p, p2, v).
Definition with_hash' h (e : Z * Z) : uint256 * Z * Z := let '(p, v) := e in (h, p, v).

Lemma on_accounts_ext {B} (l : list (bytes * B)) (f g : B → account → option account) F :
  (∀ b A, f b A = g b A) → on_accounts l f F = on_accounts l g F.
Proof.
  intros Hfg. revert F. induction l as [|[a b] l IH]; intros F; [done|]. cbn [on_accounts]. unfold on_account.
  rewrite Hfg. destruct (g b (acct a F)); [apply IH|done].
Qed.

Lemma receives_hash h (l : list (bytes * (Z * Z * Z))) F :
  on_accounts l (λ '(p, p2, v), acc_receive h p p2 v) F =
  on_accounts (prod_map id (with_hash h) <$> l) (λ '(g, p, p2, v), acc_receive g p p2 v) F.
Proof. rewrite on_accounts_fmap. apply on_accounts_ext. by intros [[p p2] v] A. Qed.

Lemma revokes_hash h (l : list (bytes * (Z * Z))) F :
  on_accounts l (λ '(p, v), acc_revoke h p v) F =
  on_accounts (prod_map id (with_hash' h) <$> l) (λ '(g, p, v), acc_revoke g p v) F.
Proof. rewrite on_accounts_fmap. apply on_accounts_ext. by intros [p v] A. Qed.

Lemma NoDup_with_hash h (l : list (bytes * (Z * Z * Z))) :
  NoDup ((λ e, (e.1, e.2.1.1)) <$> l) → NoDup ((λ e, (e.1, e.2.1.1)) <$> (prod_map id (with_hash h) <$> l)).
Proof.
  intros Hnd. rewrite <-list_fmap_compose. apply (NoDup_fmap_1 (λ q : bytes * (uint256 * Z), (q.1, q.2.2))).
  rewrite <-list_fmap_compose. eapply (eq_ind _ NoDup Hnd). apply list_fmap_ext. by intros _ [a [[p p2] v]] _.
Qed.

Lemma NoDup_with_hash' h (l : list (bytes * (Z * Z))) :
  NoDup ((λ e, (e.1, e.2.1)) <$> l) → NoDup ((λ e, (e.1, e.2.1)) <$> (prod_map id (with_hash' h) <$> l)).
Proof.
  intros Hnd. rewrite <-list_fmap_compose. apply (NoDup_fmap_1 (λ q : bytes * (uint256 * Z), (q.1, q.2.2))).
  rewrite <-list_fmap_compose. eapply (eq_ind _ NoDup Hnd). apply list_fmap_ext. by intros _ [a [p v]] _.
Qed.

Lemma elem_with_hash h (l : list (bytes * (Z * Z * Z))) a g p p2 v :
  (a, (g, p, p2, v)) ∈ prod_map id (with_hash h) <$> l ↔ g = h ∧ (a, (p, p2, v)) ∈ l.
Proof.
  rewrite list_elem_of_fmap. split.
  - intros ([b [[q q2] u]] & [= -> -> -> -> ->] & Hin). done.
  - intros [-> Hin]. by exists (a, (p, p2, v)).
Qed.

Lemma elem_with_hash' h (l : list (bytes * (Z * Z))) a g p v :
  (a, (g, p, v)) ∈ prod_map id (with_hash' h) <$> l ↔ g = h ∧ (a, (p, v)) ∈ l.
Proof.
  rewrite list_elem_of_fmap. split.
  - intros ([b [q u]] & [= -> -> -> ->] & Hin). done.
  - intros [-> Hin]. by exists (a, (p, v)).
Qed.

(** The records a transaction makes: its outputs come, what it spends goes. *)
Lemma accept_outputs w h tm F :
  world_ok w → ¬ live w h → tx_fine h →
  (∀ k, k ∈ points (body h) → live w k.1 ∧ ¬ spent w k) → Z.of_nat (w_work w + work_of h) < 2 ^ 31 →
  (∀ a, account_of w a (acct a F)) →
  ∃ F1 F2, on_accounts (out_list (body h)) (λ '(p, p2, v), acc_receive h p p2 v) F = Some F1 ∧
    on_accounts (spend_list (body h) (prev h)) (λ '(g, p, v), acc_spend g p v) F1 = Some F2 ∧
    ∀ a, history w a (acct a F2) ∧ outputs (accept_of w h tm) a (acct a F2).
Proof.
  intros Hok Hn Hf Hpt Hw HF. pose proof (fine_outs _ _ _ Hf) as Houts. pose proof (fine_ins _ _ _ Hf) as Hins.
  pose proof (prev_Some h Hf) as Hprev.
  destruct (receive_all (prod_map id (with_hash h) <$> out_list (body h)) F) as (F1 & HF1 & R1).
  { by apply NoDup_with_hash, NoDup_out_list. }
  { intros a g p p2 v [-> Hin]%elem_with_hash. apply eq_None_not_Some. intros [[q u] Hs].
    apply (outs_unspent _ _ _ _ (proj2 (HF a))) in Hs as [Hl _]. done. }
  { intros a. rewrite length_fmap. pose proof (outs_made _ _ _ _ (proj2 (HF a))). unfold ParserSpec.work_of in Hw. lia. }
  assert (∀ g p a p2 v, (g, p) ∈ points (body h) → created (body g) p a p2 v →
    acc_unspent (acct a F1) !! (g, p) = Some (p2, v)) as Hspend.
  { intros g p a p2 v Hk Hc. destruct (Hpt _ Hk) as [Hl Hs]. apply R1. left.
    apply (outs_unspent _ _ _ _ (proj2 (HF a))). done. }
  destruct (remove_all acc_spend (spend_list (body h) (prev h)) F1) as (F2 & HF2 & R2).
  { apply acc_spend_takes. }
  { by apply (NoDup_spend_list body). }
  { intros a g p v Hin. apply (elem_of_spend_list body) in Hin as [Hk (p2 & Hc)]; [|done..].
    by rewrite (Hspend g p a p2 v). }
  exists F1, F2. split_and!; [by rewrite receives_hash | done |]. intros a.
  destruct (R1 a) as (S1 & M1 & U1), (R2 a) as (S2 & M2 & U2). destruct (HF a) as [Hh Ho]. split.
  { eapply history_same; [exact S2|]. by eapply history_same. }
  constructor.
  2: { rewrite M2. rewrite length_fmap in M1. pose proof (outs_made _ _ _ _ Ho). unfold ParserSpec.work_of. simpl.
       unfold ParserSpec.work_of. lia. }
  intros g p p2 v. rewrite U2, U1, elem_with_hash, elem_of_out_list by done.
  rewrite (outs_unspent _ _ _ _ Ho). unfold ParserSpec.spent. setoid_rewrite live_accept.
  setoid_rewrite (elem_of_spend_list body); [|done..]. split.
  - intros [[(Hl & Hc & Hs)|[-> Hc]] Hno].
    + split_and!; [by left | done |]. intros (g' & [Hg'| ->] & Hk); [apply Hs; by exists g'|].
      apply (Hno v). split; [done|]. by exists p2.
    + split_and!; [by right | done |]. intros (g' & [Hg'| ->] & Hk).
      * apply Hn. by apply (ok_parents _ _ _ Hok g' (h, p)).
      * apply Hn. by apply (Hpt (h, p)).
  - intros (Hl & Hc & Hs). split.
    + destruct Hl as [Hl| ->]; [left|by right]. split_and!; [done..|]. intros (g' & Hg' & Hk). apply Hs. exists g'. auto.
    + intros u [Hk _]. apply Hs. exists h. auto.
Qed.

Lemma accept_accounts_of w t F :
  let h := txHash_ t in
  world_ok w → tx_ t = body h → ¬ live w h → tx_fine h →
  (∀ k, k ∈ points (body h) → live w k.1 ∧ ¬ spent w k) → Z.of_nat (w_work w + work_of h) < 2 ^ 31 →
  (∀ a, account_of w a (acct a F)) →
  ∃ F', accept_accounts t (prev h) F = Some F' ∧
    ∀ a, account_of (accept_of w h (maxBlkTimestamp_ t)) a (acct a F').
Proof.
  intros h Hok Htx Hn Hf Hpt Hw HF. unfold accept_accounts. rewrite Htx. change (txHash_ t) with h.
  destruct (accept_outputs w h (maxBlkTimestamp_ t) F Hok Hn Hf Hpt Hw HF) as (F1 & F2 & -> & HF2 & HA).
  cbn [mbind option_bind]. rewrite HF2. cbn [mbind option_bind].
  apply (entries_all (λ a A, history w a A ∧ outputs (accept_of w h (maxBlkTimestamp_ t)) a A)
    (account_of (accept_of w h (maxBlkTimestamp_ t)))); [| |done].
  - intros a d A [Hh Ho] Hd.
    destruct (history_accept body C w a A h (maxBlkTimestamp_ t) d (w_work w + work_of h) Hok Hh (fine_hash _ _ _ Hf) Hn Hd)
      as (A' & -> & Hh' & Eu & Em).
    { unfold ParserSpec.work_of in Hw. lia. }
    exists A'. split; [done|]. split; [done|]. destruct Ho as [O1 O2]. by constructor; rewrite ?Eu, ?Em.
  - intros a A [Hh Ho] Ht. split; [|done]. apply history_insert_other; [done | by apply not_live_pool | done].
Qed.

Lemma confirm_accounts_of w t F :
  let h := txHash_ t in let x := (blkHeight_ t, maxBlkTimestamp_ t) in
  world_ok w → tx_ t = body h → is_Some (w_pool w !! h) → (∀ a, account_of w a (acct a F)) →
  ∃ F', confirm_accounts t (prev h) F = Some F' ∧ ∀ a, account_of (confirm_of w h x) a (acct a F').
Proof.
  intros h x Hok Htx Hp HF. unfold confirm_accounts. rewrite Htx. destruct (Hp) as [tm Hs].
  assert (∀ a A A', acc_unspent A' = acc_unspent A → acc_made A' = acc_made A → outputs w a A →
    outputs (confirm_of w h x) a A') as Hout.
  { intros a A A' Eu Em Ho. apply (outputs_ext w); [intros; by apply live_confirm | done |].
    destruct Ho as [O1 O2]. by constructor; rewrite ?Eu, ?Em. }
  apply (entries_all (account_of w) (account_of (confirm_of w h x))); [| |done].
  - intros a d A [Hh Ho] Hd.
    destruct (history_confirm body C w a A h tm (maxBlkTimestamp_ t) (blkHeight_ t) (w_work w) Hok Hh Hs)
      as (A' & E & Hh' & Eu & Em); [by eexists|].
    exists A'. split; [exact E|]. split; [done|]. by eapply Hout.
  - intros a A [Hh Ho] Ht. split; [|by eapply Hout].
    apply (history_delete_other body w a A h tm); [done..|].
    unfold chain_of. rewrite filter_app, filter_cons, decide_False by done. by rewrite filter_nil, app_nil_r.
Qed.

Lemma unconfirm_accounts_of w t F c x :
  let h := txHash_ t in
  world_ok w → tx_ t = body h → w_chain w = c ++ [(h, x)] → (∀ a, account_of w a (acct a F)) →
  ∃ F', unconfirm_accounts t (prev h) F = Some F' ∧ ∀ a, account_of (unconfirm_of w h c) a (acct a F').
Proof.
  intros h Hok Htx Hc HF. unfold unconfirm_accounts. rewrite Htx.
  assert (∀ a A A', acc_unspent A' = acc_unspent A → acc_made A' = acc_made A → outputs w a A →
    outputs (unconfirm_of w h c) a A') as Hout.
  { intros a A A' Eu Em Ho. apply (outputs_ext w); [intros; by eapply live_unconfirm | done |].
    destruct Ho as [O1 O2]. by constructor; rewrite ?Eu, ?Em. }
  apply (entries_all (account_of w) (account_of (unconfirm_of w h c))); [| |done].
  - intros a d A [Hh Ho] Hd.
    destruct (history_unconfirm body C w a A h c x (w_work w) Hok Hh Hc) as (A' & E & Hh' & Eu & Em); [by eexists|].
    exists A'. split; [exact E|]. split; [done|]. by eapply Hout.
  - intros a A [Hh Ho] Ht. split; [|by eapply Hout].
    by apply (history_unconfirm_other body C w a A h c x).
Qed.

Lemma reject_outputs w h F :
  world_ok w → is_Some (w_pool w !! h) → (∀ k, spent w k → k.1 ≠ h) →
  Z.of_nat (w_work w + work_of h) < 2 ^ 31 → (∀ a, account_of w a (acct a F)) →
  ∃ F1 F2, on_accounts (release_list (body h) (prev h)) (λ '(g, p, p2, v), acc_receive g p p2 v) F = Some F1 ∧
    on_accounts (revoke_list (body h)) (λ '(p, v), acc_revoke h p v) F1 = Some F2 ∧
    ∀ a, history w a (acct a F2) ∧ outputs (reject_of w h) a (acct a F2).
Proof.
  intros Hok Hp Hsp Hw HF. pose proof (live_pool _ _ Hp) as Hl. pose proof (ok_fine _ _ _ Hok _ Hl) as Hf.
  pose proof (fine_outs _ _ _ Hf) as Houts. pose proof (fine_ins _ _ _ Hf) as Hins.
  pose proof (prev_Some h Hf) as Hprev.
  destruct (receive_all (release_list (body h) (prev h)) F) as (F1 & HF1 & R1).
  { by apply (NoDup_release_list body). }
  { intros a g p p2 v Hin. apply (elem_of_release_list body) in Hin as [Hk _]; [|done..].
    apply eq_None_not_Some. intros [[q u] Hs]. apply (outs_unspent _ _ _ _ (proj2 (HF a))) in Hs as (_ & _ & Hs).
    apply Hs. by exists h. }
  { intros a. pose proof (outs_made _ _ _ _ (proj2 (HF a))). unfold ParserSpec.work_of in Hw. lia. }
  assert (∀ p a p2 v, created (body h) p a p2 v → acc_unspent (acct a F1) !! (h, p) = Some (p2, v)) as Hrev.
  { intros p a p2 v Hc. apply R1. left. apply (outs_unspent _ _ _ _ (proj2 (HF a))). split_and!; [done..|].
    intros Hs. by apply (Hsp _ Hs). }
  destruct (remove_all acc_revoke (prod_map id (with_hash' h) <$> revoke_list (body h)) F1) as (F2 & HF2 & R2).
  { apply acc_revoke_takes. }
  { by apply NoDup_with_hash', NoDup_revoke_list. }
  { intros a g p v [-> Hin]%elem_with_hash'. apply elem_of_revoke_list in Hin as (p2 & Hc); [|done].
    by rewrite (Hrev p a p2 v). }
  exists F1, F2. split_and!; [done | by rewrite revokes_hash |]. intros a.
  destruct (R1 a) as (S1 & M1 & U1), (R2 a) as (S2 & M2 & U2). destruct (HF a) as [Hh Ho]. split.
  { eapply history_same; [exact S2|]. by eapply history_same. }
  constructor.
  2: { rewrite M2. pose proof (outs_made _ _ _ _ Ho). simpl. unfold ParserSpec.work_of. lia. }
  intros g p p2 v. rewrite U2, U1, (elem_of_release_list body) by done.
  rewrite (outs_unspent _ _ _ _ Ho), (live_reject w h g) by done. unfold ParserSpec.spent.
  setoid_rewrite elem_with_hash'. setoid_rewrite elem_of_revoke_list; [|done]. split.
  - intros [[(Hg & Hc & Hs)|[Hk Hc]] Hno].
    + split_and!; [done | | done |].
      * intros ->. apply (Hno v). split; [done|]. by exists p2.
      * intros (g' & Hg' & Hk). apply live_reject in Hg' as [Hg' _]; [|done..]. apply Hs. by exists g'.
    + split_and!; [by apply (ok_parents _ _ _ Hok h (g, p)) | | done |].
      * intros ->. apply (Hsp (h, p)); [by exists h|done].
      * intros (g' & Hg' & Hk'). apply live_reject in Hg' as [Hg' Hne]; [|done..]. apply Hne. by eapply ok_once.
  - intros ((Hg & Hne) & Hc & Hs). split; [|intros u [-> _]; done].
    destruct (decide ((g, p) ∈ points (body h))) as [Hk|Hk]; [by right|]. left. split_and!; [done..|].
    intros (g' & Hg' & Hk'). apply Hs. exists g'. split; [|done]. apply live_reject; [done..|]. split; [done|].
    intros ->. done.
Qed.

Lemma reject_accounts_of k w t F :
  let h := txHash_ t in
  world_ok w → tx_ t = body h → is_Some (w_pool w !! h) → (∀ k, spent w k → k.1 ≠ h) →
  (bal h ≠ ∅ → k = ToString h ∨ (∀ g, k ≠ ToString g)) →
  Z.of_nat (w_work w + work_of h) < 2 ^ 31 → (∀ a, account_of w a (acct a F)) →
  ∃ F', reject_accounts k t (prev h) F = Some F' ∧ ∀ a, account_of (reject_of w h) a (acct a F').
Proof.
  intros h Hok Htx Hp Hsp Hv Hw HF. unfold reject_accounts. rewrite Htx. change (txHash_ t) with h.
  destruct (reject_outputs w h F Hok Hp Hsp Hw HF) as (F1 & F2 & -> & HF2 & HA).
  cbn [mbind option_bind]. rewrite HF2. cbn [mbind option_bind]. destruct (Hp) as [tm Hs].
  apply (entries_all (λ a A, history w a A ∧ outputs (reject_of w h) a A) (account_of (reject_of w h))); [| |done].
  - intros a d A [Hh Ho] Hd.
    destruct (history_reject body C w a A h tm k d (w_work w + work_of h) Hok Hh Hs Hd)
      as (A' & E & Hh' & Eu & Em).
    { destruct Hv as [Hv|Hv]; [by intros E; rewrite E, lookup_empty in Hd|by left|right]. apply acc_index_none. rewrite (entries_hashes _ _ _ _ Hh).
      intros (g & Eg & _)%list_elem_of_fmap. by apply (Hv g). }
    exists A'. split; [exact E|]. split; [done|]. destruct Ho as [O1 O2]. by constructor; rewrite ?Eu, ?Em.
  - intros a A [Hh Ho] Ht. split; [|done]. by apply (history_delete_other body w a A h tm).
Qed.
End steps.
