(* ===== verification/ParserTables.v ===== *)
(** * Legal rows keep the transaction tables

    The objects, the spent-by records and the list of unconfirmed transactions
    become those of the next world. *)
From S2P Require Import Prelude Tx Bytes Text Serialize TxState Notify Ledger LedgerSpec LedgerRefine ParserTx ParserRefine.
From S2P Require Import Balances Utxo ParserSpec ParserHistory ParserSteps.

Section tables.
Context `{Scripts} (body : uint256 → CTransaction) (hexes : uint256 → bytes) (C : gset bytes).
Implicit Types (w : world) (h g : uint256) (t : TxLog2) (T : tx_tables) (k : uint256 * Z).
Abbreviation world_ok := (world_ok body C).
Abbreviation tables_of := (tables_of body hexes).
Abbreviation prev := (prev body).
Abbreviation spent := (spent body).
Abbreviation tx_fine := (tx_fine body C).
Abbreviation accept_of := (accept_of body).
Abbreviation reject_of := (reject_of body).

(** ** Previous outputs *)

Lemma mapM_ext_in {A B} (f g : A → option B) (l : list A) :
  (∀ x, x ∈ l → f x = g x) → mapM f l = mapM g l.
Proof.
  intros Hfg. induction l as [|x l IH]; [done|]. simpl.
  rewrite Hfg by left. destruct (g x); [|done]. simpl. rewrite IH; [done|]. intros y Hy. apply Hfg. by right.
Qed.

Lemma shown_live w h : live w h ↔ ∃ x, shown_at w h x.
Proof.
  unfold live, confirmed, shown_at. split.
  - intros [([g x] & -> & Hin)%list_elem_of_fmap|Hp]; [exists x; by left | exists (-1, 0); by right].
  - intros [x [Hin|[Hp _]]]; [left|by right]. by apply (list_elem_of_fmap_2 fst _ (h, x)).
Qed.

Lemma live_object w T h : tables_of w T → live w h → ∃ o, kv_tx T !! h = Some o ∧ o_outputs o = made_outputs body h.
Proof.
  intros HT [x Hx]%shown_live. destruct (tab_objects _ _ _ _ HT _ _ Hx) as (o & Ho & _).
  exists o. split; [done|]. by eapply tab_outputs.
Qed.

Lemma prev_tables w T h :
  tables_of w T → tx_fine h → (∀ k, k ∈ points (body h) → live w k.1) →
  prevTxOutputs T (body h) = Some (prev h).
Proof.
  intros HT Hf Hpt. rewrite <-(prev_Some body C h Hf). unfold prevTxOutputs, prev_of.
  destruct (IsCoinBase (body h)) eqn:Hc; [done|]. apply mapM_ext_in. intros i Hi.
  destruct (live_object w T (hash (prevout i)) HT) as (o & -> & <-); [|done].
  apply (Hpt (hash (prevout i), i32 (n (prevout i)))). apply elem_of_points. eauto.
Qed.

(** ** Spent-by records *)

(** the key of an input *)
Definition in_key (i : CTxIn) : uint256 * Z := (hash (prevout i), i32 (n (prevout i))).

Lemma spent_entries_fold h (l : list (nat * CTxIn)) T :
  NoDup ((λ p, in_key p.2) <$> l) →
  let T' := foldl (λ T p, spent_entry h p T) T l in
  kv_tx T' = kv_tx T ∧ kv_unconfirmed T' = kv_unconfirmed T ∧ kv_meta T' = kv_meta T ∧
  ∀ k x, kv_spent T' !! k = Some x ↔
    (∃ p, p ∈ l ∧ in_key p.2 = k ∧ x = {| sb_position := i32 (Z.of_nat p.1); sb_tx_hash := ToString h |}) ∨
    (k ∉ (λ p, in_key p.2) <$> l ∧ kv_spent T !! k = Some x).
Proof.
  revert T. induction l as [|p l IH]; intros T Hnd.
  - split_and!; [done..|]. intros k x. simpl. set_solver.
  - csimpl in Hnd. apply NoDup_cons in Hnd as [Hp Hnd]. cbn [foldl].
    destruct (IH (spent_entry h p T) Hnd) as (E1 & E2 & E3 & E4). split_and!; [done..|]. intros k x.
    rewrite E4. unfold spent_entry at 1. cbn [kv_spent with_spent]. csimpl. fold (in_key p.2).
    rewrite lookup_insert_Some, not_elem_of_cons. setoid_rewrite elem_of_cons. split.
    + intros [(q & Hq & Hk & Hx)|(Hk & [[Hkp Hx]|[Hkp Hx]])]; [left|left|right]; [|exists p; auto|auto].
      exists q. auto.
    + intros [(q & [->|Hq] & Hk & Hx)|((Hne & Hk) & Hx)]; [right|left|right]; [|eauto|auto].
      subst k. auto.
Qed.

Lemma released_fold (l : list (CTxIn * TxOutput)) T :
  let T' := foldl (λ T p, with_spent (delete (in_key p.1)) T) T l in
  kv_tx T' = kv_tx T ∧ kv_unconfirmed T' = kv_unconfirmed T ∧ kv_meta T' = kv_meta T ∧
  ∀ k x, kv_spent T' !! k = Some x ↔ kv_spent T !! k = Some x ∧ k ∉ (λ p, in_key p.1) <$> l.
Proof.
  revert T. induction l as [|p l IH]; intros T.
  - split_and!; [done..|]. intros k x. simpl. set_solver.
  - cbn [foldl]. destruct (IH (with_spent (delete (in_key p.1)) T)) as (E1 & E2 & E3 & E4).
    split_and!; [done..|]. intros k x. rewrite E4. cbn [kv_spent with_spent]. csimpl.
    rewrite lookup_delete_Some, not_elem_of_cons. naive_solver.
Qed.

(** the records of a transaction's inputs *)
Lemma spent_entries_of t T k x :
  tx_fine (txHash_ t) → tx_ t = body (txHash_ t) →
  kv_spent (spent_entries t T) !! k = Some x ↔
    (∃ i : nat, points (body (txHash_ t)) !! i = Some k ∧
       x = {| sb_position := Z.of_nat i; sb_tx_hash := ToString (txHash_ t) |}) ∨
    (k ∉ points (body (txHash_ t)) ∧ kv_spent T !! k = Some x).
Proof.
  intros Hf Htx. pose proof (fine_ins _ _ _ Hf) as Hins. unfold spent_entries. rewrite Htx.
  destruct (IsCoinBase (body (txHash_ t))) eqn:Hc.
  { unfold points. rewrite Hc. set_solver. }
  assert (points (body (txHash_ t)) = in_key <$> vin (body (txHash_ t))) as Ept by (unfold points; by rewrite Hc).
  assert ((λ p : nat * CTxIn, in_key p.2) <$> imap pair (vin (body (txHash_ t))) = points (body (txHash_ t))) as Ekey.
  { rewrite Ept. rewrite <-(imap_pair_snd (vin (body (txHash_ t)))) at 2. by rewrite <-list_fmap_compose. }
  destruct (spent_entries_fold (txHash_ t) (imap pair (vin (body (txHash_ t)))) T) as (_ & _ & _ & E).
  { rewrite Ekey. apply Hins. }
  rewrite E, Ekey. apply or_iff_compat_r. split.
  - intros ([j i] & (j' & i' & Hj & [= -> ->])%elem_of_imap & <- & ->). exists j'.
    rewrite Ept, list_lookup_fmap, Hj. split; [done|]. simpl. f_equal. apply i32_small.
    pose proof (ins_count _ _ Hins). apply lookup_lt_Some in Hj. unfold in_s. lia.
  - intros (j & Hj & ->). rewrite Ept, list_lookup_fmap in Hj. apply fmap_Some in Hj as (i & Hj & ->).
    exists (j, i). split; [apply elem_of_imap; eauto|]. split; [done|]. simpl. f_equal. symmetry. apply i32_small.
    pose proof (ins_count _ _ Hins). apply lookup_lt_Some in Hj. unfold in_s. lia.
Qed.

Lemma spent_entries_rest t T :
  tx_fine (txHash_ t) → tx_ t = body (txHash_ t) →
  kv_tx (spent_entries t T) = kv_tx T ∧ kv_unconfirmed (spent_entries t T) = kv_unconfirmed T.
Proof.
  intros Hf Htx. pose proof (ins_distinct _ _ (fine_ins _ _ _ Hf)) as Hnd. unfold spent_entries, points in *.
  rewrite Htx. destruct (IsCoinBase (body (txHash_ t))) eqn:Hc; [done|].
  destruct (spent_entries_fold (txHash_ t) (imap pair (vin (body (txHash_ t)))) T) as (? & ? & _); [|done].
  rewrite <-(imap_pair_snd (vin (body (txHash_ t)))), <-list_fmap_compose in Hnd. exact Hnd.
Qed.

Lemma released_of t T k x :
  tx_fine (txHash_ t) → tx_ t = body (txHash_ t) →
  kv_spent (released t (prev (txHash_ t)) T) !! k = Some x ↔
    kv_spent T !! k = Some x ∧ k ∉ points (body (txHash_ t)).
Proof.
  intros Hf Htx. pose proof (prev_Some body C _ Hf) as Hp. unfold released. rewrite Htx.
  unfold points, prev_of in *. destruct (IsCoinBase (body (txHash_ t))) eqn:Hc; [set_solver|].
  destruct (released_fold (zip (vin (body (txHash_ t))) (prev (txHash_ t))) T) as (_ & _ & _ & E). rewrite E.
  assert ((λ p : CTxIn * TxOutput, in_key p.1) <$> zip (vin (body (txHash_ t))) (prev (txHash_ t)) =
    in_key <$> vin (body (txHash_ t))) as ->; [|done].
  change ((in_key ∘ fst) <$> zip (vin (body (txHash_ t))) (prev (txHash_ t)) = in_key <$> vin (body (txHash_ t))).
  rewrite list_fmap_compose, fst_zip; [done|]. apply mapM_Some, Forall2_length in Hp. lia.
Qed.

Lemma released_rest t p T :
  kv_tx (released t p T) = kv_tx T ∧ kv_unconfirmed (released t p T) = kv_unconfirmed T.
Proof.
  unfold released. destruct (IsCoinBase (tx_ t)); [done|].
  destruct (released_fold (zip (vin (tx_ t)) p) T) as (? & ? & _). done.
Qed.

(** ** The tables of the next world *)

Lemma tables_ext w T T' :
  kv_tx T' = kv_tx T → kv_spent T' = kv_spent T → kv_unconfirmed T' = kv_unconfirmed T →
  tables_of w T → tables_of w T'.
Proof. intros E1 E2 E3 [T1 T2 T3 T4]. by constructor; rewrite ?E1, ?E2, ?E3. Qed.

Lemma shown_once w h x y : world_ok w → shown_at w h x → shown_at w h y → x = y.
Proof.
  intros Hok [Hx|[Hp ->]] [Hy|[Hp' ->]]; [| | |done].
  - apply list_elem_of_lookup in Hx as (i & Hi), Hy as (j & Hj).
    assert (i = j) as ->; [|congruence].
    eapply (NoDup_lookup (w_chain w).*1); [apply Hok| |]; by rewrite list_lookup_fmap, ?Hi, ?Hj.
  - rewrite (ok_apart _ _ _ Hok h) in Hp'; [by destruct Hp'|]. by apply (list_elem_of_fmap_2 fst _ (h, x)).
  - rewrite (ok_apart _ _ _ Hok h) in Hp; [by destruct Hp|]. by apply (list_elem_of_fmap_2 fst _ (h, y)).
Qed.

(** an object keeps all but its block, and the fee of a coinbase *)
Lemma object_keeps h o o' :
  object_of body h o → set_block 0 0 (set_double_spend false (set_fee 0 o')) = set_block 0 0 (set_double_spend false (set_fee 0 o)) →
  (IsCoinBase (body h) = false → o_fee o' = o_fee o) → object_of body h o'.
Proof.
  intros [] E Hfee. destruct o, o'. cbn in *. injection E as -> -> -> -> -> -> -> -> -> ->.
  constructor; cbn; try done. intros Hc. rewrite Hfee by done. auto.
Qed.

Definition accept_tables (now : Z) t (v fee : Z) T : tx_tables :=
  with_unconfirmed (<[txHash_ t := unconfirmed_entry t fee]>)
    (spent_entries t (with_tx (<[txHash_ t := make_object now t (prev (txHash_ t)) v fee]>) T)).

Lemma accept_tables_of w t T now v fee :
  let h := txHash_ t in
  world_ok w → row_of body hexes t → tx_fine h → ¬ live w h →
  (∀ k, k ∈ points (body h) → live w k.1 ∧ ¬ spent w k) →
  GetValueOut (body h) = Done v → fee = accept_fee (body h) (prev h) v →
  tables_of w T → tables_of (accept_of w h (maxBlkTimestamp_ t)) (accept_tables now t v fee T).
Proof.
  intros h Hok [Htx Hhex] Hf Hn Hpt Hv Hfee HT. unfold accept_tables.
  set (o := make_object now t (prev (txHash_ t)) v fee). set (T1 := with_tx (<[txHash_ t := o]>) T).
  destruct (spent_entries_rest t T1 Hf Htx) as [E1 E2].
  constructor; cbn [kv_tx kv_unconfirmed with_unconfirmed kv_spent]; rewrite ?E1, ?E2;
    change (kv_tx T1) with (<[h := o]> (kv_tx T)); change (kv_unconfirmed T1) with (kv_unconfirmed T).
  - intros g o' [[<- <-]|[Hne Ho]]%lookup_insert_Some; [|by eapply tab_made].
    constructor; cbn; rewrite ?Htx; try done. intros Hc. rewrite Hfee. unfold accept_fee. by rewrite Hc.
  - intros g x Hx. destruct (decide (g = h)) as [->|Hne].
    + exists o. rewrite lookup_insert_eq. split; [done|]. split; [|by simpl; rewrite Hhex].
      destruct Hx as [Hx|[_ ->]]; [|done]. destruct Hn. left. by apply (list_elem_of_fmap_2 fst _ (h, x)).
    + rewrite lookup_insert_ne by done. apply (tab_objects _ _ _ _ HT).
      destruct Hx as [Hx|[Hx ->]]; [by left|right]. split; [|done]. simpl in Hx. by rewrite lookup_insert_ne in Hx.
  - intros k x. rewrite (spent_entries_of t T1 k x Hf Htx). change (kv_spent T1) with (kv_spent T).
    rewrite (tab_spent _ _ _ _ HT). setoid_rewrite live_accept. change (txHash_ t) with h. split.
    + intros [(i & Hi & ->)|(Hk & g & i & Hg & Hi & ->)]; [exists h, i; auto|exists g, i; auto].
    + intros (g & i & [Hg| ->] & Hi & ->); [right|left; eauto]. split; [|exists g, i; done].
      intros Hk. apply (proj2 (Hpt _ Hk)). exists g. split; [done|]. by eapply list_elem_of_lookup_2.
  - intros g e. rewrite lookup_insert_Some. simpl. split.
    + intros [[<- <-]|[Hne He]].
      * rewrite !lookup_insert_eq. split; [eauto|]. exists o. split; [done|].
        unfold unconfirmed_entry. simpl. by rewrite Hhex.
      * apply (tab_pool _ _ _ _ HT) in He as (Hp & o' & Ho & ->).
        rewrite !lookup_insert_ne by done. eauto.
    + intros (Hp & o' & Ho & ->). destruct (decide (h = g)) as [<-|Hne]; [left|right].
      * apply lookup_insert_Some in Ho as [[_ <-]|[]]; [|done]. split; [done|].
        unfold unconfirmed_entry. simpl. by rewrite Hhex.
      * apply lookup_insert_Some in Ho as [[]|[_ Ho]]; [done|]. rewrite lookup_insert_ne in Hp by done.
        split; [done|]. apply (tab_pool _ _ _ _ HT). eauto.
Qed.

Lemma confirm_tables_of w t T o o' :
  let h := txHash_ t in let x := (blkHeight_ t, maxBlkTimestamp_ t) in
  world_ok w → is_Some (w_pool w !! h) → kv_tx T !! h = Some o →
  object_of body h o' → o_is_double_spend o' = o_is_double_spend o → o_size o' = o_size o →
  (o_block_height o', o_block_time o') = x →
  tables_of w T →
  tables_of (confirm_of w h x) (with_unconfirmed (delete h) (with_tx (<[h := o']>) T)).
Proof.
  intros h x Hok Hp Ho Eo Ed Es Ex HT.
  constructor; cbn [kv_tx kv_unconfirmed with_unconfirmed kv_spent with_tx].
  - by intros g og [[<- <-]|[Hne Hg]]%lookup_insert_Some; [|eapply tab_made].
  - intros g y Hy. destruct (decide (g = h)) as [->|Hne].
    + exists o'. rewrite lookup_insert_eq. split; [done|].
      destruct (tab_objects _ _ _ _ HT h (-1, 0)) as (o1 & Ho1 & _ & Hd & Hs); [by right|].
      rewrite Ho in Ho1. injection Ho1 as <-. rewrite Ed, Es, Ex. split; [|done].
      eapply (shown_once (confirm_of w h x)); [by apply confirm_world | | exact Hy].
      left. simpl. apply elem_of_app. right. by apply list_elem_of_singleton.
    + rewrite lookup_insert_ne by done. apply (tab_objects _ _ _ _ HT).
      destruct Hy as [Hy|[Hy ->]]; [left|right].
      * simpl in Hy. apply elem_of_app in Hy as [Hy|[= -> ->]%list_elem_of_singleton]; done.
      * simpl in Hy. by rewrite lookup_delete_ne in Hy.
  - intros k s. rewrite (tab_spent _ _ _ _ HT). by setoid_rewrite (λ g, live_confirm w h x g Hp).
  - intros g e. rewrite lookup_delete_Some, (tab_pool _ _ _ _ HT). simpl. split.
    + intros (Hne & Hg & o1 & Ho1 & ->). rewrite lookup_delete_ne by done. split; [done|].
      exists o1. by rewrite lookup_insert_ne.
    + intros (Hg & o1 & Ho1 & ->). destruct (decide (h = g)) as [<-|Hne].
      { rewrite lookup_delete_eq in Hg. by destruct Hg. }
      apply lookup_insert_Some in Ho1 as [[]|[_ Ho1]]; [done|]. rewrite lookup_delete_ne in Hg by done. eauto.
Qed.

Lemma unconfirm_tables_of w t T c x o :
  let h := txHash_ t in
  world_ok w → w_chain w = c ++ [(h, x)] → kv_tx T !! h = Some o → tables_of w T →
  tables_of (unconfirm_of w h c) (with_unconfirmed (<[h :=
      {| un_fee := o_fee o; un_size := o_size o; un_tx_hash := ToString h |}]>)
    (with_tx (<[h := set_block (-1) 0 o]>) T)).
Proof.
  intros h Hok Hc Ho HT.
  assert (shown_at w h x) as Hx by (left; rewrite Hc; apply elem_of_app; right; by apply list_elem_of_singleton).
  destruct (tab_objects _ _ _ _ HT h x Hx) as (o1 & Ho1 & _ & Hd & Hs). rewrite Ho in Ho1. injection Ho1 as <-.
  constructor; cbn [kv_tx kv_unconfirmed with_unconfirmed kv_spent with_tx].
  - intros g og [[<- <-]|[Hne Hg]]%lookup_insert_Some; [|by eapply tab_made].
    by apply (object_keeps h o); [eapply tab_made|..].
  - intros g y Hy. destruct (decide (g = h)) as [->|Hne].
    + exists (set_block (-1) 0 o). rewrite lookup_insert_eq. split; [done|]. split; [|done].
      eapply (shown_once (unconfirm_of w h c)); [by eapply unconfirm_world | | exact Hy].
      right. simpl. rewrite lookup_insert_eq. eauto.
    + rewrite lookup_insert_ne by done. apply (tab_objects _ _ _ _ HT).
      destruct Hy as [Hy|[Hy ->]]; [left|right].
      * rewrite Hc. apply elem_of_app. by left.
      * simpl in Hy. by rewrite lookup_insert_ne in Hy.
  - intros k s. rewrite (tab_spent _ _ _ _ HT). by setoid_rewrite (λ g, live_unconfirm w h c x g Hc).
  - intros g e. rewrite lookup_insert_Some. simpl. split.
    + intros [[<- <-]|[Hne He]].
      * rewrite !lookup_insert_eq. split; [eauto|]. eexists. split; [done|]. simpl. by rewrite Hs.
      * apply (tab_pool _ _ _ _ HT) in He as (Hp & o' & Ho' & ->). rewrite !lookup_insert_ne by done. eauto.
    + intros (Hp & o' & Ho' & ->). destruct (decide (h = g)) as [<-|Hne]; [left|right].
      * apply lookup_insert_Some in Ho' as [[_ <-]|[]]; [|done]. split; [done|]. simpl. by rewrite Hs.
      * apply lookup_insert_Some in Ho' as [[]|[_ Ho']]; [done|]. rewrite lookup_insert_ne in Hp by done. split; [done|]. apply (tab_pool _ _ _ _ HT). eauto.
Qed.

Lemma reject_tables_of w t T o :
  let h := txHash_ t in
  world_ok w → row_of body hexes t → is_Some (w_pool w !! h) → kv_tx T !! h = Some o → tables_of w T →
  tables_of (reject_of w h) (with_unconfirmed (delete h)
    (with_tx (<[h := set_double_spend true o]>) (released t (prev h) T))).
Proof.
  intros h Hok [Htx _] Hp Ho HT. pose proof (ok_fine _ _ _ Hok _ (live_pool _ _ Hp)) as Hf.
  destruct (released_rest t (prev h) T) as [E1 E2].
  constructor; cbn [kv_tx kv_unconfirmed with_unconfirmed kv_spent with_tx]; rewrite ?E1, ?E2.
  - intros g og [[<- <-]|[Hne Hg]]%lookup_insert_Some; [|by eapply tab_made].
    by apply (object_keeps h o); [eapply tab_made|..].
  - intros g y Hy. assert (live (reject_of w h) g) as Hl by (apply shown_live; eauto).
    apply (live_reject body C) in Hl as [_ Hne]; [|done..]. rewrite lookup_insert_ne by done.
    apply (tab_objects _ _ _ _ HT). destruct Hy as [Hy|[Hy ->]]; [by left|right].
    simpl in Hy. by rewrite lookup_delete_ne in Hy.
  - intros k s. change h with (txHash_ t) at 1. rewrite (released_of t T k s Hf Htx), (tab_spent _ _ _ _ HT).
    setoid_rewrite (λ g, live_reject body C w h g Hok Hp). split.
    + intros [(g & i & Hg & Hi & ->) Hk]. exists g, i. split_and!; [done | | done | done].
      intros ->. apply Hk. by eapply list_elem_of_lookup_2.
    + intros (g & i & [Hg Hne] & Hi & ->). split; [eauto|]. intros Hk. apply Hne.
      eapply (ok_once _ _ _ Hok); [done | by apply live_pool | by eapply list_elem_of_lookup_2 | done].
  - intros g e. rewrite lookup_delete_Some, (tab_pool _ _ _ _ HT). simpl. split.
    + intros (Hne & Hg & o1 & Ho1 & ->). rewrite lookup_delete_ne by done. split; [done|].
      exists o1. by rewrite lookup_insert_ne.
    + intros (Hg & o1 & Ho1 & ->). destruct (decide (h = g)) as [<-|Hne].
      { rewrite lookup_delete_eq in Hg. by destruct Hg. }
      apply lookup_insert_Some in Ho1 as [[]|[_ Ho1]]; [done|]. rewrite lookup_delete_ne in Hg by done. eauto.
Qed.
End tables.
