(* ===== verification/ParserClaims.v ===== *)
(** * What the parser guarantees (Parser.cc [acceptTx], [confirmTx],
      [unconfirmTx], [rejectTx])

    A legal row is handled without an error and takes the tables from showing
    one world to showing the next. *)
From S2P Require Import Prelude Tx Bytes Text Serialize TxState Notify Ledger LedgerSpec LedgerRefine ParserTx ParserRefine.
From S2P Require Import Balances Utxo ParserSpec ParserHistory ParserSteps ParserTables.

Section claims.
Context `{Scripts} (body : uint256 → CTransaction) (hexes : uint256 → bytes) (C : gset bytes).
Variables (begin interval now : Z) (varargs : bytes → option bytes).
Implicit Types (w : world) (h g : uint256) (a : bytes) (t : TxLog2) (s : txs_state) (F : accounts).
Abbreviation world_ok := (world_ok body C).
Abbreviation shows := (shows body hexes C).
Abbreviation tx_step := (tx_step body hexes C).
Abbreviation bal := (bal body).
Abbreviation prev := (prev body).

(** ** The end of every handler *)

Lemma count_not_size : count_key ≠ size_key.
Proof. apply (bool_decide_unpack _). vm_compute. exact I. Qed.

Lemma fmt_d_some z : ∃ b l, fmt_d z = b :: l.
Proof.
  destruct (Z.le_gt_cases 0 z) as [Hz|Hz]; [by apply fmt_d_cons|].
  unfold fmt_d. rewrite (proj2 (Z.ltb_lt z 0)) by lia. eauto.
Qed.

Lemma stored_counters c sz T :
  in_s 32 c → in_s 64 sz → init_counters (store_pool c sz T) = (c, sz).
Proof.
  intros Hc Hs. unfold init_counters, store_pool. cbn [kv_meta with_meta].
  rewrite (lookup_insert_ne _ size_key count_key) by (intros E; by apply count_not_size).
  rewrite !lookup_insert_eq. unfold default, from_option, id.
  destruct (fmt_d_some c) as (x & l & Ec), (fmt_d_some sz) as (y & k & Es).
  rewrite Ec, Es. cbv iota. rewrite <-Ec, <-Es. by rewrite atoi_fmt_d, atoi64_fmt_d.
Qed.

Lemma shows_intro w s l f b t c sz F :
  Rep C ∅ l F → sound F → (∀ a, account_of body w a (acct a F)) → tables_of body hexes w (f (tables s)) →
  world_ok w → c = Z.of_nat (size (w_pool w)) → sz = i64 (pool_bytes hexes w) →
  shows w (noted begin now b t (counted c sz (with_led l (with_tables f s)))).
Proof.
  intros HR Hs HA HT Hok -> ->.
  assert (in_s 32 (Z.of_nat (size (w_pool w)))) as Hc.
  { pose proof (ok_count _ _ _ Hok). pose proof (ok_work _ _ _ Hok). unfold in_s. lia. }
  assert (in_s 64 (i64 (pool_bytes hexes w))) as Hz by (apply wrapS_range; lia).
  constructor.
  - by exists F.
  - eapply tables_ext; [| | |exact HT]; done.
  - done.
  - done.
  - exact (stored_counters _ _ _ Hc Hz).
Qed.

Lemma i64_shift (x y : Z) : i64 (i64 x + y) = i64 (x + y).
Proof. change (i64 x + y ≡64 x + y). by rewrite i64_cong. Qed.

Lemma pool_bytes_insert w h tm : w_pool w !! h = None →
  ∀ c k, pool_bytes hexes {| w_chain := c; w_pool := <[h := tm]> (w_pool w); w_work := k |} =
    pool_bytes hexes w + hex_size (hexes h).
Proof.
  intros Hn c k. unfold pool_bytes. simpl. rewrite map_fold_insert_L; [lia | intros; lia | done].
Qed.

Lemma pool_bytes_delete w h tm : w_pool w !! h = Some tm →
  ∀ c k, pool_bytes hexes {| w_chain := c; w_pool := delete h (w_pool w); w_work := k |} =
    pool_bytes hexes w - hex_size (hexes h).
Proof.
  intros Hs c k. unfold pool_bytes. simpl. rewrite (map_fold_delete_L _ 0 h tm (w_pool w)); [lia | intros; lia | done].
Qed.

Lemma count_up w s h tm c k :
  shows w s → w_pool w !! h = None → world_ok {| w_chain := c; w_pool := <[h := tm]> (w_pool w); w_work := k |} →
  i32 (unconfirmedTxsCount_ s + 1) = Z.of_nat (size (<[h := tm]> (w_pool w))).
Proof.
  intros Hs Hn Hok. rewrite (shows_count _ _ _ _ _ Hs). pose proof (ok_count _ _ _ Hok) as Hc. simpl in Hc.
  pose proof (ok_work _ _ _ Hok) as Hw. simpl in Hw. rewrite size_insert_new in * by done.
  rewrite i32_small by (unfold in_s; lia). lia.
Qed.

Lemma count_down w s h :
  shows w s → is_Some (w_pool w !! h) → world_ok w →
  i32 (unconfirmedTxsCount_ s - 1) = Z.of_nat (size (delete h (w_pool w))).
Proof.
  intros Hs Hp Hok. rewrite (shows_count _ _ _ _ _ Hs). pose proof (ok_count _ _ _ Hok) as Hc.
  pose proof (ok_work _ _ _ Hok) as Hw. rewrite (size_delete_pool _ _ Hp) in *.
  rewrite i32_small by (unfold in_s; lia). lia.
Qed.

(** ** The handlers *)

(** the notifications of a row *)
Definition row_notes t s : list NotifyItem := notes begin now (bal (txHash_ t)) t s.

Lemma accept_row w t s w' :
  world_ok w → shows w s → type_ t = LOG2TYPE_TX_ACCEPT → tx_step w t w' →
  ∃ s', acceptTx begin now t s = (Done tt, s') ∧ shows w' s' ∧ world_ok w' ∧
    notifications s' = notifications s ++ row_notes t s.
Proof.
  intros Hok Hs Ht Hstep. inversion Hstep as [_ Hrow Hh Hn Hf Hpt Hw E| E | c x E | E]; try (rewrite Ht in E; discriminate E).
  clear E Hstep. destruct (Hrow) as [Htx Hhex]. destruct (fine_value _ _ _ Hf) as [v Hv].
  destruct (shows_accounts _ _ _ _ _ Hs) as (F & HR & Hsd & HA).
  destruct (accept_accounts_of body C w t F Hok Htx Hn Hf Hpt Hw HA) as (F' & HF' & HA').
  assert (prevTxOutputs (tables s) (tx_ t) = Some (prev (txHash_ t))) as Hprev.
  { rewrite Htx. eapply prev_tables; [apply Hs | done | intros k Hk; by apply Hpt]. }
  destruct (acceptTx_run C begin now t s F F' (prev (txHash_ t)) v) as (l & Hrun & HR'); try done.
  { rewrite Htx. apply Hf. }
  { by rewrite Htx. }
  assert (world_ok (accept_of body w (txHash_ t) (maxBlkTimestamp_ t))) as Hok' by by apply accept_world.
  eexists. split; [exact Hrun|]. split_and!; [|exact Hok'|by rewrite Htx].
  eapply shows_intro; [exact HR' | | exact HA' | | exact Hok' | |].
  - eapply accept_sound; [exact Hprev | exact HF' | exact Hsd].
  - apply (accept_tables_of body hexes C w t (tables s) now v); try done; [by rewrite Htx|apply Hs].
  - eapply count_up; [exact Hs | by apply not_live_pool | exact Hok'].
  - rewrite (shows_size _ _ _ _ _ Hs), i64_shift. unfold accept_of.
    rewrite pool_bytes_insert by by apply not_live_pool. by rewrite Hhex.
Qed.

Lemma confirm_row w t s w' :
  world_ok w → shows w s → type_ t = LOG2TYPE_TX_CONFIRM → tx_step w t w' →
  ∃ s', confirmTx begin interval now t s = (Done tt, s') ∧ shows w' s' ∧ world_ok w' ∧
    notifications s' = notifications s ++ row_notes t s.
Proof.
  intros Hok Hs Ht Hstep. inversion Hstep as [E | _ Hrow Hp E | c x E | E]; try (rewrite Ht in E; discriminate E).
  clear E Hstep. destruct (Hrow) as [Htx Hhex]. pose proof (ok_fine _ _ _ Hok _ (live_pool _ _ Hp)) as Hf.
  destruct (fine_value _ _ _ Hf) as [v Hv]. destruct (Hp) as [tm Hp'].
  destruct (shows_accounts _ _ _ _ _ Hs) as (F & HR & Hsd & HA).
  destruct (confirm_accounts_of body C w t F Hok Htx Hp HA) as (F' & HF' & HA').
  assert (prevTxOutputs (tables s) (tx_ t) = Some (prev (txHash_ t))) as Hprev.
  { rewrite Htx. eapply prev_tables; [apply Hs | done |].
    intros q Hq. by apply (ok_parents _ _ _ Hok (txHash_ t)); [apply live_pool|]. }
  destruct (live_object body hexes w (tables s) (txHash_ t)) as (o & Ho & _); [apply Hs | by apply live_pool |].
  pose proof (confirm_object_run interval t o v (λ _, ltac:(rewrite Htx; exact Hv))) as Hobj.
  set (o' := set_block _ _ _) in Hobj.
  destruct (confirmTx_run C begin interval now t s F F' (prev (txHash_ t)) o o' HR) as (l & Hrun & HR');
    [rewrite Htx; apply Hf | exact Hprev | exact Ho | exact Hobj | exact HF' |].
  set (x := (blkHeight_ t, maxBlkTimestamp_ t)).
  assert (world_ok (confirm_of w (txHash_ t) x)) as Hok' by by apply confirm_world.
  eexists. split; [exact Hrun|]. split_and!; [|exact Hok'|by rewrite Htx].
  eapply shows_intro; [exact HR' | | exact HA' | | exact Hok' | |].
  - eapply confirm_sound; [exact HF' | exact Hsd].
  - apply (confirm_tables_of body hexes C w t (tables s) o); try done;
      [|subst o'; by destruct (IsCoinBase (tx_ t)) ..|apply Hs].
    apply (object_keeps body (txHash_ t) o); [|subst o'; by destruct (IsCoinBase (tx_ t))|].
    + eapply tab_made; [apply Hs|exact Ho].
    + subst o'. rewrite Htx. by intros ->.
  - by eapply count_down.
  - rewrite (shows_size _ _ _ _ _ Hs), <-Z.add_opp_r, i64_shift. unfold confirm_of.
    by rewrite (pool_bytes_delete _ _ _ Hp'), Hhex.
Qed.

Lemma unconfirm_row w t s w' :
  world_ok w → shows w s → type_ t = LOG2TYPE_TX_UNCONFIRM → tx_step w t w' →
  ∃ s', unconfirmTx begin now t s = (Done tt, s') ∧ shows w' s' ∧ world_ok w' ∧
    notifications s' = notifications s ++ row_notes t s.
Proof.
  intros Hok Hs Ht Hstep. inversion Hstep as [E | E | c x _ Hrow Hc E | E]; try (rewrite Ht in E; discriminate E).
  clear E Hstep. destruct (Hrow) as [Htx Hhex].
  assert (live w (txHash_ t)) as Hl by (left; unfold confirmed; rewrite Hc, fmap_app; set_solver).
  pose proof (ok_fine _ _ _ Hok _ Hl) as Hf.
  assert (w_pool w !! txHash_ t = None) as Hp.
  { apply (ok_apart _ _ _ Hok). unfold confirmed. rewrite Hc, fmap_app. set_solver. }
  destruct (shows_accounts _ _ _ _ _ Hs) as (F & HR & Hsd & HA).
  destruct (unconfirm_accounts_of body C w t F c x Hok Htx Hc HA) as (F' & HF' & HA').
  assert (prevTxOutputs (tables s) (tx_ t) = Some (prev (txHash_ t))) as Hprev.
  { rewrite Htx. eapply prev_tables; [apply Hs | done |]. intros k Hk. by apply (ok_parents _ _ _ Hok (txHash_ t)). }
  destruct (live_object body hexes w (tables s) (txHash_ t)) as (o & Ho & _); [apply Hs | done |].
  destruct (unconfirmTx_run C begin now t s F F' (prev (txHash_ t)) o HR) as (l & Hrun & HR');
    [rewrite Htx; apply Hf | exact Hprev | exact Ho | exact HF' |].
  assert (world_ok (unconfirm_of w (txHash_ t) c)) as Hok' by by eapply unconfirm_world.
  eexists. split; [exact Hrun|]. split_and!; [|exact Hok'|by rewrite Htx].
  eapply shows_intro; [exact HR' | | exact HA' | | exact Hok' | |].
  - eapply unconfirm_sound; [exact HF' | exact Hsd].
  - apply (unconfirm_tables_of body hexes C w t (tables s) c x); try done; apply Hs.
  - eapply count_up; [exact Hs | done | exact Hok'].
  - rewrite (shows_size _ _ _ _ _ Hs), i64_shift. unfold unconfirm_of. by rewrite pool_bytes_insert, Hhex.
Qed.

(** The formatting of line 1661 for the transaction [h] comes back, and with a
    text that is not the hash of another one. *)
Definition varargs_harmless h : Prop :=
  ∃ k, varargs (ToString h) = Some k ∧ (k = ToString h ∨ ∀ g, k ≠ ToString g).

Lemma hash_text_dec k : k = ToString (SetHex k) ∨ ∀ g, k ≠ ToString g.
Proof.
  destruct (decide (k = ToString (SetHex k))) as [E|E]; [by left|right]. intros g Hg. apply E.
  assert (ToString g = ToString (g mod 2 ^ 256)) as E'.
  { unfold GetHex. do 2 f_equal. apply le_bytes_mod. by rewrite Zmod_mod. }
  rewrite Hg, E', SetHex_ToString; [done|]. unfold in_u. apply Z.mod_pos_bound. lia.
Qed.

#[export] Instance varargs_harmless_dec h : Decision (varargs_harmless h).
Proof.
  unfold varargs_harmless. destruct (varargs (ToString h)) as [k|]; [|right; by intros (? & ? & _)].
  destruct (decide (k = ToString h)) as [->|Hk]; [left; eauto|].
  destruct (decide (k = ToString (SetHex k))) as [E|E].
  - right. intros (? & [= <-] & [?|Hn]); [done|]. by apply (Hn (SetHex k)).
  - left. exists k. split; [done|right]. by destruct (hash_text_dec k).
Defined.

(** A row on which the program depends on what that formatting does: the
    rejection of a transaction that touches an address, where it is not
    harmless. *)
Definition disturbed t : Prop :=
  type_ t = LOG2TYPE_TX_REJECT ∧ bal (txHash_ t) ≠ ∅ ∧ ¬ varargs_harmless (txHash_ t).

#[export] Instance disturbed_dec t : Decision (disturbed t).
Proof. unfold disturbed. apply _. Defined.

Lemma undisturbed_text t : type_ t = LOG2TYPE_TX_REJECT → ¬ disturbed t → ∃ k,
  (bal (txHash_ t) ≠ ∅ → varargs (ToString (txHash_ t)) = Some k) ∧
  (bal (txHash_ t) ≠ ∅ → k = ToString (txHash_ t) ∨ ∀ g, k ≠ ToString g).
Proof.
  intros Ht Hd. destruct (decide (varargs_harmless (txHash_ t))) as [(k & Hk & Hh)|Hn]; [by exists k|].
  exists []. split; intros Hb; destruct Hd; by split_and!.
Qed.

Lemma reject_row w t s w' :
  world_ok w → shows w s → type_ t = LOG2TYPE_TX_REJECT → tx_step w t w' → ¬ disturbed t →
  ∃ s', rejectTx varargs begin now t s = (Done tt, s') ∧ shows w' s' ∧ world_ok w' ∧
    notifications s' = notifications s ++ row_notes t s.
Proof.
  intros Hok Hs Ht Hstep Hv. destruct (undisturbed_text t Ht Hv) as (k & Hprint & Hk).
  inversion Hstep as [E | E | c x E | _ Hrow Hp Hsp Hw E]; try (rewrite Ht in E; discriminate E).
  clear E Hstep. destruct (Hrow) as [Htx Hhex]. pose proof (ok_fine _ _ _ Hok _ (live_pool _ _ Hp)) as Hf.
  destruct (Hp) as [tm Hp'].
  destruct (shows_accounts _ _ _ _ _ Hs) as (F & HR & Hsd & HA).
  destruct (reject_accounts_of body C k w t F Hok Htx Hp Hsp Hk Hw HA) as (F' & HF' & HA').
  assert (prevTxOutputs (tables s) (tx_ t) = Some (prev (txHash_ t))) as Hprev.
  { rewrite Htx. eapply prev_tables; [apply Hs | done |].
    intros q Hq. by apply (ok_parents _ _ _ Hok (txHash_ t)); [apply live_pool|]. }
  destruct (live_object body hexes w (tables s) (txHash_ t)) as (o & Ho & _); [apply Hs | by apply live_pool |].
  destruct (rejectTx_run C varargs k begin now t s F F' (prev (txHash_ t)) o HR) as (l & Hrun & HR');
    [rewrite Htx; apply Hf | exact Hprev | exact Ho | rewrite Htx; exact Hprint | exact HF' |].
  assert (world_ok (reject_of body w (txHash_ t))) as Hok' by by apply reject_world.
  eexists. split; [exact Hrun|]. split_and!; [|exact Hok'|by rewrite Htx].
  eapply shows_intro; [exact HR' | | exact HA' | | exact Hok' | |].
  - eapply reject_sound; [exact Hprev | exact HF' | exact Hsd].
  - apply (reject_tables_of body hexes C w t (tables s)); try done; apply Hs.
  - by eapply count_down.
  - rewrite (shows_size _ _ _ _ _ Hs), <-Z.add_opp_r, i64_shift. unfold reject_of.
    by rewrite (pool_bytes_delete _ _ _ Hp'), Hhex.
Qed.

(** ... and where the formatting does not come back, neither does the rejection
    of a transaction that touches an address. *)
Lemma reject_stops w t s w' :
  world_ok w → shows w s → type_ t = LOG2TYPE_TX_REJECT → tx_step w t w' →
  bal (txHash_ t) ≠ ∅ → varargs (ToString (txHash_ t)) = None →
  (rejectTx varargs begin now t s).1 = Raise Undefined.
Proof.
  intros Hok Hs Ht Hstep Hb Hv.
  inversion Hstep as [E | E | c x E | _ Hrow Hp Hsp Hw E]; try (rewrite Ht in E; discriminate E).
  clear E Hstep. destruct (Hrow) as [Htx _]. pose proof (ok_fine _ _ _ Hok _ (live_pool _ _ Hp)) as Hf.
  destruct (shows_accounts _ _ _ _ _ Hs) as (F & HR & _ & HA).
  destruct (reject_accounts_of body C (ToString (txHash_ t)) w t F Hok Htx Hp Hsp) as (F' & HF' & _);
    [by left | done..|].
  assert (prevTxOutputs (tables s) (tx_ t) = Some (prev (txHash_ t))) as Hprev.
  { rewrite Htx. eapply prev_tables; [apply Hs | done |].
    intros q Hq. by apply (ok_parents _ _ _ Hok (txHash_ t)); [apply live_pool|]. }
  destruct (live_object body hexes w (tables s) (txHash_ t)) as (o & Ho & _); [apply Hs | by apply live_pool |].
  eapply (rejectTx_stops C varargs (ToString (txHash_ t)) begin now t s F F' (prev (txHash_ t)) o HR);
    [rewrite Htx; apply Hf | exact Hprev | exact Ho | by rewrite Htx | exact Hv | exact HF'].
Qed.

(** ** Rows in a row *)

Lemma handle_row w t s w' :
  world_ok w → shows w s → tx_step w t w' → ¬ disturbed t →
  ∃ s', handleTx varargs begin interval now t s = (Done tt, s') ∧ shows w' s' ∧ world_ok w' ∧
    notifications s' = notifications s ++ row_notes t s.
Proof.
  intros Hok Hs Hstep Hv. unfold handleTx. inversion Hstep as [E | E | c x E | E]; subst w'; rewrite E;
    [eapply accept_row | eapply confirm_row | eapply unconfirm_row | eapply reject_row]; done.
Qed.

(** ** The first start *)
Definition first_start : txs_state :=
  {| led := emptyLedger;
     tables := {| kv_tx := ∅; kv_spent := ∅; kv_unconfirmed := ∅; kv_meta := ∅ |};
     unconfirmedTxsCount_ := 0; unconfirmedTxsSize_ := 0; currBlockHeight_ := -1; notifications := [] |}.

Lemma empty_world_ok : world_ok emptyWorld.
Proof.
  assert (∀ h, ¬ live emptyWorld h) as Hn.
  { intros h [Hc|[? Hp]]; [by apply elem_of_nil in Hc|]. simpl in Hp. by rewrite lookup_empty in Hp. }
  constructor; try (intros; exfalso; by eapply Hn); [constructor | | done |].
  - intros h Hc. by apply elem_of_nil in Hc.
  - simpl. rewrite map_size_empty. lia.
Qed.

Lemma first_shows : Z.of_nat (size C) ≤ kMaxCacheCount → shows emptyWorld first_start.
Proof.
  intros HC. constructor; [| |done..].
  - exists ∅. split; [|split].
    + constructor.
      * constructor; [|set_solver|done]. simpl. rewrite dom_empty_L. set_solver.
      * intros a _. unfold info. simpl. by rewrite lookup_empty.
      * intros a. unfold acct. rewrite lookup_empty. constructor; simpl; try done; try lia.
        intros i. rewrite lookup_empty. by case_decide.
    + intros a. unfold acct. rewrite lookup_empty. done.
    + intros a. unfold acct. rewrite lookup_empty. split; [constructor|constructor]; simpl; try done.
      intros h p p2 v. rewrite lookup_empty. split; [done|]. intros ([Hc|[? Hp]] & _).
      * by apply elem_of_nil in Hc.
      * simpl in Hp. by rewrite lookup_empty in Hp.
  - constructor; simpl.
    + intros h o. by rewrite lookup_empty.
    + intros h x [Hc|[[? Hp] _]]; [by apply elem_of_nil in Hc|]. simpl in Hp. by rewrite lookup_empty in Hp.
    + intros k x. rewrite lookup_empty. split; [done|]. intros (g & i & [Hc|[? Hp]] & _); [by apply elem_of_nil in Hc|].
      simpl in Hp. by rewrite lookup_empty in Hp.
    + intros h e. rewrite !lookup_empty. split; [done|]. by intros [[] _].
Qed.

(** ** A restart between two rows *)

Lemma restart_rep l F : Rep C ∅ l F → Rep C ∅ (with_cache ∅ 0 l) F.
Proof.
  intros [[Hc Hd Hr] Hcl HA].
  assert (∀ a, info a (with_cache ∅ 0 l) = info a l) as Hi.
  { intros a. rewrite Hcl by set_solver. unfold info. simpl. by rewrite lookup_empty. }
  constructor.
  - constructor; [|done|done]. simpl. rewrite dom_empty_L. set_solver.
  - intros a _. rewrite Hi. by apply Hcl.
  - intros a. destruct (HA a) as [R1 R2 R3 R4 R5 R6 R7]. constructor; try done; [by destruct R6|]. by rewrite Hi.
Qed.

Lemma restart_shows w s : shows w s → shows w (restart s).
Proof.
  intros [(F & HR & Hs & HA) HT Hc Hz Hst]. unfold restart. rewrite Hst. constructor; try done.
  exists F. split; [by apply restart_rep|]. done.
Qed.

(** ** What a visitor of an address sees *)

Lemma total_flow l : total_of received_part l - total_of sent_part l ≡64 total_of id l.
Proof.
  induction l as [|e l IH]; [done|]. simpl.
  replace (received_part (balance_diff e) + total_of received_part l - (sent_part (balance_diff e) + total_of sent_part l))
    with (received_part (balance_diff e) - sent_part (balance_diff e) +
      (total_of received_part l - total_of sent_part l)) by lia.
  rewrite IH. apply add_cong64; [|done]. unfold received_part, sent_part, id.
  destruct (Z.ltb_spec 0 (balance_diff e)), (Z.ltb_spec (balance_diff e) 0); try lia.
  - by rewrite Z.sub_0_r.
  - rewrite i64_cong. by replace (0 - balance_diff e * -1) with (balance_diff e) by lia.
  - by replace (balance_diff e) with 0 by lia.
Qed.

Lemma stored_account w s a :
  shows w s → ∃ A, account_rep (led s) a A ∧ account_of body w a A ∧ stored_info a (led s) = account_info A ∧
    worth A ≡64 flow A.
Proof.
  intros Hs. destruct (shows_accounts _ _ _ _ _ Hs) as (F & HR & Hsd & HA). exists (acct a F).
  pose proof (Rep_accounts _ _ _ _ HR a) as Hrep. split_and!; [done..| |apply Hsd].
  rewrite <-(Rep_clean _ _ _ _ HR a) by set_solver. apply Hrep.
Qed.

(** the balance shown is the sum of the unspent outputs *)
Lemma shown_balance A : worth A ≡64 flow A →
  i64 (received_ (account_info A) - sent_ (account_info A)) = i64 (map_fold (λ _ pv x, pv.2 + x) 0 (acc_unspent A)).
Proof.
  intros Hwf. unfold account_info. cbn [received_ sent_].
  change (i64 (total_of received_part (acc_txs A)) - i64 (total_of sent_part (acc_txs A)) ≡64 worth A).
  rewrite Hwf, !i64_cong. apply total_flow.
Qed.

Lemma conf_length w a A : history body w a A → length (chain_of body w a) = acc_conf A.
Proof.
  intros [H1 _ H3]. apply (f_equal length) in H1. rewrite length_take, length_fmap in H1. lia.
Qed.

Lemma total_length w a A :
  history body w a A → length (acc_txs A) = (length (chain_of body w a) + length (pool_of body w a))%nat.
Proof. intros Hh. rewrite (Permutation_length (entries_perm _ _ _ _ Hh)), length_app, !length_fmap. done. Qed.
End claims.
