(* ===== verification/ParserFacts.v ===== *)
(** * The parser's properties

    The claims about the transaction handlers, on the lemmas of [ParserClaims];
    [Demo] is a small chain on which they are tried. *)
From S2P Require Import Prelude Tx Bytes Text Serialize TxState Notify Ledger LedgerSpec LedgerRefine ParserTx ParserRefine.
From S2P Require Import Balances Utxo ParserSpec ParserHistory ParserSteps ParserTables ParserClaims.

(** a row to handle, or a new process *)
Abbreviation event := (option TxLog2).

Section facts.
Context `{Scripts} (body : uint256 → CTransaction) (hexes : uint256 → bytes) (C : gset bytes).
Variables (begin interval now : Z) (varargs : bytes → option bytes).
Implicit Types (w : world) (h : uint256) (a : bytes) (t : TxLog2) (s : txs_state).
Abbreviation world_ok := (world_ok body C).
Abbreviation shows := (shows body hexes C).
Abbreviation tx_step := (tx_step body hexes C).

(** Accepting a transaction that is new and spends only unspent outputs of
    live transactions never fails; afterwards every table (objects, spent-by
    records, unconfirmed list, counters, every address's history and unspent
    outputs) is that of the world with the transaction in the pool, and one
    notification per address it touches has been written. *)
Theorem acceptTx_refines w t s w' :
  world_ok w → shows w s → type_ t = LOG2TYPE_TX_ACCEPT → tx_step w t w' →
  ∃ s', acceptTx begin now t s = (Done tt, s') ∧ shows w' s' ∧ world_ok w' ∧
    notifications s' = notifications s ++ notes begin now (bal body (txHash_ t)) t s.
Proof. apply accept_row. Qed.

(** Confirming an unconfirmed transaction never fails; in every address it
    touches it becomes the next confirmed entry, with the block's height and
    time, whatever the order the address's transactions were accepted in. *)
Theorem confirmTx_refines w t s w' :
  world_ok w → shows w s → type_ t = LOG2TYPE_TX_CONFIRM → tx_step w t w' →
  ∃ s', confirmTx begin interval now t s = (Done tt, s') ∧ shows w' s' ∧ world_ok w' ∧
    notifications s' = notifications s ++ notes begin now (bal body (txHash_ t)) t s.
Proof. apply confirm_row. Qed.

(** Taking back the last confirmed transaction never fails (the assertions
    on the last confirmed index hold) and returns it to the unconfirmed part of
    every address it touches. *)
Theorem unconfirmTx_refines w t s w' :
  world_ok w → shows w s → type_ t = LOG2TYPE_TX_UNCONFIRM → tx_step w t w' →
  ∃ s', unconfirmTx begin now t s = (Done tt, s') ∧ shows w' s' ∧ world_ok w' ∧
    notifications s' = notifications s ++ notes begin now (bal body (txHash_ t)) t s.
Proof. apply unconfirm_row. Qed.

(** C10 — Rejecting an unconfirmed transaction whose outputs no live transaction
    spends.  When it touches an address, the handler formats a [uint256] object
    with [%s] (line 1661), which is undefined.  If that prints a text that is not
    the hash of another transaction, or the transaction touches no address, the
    rejection runs to its end: what it spent is unspent again, its outputs and
    entries are gone from every address.  If it touches an address and the
    formatting does not come back, neither does the handler. *)
Theorem rejectTx_refines w t s w' :
  world_ok w → shows w s → type_ t = LOG2TYPE_TX_REJECT → tx_step w t w' →
  (bal body (txHash_ t) = ∅ ∨ varargs_harmless varargs (txHash_ t) →
    ∃ s', rejectTx varargs begin now t s = (Done tt, s') ∧ shows w' s' ∧ world_ok w' ∧
      notifications s' = notifications s ++ notes begin now (bal body (txHash_ t)) t s) ∧
  (bal body (txHash_ t) ≠ ∅ → varargs (ToString (txHash_ t)) = None →
    (rejectTx varargs begin now t s).1 = Raise Undefined).
Proof.
  intros Hok Hs Ht Hstep. split.
  - intros Hh. eapply reject_row; [done..|]. intros (_ & Hb & Hn). by destruct Hh.
  - by apply (reject_stops body hexes C begin now varargs w t s w').
Qed.

(** ** Runs with restarts *)

Definition follow (e : event) : M txs_state unit :=
  match e with
  | Some t => handleTx varargs begin interval now t
  | None => modify restart
  end.
Inductive legal : world → list event → world → Prop :=
| legal_nil w : legal w [] w
| legal_row w t w1 l w2 : tx_step w t w1 → legal w1 l w2 → legal w (Some t :: l) w2
| legal_restart w l w2 : legal w l w2 → legal w (None :: l) w2.

(** The run reached, with every row before it handled and the tables showing
    the world of those rows, a row on which line 1661 formats something that is
    not harmless. *)
Definition reaches_disturbed (w : world) (l : list event) s : Prop :=
  ∃ l1 t l2 w1 s1, l = l1 ++ Some t :: l2 ∧ legal w l1 w1 ∧
    forM l1 follow s = (Done tt, s1) ∧ shows w1 s1 ∧ disturbed body varargs t.

Lemma reaches_cons e w w1 l s s1 :
  (∀ l1 w2, legal w1 l1 w2 → legal w (e :: l1) w2) → follow e s = (Done tt, s1) →
  reaches_disturbed w1 l s1 → reaches_disturbed w (e :: l) s.
Proof.
  intros Hlegal Hrun (l1 & t & l2 & w2 & s2 & -> & Hl & Hrun' & Hrest). exists (e :: l1), t, l2, w2, s2.
  split; [done|]. split; [by apply Hlegal|]. split; [|done]. cbn [forM]. by rewrite (bind_Done _ _ _ _ _ Hrun).
Qed.

Lemma follow_all w l w' s :
  legal w l w' → world_ok w → shows w s →
  (∃ s', forM l follow s = (Done tt, s') ∧ shows w' s' ∧ world_ok w') ∨ reaches_disturbed w l s.
Proof.
  intros Hl. revert s. induction Hl as [w|w t w1 l w2 Hstep Hl IH|w l w2 Hl IH]; intros s Hok Hs; [left; by exists s| |].
  - destruct (decide (disturbed body varargs t)) as [Hd|Hd].
    { right. exists [], t, l, w, s. split_and!; [done|constructor|done..]. }
    destruct (handle_row body hexes C begin interval now varargs w t s w1 Hok Hs Hstep Hd)
      as (s1 & Hrun & Hs1 & Hok1 & _).
    destruct (IH s1 Hok1 Hs1) as [(s' & Hrun' & Hs' & Hok')|Hr].
    + left. exists s'. split; [|done]. cbn [forM follow]. by rewrite (bind_Done _ _ _ _ _ Hrun).
    + right. apply (reaches_cons (Some t) w w1 l s s1); [|exact Hrun|exact Hr]. intros. by eapply legal_row.
  - assert (follow None s = (Done tt, restart s)) as Hrun by done.
    destruct (IH (restart s) Hok) as [(s' & Hrun' & Hs' & Hok')|Hr]; [by apply restart_shows| |].
    + left. exists s'. split; [|done]. cbn [forM]. by rewrite (bind_Done _ _ _ _ _ Hrun).
    + right. apply (reaches_cons None w w l s (restart s)); [|exact Hrun|exact Hr]. intros. by apply legal_restart.
Qed.

(** what a legal history leaves, from the first start *)
Lemma history_shows l w :
  Z.of_nat (size C) ≤ kMaxCacheCount → legal emptyWorld l w →
  (∃ s, forM l follow first_start = (Done tt, s) ∧ shows w s) ∨ reaches_disturbed emptyWorld l first_start.
Proof.
  intros HC Hl. destruct (follow_all _ _ _ first_start Hl (empty_world_ok body C)
    (first_shows body hexes C HC)) as [(s & Hrun & Hs & _)|?]; [left; by exists s|by right].
Qed.

(** the pages of one address in tables that show a world *)
Lemma shown_history w s a :
  shows w s →
  let i := stored_info a (led s) in
  let conf := chain_of body w a in let pool := pool_of body w a in
  lastConfirmedTxIdx_ i = Z.of_nat (length conf) - 1 ∧
  txCount_ i = Z.of_nat (length conf + length pool) ∧
  unconfirmedTxCount_ i = Z.of_nat (length pool) ∧
  (∀ k : nat, (k < length conf)%nat →
    kv_addr_tx (led s) !! (a, Z.of_nat k) = chain_entry body a <$> conf !! k) ∧
  ∃ l, l ≡ₚ pool_entry body a <$> pool ∧
    ∀ k : nat, kv_addr_tx (led s) !! (a, Z.of_nat (length conf + k)) = l !! k.
Proof.
  intros Hs i conf pool. destruct (stored_account _ _ _ _ _ a Hs) as (A & Hrep & [Hh _] & Ei & _).
  subst i. rewrite Ei. pose proof (conf_length _ _ _ _ Hh) as Hc. pose proof (total_length _ _ _ _ Hh) as Ht.
  unfold account_info. cbn [lastConfirmedTxIdx_ txCount_ unconfirmedTxCount_]. fold conf in Hc, Ht. fold pool in Ht.
  split_and!; [lia|lia|lia| |].
  - intros k Hk. rewrite (rep_tx _ _ _ Hrep), decide_True, Nat2Z.id by lia.
    rewrite <-list_lookup_fmap. unfold conf. rewrite <-(hist_conf _ _ _ _ Hh). by rewrite lookup_take_lt by lia.
  - exists (drop (acc_conf A) (acc_txs A)). split; [apply Hh|]. intros k.
    rewrite (rep_tx _ _ _ Hrep), decide_True, Nat2Z.id by lia. by rewrite lookup_drop, Hc.
Qed.

(** C12 — After every legal history of rows and restarts of the parser from an
    empty store, unless it reached a rejection whose formatting (line 1661) is
    not harmless: the stored pages of every address.  The confirmed transactions
    that touch it stand first, in chain order, each with its height, time and
    balance; the unconfirmed ones follow, each once; the counts and the last
    confirmed index agree. *)
Theorem address_history l w :
  Z.of_nat (size C) ≤ kMaxCacheCount → legal emptyWorld l w →
  (∃ s, forM l follow first_start = (Done tt, s) ∧ ∀ a,
    let i := stored_info a (led s) in
    let conf := chain_of body w a in let pool := pool_of body w a in
    lastConfirmedTxIdx_ i = Z.of_nat (length conf) - 1 ∧
    txCount_ i = Z.of_nat (length conf + length pool) ∧
    unconfirmedTxCount_ i = Z.of_nat (length pool) ∧
    (∀ k : nat, (k < length conf)%nat →
      kv_addr_tx (led s) !! (a, Z.of_nat k) = chain_entry body a <$> conf !! k) ∧
    ∃ l, l ≡ₚ pool_entry body a <$> pool ∧
      ∀ k : nat, kv_addr_tx (led s) !! (a, Z.of_nat (length conf + k)) = l !! k) ∨
  reaches_disturbed emptyWorld l first_start.
Proof.
  intros HC Hl. destruct (history_shows l w HC Hl) as [(s & Hrun & Hs)|?]; [left|by right].
  exists s. split; [done|]. intros a. by apply shown_history.
Qed.

(** the unspent list and the balance of one address in tables that show a world *)
Lemma shown_unspent w s a :
  shows w s → ∃ u : gmap (uint256 * Z) (Z * Z),
  (∀ h p p2 v, u !! (h, p) = Some (p2, v) ↔ live w h ∧ created (body h) p a p2 v ∧ ¬ spent body w (h, p)) ∧
  i64 (received_ (stored_info a (led s)) - sent_ (stored_info a (led s))) =
    i64 (map_fold (λ _ pv x, pv.2 + x) 0 u) ∧
  (∀ h p p2 v, u !! (h, p) = Some (p2, v) → ∃ i, kv_unspent_index (led s) !! (a, h, p) = Some i ∧
    kv_unspent (led s) !! (a, i) =
      Some {| au_position := p; au_position2 := p2; au_tx_hash := ToString h; au_value := v |}) ∧
  (∀ i r, kv_unspent (led s) !! (a, i) = Some r → ∃ h p, is_Some (u !! (h, p)) ∧
    kv_unspent_index (led s) !! (a, h, p) = Some i).
Proof.
  intros Hs. destruct (stored_account _ _ _ _ _ a Hs) as (A & Hrep & [_ Ho] & Ei & Hwf).
  exists (acc_unspent A). pose proof (rep_unspent _ _ _ Hrep) as [U1 U2 U3 U4]. split_and!.
  - intros h p p2 v. apply (outs_unspent _ _ _ _ Ho).
  - rewrite Ei. by apply shown_balance.
  - apply U1.
  - intros i r Hr. destruct (U4 i r Hr) as (_ & h & p & Hi). exists h, p. split; [|done].
    destruct (acc_unspent A !! (h, p)) eqn:E; [eauto|]. apply U2 in E. congruence.
Qed.

(** C9 — After every legal history of rows and restarts of the parser from an
    empty store, unless it reached a rejection whose formatting (line 1661) is
    not harmless: the stored unspent list of every address holds exactly the
    outputs to it of live transactions that no live transaction spends, each
    with its value; and received minus sent, the balance shown, is the sum of
    those values. *)
Theorem address_balance l w :
  Z.of_nat (size C) ≤ kMaxCacheCount → legal emptyWorld l w →
  (∃ s, forM l follow first_start = (Done tt, s) ∧ ∀ a, ∃ u : gmap (uint256 * Z) (Z * Z),
    (∀ h p p2 v, u !! (h, p) = Some (p2, v) ↔ live w h ∧ created (body h) p a p2 v ∧ ¬ spent body w (h, p)) ∧
    i64 (received_ (stored_info a (led s)) - sent_ (stored_info a (led s))) =
      i64 (map_fold (λ _ pv x, pv.2 + x) 0 u) ∧
    (∀ h p p2 v, u !! (h, p) = Some (p2, v) → ∃ i, kv_unspent_index (led s) !! (a, h, p) = Some i ∧
      kv_unspent (led s) !! (a, i) =
        Some {| au_position := p; au_position2 := p2; au_tx_hash := ToString h; au_value := v |}) ∧
    (∀ i r, kv_unspent (led s) !! (a, i) = Some r → ∃ h p, is_Some (u !! (h, p)) ∧
      kv_unspent_index (led s) !! (a, h, p) = Some i)) ∨
  reaches_disturbed emptyWorld l first_start.
Proof.
  intros HC Hl. destruct (history_shows l w HC Hl) as [(s & Hrun & Hs)|?]; [left|by right].
  exists s. split; [done|]. intros a. by apply shown_unspent.
Qed.
End facts.

(** ** A small chain: transaction 1 creates coins for the address 97, transaction
    2 pays some of them to 98. *)
Module ParserDemo.
#[local] Instance scripts : Scripts := {|
  destinations := λ s, match s with [] => [] | _ => [s] end; script_text := λ s, s; script_type := λ _, [] |}.
Definition coinbase : CTransaction :=
  {| nVersion := 1; vin := [ {| prevout := {| hash := 0; n := u32 (-1) |}; scriptSig := [1]; nSequence := 0 |} ];
     vout := [ {| nValue := 5000000000; scriptPubKey := [97] |} ]; nLockTime := 0 |}.
Definition payment : CTransaction :=
  {| nVersion := 1; vin := [ {| prevout := {| hash := 1; n := 0 |}; scriptSig := [2]; nSequence := 0 |} ];
     vout := [ {| nValue := 3000000000; scriptPubKey := [98] |}; {| nValue := 1999990000; scriptPubKey := [97] |} ];
     nLockTime := 0 |}.
Definition body (h : uint256) : CTransaction := if h =? 1 then coinbase else if h =? 2 then payment else nullTx.
Definition hexes (h : uint256) : bytes := replicate 100 48.
Definition C : gset bytes := {[ [97]; [98] ]}.
Definition row (type h height time : Z) : TxLog2 :=
  {| id_ := 1; type_ := type; blkHeight_ := height; blkId_ := 0; maxBlkTimestamp_ := time;
     txHex_ := hexes h; txHash_ := h; tx_ := body h |}.
Definition accept1 := row LOG2TYPE_TX_ACCEPT 1 (-1) UNCONFIRM_TX_TIMESTAMP.
Definition confirm1 := row LOG2TYPE_TX_CONFIRM 1 0 1231006505.
Definition accept2 := row LOG2TYPE_TX_ACCEPT 2 (-1) UNCONFIRM_TX_TIMESTAMP.
Definition reject2 := row LOG2TYPE_TX_REJECT 2 (-1) UNCONFIRM_TX_TIMESTAMP.
Definition unconfirm1 := row LOG2TYPE_TX_UNCONFIRM 1 0 1231006505.
Abbreviation w0 := emptyWorld.
Definition w1 := accept_of body w0 1 UNCONFIRM_TX_TIMESTAMP.
Definition w2 := confirm_of w1 1 (0, 1231006505).
Definition w3 := accept_of body w2 2 UNCONFIRM_TX_TIMESTAMP.
Definition w4 := reject_of body w3 2.
Definition w5 := unconfirm_of w4 1 [].

Ltac by_compute := apply (bool_decide_unpack _); vm_compute; exact I.

Lemma outs_fine h : h = 1 ∨ h = 2 → outs_ok (body h).
Proof.
  intros [-> | ->]; constructor; [by_compute | apply Forall_forall; by_compute | apply Forall_forall; by_compute | by_compute
    | apply Forall_forall; by_compute | apply Forall_forall; by_compute].
Qed.

Lemma fine h : h = 1 ∨ h = 2 → tx_fine body C h.
Proof.
  intros Hh. constructor; [destruct Hh as [-> | ->]; by_compute | by apply outs_fine | |
    destruct Hh as [-> | ->]; eexists; vm_compute; reflexivity | destruct Hh as [-> | ->]; by_compute].
  constructor.
  - destruct Hh as [-> | ->]; by_compute.
  - destruct Hh as [-> | ->]; [done|]. intros _. apply Forall_forall. by_compute.
  - destruct Hh as [-> | ->]; by_compute.
  - destruct Hh as [-> | ->]; by_compute.
  - intros k Hk. assert (k = (1, 0)) as ->; [|by apply outs_fine; left].
    revert k Hk. apply Forall_forall. destruct Hh as [-> | ->]; by_compute.
Qed.

Lemma live_one w : ((1, (0, 1231006505)) ∈ w_chain w ∨ is_Some (w_pool w !! 1)) → live w 1.
Proof. intros [Hc|Hp]; [left|by right]. by apply (list_elem_of_fmap_2 fst _ (1, (0, 1231006505))). Qed.

Lemma dead w h : h ∉ (w_chain w).*1 → w_pool w !! h = None → ¬ live w h.
Proof. intros Hc Hp [?|[? Hx]]; [done|]. congruence. Qed.

(** the live transactions of a world, listed *)
Lemma live_listed w h : live w h → h ∈ (w_chain w).*1 ++ (map_to_list (w_pool w)).*1.
Proof.
  intros [Hc|[tm Hp]]; apply elem_of_app; [by left|right].
  apply (list_elem_of_fmap_2 fst _ (h, tm)). by apply elem_of_map_to_list.
Qed.

Lemma unspent_listed w k :
  Forall (λ g, k ∉ points (body g)) ((w_chain w).*1 ++ (map_to_list (w_pool w)).*1) → ¬ spent body w k.
Proof. rewrite Forall_forall. intros Hf (g & Hg%live_listed & Hk). by apply (Hf g). Qed.

Lemma step1 : tx_step body hexes C w0 accept1 w1.
Proof.
  apply accepts; [done | done | done | | apply fine; by left | | done].
  - apply dead; by_compute.
  - replace (points (body (txHash_ accept1))) with ([] : list (uint256 * Z)) by (vm_compute; reflexivity).
    intros k Hk. by apply elem_of_nil in Hk.
Qed.

Lemma step2 : tx_step body hexes C w1 confirm1 w2.
Proof. apply confirms; [done | done | by_compute]. Qed.

Lemma step3 : tx_step body hexes C w2 accept2 w3.
Proof.
  apply accepts; [done | done | done | | apply fine; by right | | by_compute].
  - apply dead; by_compute.
  - intros k Hk. assert (k = (1, 0)) as ->.
    { revert k Hk. apply Forall_forall. by_compute. }
    split; [apply live_one; left; by_compute|]. apply unspent_listed. by_compute.
Qed.

Lemma step4 : tx_step body hexes C w3 reject2 w4.
Proof.
  apply rejects; [done | done | by_compute | | by_compute].
  intros k (g & Hg%live_listed & Hk).
  assert (Forall (λ g, Forall (λ k, k.1 ≠ txHash_ reject2) (points (body g)))
    ((w_chain w3).*1 ++ (map_to_list (w_pool w3)).*1)) as Hf by by_compute.
  rewrite Forall_forall in Hf. specialize (Hf g Hg). rewrite Forall_forall in Hf. by apply Hf.
Qed.

Lemma step5 : tx_step body hexes C w4 unconfirm1 w5.
Proof.
  exact (unconfirms body hexes C w4 unconfirm1 [] (0, 1231006505) eq_refl (conj eq_refl eq_refl) eq_refl).
Qed.

(** printing the hexadecimal text of the hash *)
Lemma harmless h : varargs_harmless Some h.
Proof. exists (ToString h). split; [done|by left]. Qed.

Lemma undisturbed t : ¬ disturbed body Some t.
Proof. intros (_ & _ & Hn). apply Hn, harmless. Qed.

Lemma run_legal :
  legal body hexes C w0 [Some accept1; Some confirm1; None; Some accept2; Some reject2; Some unconfirm1] w5.
Proof.
  eapply legal_row; [exact step1|]. eapply legal_row; [exact step2|]. apply legal_restart.
  eapply legal_row; [exact step3|]. eapply legal_row; [exact step4|]. eapply legal_row; [exact step5|].
  constructor.
Qed.

Lemma small : Z.of_nat (size C) ≤ kMaxCacheCount.
Proof. vm_compute. discriminate. Qed.

Lemma not_disturbed w l s : ¬ reaches_disturbed body hexes C 0 210000 0 Some w l s.
Proof. intros (l1 & t & l2 & w1 & s1 & _ & _ & _ & _ & Hd). by apply (undisturbed t). Qed.

Lemma reach l w : legal body hexes C w0 l w → ∃ s, shows body hexes C w s ∧ world_ok body C w.
Proof.
  intros Hl. destruct (follow_all body hexes C 0 210000 0 Some _ _ _ first_start Hl (empty_world_ok body C)
    (first_shows body hexes C small)) as [(s & _ & Hs & Hok)|Hd]; [by exists s|by apply not_disturbed in Hd].
Qed.

Lemma reach1 : ∃ s, shows body hexes C w1 s ∧ world_ok body C w1.
Proof. apply (reach [Some accept1]). eapply legal_row; [exact step1 | constructor]. Qed.
Lemma legal3 : legal body hexes C w0 [Some accept1; Some confirm1; Some accept2] w3.
Proof.
  eapply legal_row; [exact step1|]. eapply legal_row; [exact step2|].
  eapply legal_row; [exact step3 | constructor].
Qed.
Lemma reach3 : ∃ s, shows body hexes C w3 s ∧ world_ok body C w3.
Proof. exact (reach _ _ legal3). Qed.
Lemma reach4 : ∃ s, shows body hexes C w4 s ∧ world_ok body C w4.
Proof.
  apply (reach [Some accept1; Some confirm1; Some accept2; Some reject2]).
  eapply legal_row; [exact step1|]. eapply legal_row; [exact step2|].
  eapply legal_row; [exact step3|]. eapply legal_row; [exact step4 | constructor].
Qed.

(** what is unspent for the address 97 while transaction 2 is in the pool *)
Definition unspent97 : gmap (uint256 * Z) (Z * Z) := {[ (2, 1) := (0, 1999990000) ]}.
End ParserDemo.

Section witnesses.
#[local] Existing Instance ParserDemo.scripts.
Import ParserDemo.

Theorem acceptTx_refines_witness : ∃ s',
  acceptTx 0 0 accept1 first_start = (Done tt, s') ∧ shows body hexes C w1 s' ∧ world_ok body C w1 ∧
    notifications s' = notifications first_start ++ notes 0 0 (bal body (txHash_ accept1)) accept1 first_start.
Proof.
  apply (acceptTx_refines body hexes C 0 0 w0).
  - apply empty_world_ok.
  - apply first_shows, small.
  - reflexivity.
  - apply step1.
Defined.

Theorem confirmTx_refines_witness : ∃ s s',
  confirmTx 0 210000 0 confirm1 s = (Done tt, s') ∧ shows body hexes C w2 s' ∧ world_ok body C w2 ∧
    notifications s' = notifications s ++ notes 0 0 (bal body (txHash_ confirm1)) confirm1 s.
Proof.
  destruct reach1 as (s & Hs & Hok). exists s.
  apply (confirmTx_refines body hexes C 0 210000 0 w1); [done | done | reflexivity | apply step2].
Defined.

Theorem unconfirmTx_refines_witness : ∃ s s',
  unconfirmTx 0 0 unconfirm1 s = (Done tt, s') ∧ shows body hexes C w5 s' ∧ world_ok body C w5 ∧
    notifications s' = notifications s ++ notes 0 0 (bal body (txHash_ unconfirm1)) unconfirm1 s.
Proof.
  destruct reach4 as (s & Hs & Hok). exists s.
  apply (unconfirmTx_refines body hexes C 0 0 w4); [done | done | reflexivity | apply step5].
Defined.

Theorem rejectTx_refines_witness : ∃ s s',
  rejectTx Some 0 0 reject2 s = (Done tt, s') ∧ shows body hexes C w4 s' ∧ world_ok body C w4 ∧
    notifications s' = notifications s ++ notes 0 0 (bal body (txHash_ reject2)) reject2 s ∧
    (rejectTx (λ _, None) 0 0 reject2 s).1 = Raise Undefined.
Proof.
  destruct reach3 as (s & Hs & Hok). exists s.
  destruct (rejectTx_refines body hexes C 0 0 Some w3 reject2 s w4 Hok Hs eq_refl step4) as [Hrun _].
  destruct (rejectTx_refines body hexes C 0 0 (λ _, None) w3 reject2 s w4 Hok Hs eq_refl step4) as [_ Hstop].
  destruct (Hrun (or_intror (harmless _))) as (s' & H1 & H2 & H3 & H4). exists s'. split_and!; [done..|].
  apply Hstop; [|done]. by_compute.
Defined.

Theorem address_history_witness : ∃ s,
  forM [Some accept1; Some confirm1; Some accept2] (follow 0 210000 0 Some) first_start = (Done tt, s) ∧
  txCount_ (stored_info [97] (led s)) = 2 ∧ unconfirmedTxCount_ (stored_info [97] (led s)) = 1.
Proof.
  destruct (address_history body hexes C 0 210000 0 Some _ _ small legal3) as [(s & Hrun & Hs)|Hd];
    [|by apply not_disturbed in Hd].
  exists s. split; [done|]. destruct (Hs [97]) as (_ & E1 & E2 & _).
  split; [rewrite E1 | rewrite E2]; vm_compute; reflexivity.
Defined.

Lemma unspent97_ok h p p2 v :
  unspent97 !! (h, p) = Some (p2, v) ↔ live w3 h ∧ created (body h) p [97] p2 v ∧ ¬ spent body w3 (h, p).
Proof.
  unfold unspent97. rewrite lookup_singleton_Some. split.
  - intros [[= <- <-] [= <- <-]]. split_and!.
    + right. eexists. vm_compute. reflexivity.
    + exists 1%nat, 0%nat, {| nValue := 1999990000; scriptPubKey := [97] |}. done.
    + apply unspent_listed. by_compute.
  - intros (Hl%live_listed & (k & j & o & Ho & Hj & -> & -> & ->) & Hs).
    assert (h = 1 ∨ h = 2) as [-> | ->].
    { revert h Hl Ho Hs. intros h Hl _ _. revert h Hl. apply Forall_forall. by_compute. }
    + destruct k; [|by destruct k]. destruct Hs. exists 2. split; [|by_compute].
      right. eexists. vm_compute. reflexivity.
    + destruct k as [|[|k]]; [| |by destruct k]; simpl in Ho; injection Ho as <-; simpl in Hj.
      * destruct j; [done|by destruct j].
      * destruct j; [done|by destruct j].
Qed.

Theorem address_balance_witness : ∃ s,
  forM [Some accept1; Some confirm1; Some accept2] (follow 0 210000 0 Some) first_start = (Done tt, s) ∧
  i64 (received_ (stored_info [97] (led s)) - sent_ (stored_info [97] (led s))) = 1999990000.
Proof.
  destruct (address_balance body hexes C 0 210000 0 Some _ _ small legal3) as [(s & Hrun & Hs)|Hd];
    [|by apply not_disturbed in Hd].
  exists s. split; [done|]. destruct (Hs [97]) as (u & Hu & E & _). rewrite E.
  assert (u = unspent97) as ->; [|vm_compute; reflexivity].
  apply map_eq. intros [h p]. apply option_eq. intros [p2 v]. by rewrite Hu, unspent97_ok.
Defined.
End witnesses.
