(* ===== verification/ParserErrors.v ===== *)
(** * Where the parser stops or forgets

    Three limits of the address tables: an output that lists an address twice
    can be received but never spent; a full cache of address objects drops
    changes that are not stored yet; a row that is handled again after a crash is
    booked again. *)
From S2P Require Import Prelude Tx Bytes Text Serialize TxState Notify Ledger LedgerSpec LedgerRefine ParserTx ParserRefine.
From S2P Require Import Utxo ParserClaims ParserFacts.

Section errors.
Implicit Types (s : ledger) (a b : bytes) (h : uint256) (p : Z).

(** ** The cache always holds the object that was asked for *)

Lemma load_present a s : is_Some (addrTxCache (load a s) !! a).
Proof.
  unfold load. destruct (addrTxCache s !! a) eqn:E; [by rewrite E|]. unfold evict. simpl.
  destruct (_ <? _); [|rewrite lookup_insert_eq; eauto].
  exists (stored_info a s, lastUseIdx s). apply map_lookup_filter_Some. rewrite lookup_insert_eq.
  split; [done|]. simpl. change (kMaxCacheCount / 2) with 2500000. lia.
Qed.

Lemma getAddressInfo_total a s : ∃ i, getAddressInfo a s = (Done i, load a s).
Proof.
  unfold getAddressInfo. rewrite (bind_Done (modify (load a)) _ s tt (load a s) eq_refl).
  rewrite (bind_Done get _ _ _ _ eq_refl). destruct (load_present a s) as [[i k] E]. rewrite E. by exists i.
Qed.

(** ** An unspent record can be spent once *)

Lemma spendUnspent_step a h p s :
  spendUnspent a h p s = match kv_unspent_index s !! (a, h, p) with
    | None => (Raise (Throw "not found key"), set_info a info_unspent_del (load a s))
    | Some i => (Done tt, with_unspent_index (delete (a, h, p)) (with_unspent (delete (a, i))
                  (set_info a info_unspent_del (load a s))))
    end.
Proof.
  unfold spendUnspent. destruct (getAddressInfo_total a s) as [i Hi]. rewrite (bind_Done _ _ _ _ _ Hi).
  unfold updInfo. rewrite (bind_Done (modify _) _ _ tt _ eq_refl). unfold deleteUnspent.
  rewrite (bind_Done get _ _ _ _ eq_refl).
  destruct (load_tables a s) as (_ & _ & _ & _ & E).
  change (kv_unspent_index (set_info a info_unspent_del (load a s))) with (kv_unspent_index (load a s)). rewrite E.
  by destruct (kv_unspent_index s !! (a, h, p)).
Qed.

Lemma spends_distinct h p (l : list bytes) s s' :
  forM l (λ a, spendUnspent a h p) s = (Done tt, s') →
  NoDup l ∧ ∀ a, kv_unspent_index s !! (a, h, p) = None → a ∉ l.
Proof.
  revert s. induction l as [|a l IH]; intros s Hrun; [split; [constructor|]; intros; by apply not_elem_of_nil|].
  cbn [forM] in Hrun. apply bind_inv in Hrun as ([] & s1 & H1 & H2). rewrite spendUnspent_step in H1.
  destruct (kv_unspent_index s !! (a, h, p)) as [i|] eqn:Ei; [|done]. injection H1 as <-.
  destruct (IH _ H2) as [Hnd Hn]. destruct (load_tables a s) as (_ & _ & _ & _ & E).
  split.
  - constructor; [|done]. apply Hn. simpl. apply lookup_delete_eq.
  - intros b Hb. apply not_elem_of_cons. split; [congruence|]. apply Hn. simpl. rewrite E.
    apply lookup_delete_None. by right.
Qed.

Lemma forM_each {S A} (l : list A) (f : A → M S unit) (s s' : S) (x : A) :
  forM l f s = (Done tt, s') → x ∈ l → ∃ u u' : S, f x u = (Done tt, u').
Proof.
  revert s. induction l as [|y l IH]; intros s Hrun Hx; [by apply elem_of_nil in Hx|].
  cbn [forM] in Hrun. apply bind_inv in Hrun as ([] & s1 & H1 & H2).
  apply elem_of_cons in Hx as [->|Hx]; [eauto|by eapply IH].
Qed.

Lemma removeUnspentOutputs_distinct `{Scripts} tx prev s s' i o :
  removeUnspentOutputs tx prev s = (Done tt, s') → (i, o) ∈ zip (vin tx) prev → NoDup (to_addresses o).
Proof.
  intros Hrun Hin. unfold removeUnspentOutputs in Hrun. apply bind_inv in Hrun as ([] & s1 & _ & H2).
  destruct (forM_each _ _ _ _ _ H2 Hin) as (s2 & s3 & H3). by apply spends_distinct in H3 as [? _].
Qed.

Lemma raises {S} (m : M S unit) (u : S) : (∀ u', m u ≠ (Done tt, u')) → ∃ e u', m u = (Raise e, u').
Proof. intros Hn. destruct (m u) as [[[]|e] u'] eqn:E; [by destruct (Hn u')|]. by exists e, u'. Qed.

Lemma duplicate_unspendable `{Scripts} begin now t (s : txs_state) prev o :
  IsCoinBase (tx_ t) = false → blkHeight_ t = -1 →
  prevTxOutputs (tables s) (tx_ t) = Some prev → o ∈ prev → ¬ NoDup (to_addresses o) →
  ∃ e (s' : txs_state), acceptTx begin now t s = (Raise e, s').
Proof.
  intros Hc Hh Hp Ho Hdup. apply raises. intros s' Hrun. apply Hdup. unfold acceptTx in Hrun.
  assert (is_duplicate t = false) as Hd by (unfold is_duplicate; by rewrite Hh).
  apply bind_inv in Hrun as ([] & s0 & [_ <-]%assertM_inv & Hrun). rewrite Hd in Hrun.
  rewrite (bind_Done _ _ _ _ _ (getPrevTxOutputs_run _ _ _ Hp)) in Hrun.
  apply bind_inv in Hrun as ([] & s1 & _ & Hrun). apply bind_inv in Hrun as (v & s2 & _ & Hrun).
  apply bind_inv in Hrun as ([] & s3 & _ & Hrun). rewrite Hc in Hrun.
  apply bind_inv in Hrun as ([] & s4 & Hrun & _). apply bind_inv in Hrun as ([] & s5 & Hrun & _).
  apply zoom_inv in Hrun as (l & Hrun & _).
  apply list_elem_of_lookup in Ho as (k & Hk).
  destruct (lookup_lt_is_Some_2 (vin (tx_ t)) k) as [i Hi].
  { rewrite <-(prevTxOutputs_length _ _ _ Hp Hc). by eapply lookup_lt_Some. }
  eapply (removeUnspentOutputs_distinct _ _ _ _ i o Hrun).
  apply (list_elem_of_lookup_2 _ k). by apply lookup_zip_Some.
Qed.

(** A transaction that spends an output which lists an address twice is
    never accepted, whatever the state: the second removal of the address's
    unspent record does not find it and throws.  (Such an output, e.g. a multisig
    script that repeats a key, is itself accepted.) *)
Theorem repeated_address_unspendable `{Scripts} begin now t (s : txs_state) prev o :
  IsCoinBase (tx_ t) = false → blkHeight_ t = -1 →
  prevTxOutputs (tables s) (tx_ t) = Some prev → o ∈ prev → ¬ NoDup (to_addresses o) →
  ∃ e (s' : txs_state), acceptTx begin now t s = (Raise e, s').
Proof. apply duplicate_unspendable. Qed.

(** C38 — When the cache of address objects is full, loading one more address
    drops every object loaded long enough ago, however recently it was used and
    whether or not its changes have been stored: the address then shows its old
    numbers again. *)
Theorem eviction_forgets (s : ledger) a b i k :
  addrTxCache s !! a = Some (i, k) → addrTxCache s !! b = None →
  Z.of_nat (size (addrTxCache s)) = kMaxCacheCount → k ≤ lastUseIdx s + 1 - kMaxCacheCount / 2 →
  info a s = i ∧ info a (load b s) = stored_info a s.
Proof.
  intros Ha Hb Hsize Hk. split; [by eapply cached_info|].
  assert (a ≠ b) as Hab by congruence. unfold load. rewrite Hb. unfold info. cbn [addrTxCache with_cache].
  unfold evict. rewrite map_size_insert_None by done. rewrite (proj2 (Z.ltb_lt _ _)) by lia.
  assert (filter (λ p : bytes * (AddressInfo * Z), lastUseIdx s + 1 - kMaxCacheCount / 2 < p.2.2)
    (<[b := (stored_info b s, lastUseIdx s)]> (addrTxCache s)) !! a = None) as ->; [|done].
  apply map_lookup_filter_None. right. intros x Hx. rewrite lookup_insert_ne in Hx by done.
  rewrite Ha in Hx. injection Hx as <-. simpl. lia.
Qed.
End errors.

(** ** Concrete cases *)
Module ErrorDemo.
#[local] Existing Instance ParserDemo.scripts.

(** an object whose only output lists the address 97 twice *)
Definition twice : TxOutput :=
  {| to_addresses := [[97]; [97]]; to_value := 5; to_script_asm := []; to_script_hex := []; to_script_type := [] |}.
Definition object : TxObject :=
  {| o_block_height := -1; o_block_time := 0; o_is_coinbase := false; o_version := 1; o_lock_time := 0; o_size := 100;
     o_fee := 0; o_inputs := []; o_inputs_count := 0; o_inputs_value := 0; o_outputs := [twice]; o_outputs_count := 1;
     o_outputs_value := 5; o_created_at := 0; o_is_double_spend := false |}.
Definition before : txs_state :=
  {| led := emptyLedger;
     tables := {| kv_tx := {[ 1 := object ]}; kv_spent := ∅; kv_unconfirmed := ∅; kv_meta := ∅ |};
     unconfirmedTxsCount_ := 0; unconfirmedTxsSize_ := 0; currBlockHeight_ := -1; notifications := [] |}.

(** a full cache: one address of each number *)
Definition full_cache (N : nat) : gmap bytes (AddressInfo * Z) :=
  list_to_map ((λ k : nat, ([Z.of_nat k], (newAddressInfo, Z.of_nat k))) <$> seq 0 N).
Definition full (N : nat) : ledger := with_cache (full_cache N) (Z.of_nat N) emptyLedger.

Lemma full_keys N : NoDup ((λ k : nat, ([Z.of_nat k], (newAddressInfo, Z.of_nat k))) <$> seq 0 N).*1.
Proof.
  rewrite <-list_fmap_compose. apply NoDup_fmap_on; [|apply NoDup_seq]. intros x y _ _ [= E]. lia.
Qed.

Lemma full_size N : size (full_cache N) = N.
Proof.
  unfold full_cache. rewrite map_size_list_to_map by apply full_keys.
  by rewrite length_fmap, length_seq.
Qed.

Lemma full_lookup N (k : nat) : (k < N)%nat → full_cache N !! [Z.of_nat k] = Some (newAddressInfo, Z.of_nat k).
Proof.
  intros Hk. apply elem_of_list_to_map; [apply full_keys|]. apply list_elem_of_fmap. exists k. split; [done|].
  apply elem_of_seq. lia.
Qed.

Lemma full_absent N : full_cache N !! ([] : bytes) = None.
Proof.
  apply not_elem_of_list_to_map. rewrite <-list_fmap_compose. by intros (k & [=] & _)%list_elem_of_fmap.
Qed.
(** the number of entries, as a number that is never computed *)
Lemma count_sig : { N : nat | Z.of_nat N = kMaxCacheCount }.
Proof. exists (Z.to_nat kMaxCacheCount). apply Z2Nat.id. vm_compute. discriminate. Qed.
Definition count : nat := proj1_sig count_sig.
Lemma count_max : Z.of_nat count = kMaxCacheCount.
Proof. exact (proj2_sig count_sig). Qed.
End ErrorDemo.

Theorem repeated_address_unspendable_witness :
  ∃ e s', @acceptTx ParserDemo.scripts 0 0 ParserDemo.accept2 ErrorDemo.before = (Raise e, s').
Proof.
  apply (@repeated_address_unspendable ParserDemo.scripts 0 0 ParserDemo.accept2 ErrorDemo.before
    [ErrorDemo.twice] ErrorDemo.twice).
  - reflexivity.
  - reflexivity.
  - vm_compute. reflexivity.
  - left.
  - intros Hnd. apply NoDup_cons in Hnd as [Hn _]. apply Hn. left.
Defined.

Theorem eviction_forgets_witness :
  info [0] (ErrorDemo.full ErrorDemo.count) = newAddressInfo ∧
  info [0] (load [] (ErrorDemo.full ErrorDemo.count)) = stored_info [0] (ErrorDemo.full ErrorDemo.count).
Proof.
  pose proof ErrorDemo.count_max as HN. change kMaxCacheCount with 5000000 in HN.
  apply (eviction_forgets (ErrorDemo.full ErrorDemo.count) [0] [] newAddressInfo 0).
  - apply (ErrorDemo.full_lookup ErrorDemo.count 0). lia.
  - apply ErrorDemo.full_absent.
  - cbn [ErrorDemo.full with_cache addrTxCache]. rewrite ErrorDemo.full_size. exact ErrorDemo.count_max.
  - cbn [ErrorDemo.full with_cache lastUseIdx]. rewrite HN. vm_compute. discriminate.
Defined.

(** A row is not idempotent: when the process dies after a transaction
    was accepted and before the row's number is stored, the row is handled again
    after the restart, again without an error; the address then counts the
    transaction twice, shows its money twice, and the pool counter is above the
    number of unconfirmed transactions. *)
Theorem replayed_row_counts_twice :
  let run := @handleTx ParserDemo.scripts Some 0 210000 0 ParserDemo.accept1 in
  let r1 := run first_start in let r2 := run (restart r1.2) in
  r1.1 = Done tt ∧ r2.1 = Done tt ∧
  txCount_ (stored_info [97] (led r1.2)) = 1 ∧ received_ (stored_info [97] (led r1.2)) = 5000000000 ∧
  txCount_ (stored_info [97] (led r2.2)) = 2 ∧ received_ (stored_info [97] (led r2.2)) = 10000000000 ∧
  unconfirmedTxsCount_ r2.2 = 2 ∧ size (kv_unconfirmed (tables r2.2)) = 1%nat.
Proof. cbv zeta. split_and!; vm_compute; reflexivity. Qed.
