(* ===== verification/ParserChain.v ===== *)
(** * The parser's block tables show the chain

    [blocks_of] relates the tables 10 to 14 to a chain of blocks and, for each
    height, the set of blocks that were once there; [acceptBlock] extends the
    chain, [rejectBlock] takes its last block away. *)
From S2P Require Import Prelude Tx Bytes Text Serialize Db Notify Ledger ParserTx ParserBlock.

(** ** Sets of hashes as text *)

Lemma chunks64_app (l : list bytes) :
  Forall (λ x, length x = 64%nat) l → chunks64 (length l) (concat l) = l.
Proof.
  induction l as [|x l IH]; [done|]. intros [Hx Hl]%Forall_cons. cbn [length chunks64 concat].
  rewrite take_app_length', drop_app_length', IH by done. done.
Qed.

Lemma length_concat64 (l : list bytes) :
  Forall (λ x, length x = 64%nat) l → length (concat l) = (64 * length l)%nat.
Proof. induction l as [|x l IH]; [done|]. intros [Hx Hl]%Forall_cons. simpl. rewrite length_app, IH by done. lia. Qed.

(** the members of an orphan record are 64 characters each *)
Definition hashes64 (X : gset bytes) : Prop := ∀ x, x ∈ X → length x = 64%nat.

Lemma sorted64 X : hashes64 X → Forall (λ x, length x = 64%nat) (text_sorted X).
Proof. intros HX. apply Forall_forall. intros x Hx. apply HX. by apply elem_of_set_items in Hx. Qed.

Lemma orphan_text_concat X : hashes64 X → orphan_text X = concat (text_sorted X).
Proof.
  intros HX. unfold orphan_text. f_equal. pose proof (sorted64 X HX) as Hl.
  induction Hl as [|x l Hx Hl IH]; [done|]. csimpl. rewrite IH, take_ge by lia. done.
Qed.

Lemma orphan_set_text X : hashes64 X → orphan_set (orphan_text X) = X.
Proof.
  intros HX. rewrite orphan_text_concat by done. unfold orphan_set. pose proof (sorted64 X HX) as Hl.
  rewrite length_concat64 by done. rewrite Nat.mul_comm, Nat.div_mul by done. rewrite chunks64_app by done.
  apply set_eq. intros x. by rewrite elem_of_list_to_set, elem_of_set_items.
Qed.

Lemma orphan_text_nil X : hashes64 X → orphan_text X = [] ↔ X = ∅.
Proof.
  intros HX. split; [|by intros ->]. intros E. rewrite <-(orphan_set_text X HX), E. done.
Qed.

Lemma hashes64_insert X (x : bytes) : hashes64 X → length x = 64%nat → hashes64 (X ∪ {[x]}).
Proof. intros HX Hx y [Hy|Hy]%elem_of_union; [by apply HX|]. by apply elem_of_singleton in Hy as ->. Qed.

Lemma hashes64_delete X (x : bytes) : hashes64 X → hashes64 (X ∖ {[x]}).
Proof. intros HX y Hy. apply HX. set_solver. Qed.

Lemma insertOrphan_text X (x : bytes) :
  hashes64 X → length x = 64%nat →
  insertOrphanBlockHash x (if decide (X = ∅) then [] else orphan_text X) = orphan_text (X ∪ {[x]}).
Proof.
  intros HX Hx. case_decide as HE.
  - subst X. rewrite (left_id_L ∅ (∪)). rewrite orphan_text_concat.
    + simpl. assert (text_sorted ({[x]} : gset bytes) = [x]) as ->; [|by simpl; rewrite app_nil_r, take_ge by lia].
      assert (∀ y, y ∈ text_sorted ({[x]} : gset bytes) ↔ y = x) as Hin.
      { intros y. by rewrite elem_of_set_items, elem_of_singleton. }
      assert (NoDup (text_sorted ({[x]} : gset bytes))) as Hnd by apply NoDup_set_items.
      destruct (text_sorted _) as [|y [|z l]].
      * exfalso. apply (not_elem_of_nil x). by apply Hin.
      * by rewrite (proj1 (Hin y)) by left.
      * rewrite (proj1 (Hin y)), (proj1 (Hin z)) in Hnd by set_solver.
        apply NoDup_cons in Hnd as [Hn _]. destruct Hn. left.
    + by intros y ->%elem_of_singleton.
  - unfold insertOrphanBlockHash. rewrite orphan_set_text by done.
    destruct (orphan_text X) eqn:E; [|done]. destruct HE. by apply orphan_text_nil.
Qed.

Lemma removeOrphan_text X (x : bytes) :
  hashes64 X → removeOrphanBlockHash x (orphan_text X) = orphan_text (X ∖ {[x]}).
Proof. intros HX. unfold removeOrphanBlockHash. by rewrite orphan_set_text. Qed.

Section chain.
Context `{Hashing} `{Scripts}.
Implicit Types (cs : list (uint256 * Z)) (X : Z → gset bytes) (T : block_tables) (p : parser) (h : uint256) (blk : CBlock).

(** ** The chain and its orphans *)

(** the next hash of a block object: zeros for the last block *)
Definition next_text cs (i : nat) : bytes := ToString (default 0 (fst <$> cs !! S i)).

(** [cs] lists the blocks from height 0 by hash and time stamp, [X] the hashes
    (as text) of the orphans of each height. *)
Record blocks_of cs X T : Prop := {
  bl_height : ∀ i, kv_height T !! i =
    if decide (0 ≤ i) then (λ c, ToString c.1) <$> cs !! Z.to_nat i else None;
  bl_object : ∀ (i : nat) c, cs !! i = Some c → ∃ o, kv_block T !! c.1 = Some o ∧ bo_height o = Z.of_nat i ∧
    bo_is_orphan o = false ∧ bo_next_block_hash o = next_text cs i ∧ bo_curr_max_timestamp o = c.2;
  bl_time : ∀ tm i, kv_block_time T !! (tm, i) =
    if decide (0 ≤ i) then c ← cs !! Z.to_nat i; (guard (c.2 = tm);; Some (ToString c.1)) else None;
  bl_orphan : ∀ i, kv_orphan T !! i = if decide (X i = ∅) then None else Some (orphan_text (X i));
  bl_flag : ∀ i h, in_u 256 h → ToString h ∈ X i → ∃ o, kv_block T !! h = Some o ∧
    bo_is_orphan o = true ∧ bo_height o = i }.

Record chain_ok cs X : Prop := {
  cs_distinct : NoDup cs.*1;
  cs_range : ∀ h, h ∈ cs.*1 → in_u 256 h;
  cs_orphans : ∀ i, hashes64 (X i);
  cs_apart : ∀ h i, h ∈ cs.*1 → ToString h ∉ X i }.

Lemma length_ToString h : length (ToString h) = 64%nat.
Proof. apply length_GetHex. Qed.

(** the text that [mutable_next_block_hash] leaves *)
Lemma overwrite_next h (o : bytes) : length o = 64%nat → ToString h ++ drop (length (ToString h)) o = ToString h.
Proof. intros Ho. rewrite drop_ge by (rewrite length_ToString; lia). apply app_nil_r. Qed.

Lemma zeros_text : replicate 64 48 = ToString 0.
Proof. vm_compute. reflexivity. Qed.

Lemma next_last cs i : S i = length cs → next_text cs i = ToString 0.
Proof. intros Hi. unfold next_text. by rewrite lookup_ge_None_2 by lia. Qed.

Lemma length_next cs i : length (next_text cs i) = 64%nat.
Proof. apply length_ToString. Qed.

(** ** Running the pieces *)

Lemma blocks_of_txs cs X T m : blocks_of cs X T → blocks_of cs X (with_block_txs (λ _, m) T).
Proof. intros [B1 B2 B3 B4 B5]. by constructor. Qed.

Lemma blocks_of_ext cs X X' T : (∀ i, X i = X' i) → blocks_of cs X T → blocks_of cs X' T.
Proof.
  intros E [B1 B2 B3 B4 B5]. constructor; [done..| |].
  - intros i. rewrite <-E. apply B4.
  - intros i h Hr. rewrite <-E. by apply B5.
Qed.

(** ** The transactions of a block, in pages *)

Definition page_size : nat := Z.to_nat 32000.
(** the hashes of a list of transactions *)
Definition hashes_text (l : list CTransaction) : bytes := concat ((λ tx, ToString (TxHash tx)) <$> l).
(** the [k]-th piece of a text *)
Definition piece (s : bytes) (k : nat) : bytes := take page_size (drop (page_size * k) s).

Lemma piece_0 s r : length s = page_size → piece (s ++ r) 0 = s.
Proof. intros Hs. unfold piece. rewrite Nat.mul_0_r, drop_0. by rewrite take_app_length'. Qed.

Lemma piece_S s r k : length s = page_size → piece (s ++ r) (S k) = piece r k.
Proof.
  intros Hs. unfold piece. f_equal. rewrite Nat.mul_succ_r, Nat.add_comm, <-drop_drop.
  by rewrite drop_app_length'.
Qed.

Lemma piece_short s k : (length s ≤ page_size)%nat → piece s k = if decide (k = 0%nat) then s else [].
Proof.
  intros Hs. unfold piece. case_decide as Hk; [subst; rewrite Nat.mul_0_r, drop_0; by apply take_ge|].
  rewrite drop_ge; [done|]. destruct k; [done|]. rewrite Nat.mul_succ_r. lia.
Qed.

Lemma insertBlockTxs_loop_pages h (l : list CTransaction) i value p :
  0 ≤ i → Z.of_nat (length value) = 64 * (i mod 500) →
  ∃ m, insertBlockTxs_loop h i value l p = (Done tt, with_blks (with_block_txs (λ _, m) (blks p)) p) ∧
    (∀ g n, g ≠ h ∨ n < i / 500 → m !! (g, n) = kv_block_txs (blks p) !! (g, n)) ∧
    ∀ k : nat, m !! (h, i / 500 + Z.of_nat k) =
      match piece (value ++ hashes_text l) k with
      | [] => kv_block_txs (blks p) !! (h, i / 500 + Z.of_nat k)
      | s => Some s
      end.
Proof.
  revert i value p. induction l as [|tx l IH]; intros i value p Hi Hv; cbn [insertBlockTxs_loop].
  - assert (length value < page_size)%nat as Hlt.
    { pose proof (Z.mod_pos_bound i 500 ltac:(lia)). unfold page_size. lia. }
    change (hashes_text []) with ([] : bytes). rewrite app_nil_r.
    destruct (Nat.eqb_spec (length value) 0) as [Hz|Hz].
    + exists (kv_block_txs (blks p)). split; [by destruct p as [? []]|]. split; [done|]. intros k.
      apply nil_length_inv in Hz as ->. rewrite piece_short by (simpl; lia). by case_decide.
    + eexists. split; [reflexivity|]. split.
      * intros g n Hg. rewrite lookup_insert_ne; [done|]. intros [= <- <-]. unfold kBatchSize in *. destruct Hg; [done|lia].
      * intros k. rewrite piece_short by lia. case_decide as Hk.
        -- subst k. rewrite Z.add_0_r. unfold kBatchSize. rewrite lookup_insert_eq. by destruct value.
        -- rewrite lookup_insert_ne; [done|]. unfold kBatchSize. intros [= E]. lia.
  - assert (hashes_text (tx :: l) = ToString (TxHash tx) ++ hashes_text l) as -> by done.
    rewrite app_assoc. set (value' := value ++ ToString (TxHash tx)).
    assert (Z.of_nat (length value') = 64 * (i mod 500) + 64) as Hv'.
    { unfold value'. rewrite length_app, length_ToString. lia. }
    unfold kBatchSize. destruct (Z.eqb_spec ((i + 1) mod 500) 0) as [Hz|Hz].
    + assert (i mod 500 = 499 ∧ (i + 1) / 500 = i / 500 + 1) as [Hm Hd] by (Z.to_euclidean_division_equations; lia).
      rewrite (bind_Done (setBlocks _) _ p tt _ eq_refl).
      destruct (IH (i + 1) [] (with_blks (with_block_txs (<[(h, i / 500) := value']>) (blks p)) p)) as (m & Hrun & Hout & Hin);
        [lia | rewrite Hz; done |].
      exists m. split; [rewrite Hrun; done|]. cbn [blks with_blks kv_block_txs with_block_txs] in Hout, Hin. split.
      * intros g n Hg. rewrite Hout by (rewrite Hd; destruct Hg; [by left|right; lia]).
        rewrite lookup_insert_ne; [done|]. intros [= <- <-]. destruct Hg; [done|lia].
      * assert (length value' = page_size) as Hl by (unfold page_size; lia).
        intros [|k].
        -- rewrite Z.add_0_r, piece_0 by done. rewrite Hout by (right; lia). rewrite lookup_insert_eq.
           by destruct value'.
        -- rewrite piece_S by done. replace (i / 500 + Z.of_nat (S k)) with ((i + 1) / 500 + Z.of_nat k) by lia.
           rewrite Hin. simpl ([] ++ _). rewrite lookup_insert_ne; [done|]. intros [= E]. lia.
    + assert ((i + 1) mod 500 = i mod 500 + 1 ∧ (i + 1) / 500 = i / 500) as [Hm Hd]
        by (Z.to_euclidean_division_equations; lia).
      destruct (IH (i + 1) value' p) as (m & Hrun & Hout & Hin); [lia | lia |].
      exists m. rewrite Hd in Hout, Hin. split; [done|]. split; [done|]. exact Hin.
Qed.
(** The tables [T'] have the pages of the block's transactions, and the pages of
    other blocks are those of [T]. *)
Definition paged blk T T' : Prop :=
  (∀ g n, g ≠ BlockHash blk → kv_block_txs T' !! (g, n) = kv_block_txs T !! (g, n)) ∧
  ∀ k : nat, kv_block_txs T' !! (BlockHash blk, Z.of_nat k) =
    match piece (hashes_text (vtx blk)) k with
    | [] => kv_block_txs T !! (BlockHash blk, Z.of_nat k)
    | s => Some s
    end.

Lemma insertBlockTxs_run blk p :
  ∃ m, insertBlockTxs blk p = (Done tt, with_blks (with_block_txs (λ _, m) (blks p)) p) ∧
    paged blk (blks p) (with_block_txs (λ _, m) (blks p)).
Proof.
  destruct (insertBlockTxs_loop_pages (BlockHash blk) (vtx blk) 0 [] p) as (m & Hrun & Hout & Hin); [done..|].
  exists m. split; [done|]. split; [|exact Hin]. intros g n Hg. apply Hout. by left.
Qed.

(** ** Accept *)

(** a new block on the chain [cs] *)
Record block_fits (interval : Z) cs X (blk : CBlock) (t : TxLog2) (v : Z) (cb : CTransaction) : Prop := {
  bf_height : blkHeight_ t = Z.of_nat (length cs);
  bf_hash : in_u 256 (BlockHash blk) ∧ BlockHash blk ≠ 0;
  bf_new : BlockHash blk ∉ cs.*1;
  bf_orphan : ∀ i, i ≠ blkHeight_ t → ToString (BlockHash blk) ∉ X i;
  bf_prev : ∀ c, last cs = Some c → hashPrevBlock (header blk) = c.1;
  bf_coinbase : head (vtx blk) = Some cb ∧ GetValueOut cb = Done v;
  bf_reward : 0 ≤ i64 (v - GetBlockValue interval (blkHeight_ t)) }.

(** the block tables after [_insertBlock] *)
Definition inserted (o : BlockObject) h (height : Z) (prev : option (uint256 * BlockObject)) T : block_tables :=
  let T := with_height (<[height := ToString h]>) (with_block (<[h := o]>) T) in
  match prev with
  | Some (g, b) => with_block (<[g := set_next (ToString h) b]>) T
  | None => T
  end.

Lemma insertBlock_run interval now cs X blk t v cb size p :
  blocks_of cs X (blks p) → chain_ok cs X → block_fits interval cs X blk t v cb →
  ∃ o prev, bo_height o = blkHeight_ t ∧ bo_is_orphan o = false ∧ bo_next_block_hash o = ToString 0 ∧
    bo_curr_max_timestamp o = maxBlkTimestamp_ t ∧
    prev = (c ← last cs; o ← kv_block (blks p) !! c.1; Some (c.1, o)) ∧
    insertBlock interval now blk (blkHeight_ t) size (maxBlkTimestamp_ t) p =
      (Done tt, with_blks (inserted o (BlockHash blk) (blkHeight_ t) prev (blks p)) p).
Proof.
  intros HB Hok [Fh [Fr F0] Fn Fo Fp [Fc Fv] Fw]. unfold insertBlock.
  assert (TargetToPdiff (BlockHash blk) = Done (Z.min ((2 ^ 224 - 1) / BlockHash blk) (2 ^ 64 - 1))) as ->.
  { unfold TargetToPdiff. by destruct (Z.eqb_spec (BlockHash blk) 0). }
  rewrite (bind_Done (lift_outcome (Done _)) _ p _ p eq_refl), Fc.
  rewrite (bind_Done (kv_read (Some cb)) _ p cb p eq_refl), Fv.
  rewrite (bind_Done (lift_outcome (Done v)) _ p v p eq_refl).
  rewrite (bind_Done (assertM _) _ p tt p) by (apply assertM_true; by apply Z.leb_le).
  rewrite (bind_Done (setBlocks _) _ p tt _ eq_refl), (bind_Done (setBlocks _) _ _ tt _ eq_refl).
  match goal with |- context [<[BlockHash blk := ?b]>] => set (o := b) end.
  exists o, (c ← last cs; b ← kv_block (blks p) !! c.1; Some (c.1, b)). do 5 (split; [done|]).
  destruct (last cs) as [c|] eqn:Hl; cycle 1.
  - apply last_None in Hl as ->. rewrite Fh. reflexivity.
  - rewrite (Fp c eq_refl). apply last_Some in Hl as (cs' & ->).
    assert (0 <? blkHeight_ t = true) as -> by (rewrite Fh, length_app; simpl; apply Z.ltb_lt; lia).
    destruct (bl_object _ _ _ HB (length cs') c) as (b & Hb & _ & _ & Hnext & _).
    { by rewrite lookup_app_r, Nat.sub_diag by lia. }
    assert (BlockHash blk ≠ c.1) as Hne.
    { intros E. apply Fn. rewrite E, fmap_app. apply elem_of_app. right. left. }
    rewrite (bind_Done get _ _ _ _ eq_refl). cbn [blks with_blks kv_block with_height with_block].
    rewrite lookup_insert_ne, Hb by done. rewrite (bind_Done (kv_get (Some b)) _ _ b _ eq_refl).
    rewrite overwrite_next by (rewrite Hnext; apply length_next).
    rewrite Hnext, length_next, length_ToString. cbn [mbind option_bind]. rewrite Hb. reflexivity.
Qed.

Lemma lookup_snoc_Some {A} (l : list A) (x : A) i y :
  (l ++ [x]) !! i = Some y ↔ l !! i = Some y ∨ (i = length l ∧ x = y).
Proof.
  rewrite lookup_app_Some. split.
  - intros [Hi|[Hle Hi]]; [by left|right]. apply list_lookup_singleton_Some in Hi as [Hi ->]. split; [lia|done].
  - intros [Hi|[-> ->]]; [by left|right]. split; [done|]. by rewrite Nat.sub_diag.
Qed.

Lemma next_snoc cs c i : (S i < length cs)%nat → next_text (cs ++ [c]) i = next_text cs i.
Proof. intros Hi. unfold next_text. by rewrite lookup_app_l by done. Qed.

Lemma next_snoc_last cs c i : S i = length cs → next_text (cs ++ [c]) i = ToString c.1.
Proof. intros Hi. unfold next_text. by rewrite lookup_app_r, Hi, Nat.sub_diag by lia. Qed.

Lemma snoc_other {A} (l : list A) (x : A) i : i ≠ length l → (l ++ [x]) !! i = l !! i.
Proof.
  intros Hi. destruct (decide (i < length l)%nat); [by apply lookup_app_l|].
  rewrite !lookup_ge_None_2; [done | lia | rewrite length_app; simpl; lia].
Qed.

(** the tables after [_insertBlock], once the orphan record and the time stamp
    follow *)
Lemma extended cs X T T' h tm o prev X' :
  blocks_of cs X T → chain_ok cs X → h ∉ cs.*1 →
  bo_height o = Z.of_nat (length cs) → bo_is_orphan o = false → bo_next_block_hash o = ToString 0 →
  bo_curr_max_timestamp o = tm →
  prev = (c ← last cs; o ← kv_block T !! c.1; Some (c.1, o)) →
  (∀ i, ToString h ∉ X' i) → (∀ i g, ToString g ∈ X' i → ToString g ∈ X i) → 
  kv_height T' = <[Z.of_nat (length cs) := ToString h]> (kv_height T) →
  kv_block T' = kv_block (inserted o h (Z.of_nat (length cs)) prev T) →
  kv_block_time T' = <[(tm, Z.of_nat (length cs)) := ToString h]> (kv_block_time T) →
  (∀ i, kv_orphan T' !! i = if decide (X' i = ∅) then None else Some (orphan_text (X' i))) →
  blocks_of (cs ++ [(h, tm)]) X' T'.
Proof.
  intros HB Hok Hn Eh Eo En Et -> Hx Hsub E1 E2 E3 Horph.
  set (prev := c ← last cs; o ← kv_block T !! c.1; Some (c.1, o)).
  assert (∀ g, g ≠ h → (∀ c, last cs = Some c → c.1 ≠ g) →
    kv_block (inserted o h (Z.of_nat (length cs)) prev T) !! g = kv_block T !! g) as Hkeep.
  { intros g Hg Hl. unfold inserted. subst prev. destruct (last cs) as [c|] eqn:El; simpl.
    - destruct (kv_block T !! c.1) as [b|]; simpl; rewrite ?lookup_insert_ne; auto.
    - by rewrite lookup_insert_ne. }
  constructor; rewrite ?E1, ?E2, ?E3.
  - intros i. rewrite lookup_insert. case_decide as Hi.
    + subst i. rewrite decide_True, Nat2Z.id, lookup_app_r, Nat.sub_diag by lia. done.
    + rewrite (bl_height _ _ _ HB). case_decide as Hp; [|done]. by rewrite snoc_other by lia.
  - intros i c Hc. apply lookup_snoc_Some in Hc as [Hc|[-> <-]].
    + assert (c.1 ≠ h) as Hch.
      { intros E. apply Hn. rewrite <-E. apply list_elem_of_fmap_2. by eapply list_elem_of_lookup_2. }
      pose proof (lookup_lt_Some _ _ _ Hc) as Hlt.
      destruct (bl_object _ _ _ HB i c Hc) as (b & Hb & B1 & B2 & B3 & B4).
      destruct (decide (S i = length cs)) as [Hlast|Hlast].
      * assert (last cs = Some c) as El by (rewrite last_lookup, <-Hlast; exact Hc).
        exists (set_next (ToString h) b). unfold inserted. subst prev. rewrite El. cbn [mbind option_bind].
        rewrite Hb. cbn [mbind option_bind kv_block with_block]. rewrite lookup_insert_eq.
        split_and!; try done. by rewrite next_snoc_last.
      * exists b. rewrite Hkeep; [|done|].
        { split_and!; try done. by rewrite next_snoc by lia. }
        intros c' El E. apply Hlast. rewrite last_lookup in El.
        assert (i = pred (length cs)); [|lia].
        eapply (NoDup_lookup cs.*1); [apply Hok | |]; rewrite list_lookup_fmap, ?Hc, ?El; [done|]. simpl. by rewrite E.
    + exists o. cbn [fst snd]. split_and!; try done.
      * unfold inserted. subst prev. destruct (last cs) as [c|] eqn:El; simpl; [|apply lookup_insert_eq].
        destruct (kv_block T !! c.1) as [b|]; simpl; [|apply lookup_insert_eq].
        rewrite lookup_insert_ne, lookup_insert_eq; [done|]. intros E. apply Hn. rewrite <-E.
        apply list_elem_of_fmap_2. apply last_Some_elem_of in El. done.
      * rewrite next_last; [done|]. rewrite length_app. simpl. lia.
  - intros tm' i. rewrite lookup_insert. case_decide as Hi.
    + injection Hi as <- <-. rewrite decide_True, Nat2Z.id, lookup_app_r, Nat.sub_diag by lia.
      cbn [lookup list_lookup mbind option_bind]. by rewrite guard_intro.
    + rewrite (bl_time _ _ _ HB). case_decide as Hp; [|done].
      destruct (decide (Z.to_nat i = length cs)) as [Ei|Ei]; [|by rewrite snoc_other].
      rewrite Ei, lookup_app_r, Nat.sub_diag, lookup_ge_None_2 by lia. cbn [lookup list_lookup mbind option_bind fst snd].
      symmetry. case_guard as Htm; [|done]. destruct Hi. f_equal; [done|lia].
  - exact Horph.
  - intros i g Hg Hin. assert (ToString g ∈ X i) as HX by by apply Hsub.
    destruct (bl_flag _ _ _ HB i g Hg HX) as (b & Hb & B1 & B2). exists b. rewrite Hkeep; [done| |].
    + intros ->. by apply (Hx i).
    + intros c El <-. apply (cs_apart _ _ Hok c.1 i); [|done]. apply list_elem_of_fmap_2.
      by apply last_Some_elem_of in El.
Qed.

(** the orphans after a block at height [k] has left them *)
Definition without h (k : Z) X : Z → gset bytes := λ i, if decide (i = k) then X i ∖ {[ToString h]} else X i.
Definition with_one h (k : Z) X : Z → gset bytes := λ i, if decide (i = k) then X i ∪ {[ToString h]} else X i.

(** [removeOrphan] and what it leaves *)
Lemma removeOrphan_run h k X p :
  (∀ i, kv_orphan (blks p) !! i = if decide (X i = ∅) then None else Some (orphan_text (X i))) →
  (∀ i, hashes64 (X i)) →
  ∃ m, removeOrphan h k p = (Done tt, with_blks (with_orphan (λ _, m) (blks p)) p) ∧
    ∀ i, m !! i = if decide (without h k X i = ∅) then None else Some (orphan_text (without h k X i)).
Proof.
  intros Ho HX. unfold removeOrphan. rewrite (bind_Done get _ p p p eq_refl), Ho.
  destruct (decide (X k = ∅)) as [HE|HE].
  - exists (kv_orphan (blks p)). split; [by destruct p as [? []]|]. intros i. rewrite Ho. unfold without.
    destruct (decide (i = k)) as [->|]; [|done].
    rewrite HE. by replace (∅ ∖ {[ToString h]}) with (∅ : gset bytes) by set_solver.
  - rewrite (removeOrphan_text (X k) (ToString h)) by done. set (Y := X k ∖ {[ToString h]}).
    assert (hashes64 Y) as HY by by apply hashes64_delete.
    assert (∀ i, without h k X i = if decide (i = k) then Y else X i) as Ew.
    { intros i. unfold without. destruct (decide (i = k)) as [->|]; done. }
    destruct (orphan_text Y) as [|c l] eqn:EY.
    + exists (delete k (kv_orphan (blks p))). split; [done|]. intros i. rewrite Ew, lookup_delete.
      destruct (decide (k = i)) as [<-|Hne].
      * rewrite (decide_True (P := k = k)) by done. rewrite decide_True; [done|]. by apply orphan_text_nil.
      * rewrite (decide_False (P := i = k)) by done. apply Ho.
    + exists (<[k := c :: l]> (kv_orphan (blks p))). split; [done|]. intros i. rewrite Ew, lookup_insert.
      destruct (decide (k = i)) as [<-|Hne].
      * rewrite (decide_True (P := k = k)) by done. rewrite decide_False; [by rewrite EY|].
        intros E. rewrite E in EY. done.
      * rewrite (decide_False (P := i = k)) by done. apply Ho.
Qed.

Lemma without_sub h k X i g : ToString g ∈ without h k X i → ToString g ∈ X i.
Proof. unfold without. case_decide; set_solver. Qed.

Lemma without_gone h k X i : (∀ j, j ≠ k → ToString h ∉ X j) → ToString h ∉ without h k X i.
Proof. intros Hj. unfold without. case_decide; [set_solver|by apply Hj]. Qed.

Lemma chain_extend cs X h tm k :
  chain_ok cs X → h ∉ cs.*1 → in_u 256 h → (∀ i, i ≠ k → ToString h ∉ X i) →
  chain_ok (cs ++ [(h, tm)]) (without h k X).
Proof.
  intros [C1 C2 C3 C4] Hn Hr Hi. constructor.
  - rewrite fmap_app. apply NoDup_app. split_and!; [done | | apply NoDup_singleton].
    by intros g Hg ->%list_elem_of_singleton.
  - intros g Hg. rewrite fmap_app in Hg. apply elem_of_app in Hg as [Hg|Hg]; [by apply C2|].
    by apply list_elem_of_singleton in Hg as ->.
  - intros i. unfold without. case_decide; [by apply hashes64_delete|done].
  - intros g i Hg. rewrite fmap_app in Hg. apply elem_of_app in Hg as [Hg|Hg].
    + intros Hin%without_sub. by apply (C4 g i).
    + apply list_elem_of_singleton in Hg as ->. by apply without_gone.
Qed.

Lemma acceptBlock_run interval now db cs X blk hex t v cb p :
  blocks_of cs X (blks p) → chain_ok cs X → decodeBlock db (blkId_ t) = Done (blk, hex) →
  block_fits interval cs X blk t v cb →
  let h := BlockHash blk in let k := blkHeight_ t in
  ∃ p', acceptBlock interval now db t p = (Done (ToString h), p') ∧
    blocks_of (cs ++ [(h, maxBlkTimestamp_ t)]) (without h k X) (blks p') ∧
    chain_ok (cs ++ [(h, maxBlkTimestamp_ t)]) (without h k X) ∧ paged blk (blks p) (blks p') ∧
    txs p' = with_notifications (notifications (txs p) ++ [loadblock now NOTIFY_EVENT_BLOCK_ACCEPT h k])
      (set_curr_height k (txs p)).
Proof.
  intros HB Hok Hdec Hfit h k. unfold acceptBlock. rewrite Hdec.
  rewrite (bind_Done (lift_outcome (Done (blk, hex))) _ p _ p eq_refl).
  destruct (insertBlock_run interval now cs X blk t v cb (Z.quot (i32 (Z.of_nat (length hex))) 2) p HB Hok Hfit)
    as (o & prev & Eh & Eo & En & Et & Ep & Hrun).
  cbv beta iota zeta. rewrite (bind_Done _ _ _ _ _ Hrun). set (T1 := inserted _ _ _ _ _).
  destruct (insertBlockTxs_run blk (with_blks T1 p)) as (m & Hm & Hpages).
  rewrite (bind_Done _ _ _ _ _ Hm). set (p1 := with_blks _ (with_blks T1 p)).
  assert (kv_orphan (blks p1) = kv_orphan (blks p)) as Eorph.
  { subst p1 T1. unfold inserted. by destruct prev as [[? ?]|]. }
  destruct (removeOrphan_run (BlockHash blk) (blkHeight_ t) X p1) as (m' & Hm' & Horph).
  { intros i. rewrite Eorph. apply HB. }
  { apply Hok. }
  rewrite (bind_Done _ _ _ _ _ Hm'), (bind_Done (setBlocks _) _ _ tt _ eq_refl).
  unfold setCurrBlockHeight, notifyBlock. rewrite (bind_Done (modify _) _ _ tt _ eq_refl).
  rewrite (bind_Done (modify _) _ _ tt _ eq_refl). eexists. split; [reflexivity|].
  pose proof (bf_height _ _ _ _ _ _ _ Hfit) as Fh. destruct (bf_hash _ _ _ _ _ _ _ Hfit) as [Fr _].
  pose proof (bf_new _ _ _ _ _ _ _ Hfit) as Fn. pose proof (bf_orphan _ _ _ _ _ _ _ Hfit) as Fo.
  assert (kv_block_txs T1 = kv_block_txs (blks p)) as Etxs.
  { subst T1. unfold inserted. by destruct prev as [[? ?]|]. }
  split_and!; [|by apply chain_extend| |done].
  2: { unfold paged in *. cbn [blks with_blks kv_block_txs with_block_txs] in Hpages. rewrite Etxs in Hpages.
       exact Hpages. }
  eapply (extended cs X (blks p) _ h _ o prev); [done | done | done | by rewrite Eh, Fh | done | done | done | done | | | | | |].
  - intros i. by apply without_gone.
  - intros i g. apply without_sub.
  - cbn [blks with_txs with_blks kv_height with_block_time with_orphan p1 with_block_txs T1]. subst T1.
    rewrite Fh. unfold inserted. by destruct prev as [[? ?]|].
  - rewrite <-Fh. reflexivity.
  - cbn [blks with_txs with_blks kv_block_time with_block_time with_orphan p1 with_block_txs]. subst T1.
    rewrite Fh. unfold inserted. by destruct prev as [[? ?]|].
  - exact Horph.
Qed.

(** ** Reject *)

Lemma ToString_inj64 h g : in_u 256 h → in_u 256 g → ToString h = ToString g → h = g.
Proof. apply GetHex_inj. Qed.

Lemma hash_not_in cs h tm : NoDup (cs ++ [(h, tm)]).*1 → h ∉ cs.*1.
Proof.
  rewrite fmap_app. intros (_ & Hd & _)%NoDup_app Hin. by apply (Hd h Hin); left.
Qed.

Lemma chain_shrink cs X h tm k :
  chain_ok (cs ++ [(h, tm)]) X → chain_ok cs (with_one h k X).
Proof.
  intros [C1 C2 C3 C4]. pose proof (hash_not_in _ _ _ C1) as Hn.
  assert (∀ g, g ∈ cs.*1 → g ∈ (cs ++ [(h, tm)]).*1) as Hin by (intros g; rewrite fmap_app; set_solver).
  assert (h ∈ (cs ++ [(h, tm)]).*1) as Hh by (rewrite fmap_app; apply elem_of_app; right; left).
  constructor.
  - rewrite fmap_app in C1. by apply NoDup_app in C1 as [? _].
  - auto.
  - intros i. unfold with_one. case_decide; [|done]. apply hashes64_insert; [done|apply length_ToString].
  - intros g i Hg. unfold with_one.
    assert (ToString g ∉ X i) as HX by (apply C4; auto). case_decide; [|done].
    rewrite not_elem_of_union, not_elem_of_singleton. split; [done|]. intros E. apply Hn.
    replace h with g; [done|]. apply ToString_inj64; [by apply C2, Hin | by apply C2 | done].
Qed.

(** the tables without the last block *)
Lemma shrunk cs X T T' h tm o :
  let k := Z.of_nat (length cs) in
  blocks_of (cs ++ [(h, tm)]) X T → chain_ok (cs ++ [(h, tm)]) X → kv_block T !! h = Some o →
  kv_height T' = delete k (kv_height T) →
  kv_block T' = match last cs with
    | Some c => match kv_block T !! c.1 with
                | Some b => <[c.1 := set_next (ToString 0) b]> (<[h := set_orphan true o]> (kv_block T))
                | None => <[h := set_orphan true o]> (kv_block T)
                end
    | None => <[h := set_orphan true o]> (kv_block T)
    end →
  kv_block_time T' = delete (tm, k) (kv_block_time T) →
  (∀ i, kv_orphan T' !! i = if decide (with_one h k X i = ∅) then None else Some (orphan_text (with_one h k X i))) →
  blocks_of cs (with_one h k X) T'.
Proof.
  intros k' HB Hok Ho E1 E2 E3 Horph. pose proof (hash_not_in _ _ _ (cs_distinct _ _ Hok)) as Hn.
  assert ((cs ++ [(h, tm)]) !! length cs = Some (h, tm)) as Hlast by (by rewrite lookup_app_r, Nat.sub_diag by lia).
  destruct (bl_object _ _ _ HB _ _ Hlast) as (o1 & Ho1 & Eh & _). cbn [fst] in Ho1. rewrite Ho in Ho1. injection Ho1 as <-.
  assert (∀ g, g ≠ h → (∀ c, last cs = Some c → c.1 ≠ g) → kv_block T' !! g = kv_block T !! g) as Hkeep.
  { intros g Hg Hl. rewrite E2. destruct (last cs) as [c|].
    - destruct (kv_block T !! c.1); rewrite ?lookup_insert_ne; auto.
    - by rewrite lookup_insert_ne. }
  constructor; rewrite ?E1, ?E3.
  - intros i. rewrite lookup_delete, (bl_height _ _ _ HB). destruct (decide (k' = i)) as [<-|Hi].
    + rewrite decide_True by lia. subst k'. rewrite Nat2Z.id. by rewrite lookup_ge_None_2 by lia.
    + destruct (decide (0 ≤ i)) as [Hp|]; [|done]. rewrite snoc_other; [done|]. subst k'. lia.
  - intros i c Hc. pose proof (lookup_lt_Some _ _ _ Hc) as Hlt.
    destruct (bl_object _ _ _ HB i c) as (b & Hb & B1 & B2 & B3 & B4); [by rewrite lookup_app_l|].
    assert (c.1 ≠ h) as Hch.
    { intros E. apply Hn. rewrite <-E. apply list_elem_of_fmap_2. by eapply list_elem_of_lookup_2. }
    destruct (decide (S i = length cs)) as [Hl|Hl].
    + assert (last cs = Some c) as El by (rewrite last_lookup, <-Hl; exact Hc).
      exists (set_next (ToString 0) b). rewrite E2, El, Hb, lookup_insert_eq. split_and!; try done.
      by rewrite next_last.
    + exists b. rewrite Hkeep; [|done|].
      { split_and!; try done. rewrite B3. apply next_snoc. lia. }
      intros c' El E. apply Hl. rewrite last_lookup in El. assert (i = pred (length cs)); [|lia].
      pose proof (cs_distinct _ _ Hok) as Hnd. rewrite fmap_app in Hnd. apply NoDup_app in Hnd as (Hnd & _).
      eapply (NoDup_lookup cs.*1); [done | |]; rewrite list_lookup_fmap, ?Hc, ?El; [done|]. simpl. by rewrite E.
  - intros tm' i. rewrite lookup_delete, (bl_time _ _ _ HB). destruct (decide ((tm, k') = (tm', i))) as [E|Hi].
    + injection E as <- <-. rewrite decide_True by lia. subst k'. rewrite Nat2Z.id.
      by rewrite (lookup_ge_None_2 cs) by lia.
    + destruct (decide (0 ≤ i)) as [Hp|]; [|done].
      destruct (decide (Z.to_nat i = length cs)) as [Ei|Ei]; [|by rewrite snoc_other].
      rewrite Ei, Hlast, (lookup_ge_None_2 cs) by lia. cbn [mbind option_bind fst snd].
      case_guard as Htm; [|done]. destruct Hi. subst k'. f_equal; [done|lia].
  - exact Horph.
  - intros i g Hg Hin. unfold with_one in Hin.
    assert (ToString g ∈ X i ∨ (i = k' ∧ g = h)) as [HX|[-> ->]].
    { destruct (decide (i = k')) as [->|]; [|by left]. apply elem_of_union in Hin as [Hin|Hin%elem_of_singleton]; [by left|].
      right. split; [done|]. apply ToString_inj64; [done | | done]. apply (cs_range _ _ Hok).
      rewrite fmap_app. apply elem_of_app. right. left. }
    + destruct (bl_flag _ _ _ HB i g Hg HX) as (b & Hb & B1 & B2). exists b.
      assert (∀ c, c ∈ (cs ++ [(h, tm)]).*1 → g ≠ c) as Hne.
      { intros c Hc ->. by apply (cs_apart _ _ Hok c i). }
      rewrite Hkeep; [done | |].
      * apply Hne. rewrite fmap_app. apply elem_of_app. right. left.
      * intros c El E. apply (Hne c.1); [|done]. rewrite fmap_app. apply elem_of_app. left.
        apply list_elem_of_fmap_2. by apply last_Some_elem_of in El.
    + exists (set_orphan true o). split; [|done]. rewrite E2. destruct (last cs) as [c|] eqn:El; [|apply lookup_insert_eq].
      destruct (kv_block T !! c.1); [|apply lookup_insert_eq].
      rewrite lookup_insert_ne, lookup_insert_eq; [done|]. intros E. apply Hn. rewrite <-E.
      apply list_elem_of_fmap_2. by apply last_Some_elem_of in El.
Qed.

Lemma orphan_record h k X T i :
  (∀ i, kv_orphan T !! i = if decide (X i = ∅) then None else Some (orphan_text (X i))) → (∀ i, hashes64 (X i)) →
  <[k := insertOrphanBlockHash (ToString h) (default [] (kv_orphan T !! k))]> (kv_orphan T) !! i =
    if decide (with_one h k X i = ∅) then None else Some (orphan_text (with_one h k X i)).
Proof.
  intros Ho HX.
  assert (default [] (kv_orphan T !! k) = if decide (X k = ∅) then [] else orphan_text (X k)) as ->.
  { rewrite Ho. by case_decide. }
  rewrite insertOrphan_text by (done || apply length_ToString). unfold with_one. rewrite lookup_insert.
  destruct (decide (k = i)) as [<-|Hne].
  - rewrite (decide_True (P := k = k)) by done. rewrite decide_False; [done|]. set_solver.
  - rewrite (decide_False (P := i = k)) by done. apply Ho.
Qed.

Lemma unlinkBlock_run cs X T h tm o k g q :
  blocks_of (cs ++ [(h, tm)]) X T → chain_ok (cs ++ [(h, tm)]) X → k = Z.of_nat (length cs) →
  (∀ c, last cs = Some c → g = c.1) →
  kv_block (blks q) = <[h := set_orphan true o]> (kv_block T) →
  ∃ T', unlinkBlock k g q = (Done tt, with_blks T' q) ∧ kv_height T' = kv_height (blks q) ∧
    kv_orphan T' = kv_orphan (blks q) ∧ kv_block_time T' = kv_block_time (blks q) ∧
    kv_block T' = match last cs with
      | Some c => match kv_block T !! c.1 with
                  | Some b => <[c.1 := set_next (ToString 0) b]> (<[h := set_orphan true o]> (kv_block T))
                  | None => <[h := set_orphan true o]> (kv_block T)
                  end
      | None => <[h := set_orphan true o]> (kv_block T)
      end.
Proof.
  intros HB Hok Hk Hp Eq. pose proof (hash_not_in _ _ _ (cs_distinct _ _ Hok)) as Hn. unfold unlinkBlock.
  destruct (last cs) as [c|] eqn:El.
  - apply last_Some in El as Ecs. destruct Ecs as (cs' & Ecs).
    assert (0 <? k = true) as -> by (rewrite Hk, Ecs, length_app; simpl; apply Z.ltb_lt; lia).
    assert (cs !! length cs' = Some c) as Hc by (by rewrite Ecs, lookup_app_r, Nat.sub_diag by lia).
    destruct (bl_object _ _ _ HB (length cs') c) as (b & Hb & _ & _ & Hnext & _).
    { rewrite lookup_app_l by (by eapply lookup_lt_Some). done. }
    assert (h ≠ c.1) as Hne.
    { intros E. apply Hn. rewrite E. apply list_elem_of_fmap_2. by eapply list_elem_of_lookup_2. }
    rewrite (Hp c eq_refl), (bind_Done get _ q q q eq_refl), Eq, lookup_insert_ne, Hb by done.
    rewrite (bind_Done (kv_get (Some b)) _ _ b _ eq_refl).
    rewrite (bind_Done (assertM _) _ q tt q) by (apply assertM_true; by rewrite Hnext, length_next).
    eexists. split; [reflexivity|]. rewrite zeros_text. cbn [kv_block with_block]. by rewrite Eq.
  - apply last_None in El as ->. subst k. exists (blks q). split; [by destruct q|]. done.
Qed.

Lemma rejectBlock_run now db cs X blk hex t p :
  let h := BlockHash blk in let k := blkHeight_ t in
  blocks_of (cs ++ [(h, maxBlkTimestamp_ t)]) X (blks p) → chain_ok (cs ++ [(h, maxBlkTimestamp_ t)]) X →
  decodeBlock db (blkId_ t) = Done (blk, hex) → k = Z.of_nat (length cs) →
  (∀ c, last cs = Some c → hashPrevBlock (header blk) = c.1) →
  ∃ p', rejectBlock now db t p = (Done tt, p') ∧
    blocks_of cs (with_one h k X) (blks p') ∧ chain_ok cs (with_one h k X) ∧
    txs p' = with_notifications (notifications (txs p) ++ [loadblock now NOTIFY_EVENT_BLOCK_REJECT h k])
      (set_curr_height k (txs p)).
Proof.
  intros h k HB Hok Hdec Hk Hp. pose proof (hash_not_in _ _ _ (cs_distinct _ _ Hok)) as Hn.
  destruct (bl_object _ _ _ HB (length cs) (h, maxBlkTimestamp_ t)) as (o & Ho & _).
  { by rewrite lookup_app_r, Nat.sub_diag by lia. }
  cbn [fst] in Ho. unfold rejectBlock. rewrite Hdec.
  rewrite (bind_Done (lift_outcome (Done (blk, hex))) _ p _ p eq_refl).
  cbv beta iota zeta. change (BlockHash blk) with h. change (blkHeight_ t) with k.
  rewrite (bind_Done get _ p p p eq_refl), (bind_Done (setBlocks _) _ p tt _ eq_refl).
  rewrite (bind_Done (setBlocks _) _ _ tt _ eq_refl), (bind_Done get _ _ _ _ eq_refl).
  cbn [blks with_blks kv_block with_height with_orphan]. rewrite Ho.
  rewrite (bind_Done (kv_get (Some o)) _ _ o _ eq_refl).
  rewrite (bind_Done (setBlocks _) _ _ tt _ eq_refl), (bind_Done (setBlocks _) _ _ tt _ eq_refl).
  match goal with |- context [mbind _ (unlinkBlock _ _) ?q'] => set (q := q') end.
  destruct (unlinkBlock_run cs X (blks p) h _ o k (hashPrevBlock (header blk)) q HB Hok Hk Hp eq_refl)
    as (T' & Hrun & E1 & E2 & E3 & E4).
  rewrite (bind_Done _ _ _ _ _ Hrun). unfold setCurrBlockHeight, notifyBlock.
  rewrite (bind_Done (modify _) _ _ tt _ eq_refl). eexists. split; [reflexivity|].
  split_and!; [|by eapply chain_shrink|done]. rewrite Hk.
  eapply (shrunk cs X (blks p) _ h (maxBlkTimestamp_ t) o); [done | done | done | | exact E4 | |].
  - cbn [blks with_txs with_blks]. rewrite E1, <-Hk. reflexivity.
  - cbn [blks with_txs with_blks]. rewrite E3, <-Hk. reflexivity.
  - intros i. cbn [blks with_txs with_blks]. rewrite E2, <-Hk. apply (orphan_record h k X (blks p) i); [apply HB | apply Hok].
Qed.

End chain.
