(* ===== verification/ChainFacts.v ===== *)
(** * The properties of the parser's block handlers

    The claims about [acceptBlock] and [rejectBlock], on the lemmas of
    [ParserChain], with two small blocks to try them on. *)
From S2P Require Import Prelude Tx Bytes Text Serialize Db Notify Ledger ParserTx ParserBlock ParserChain.

Section facts.
Context `{Hashing} `{Scripts}.
Implicit Types (cs : list (uint256 * Z)) (X : Z → gset bytes) (p : parser) (blk : CBlock) (t : TxLog2).

(** Accepting a block on top of the chain never fails when its coinbase
    claims at least the subsidy; the tables then show the chain with the block on
    top (its hash at its height and time stamp, its object, the previous block's
    next hash), it is no longer among the orphans of its height, and its
    transactions are stored in pages of 500. *)
Theorem acceptBlock_refines interval now db cs X blk hex t v cb p :
  blocks_of cs X (blks p) → chain_ok cs X → decodeBlock db (blkId_ t) = Done (blk, hex) →
  block_fits interval cs X blk t v cb →
  ∃ p', acceptBlock interval now db t p = (Done (ToString (BlockHash blk)), p') ∧
    blocks_of (cs ++ [(BlockHash blk, maxBlkTimestamp_ t)]) (without (BlockHash blk) (blkHeight_ t) X) (blks p') ∧
    chain_ok (cs ++ [(BlockHash blk, maxBlkTimestamp_ t)]) (without (BlockHash blk) (blkHeight_ t) X) ∧
    paged blk (blks p) (blks p') ∧
    txs p' = with_notifications
      (notifications (txs p) ++ [loadblock now NOTIFY_EVENT_BLOCK_ACCEPT (BlockHash blk) (blkHeight_ t)])
      (set_curr_height (blkHeight_ t) (txs p)).
Proof. intros. by eapply acceptBlock_run. Qed.

(** C11 — Rejecting the last block of the chain never fails; the tables then
    show the chain without it: its height and time stamp lead nowhere, the block
    before it has no next block, and it is recorded once, and flagged, as an
    orphan of its height. *)
Theorem rejectBlock_refines now db cs X blk hex t p :
  blocks_of (cs ++ [(BlockHash blk, maxBlkTimestamp_ t)]) X (blks p) →
  chain_ok (cs ++ [(BlockHash blk, maxBlkTimestamp_ t)]) X →
  decodeBlock db (blkId_ t) = Done (blk, hex) → blkHeight_ t = Z.of_nat (length cs) →
  (∀ c, last cs = Some c → hashPrevBlock (header blk) = c.1) →
  ∃ p', rejectBlock now db t p = (Done tt, p') ∧
    blocks_of cs (with_one (BlockHash blk) (blkHeight_ t) X) (blks p') ∧
    chain_ok cs (with_one (BlockHash blk) (blkHeight_ t) X) ∧
    txs p' = with_notifications
      (notifications (txs p) ++ [loadblock now NOTIFY_EVENT_BLOCK_REJECT (BlockHash blk) (blkHeight_ t)])
      (set_curr_height (blkHeight_ t) (txs p)).
Proof. intros. by eapply rejectBlock_run. Qed.

(** C40 — A block whose coinbase claims less than the subsidy of its height is
    never accepted: the assertion on the fees fails and nothing is written. *)
Theorem underclaimed_block_stops interval now db blk hex t v cb p :
  decodeBlock db (blkId_ t) = Done (blk, hex) → BlockHash blk ≠ 0 →
  head (vtx blk) = Some cb → GetValueOut cb = Done v →
  i64 (v - GetBlockValue interval (blkHeight_ t)) < 0 →
  acceptBlock interval now db t p = (Raise AssertFail, p).
Proof.
  intros Hdec H0' Hc Hv Hlt. unfold acceptBlock. rewrite Hdec.
  rewrite (bind_Done (lift_outcome (Done (blk, hex))) _ p _ p eq_refl). cbv beta iota zeta.
  apply bind_Raise. unfold insertBlock.
  assert (∃ d, TargetToPdiff (BlockHash blk) = Done d) as [d ->].
  { unfold TargetToPdiff. destruct (Z.eqb_spec (BlockHash blk) 0); [done|]. eauto. }
  rewrite (bind_Done (lift_outcome (Done d)) _ p d p eq_refl), Hc.
  rewrite (bind_Done (kv_read (Some cb)) _ p cb p eq_refl), Hv.
  rewrite (bind_Done (lift_outcome (Done v)) _ p v p eq_refl).
  apply bind_Raise, assertM_false. by apply Z.leb_gt.
Qed.

(** the pages of a block that had none, read back *)
Lemma pieces_concat (s : bytes) (k : nat) :
  (length s ≤ page_size * k)%nat → concat (piece s <$> seq 0 k) = s.
Proof.
  revert s. induction k as [|k IH]; intros s Hs.
  - rewrite Nat.mul_0_r in Hs. by destruct s; [|simpl in Hs; lia].
  - assert (seq 0 (S k) = 0%nat :: (S <$> seq 0 k)) as -> by (simpl; f_equal; symmetry; apply fmap_S_seq).
    csimpl. rewrite <-list_fmap_compose.
    destruct (le_lt_dec (length s) page_size) as [Hle|Hgt].
    + rewrite piece_short by done. simpl. rewrite <-(app_nil_r s) at 3. f_equal.
      apply concat_nil_Forall. apply Forall_forall. intros x (j & -> & _)%list_elem_of_fmap.
      simpl. by rewrite piece_short.
    + rewrite <-(take_drop page_size s) at 2 3. set (s1 := take page_size s). set (s2 := drop page_size s).
      assert (length s1 = page_size) as H1 by (apply length_take_le; lia).
      rewrite <-(take_drop page_size s). fold s1 s2. rewrite piece_0 by done. f_equal.
      rewrite <-(IH s2) at 2; [|subst s2; rewrite length_drop; lia].
      f_equal. apply list_fmap_ext. intros j x _. simpl. by apply piece_S.
Qed.

(** C39 — The transaction hashes of a block come back in order: when the block
    had no pages, the pages read one after the other are the hashes of all its
    transactions, and no page holds more than 500. *)
Theorem block_transactions_roundtrip blk p (k : nat) :
  (∀ n, kv_block_txs (blks p) !! (BlockHash blk, n) = None) → (length (vtx blk) ≤ 500 * k)%nat →
  ∃ T, insertBlockTxs blk p = (Done tt, with_blks T p) ∧
    concat ((λ j : nat, default [] (kv_block_txs T !! (BlockHash blk, Z.of_nat j))) <$> seq 0 k) =
      concat ((λ tx, ToString (TxHash tx)) <$> vtx blk) ∧
    ∀ n s, kv_block_txs T !! (BlockHash blk, n) = Some s → 0 ≤ n → (length s ≤ 500 * 64)%nat.
Proof.
  intros Hnone Hk. destruct (insertBlockTxs_run blk p) as (m & Hrun & Hpages).
  exists (with_block_txs (λ _, m) (blks p)). split; [done|]. destruct Hpages as [_ Hin].
  change (concat ((λ tx, ToString (TxHash tx)) <$> vtx blk)) with (hashes_text (vtx blk)). split.
  - rewrite <-(pieces_concat (hashes_text (vtx blk)) k).
    + f_equal. apply list_fmap_ext. intros i j _. rewrite Hin, Hnone. by destruct (piece _ j).
    + unfold hashes_text. rewrite length_concat64.
      * rewrite length_fmap. unfold page_size. lia.
      * apply Forall_forall. intros x (tx & -> & _)%list_elem_of_fmap. apply length_ToString.
  - intros n s Hs Hn. rewrite <-(Z2Nat.id n Hn), Hin, Hnone in Hs.
    destruct (piece (hashes_text (vtx blk)) (Z.to_nat n)) as [|c l] eqn:E; [done|]. injection Hs as <-.
    rewrite <-E. unfold piece. rewrite length_take. unfold page_size. lia.
Qed.
End facts.

(** ** Two blocks: 5, and 6 on top of it *)
Module ChainDemo.
#[local] Existing Instance Demo.hashing.
#[local] Instance scripts : Scripts := {|
  destinations := λ s, match s with [] => [] | _ => [s] end; script_text := λ s, s; script_type := λ _, [] |}.
Definition coinbase (h v : Z) : CTransaction :=
  {| nVersion := 1; vin := [ {| prevout := {| hash := 0; n := u32 (-1) |}; scriptSig := [1]; nSequence := 0 |} ];
     vout := [ {| nValue := v; scriptPubKey := [97] |} ]; nLockTime := h |}.
Definition block5 : CBlock := Demo.block 5 0 100 [coinbase 1 5000000000].
Definition block6 : CBlock := Demo.block 6 5 700 [coinbase 2 4999999999].
Definition raw (id height : Z) (b : CBlock) : raw_block :=
  {| rb_id := id; rb_hash := BlockHash b; rb_height := height; rb_chain_id := 0; rb_hex := EncodeHexBlock b |}.
Definition db : database :=
  {| txlogs2 := []; memrepo_txs := []; explorer_meta := None; raw_blocks := [raw 1 0 block5; raw 2 1 block6];
     raw_txs := ∅ |}.
Definition row (blk height time : Z) (b : CBlock) : TxLog2 :=
  {| id_ := blk; type_ := 0; blkHeight_ := height; blkId_ := blk; maxBlkTimestamp_ := time; txHex_ := [];
     txHash_ := 0; tx_ := nullTx |}.
Definition row5 := row 1 0 100 block5.
Definition row6 := row 2 1 700 block6.
Definition none : Z → gset bytes := λ _, ∅.
Definition start : parser :=
  {| txs := {| led := emptyLedger; tables := {| kv_tx := ∅; kv_spent := ∅; kv_unconfirmed := ∅; kv_meta := ∅ |};
               unconfirmedTxsCount_ := 0; unconfirmedTxsSize_ := 0; currBlockHeight_ := -1; notifications := [] |};
     blks := {| kv_height := ∅; kv_block := ∅; kv_block_txs := ∅; kv_orphan := ∅; kv_block_time := ∅ |} |}.

Lemma start_blocks : blocks_of [] none (blks start).
Proof.
  constructor; simpl.
  - intros i. rewrite lookup_empty. by case_decide.
  - done.
  - intros tm i. rewrite lookup_empty. by case_decide.
  - intros i. by rewrite lookup_empty.
  - intros i h _ Hin. by apply elem_of_empty in Hin.
Qed.

Lemma start_ok : chain_ok [] none.
Proof.
  constructor; [constructor | by intros h Hh%elem_of_nil | intros i x Hx; by apply elem_of_empty in Hx
    | by intros h i Hh%elem_of_nil].
Qed.

Lemma decode5 : decodeBlock db 1 = Done (block5, EncodeHexBlock block5).
Proof. vm_compute. reflexivity. Qed.
Lemma decode6 : decodeBlock db 2 = Done (block6, EncodeHexBlock block6).
Proof. vm_compute. reflexivity. Qed.

Lemma fits5 : block_fits 210000 [] none block5 row5 5000000000 (coinbase 1 5000000000).
Proof.
  constructor.
  - done.
  - split; [|done]. by unfold in_u.
  - by intros ?%elem_of_nil.
  - intros i _ Hin. by apply elem_of_empty in Hin.
  - done.
  - done.
  - vm_compute. discriminate.
Qed.
End ChainDemo.

Section witnesses.
#[local] Existing Instance Demo.hashing.
#[local] Existing Instance ChainDemo.scripts.
Import ChainDemo.

Theorem acceptBlock_refines_witness : ∃ p',
  acceptBlock 210000 0 db row5 start = (Done (ToString 5), p') ∧
  blocks_of [(5, 100)] (without 5 0 none) (blks p').
Proof.
  destruct (acceptBlock_refines 210000 0 db [] none block5 (EncodeHexBlock block5) row5 5000000000
    (coinbase 1 5000000000) start start_blocks start_ok decode5 fits5) as (p' & Hrun & HB & _).
  exists p'. split; [exact Hrun | exact HB].
Defined.

Theorem rejectBlock_refines_witness : ∃ p p',
  rejectBlock 0 db row5 p = (Done tt, p') ∧ blocks_of [] (with_one 5 0 (without 5 0 none)) (blks p').
Proof.
  destruct (acceptBlock_run 210000 0 db [] none block5 (EncodeHexBlock block5) row5 5000000000
    (coinbase 1 5000000000) start start_blocks start_ok decode5 fits5) as (p & _ & HB & Hok & _).
  exists p. destruct (rejectBlock_refines 0 db [] (without 5 0 none) block5 (EncodeHexBlock block5) row5 p)
    as (p' & Hrun & HB' & _); [exact HB | exact Hok | exact decode5 | done | done |].
  exists p'. split; [exact Hrun | exact HB'].
Defined.

Theorem underclaimed_block_stops_witness : acceptBlock 210000 0 db row6 start = (Raise AssertFail, start).
Proof.
  apply (underclaimed_block_stops 210000 0 db block6 (EncodeHexBlock block6) row6 4999999999
    (coinbase 2 4999999999)); [exact decode6 | done | reflexivity | vm_compute; reflexivity | vm_compute; reflexivity].
Defined.

Theorem block_transactions_roundtrip_witness : ∃ T,
  insertBlockTxs block5 start = (Done tt, with_blks T start) ∧
  concat ((λ j : nat, default [] (kv_block_txs T !! (5, Z.of_nat j))) <$> seq 0 1) = ToString 1.
Proof.
  destruct (block_transactions_roundtrip block5 start 1) as (T & Hrun & E & _).
  - intros n. apply lookup_empty.
  - simpl. lia.
  - exists T. split; [exact Hrun|]. etrans; [exact E|]. vm_compute. reflexivity.
Defined.
End witnesses.
