(* ===== verification/BoundedBuffer.v ===== *)
(** * The bounded buffer between two threads (src/jiexi/src/Util.h
      [BoundedBuffer])

    [container_] is a [boost::circular_buffer]: index 0 is its front, [push_front]
    on a full one overwrites the back, and items that were read stay in it until
    they are overwritten.  [unread_] counts the items in front that were not read.
    A call whose wait condition does not hold blocks: it is [None] here.

    The client sees a queue with a capacity; [Queue] states what it may rely on
    and [bounded_buffer] shows that the buffer is one. *)
From S2P Require Import Prelude.

(** ** The promise: a first-in first-out queue *)
Class Queue (A B : Type) := {
  q_capacity : nat;
  q_new : B;
  q_push : A → B → option B;          (** [None]: the caller waits *)
  q_pop : B → option (A * B);
  q_items : B → list A;               (** oldest first *)
  q_valid : B → Prop }.

Class QueueLaws (A B : Type) {Q : Queue A B} : Prop := {
  q_new_valid : q_valid (q_new : B);
  q_new_items : q_items (q_new : B) = [];
  q_bounded (b : B) : q_valid b → (length (q_items b) ≤ q_capacity)%nat;
  q_push_spec (x : A) (b : B) : q_valid b →
    match q_push x b with
    | Some b' => (length (q_items b) < q_capacity)%nat ∧ q_valid b' ∧ q_items b' = q_items b ++ [x]
    | None => length (q_items b) = q_capacity
    end;
  q_pop_spec (b : B) : q_valid b →
    match q_pop b with
    | Some (x, b') => q_valid b' ∧ q_items b = x :: q_items b'
    | None => q_items b = []
    end }.

(** ** The implementation *)
Record BoundedBuffer (A : Type) := { container_ : list A; unread_ : nat }.
Arguments container_ {A} b.
Arguments unread_ {A} b.

Section buffer.
Context {A : Type} (capacity : nat).
Implicit Types (b : BoundedBuffer A) (x : A).

(** [boost::circular_buffer::push_front] *)
Definition push_front x (l : list A) : list A := take capacity (x :: l).

Definition newBuffer : BoundedBuffer A := {| container_ := []; unread_ := 0 |}.

(** [pushFront] and [popBack] between the lock and the unlock *)
Definition pushFront x b : option (BoundedBuffer A) :=
  if Nat.ltb (unread_ b) capacity
  then Some {| container_ := push_front x (container_ b); unread_ := S (unread_ b) |}
  else None.
Definition popBack b : option (A * BoundedBuffer A) :=
  match unread_ b with
  | O => None
  | S k => x ← container_ b !! k; Some (x, {| container_ := container_ b; unread_ := k |})
  end.

Definition buffer_ok b : Prop := (unread_ b ≤ length (container_ b) ≤ capacity)%nat.
Definition buffered b : list A := reverse (take (unread_ b) (container_ b)).

Lemma length_buffered b : buffer_ok b → length (buffered b) = unread_ b.
Proof. intros [H1 _]. unfold buffered. rewrite length_reverse, length_take. lia. Qed.

Lemma pushFront_spec x b : buffer_ok b →
  match pushFront x b with
  | Some b' => (length (buffered b) < capacity)%nat ∧ buffer_ok b' ∧ buffered b' = buffered b ++ [x]
  | None => length (buffered b) = capacity
  end.
Proof.
  intros Hok. rewrite (length_buffered b Hok). destruct Hok as [H1 H2]. unfold pushFront.
  destruct (Nat.ltb_spec (unread_ b) capacity) as [Hlt|Hge]; [|lia].
  unfold buffer_ok, buffered, push_front. cbn [container_ unread_]. split_and!; [done| | |].
  - rewrite length_take. simpl. lia.
  - rewrite length_take. simpl. lia.
  - rewrite take_take, Nat.min_l by lia. simpl. by rewrite reverse_cons.
Qed.

Lemma popBack_spec b : buffer_ok b →
  match popBack b with
  | Some (x, b') => buffer_ok b' ∧ buffered b = x :: buffered b'
  | None => buffered b = []
  end.
Proof.
  intros [H1 H2]. unfold popBack. destruct (unread_ b) as [|k] eqn:E.
  - unfold buffered. by rewrite E.
  - destruct (container_ b !! k) as [x|] eqn:Ek.
    + simpl. split; [unfold buffer_ok; simpl; lia|]. unfold buffered. cbn [container_ unread_].
      by rewrite E, (take_S_r _ _ x), reverse_snoc.
    + apply lookup_ge_None in Ek. lia.
Qed.
End buffer.

(** The parser's buffer has room for 200 rows ([txlogsBuffer_(200)]). *)
Definition txlogs_capacity : nat := 200.

#[export] Instance bounded_buffer A : Queue A (BoundedBuffer A) := {|
  q_capacity := txlogs_capacity;
  q_new := newBuffer;
  q_push := pushFront txlogs_capacity;
  q_pop := popBack;
  q_items := buffered;
  q_valid := buffer_ok txlogs_capacity |}.

#[export] Instance bounded_buffer_laws A : QueueLaws A (BoundedBuffer A).
Proof.
  constructor; simpl.
  - split; simpl; lia.
  - done.
  - intros b Hb. rewrite (length_buffered _ _ Hb). destruct Hb. lia.
  - intros x b. apply pushFront_spec.
  - intros b. apply popBack_spec.
Qed.

(** ** Sequences of calls *)
Inductive call (A : Type) := Push (x : A) | Pop.
Arguments Push {A} x.
Arguments Pop {A}.

(** What a sequence of calls returns, on the buffer and on a list; a call that
    would wait ends it. *)
Fixpoint run_calls {A} (capacity : nat) (cs : list (call A)) (b : BoundedBuffer A) : option (list A * BoundedBuffer A) :=
  match cs with
  | [] => Some ([], b)
  | Push x :: cs => b ← pushFront capacity x b; run_calls capacity cs b
  | Pop :: cs => '(x, b) ← popBack b; '(xs, b) ← run_calls capacity cs b; Some (x :: xs, b)
  end.
Fixpoint fifo_calls {A} (capacity : nat) (cs : list (call A)) (l : list A) : option (list A * list A) :=
  match cs with
  | [] => Some ([], l)
  | Push x :: cs => if decide (length l < capacity)%nat then fifo_calls capacity cs (l ++ [x]) else None
  | Pop :: cs =>
      match l with
      | [] => None
      | x :: l => '(xs, l) ← fifo_calls capacity cs l; Some (x :: xs, l)
      end
  end.

(** ** The lock

    Both calls take [lock_] in a [unique_lock], which unlocks it once more when
    it goes out of scope, after the explicit [lock_.unlock()]. *)
Inductive lock_op := Lock | Unlock.
Definition lock_ops : list lock_op := [Lock; Unlock; Unlock].

(** the thread that holds the mutex; to unlock a mutex one does not hold is
    undefined in C++ ([BufferLock] has what glibc's default mutex makes of it) *)
Definition lock_step (me : nat) (o : lock_op) (m : option nat) : outcome (option nat) :=
  match o, m with
  | Lock, None => Done (Some me)
  | Lock, Some who => if Nat.eqb who me then Raise Undefined else Raise Diverge
  | Unlock, Some who => if Nat.eqb who me then Done None else Raise Undefined
  | Unlock, None => Raise Undefined
  end.
Fixpoint lock_run (me : nat) (os : list lock_op) (m : option nat) : outcome (option nat) :=
  match os with [] => Done m | o :: os => lock_step me o m ≫= lock_run me os end.

(** Whoever calls, the second unlock is not the holder's. *)
Lemma buffer_unlocks_twice me : lock_run me lock_ops None = Raise Undefined.
Proof. simpl. by rewrite Nat.eqb_refl. Qed.

(** C35 — Whatever the sequence of calls, the circular buffer gives exactly what
    a first-in first-out list of at most [capacity] items gives: the same items in
    the same order, and a call waits on the one exactly when it waits on the
    other.  Items already read never come back and no unread item is
    overwritten. *)
Theorem buffer_is_fifo {A} (capacity : nat) (cs : list (call A)) :
  (λ r, (r.1, buffered r.2)) <$> run_calls capacity cs newBuffer = fifo_calls capacity cs [].
Proof.
  assert (∀ b, buffer_ok capacity b →
    (λ r, (r.1, buffered r.2)) <$> run_calls capacity cs b = fifo_calls capacity cs (buffered b)) as Hgen.
  { induction cs as [|[x|] cs IH]; intros b Hb; [done| |]; simpl.
    - pose proof (pushFront_spec capacity x b Hb) as Hp. destruct (pushFront capacity x b) as [b'|]; simpl.
      + destruct Hp as (Hlt & Hb' & <-). rewrite decide_True by done. by apply IH.
      + rewrite decide_False by lia. done.
    - pose proof (popBack_spec capacity b Hb) as Hp. destruct (popBack b) as [[x b']|]; simpl.
      + destruct Hp as (Hb' & ->). rewrite <-IH by done. by destruct (run_calls capacity cs b') as [[]|].
      + by rewrite Hp. }
  apply (Hgen newBuffer). split; simpl; lia.
Qed.

(** A buffer of two after three pushes and two reads: the third item took the
    place of the first, which had been read. *)
Example wraps_around :
  run_calls 2 [Push 1; Push 2; Pop; Push 3; Pop; Pop] newBuffer = Some ([1; 2; 3], {| container_ := [3; 2]; unread_ := 0 |}).
Proof. reflexivity. Qed.
