(* ===== verification/BufferLock.v ===== *)
(** * The calls of the bounded buffer, step by step (src/jiexi/src/Util.h
      [BoundedBuffer::pushFront], [BoundedBuffer::popBack])

    One producer and one consumer, each somewhere between two statements of its
    call.  Both calls unlock the mutex themselves and once more when the
    [unique_lock] goes out of scope.  The C++ standard does not say what the second
    unlock does; here it does what the manual page of [pthread_mutex_unlock] says
    of the default ("fast") kind, which [std::mutex] is on Linux: it "always
    returns it to the unlocked state", whoever holds it.  So the other thread may
    lose the mutex while it is inside, and both may be inside at once: that is
    recorded in [sh_both].  As long as it did not happen, the calls are those of
    the queue; what else may happen is shown at the end. *)
From S2P Require Import Prelude BoundedBuffer.

Inductive side := Producer | Consumer.

(** Where the producer is in [pushFront(x)]. *)
Inductive producer (A : Type) :=
  | PIdle                (** not in the call *)
  | PCalling (x : A)     (** about to take the lock, at first or after a wait *)
  | PHolding (x : A)     (** has it, about to test [unread_ < capacity()] *)
  | PSleeping (x : A)    (** waits on [notFull_] *)
  | PInserted (x : A)    (** after [container_.push_front(item)] *)
  | PCounted (x : A)     (** after [++unread_] *)
  | PUnlocked (x : A)    (** after [lock_.unlock()] *)
  | PLeaving (x : A).    (** after [notEmpty_.notify_one()] *)
Arguments PIdle {A}.
Arguments PCalling {A} x.
Arguments PHolding {A} x.
Arguments PSleeping {A} x.
Arguments PInserted {A} x.
Arguments PCounted {A} x.
Arguments PUnlocked {A} x.
Arguments PLeaving {A} x.

(** Where the consumer is in [popBack]. *)
Inductive consumer (A : Type) :=
  | KIdle
  | KCalling
  | KHolding             (** about to test [unread_ > 0] *)
  | KSleeping            (** waits on [notEmpty_] *)
  | KCounted (i : nat)   (** after [--unread_], which is [i] now *)
  | KCopied (x : A)      (** after [*pItem = container_[i]] *)
  | KUnlocked (x : A)    (** after [lock_.unlock()] *)
  | KLeaving (x : A).    (** after [notFull_.notify_one()] *)
Arguments KIdle {A}.
Arguments KCalling {A}.
Arguments KHolding {A}.
Arguments KSleeping {A}.
Arguments KCounted {A} i.
Arguments KCopied {A} x.
Arguments KUnlocked {A} x.
Arguments KLeaving {A} x.

#[export] Instance k_idle_dec {A} (k : consumer A) : Decision (k = KIdle).
Proof. destruct k; [by left|by right..]. Defined.

Record shared (A : Type) := {
  sh_buf : BoundedBuffer A;      (** [container_] and [unread_] *)
  sh_lock : option side;         (** who took [lock_] last and did not lose it *)
  sh_prod : producer A;
  sh_cons : consumer A;
  sh_both : bool }.              (** were both inside at once, at some time *)
Arguments sh_buf {A} _.
Arguments sh_lock {A} _.
Arguments sh_prod {A} _.
Arguments sh_cons {A} _.
Arguments sh_both {A} _.

Section calls.
Context {A : Type} (capacity : nat).
Implicit Types (m : shared A) (b : BoundedBuffer A) (x : A).

Definition newShared : shared A :=
  {| sh_buf := newBuffer; sh_lock := None; sh_prod := PIdle; sh_cons := KIdle; sh_both := false |}.

(** between the lock and the first unlock *)
Definition p_inside (p : producer A) : bool :=
  match p with PHolding _ | PInserted _ | PCounted _ => true | _ => false end.
Definition k_inside (k : consumer A) : bool :=
  match k with KHolding | KCounted _ | KCopied _ => true | _ => false end.
(** [notify_one]: one who waits goes on to take the lock again *)
Definition wake_p (p : producer A) : producer A := match p with PSleeping x => PCalling x | p => p end.
Definition wake_k (k : consumer A) : consumer A := match k with KSleeping => KCalling | k => k end.

Definition at_prod (p : producer A) (l : option side) m : shared A :=
  {| sh_buf := sh_buf m; sh_lock := l; sh_prod := p; sh_cons := sh_cons m; sh_both := sh_both m |}.
Definition at_cons (k : consumer A) (l : option side) m : shared A :=
  {| sh_buf := sh_buf m; sh_lock := l; sh_prod := sh_prod m; sh_cons := k; sh_both := sh_both m |}.
Definition with_buf b m : shared A :=
  {| sh_buf := b; sh_lock := sh_lock m; sh_prod := sh_prod m; sh_cons := sh_cons m; sh_both := sh_both m |}.
Definition note_both (c : bool) m : shared A :=
  {| sh_buf := sh_buf m; sh_lock := sh_lock m; sh_prod := sh_prod m; sh_cons := sh_cons m; sh_both := sh_both m || c |}.

(** The call and the return; to return is to unlock once more. *)
Definition start_push x m : shared A := at_prod (PCalling x) (sh_lock m) m.
Definition end_push m : shared A := at_prod PIdle None m.
Definition start_pop m : shared A := at_cons KCalling (sh_lock m) m.
Definition end_pop m : shared A := at_cons KIdle None m.

(** What happens inside the calls. *)
Inductive call_step m : shared A → Prop :=
(* pushFront *)
| p_lock x : sh_prod m = PCalling x → sh_lock m = None →
    call_step m (note_both (k_inside (sh_cons m)) (at_prod (PHolding x) (Some Producer) m))
| p_wait x : sh_prod m = PHolding x → Nat.ltb (unread_ (sh_buf m)) capacity = false →
    call_step m (at_prod (PSleeping x) None m)
| p_insert x : sh_prod m = PHolding x → Nat.ltb (unread_ (sh_buf m)) capacity = true →
    call_step m (at_prod (PInserted x) (sh_lock m)
      (with_buf {| container_ := push_front capacity x (container_ (sh_buf m)); unread_ := unread_ (sh_buf m) |} m))
| p_count x : sh_prod m = PInserted x →
    call_step m (at_prod (PCounted x) (sh_lock m)
      (with_buf {| container_ := container_ (sh_buf m); unread_ := S (unread_ (sh_buf m)) |} m))
| p_unlock x : sh_prod m = PCounted x → call_step m (at_prod (PUnlocked x) None m)
| p_notify x : sh_prod m = PUnlocked x →
    call_step m (at_cons (wake_k (sh_cons m)) (sh_lock m) (at_prod (PLeaving x) (sh_lock m) m))
(* popBack *)
| k_lock : sh_cons m = KCalling → sh_lock m = None →
    call_step m (note_both (p_inside (sh_prod m)) (at_cons KHolding (Some Consumer) m))
| k_wait : sh_cons m = KHolding → unread_ (sh_buf m) = 0%nat → call_step m (at_cons KSleeping None m)
| k_count i : sh_cons m = KHolding → unread_ (sh_buf m) = S i →
    call_step m (at_cons (KCounted i) (sh_lock m)
      (with_buf {| container_ := container_ (sh_buf m); unread_ := i |} m))
| k_copy i x : sh_cons m = KCounted i → container_ (sh_buf m) !! i = Some x →
    call_step m (at_cons (KCopied x) (sh_lock m) m)
| k_unlock x : sh_cons m = KCopied x → call_step m (at_cons (KUnlocked x) None m)
| k_notify x : sh_cons m = KUnlocked x →
    call_step m (at_prod (wake_p (sh_prod m)) (sh_lock m) (at_cons (KLeaving x) (sh_lock m) m)).

(** A thread that waits may wake up without having been notified. *)
Inductive wakes_up m : shared A → Prop :=
| p_spurious x : sh_prod m = PSleeping x → wakes_up m (at_prod (PCalling x) (sh_lock m) m)
| k_spurious : sh_cons m = KSleeping → wakes_up m (at_cons KCalling (sh_lock m) m).

(** ** What the calls have done so far *)

(** the queue: an item is in it from [push_front] on, and out of it from
    [--unread_] on *)
Definition queue m : BoundedBuffer A :=
  match sh_prod m with
  | PInserted _ => {| container_ := container_ (sh_buf m); unread_ := S (unread_ (sh_buf m)) |}
  | _ => sh_buf m
  end.
Definition taken m : option A :=
  match sh_cons m with
  | KCounted i => container_ (sh_buf m) !! i
  | KCopied x | KUnlocked x | KLeaving x => Some x
  | _ => None
  end.
Definition put m : bool :=
  match sh_prod m with PInserted _ | PCounted _ | PUnlocked _ | PLeaving _ => true | _ => false end.
Definition item_of (p : producer A) : option A :=
  match p with
  | PIdle => None
  | PCalling x | PHolding x | PSleeping x | PInserted x | PCounted x | PUnlocked x | PLeaving x => Some x
  end.

Definition consumer_soon (k : consumer A) : bool :=
  match k with KCounted _ | KCopied _ | KUnlocked _ => true | _ => false end.
Definition producer_soon (p : producer A) : bool :=
  match p with PInserted _ | PCounted _ | PUnlocked _ => true | _ => false end.

Record calls_ok m : Prop := {
  co_apart : p_inside (sh_prod m) && k_inside (sh_cons m) = false;
  co_producer : sh_lock m = Some Producer → p_inside (sh_prod m) = true;
  co_consumer : sh_lock m = Some Consumer → k_inside (sh_cons m) = true;
  (* no wake-up is lost *)
  co_full x : sh_prod m = PSleeping x → consumer_soon (sh_cons m) = true ∨ (capacity ≤ unread_ (queue m))%nat;
  co_empty : sh_cons m = KSleeping → producer_soon (sh_prod m) = true ∨ unread_ (queue m) = 0%nat;
  co_index i : sh_cons m = KCounted i → is_Some (container_ (sh_buf m) !! i) }.

(** Each step is a call of the queue, or nothing, to who only sees the queue. *)
Inductive seen m m' : Prop :=
| sees_nothing : queue m' = queue m → taken m' = taken m → put m' = put m → seen m m'
| sees_push x : item_of (sh_prod m) = Some x → put m = false → put m' = true → taken m' = taken m →
    pushFront capacity x (queue m) = Some (queue m') → seen m m'
| sees_pop x : taken m = None → taken m' = Some x → put m' = put m →
    popBack (queue m) = Some (x, queue m') → seen m m'.

Ltac call_case m := destruct m as [[cont unread] lock prod cons both]; simpl in *; simplify_eq; simpl in *.

Lemma call_step_item m m' : call_step m m' → item_of (sh_prod m') = item_of (sh_prod m).
Proof. destruct 1; call_case m; try done. by destruct prod. Qed.

Lemma call_step_idle m m' : call_step m m' → (sh_cons m' = KIdle ↔ sh_cons m = KIdle).
Proof. destruct 1; call_case m; try done. by destruct cons. Qed.

Lemma call_step_seen m m' :
  calls_ok m → buffer_ok capacity (queue m) → call_step m m' → seen m m'.
Proof.
  intros [C1 _ _ _ _ C6] Hb Hs. destruct Hs as [x E El|x E Eu|x E Eu|x E|x E|x E|E El|E Eu|i E Eu|i x E Ex|x E|x E];
    call_case m.
  - by apply sees_nothing.
  - by apply sees_nothing.
  - apply sees_push with x; try done; [by destruct cons|]. unfold pushFront. simpl. by rewrite Eu.
  - by apply sees_nothing.
  - by apply sees_nothing.
  - by apply sees_nothing; [|destruct cons|].
  - by apply sees_nothing.
  - by apply sees_nothing.
  - assert (is_Some (cont !! i)) as [y Hy].
    { apply lookup_lt_is_Some_2. destruct Hb as [Hb _]. destruct prod; simpl in *; try done; lia. }
    apply sees_pop with y; try done. unfold popBack, queue. destruct prod; simpl in *; try done; by rewrite Hy.
  - by apply sees_nothing.
  - by apply sees_nothing.
  - by apply sees_nothing; [destruct prod| |destruct prod].
Qed.

Lemma call_step_ok m m' :
  calls_ok m → buffer_ok capacity (queue m) → call_step m m' → sh_both m' = false → calls_ok m'.
Proof.
  intros [C1 C2 C3 C4 C5 C6] Hb Hs Hn.
  destruct Hs as [x E El|x E Eu|x E Eu|x E|x E|x E|E El|E Eu|i E Eu|i x E Ex|x E|x E]; call_case m.
  all: constructor; simpl; try done.
  - by apply orb_false_iff in Hn as [_ ?].
  - intros x' _. right. by apply Nat.ltb_ge.
  - by left.
  - by intros i ->.
  - intros El%C3. by destruct cons.
  - by destruct cons.
  - intros i Ei. apply C6. by destruct cons.
  - apply orb_false_iff in Hn as [_ ->]. done.
  - by rewrite andb_false_r.
  - destruct prod; simpl; auto.
  - by left.
  - intros i' [= <-]. apply lookup_lt_is_Some_2. destruct Hb as [Hb _]. destruct prod; simpl in *; lia.
  - by rewrite andb_false_r.
  - by rewrite andb_false_r.
  - intros El%C2. by destruct prod.
  - by destruct prod.
Qed.

Lemma wakes_up_ok m m' : calls_ok m → wakes_up m m' →
  calls_ok m' ∧ queue m' = queue m ∧ taken m' = taken m ∧ put m' = put m.
Proof.
  intros [C1 C2 C3 C4 C5 C6] [x E|E]; call_case m; (split; [constructor; simpl; try done|done]).
Qed.

(** Calling and returning change nothing in the queue. *)
Lemma start_push_ok x m : calls_ok m → sh_prod m = PIdle →
  calls_ok (start_push x m) ∧ queue (start_push x m) = queue m ∧ taken (start_push x m) = taken m ∧ put (start_push x m) = put m.
Proof. intros [C1 C2 C3 C4 C5 C6] E. call_case m. split; [|done]. by constructor. Qed.
Lemma end_push_ok x m : calls_ok m → sh_prod m = PLeaving x →
  calls_ok (end_push m) ∧ queue (end_push m) = queue m ∧ taken (end_push m) = taken m.
Proof. intros [C1 C2 C3 C4 C5 C6] E. call_case m. split; [|done]. by constructor. Qed.
Lemma start_pop_ok m : calls_ok m → sh_cons m = KIdle →
  calls_ok (start_pop m) ∧ queue (start_pop m) = queue m ∧ taken (start_pop m) = taken m ∧ put (start_pop m) = put m.
Proof.
  intros [C1 C2 C3 C4 C5 C6] E. call_case m. split; [|done]. constructor; simpl; try done.
Qed.
Lemma end_pop_ok x m : calls_ok m → sh_cons m = KLeaving x →
  calls_ok (end_pop m) ∧ queue (end_pop m) = queue m ∧ put (end_pop m) = put m ∧ taken m = Some x ∧ taken (end_pop m) = None.
Proof. intros [C1 C2 C3 C4 C5 C6] E. call_case m. split; [|done]. by constructor. Qed.

Lemma newShared_ok : calls_ok newShared.
Proof. by constructor. Qed.

Lemma call_step_both m m' : call_step m m' → sh_both m' = false → sh_both m = false.
Proof. destruct 1; call_case m; try done; by intros [? _]%orb_false_iff. Qed.
Lemma wakes_up_both m m' : wakes_up m m' → sh_both m' = sh_both m.
Proof. by destruct 1. Qed.
Lemma wakes_up_item m m' : wakes_up m m' →
  item_of (sh_prod m') = item_of (sh_prod m) ∧ (sh_cons m' = KIdle ↔ sh_cons m = KIdle).
Proof. destruct 1; by call_case m. Qed.

(** ** Progress *)

(** A consumer in its call, or the producer, can go on, unless nothing is there
    to be read and the producer is not in its call. *)
Lemma call_progress m :
  (0 < capacity)%nat → calls_ok m → buffer_ok capacity (queue m) → sh_cons m ≠ KIdle →
  (∃ m', call_step m m') ∨ (∃ x, sh_prod m = PLeaving x) ∨ (∃ x, sh_cons m = KLeaving x) ∨
  (sh_prod m = PIdle ∧ unread_ (queue m) = 0%nat ∧ taken m = None).
Proof.
  intros Hcap [C1 C2 C3 C4 C5 C6] Hb Hk.
  assert (p_inside (sh_prod m) = true ∨ producer_soon (sh_prod m) = true → ∃ m', call_step m m') as Hin.
  { intros Hp. destruct (sh_prod m) as [|x|x|x|x|x|x|x] eqn:Ep; try (by destruct Hp).
    - destruct (Nat.ltb (unread_ (sh_buf m)) capacity) eqn:Eu; eexists; [by eapply p_insert|by eapply p_wait].
    - eexists. by eapply p_count.
    - eexists. by eapply p_unlock.
    - eexists. by eapply p_notify. }
  destruct (sh_cons m) as [| | | |i|x|x|x] eqn:Ek; [done| | | | | | |by right; right; left; eauto].
  - destruct (sh_lock m) as [[|]|] eqn:El; [left; apply Hin; left; auto|by specialize (C3 eq_refl)|].
    left. eexists. by apply k_lock.
  - left. destruct (unread_ (sh_buf m)) as [|i] eqn:Eu; eexists; [by apply k_wait|by apply (k_count _ i)].
  - destruct (C5 eq_refl) as [Hp|Hu]; [left; by apply Hin; right|].
    destruct (sh_prod m) as [|x|x|x|x|x|x|x] eqn:Ep; try (by left; apply Hin; auto);
      [by right; right; right; unfold taken; rewrite Ek| | |by right; left; eauto].
    + left. destruct (sh_lock m) as [[|]|] eqn:El; [by specialize (C2 eq_refl)|by specialize (C3 eq_refl)|].
      eexists. by eapply p_lock.
    + destruct (C4 x eq_refl) as [?|?]; [done|lia].
  - destruct (C6 i eq_refl) as [x Hx]. left. eexists. by eapply k_copy.
  - left. eexists. by eapply k_unlock.
  - left. eexists. by eapply k_notify.
Qed.

(** Each step inside a call leads nearer to its end; to have put an item in
    counts for the way of the whole call. *)
Definition p_rank (p : producer A) : nat :=
  match p with
  | PInserted _ => 60 | PCounted _ => 59 | PUnlocked _ => 58 | PLeaving _ => 14
  | PIdle => 11 | PCalling _ => 10 | PHolding _ => 9 | PSleeping _ => 8
  end.
Definition k_rank (k : consumer A) : nat :=
  match k with
  | KIdle => 30 | KCalling => 25 | KHolding => 20 | KSleeping => 15
  | KCounted _ => 14 | KCopied _ => 13 | KUnlocked _ => 12 | KLeaving _ => 2
  end.
Definition rank m : nat := p_rank (sh_prod m) + k_rank (sh_cons m).

Lemma call_step_rank m m' : call_step m m' →
  (rank m' < rank m + (if put m then 0 else if put m' then 100 else 0))%nat.
Proof.
  unfold rank. destruct 1; call_case m; try lia.
  - destruct cons; simpl; lia.
  - destruct prod; simpl; lia.
Qed.
End calls.

(** ** What the second unlock can do *)

(** The two threads with what they call and what they get. *)
Inductive mark (A : Type) := Pushes (x : A) | Pops (x : A).
Arguments Pushes {A} x.
Arguments Pops {A} x.
Inductive turns {A} (capacity : nat) : shared A → list (mark A) → shared A → Prop :=
| no_turn m : turns capacity m [] m
| in_call m m1 l m2 : call_step capacity m m1 → turns capacity m1 l m2 → turns capacity m l m2
| calls_push m x l m2 : sh_prod m = PIdle → turns capacity (start_push x m) l m2 → turns capacity m (Pushes x :: l) m2
| push_ends m x l m2 : sh_prod m = PLeaving x → turns capacity (end_push m) l m2 → turns capacity m l m2
| calls_pop m l m2 : sh_cons m = KIdle → turns capacity (start_pop m) l m2 → turns capacity m l m2
| pop_ends m x l m2 : sh_cons m = KLeaving x → turns capacity (end_pop m) l m2 → turns capacity m (Pops x :: l) m2.

Tactic Notation "inside" uconstr(t) := eapply in_call; [eapply t; reflexivity|]; cbv.
Tactic Notation "around" uconstr(t) := eapply t; [reflexivity|]; cbv.

(** The producer's second unlock comes while the consumer is inside; the producer
    goes in again and puts 2 in front between the consumer's [--unread_] and its
    copy: the consumer gets 2, and then 2 again; it never gets 1. *)
Lemma second_unlock_repeats :
  turns 2 newShared [Pushes 1; Pushes 2; Pops 2; Pops 2]
    {| sh_buf := {| container_ := [2; 1]; unread_ := 0 |}; sh_lock := None; sh_prod := PCounted 2;
       sh_cons := KIdle; sh_both := true |}.
Proof.
  around calls_push. inside p_lock. inside p_insert. inside p_count. inside p_unlock. inside p_notify.
  around calls_pop. inside k_lock. around push_ends. around calls_push. inside p_lock. inside k_count. inside p_insert.
  inside k_copy. inside p_count. inside k_unlock. inside k_notify. around pop_ends.
  around calls_pop. inside k_lock. inside k_count. inside k_copy. inside k_unlock. inside k_notify. around pop_ends.
  apply no_turn.
Qed.
