(* ===== verification/TxLogs.v ===== *)
(** * The rows the parser takes from the database (src/jiexi/src/Parser.cc
      [TxInfoCache::getTxInfo], [tryFetchTxLog2FromDB])

    The producer thread asks for the next published row of 0_txlogs2 and adds
    the raw transaction, from its cache or from the raw tables.  The columns that
    only name a row in messages ([ymd_], [txId_], [created_at]) are left out of
    the row. *)
From S2P Require Import Prelude Tx Bytes Serialize TxState Db ParserTx.

(** ** The cache of raw transactions *)
Record TxInfo := { ti_txId : Z; ti_hex : bytes; ti_count : Z; ti_useTime : Z }.
Record TxInfoCache := { lastClearTime_ : Z; cache_ : gmap uint256 TxInfo }.

Definition with_cached (f : gmap uint256 TxInfo → gmap uint256 TxInfo) (c : TxInfoCache) : TxInfoCache :=
  {| lastClearTime_ := lastClearTime_ c; cache_ := f (cache_ c) |}.
Definition newTxInfoCache (now : Z) : TxInfoCache := {| lastClearTime_ := now; cache_ := ∅ |}.

(** the query of the raw table *)
Definition raw_info (d : database) (h : uint256) : outcome (Z * bytes) :=
  match raw_txs d !! h with
  | None => Raise (Throw "can't find raw tx by hash")
  | Some x => Done x
  end.

Definition kDay : Z := 86400.

(** The loop over the cache tests the entry [it] of the call, not the entry it
    visits; [None] is an iterator whose entry was erased. *)
Fixpoint keep_loop (now : Z) (it : option TxInfo) (l : list (uint256 * TxInfo))
    (cacheNew : gmap uint256 TxInfo) : outcome (gmap uint256 TxInfo) :=
  match l with
  | [] => Done cacheNew
  | x :: l =>
      match it with
      | None => Raise Undefined
      | Some i =>
          if ti_useTime i + kDay <? now then keep_loop now it l cacheNew
          else keep_loop now it l (<[x.1 := x.2]> cacheNew)
      end
  end.
Definition clear_cache (now : Z) (it : option TxInfo) : M TxInfoCache unit :=
  c ← get;
  if lastClearTime_ c + kDay <? now then
    modify (λ c, {| lastClearTime_ := now; cache_ := cache_ c |}) ;;
    m ← lift_outcome (keep_loop now it (map_items Z.le (cache_ c)) ∅);
    modify (with_cached (λ _, m))
  else mret tt.

Definition getTxInfo (d : database) (now : Z) (h : uint256) : M TxInfoCache (Z * bytes) :=
  c ← get;
  (match cache_ c !! h with
   | Some _ => mret tt
   | None =>
       x ← lift_outcome (raw_info d h);
       modify (with_cached (<[h := {| ti_txId := x.1; ti_hex := x.2; ti_count := 0; ti_useTime := 0 |}]>))
   end) ;;
  c ← get;
  match cache_ c !! h with
  | None => raise AssertFail
  | Some i =>
      let i := {| ti_txId := ti_txId i; ti_hex := ti_hex i; ti_count := i32 (ti_count i + 1); ti_useTime := now |} in
      modify (with_cached (<[h := i]>)) ;;
      (if 2 <=? ti_count i
       then modify (with_cached (delete h)) ;; clear_cache now None
       else clear_cache now (Some i)) ;;
      mret (ti_txId i, ti_hex i)
  end.

(** ** The next row *)

(** The database with the ids of the rows of 0_txlogs2. *)
Record explorer := { edb : database; row_ids : list Z }.
Definition numbered (e : explorer) : list (Z * txlog) := zip (row_ids e) (txlogs2 (edb e)).
Definition with_numbered (l : list (Z * txlog)) (e : explorer) : explorer :=
  {| edb := with_txlogs2 l.*2 (edb e); row_ids := l.*1 |}.

(** ORDER BY `id` ASC LIMIT 1 *)
Fixpoint least_row (l : list (Z * txlog)) : option (Z * txlog) :=
  match l with
  | [] => None
  | r :: l =>
      match least_row l with
      | Some r' => if r'.1 <? r.1 then Some r' else Some r
      | None => Some r
      end
  end.
Definition next_row (lastId : Z) (e : explorer) : option (Z * txlog) :=
  least_row (filter (λ r, lastId < r.1 ∧ batch_id r.2 ≠ -1) (numbered e)).

Definition known_type (type : Z) : bool :=
  (type =? LOG2TYPE_TX_ACCEPT) || (type =? LOG2TYPE_TX_CONFIRM) ||
  (type =? LOG2TYPE_TX_UNCONFIRM) || (type =? LOG2TYPE_TX_REJECT).

Definition kKeepNum : Z := 200 * 10000.

(** the two DELETE statements *)
Definition max_block_id (d : database) : Z := foldr (λ b x, Z.max (rb_id b) x) 0 (raw_blocks d).
Definition prune_rows (id : Z) (e : explorer) : explorer :=
  with_numbered (filter (λ r, ¬ r.1 < id - kKeepNum) (numbered e)) e.
Definition prune_blocks (e : explorer) : explorer :=
  {| edb := with_raw_blocks (filter (λ b, ¬ rb_id b < max_block_id (edb e) - 4320) (raw_blocks (edb e))) (edb e);
     row_ids := row_ids e |}.

(** The row as the parser sees it, given its raw transaction. *)
Definition log_row (id : Z) (r : txlog) (hex : bytes) (tx : CTransaction) : TxLog2 :=
  {| id_ := id; type_ := log_type r; blkHeight_ := block_height r; blkId_ := block_id r;
     maxBlkTimestamp_ := if log_type r =? LOG2TYPE_TX_ACCEPT then UNCONFIRM_TX_TIMESTAMP
                         else u32 (max_block_timestamp r);
     txHex_ := hex; txHash_ := tx_hash r; tx_ := tx |}.

(** the producer thread's part of the parser *)
Record fetcher := { source : explorer; txInfoCache_ : TxInfoCache }.
Definition with_source (f : explorer → explorer) (s : fetcher) : fetcher :=
  {| source := f (source s); txInfoCache_ := txInfoCache_ s |}.
Definition with_txInfoCache (c : TxInfoCache) (s : fetcher) : fetcher :=
  {| source := source s; txInfoCache_ := c |}.

Definition tryFetchTxLog2FromDB (now lastId : Z) : M fetcher (option TxLog2) :=
  s ← get;
  match next_row lastId (source s) with
  | None => mret None
  | Some (id, r) =>
      if negb (known_type (log_type r)) then mret None
      else
        x ← zoom txInfoCache_ with_txInfoCache (getTxInfo (edb (source s)) now (tx_hash r));
        match DecodeHexTx x.2 with
        | None => raise (Throw "TX decode failed, hex")
        | Some tx =>
            (if (kKeepNum <? id) && (Z.rem id 20000 =? 0)
             then modify (with_source (prune_rows id)) ;; modify (with_source prune_blocks)
             else mret tt) ;;
            mret (Some (log_row id r x.2 tx))
        end
  end.

(** ** The stored offset *)
Definition offset_key : bytes := "90_tparser_txlogs_offset_id".
Definition updateLastTxlog2Id (newId : Z) : M txs_state unit :=
  setTables (with_meta (<[offset_key := fmt_d newId]>)).
Definition getLastTxLog2Id : M txs_state Z :=
  s ← get;
  match kv_meta (tables s) !! offset_key with
  | Some value => mret (atoi64 value)
  | None => updateLastTxlog2Id 0 ;; mret 0
  end.
