(* ===== verification/KVDB.v ===== *)
(** * Ranges of the key-value store (src/jiexi/src/KVDB.cc [range], [rangeGT],
      [rangeLT])

    The store is a map from keys to values, read through a rocksdb iterator: it
    stands on an item of the ordered store, [Seek(k)] moves it to the first key at
    or above [k], [Next] and [Prev] move it by one.  The code compares keys with
    [strcmp] where it decides to stop; rocksdb compares all bytes. *)
From S2P Require Import Prelude Bytes Text.

(** the bytes before the first NUL *)
Fixpoint c_str (s : bytes) : bytes :=
  match s with c :: s => if c =? 0 then [] else c :: c_str s | [] => [] end.
(** [strcmp(s, t) <= 0] *)
Definition strcmp_le (s t : bytes) : bool := text_leb (c_str s) (c_str t).

Section values.
Context {V : Type}.
Abbreviation store := (gmap bytes V).
Abbreviation item := (bytes * V)%type.

(** what lies below and at or above a key, in order *)
Definition below (k : bytes) (m : store) : list item := filter (λ x, ¬ text_le k x.1) (text_items m).
Definition from (k : bytes) (m : store) : list item := filter (λ x, text_le k x.1) (text_items m).

(** The loop of both functions: [its] is what the iterator still visits, [cnt]
    counts the items it visited; [keys.size() >= limit] compares as unsigned. *)
Fixpoint collect (ok : bytes → bool) (limit offset cnt : Z) (its acc : list item) : list item :=
  match its with
  | [] => acc
  | x :: its =>
      if ok x.1 then
        let cnt := i32 (cnt + 1) in
        if negb (offset =? 0) && (cnt - 1 <? offset) then collect ok limit offset cnt its acc
        else
          let acc := acc ++ [x] in
          if u64 limit <=? Z.of_nat (length acc) then acc else collect ok limit offset cnt its acc
      else acc
  end.

Definition rangeGT (m : store) (start stop : bytes) (limit offset : Z) : outcome (list item) :=
  if strcmp_le start stop
  then Done (collect (λ k, strcmp_le k stop) limit offset 0 (from start m) [])
  else Raise AssertFail.

(** Past the last key the iterator is invalid, and has no key to compare. *)
Definition rangeLT (m : store) (start stop : bytes) (limit offset : Z) : outcome (list item) :=
  if strcmp_le stop start then
    match from start m with
    | [] => Raise Undefined
    | x :: _ =>
        let its := if decide (x.1 = start) then x :: reverse (below start m) else reverse (below start m) in
        Done (collect (λ k, strcmp_le stop k) limit offset 0 its [])
    end
  else Raise AssertFail.

Definition range (m : store) (start stop : bytes) (limit offset : Z) : outcome (list item) :=
  let offset := if offset <? 0 then 0 else offset in
  if strcmp_le start stop then rangeGT m start stop limit offset else rangeLT m start stop limit offset.

(** ** The reference: a slice of the ordered store *)

Definition between (lo hi : bytes) (m : store) : list item :=
  filter (λ x, text_le lo x.1 ∧ text_le x.1 hi) (text_items m).
Definition page (limit offset : Z) (l : list item) : list item :=
  take (Z.to_nat (Z.max 1 (u64 limit))) (drop (Z.to_nat offset) l).

(** No NUL in a key. *)
Definition plain (k : bytes) : Prop := 0 ∉ k.
Definition plain_store (m : store) : Prop := ∀ k, is_Some (m !! k) → plain k.

Section range.
Implicit Types (m : store) (k : bytes) (l : list item).

Lemma c_str_plain k : plain k → c_str k = k.
Proof.
  unfold plain. induction k as [|c k IH]; intros Hk; [done|]. simpl.
  destruct (Z.eqb_spec c 0) as [->|]; [set_solver|]. f_equal. apply IH. set_solver.
Qed.

Lemma strcmp_plain k k' : plain k → plain k' → strcmp_le k k' = true ↔ text_le k k'.
Proof. intros H1 H2. unfold strcmp_le. by rewrite !c_str_plain. Qed.

Fixpoint take_while (ok : bytes → bool) l : list item :=
  match l with x :: l => if ok x.1 then x :: take_while ok l else [] | [] => [] end.

(** Along an order that [ok] follows downwards, the items before the first
    failure are all that satisfy it. *)
Lemma take_while_filter (R : relation item) (ok : bytes → bool) (P : item → Prop) `{∀ x, Decision (P x)} l :
  StronglySorted R l → (∀ x y, R x y → P y → P x) → (∀ x, x ∈ l → ok x.1 = true ↔ P x) →
  take_while ok l = filter P l.
Proof.
  intros Hs Hdown. induction Hs as [|x l Hs IH Hx]; intros Hok; [done|]. cbn [take_while].
  rewrite filter_cons. destruct (decide (P x)) as [HP|HP].
  - assert (ok x.1 = true) as -> by (apply Hok; [left|done]). f_equal. apply IH. intros y Hy. apply Hok. by right.
  - assert (ok x.1 = false) as ->.
    { apply not_true_is_false. intros E. apply HP, Hok; [left|done]. }
    symmetry. apply filter_nothing. intros y Hy HPy. apply HP. eapply Hdown; [|exact HPy].
    rewrite Forall_forall in Hx. by apply Hx.
Qed.

Lemma collect_spec ok limit offset cnt l acc :
  0 ≤ cnt → cnt + Z.of_nat (length (take_while ok l)) < 2 ^ 31 → 0 ≤ offset →
  (length acc < Z.to_nat (Z.max 1 (u64 limit)))%nat →
  collect ok limit offset cnt l acc =
    acc ++ take (Z.to_nat (Z.max 1 (u64 limit)) - length acc) (drop (Z.to_nat (offset - cnt)) (take_while ok l)).
Proof.
  intros Hc Hb Ho. set (lim := Z.to_nat (Z.max 1 (u64 limit))).
  revert cnt acc Hc Hb. induction l as [|x l IH]; intros cnt acc Hc Hb Ha; cbn [collect take_while].
  - by rewrite drop_nil, take_nil, app_nil_r.
  - cbn [take_while] in Hb. destruct (ok x.1); [|by rewrite drop_nil, take_nil, app_nil_r].
    simpl length in Hb. rewrite wrapS_id by (done || (unfold in_s; lia)).
    destruct (negb (offset =? 0) && (cnt + 1 - 1 <? offset)) eqn:Es.
    + rewrite IH by (done || lia). replace (Z.to_nat (offset - cnt)) with (S (Z.to_nat (offset - (cnt + 1)))) by lia.
      done.
    + replace (Z.to_nat (offset - cnt)) with 0%nat by lia. rewrite drop_0.
      replace (lim - length acc)%nat with (S (lim - S (length acc))) by lia. cbn [take].
      rewrite length_app. simpl length.
      destruct (Z.leb_spec (u64 limit) (Z.of_nat (length acc + 1))) as [Hle|Hgt].
      * replace (lim - S (length acc))%nat with 0%nat by lia. by rewrite take_0.
      * rewrite IH by (rewrite ?length_app; simpl; lia).
        replace (Z.to_nat (offset - (cnt + 1))) with 0%nat by lia. rewrite drop_0, <-app_assoc, length_app. simpl.
        by replace (lim - (length acc + 1))%nat with (lim - S (length acc))%nat by lia.
Qed.

Lemma collect_page ok limit offset l :
  0 ≤ offset → Z.of_nat (length (take_while ok l)) < 2 ^ 31 →
  collect ok limit offset 0 l [] = page limit offset (take_while ok l).
Proof.
  intros Ho Hb. rewrite collect_spec by (simpl; lia). unfold page. simpl. by rewrite Nat.sub_0_r, Z.sub_0_r.
Qed.

(** The ordered store and its parts *)
Lemma items_sorted m : StronglySorted (λ x y : item, text_le x.1 y.1) (text_items m).
Proof. apply (map_items_sorted text_le m). Qed.

Lemma item_plain m x : plain_store m → x ∈ text_items m → plain x.1.
Proof. intros Hm Hx. destruct x as [k v]. apply elem_of_map_items in Hx. apply Hm. by exists v. Qed.

Lemma between_from lo hi m :
  filter (λ x : item, text_le x.1 hi) (from lo m) = between lo hi m.
Proof. unfold from, between. rewrite list_filter_filter. apply list_filter_iff. naive_solver. Qed.

(** a list in strict order that holds what lies between two keys *)
Lemma between_unique m lo hi l :
  StronglySorted (λ x y : item, text_lt x.1 y.1) l →
  (∀ k v, (k, v) ∈ l ↔ (text_le lo k ∧ text_le k hi) ∧ m !! k = Some v) → between lo hi m = l.
Proof.
  intros Hs Hl. assert (∀ k v, (k, v) ∈ between lo hi m ↔ (text_le lo k ∧ text_le k hi) ∧ m !! k = Some v) as Hb.
  { intros k v. unfold between. by rewrite list_elem_of_filter, elem_of_map_items. }
  apply (StronglySorted_unique_strong (λ x y : item, text_le x.1 y.1)).
  - intros [k v] [k' v'] [_ Hx]%Hb [_ Hy]%Hl H1 H2. simpl in *. assert (k = k') as -> by by apply (anti_symm text_le).
    congruence.
  - apply sorted_filter, items_sorted.
  - clear Hl. induction Hs as [|x l Hs IH Hx]; constructor; [done|]. eapply Forall_impl; [exact Hx|]. by intros y [? _].
  - apply NoDup_Permutation.
    + apply NoDup_filter. eapply NoDup_fmap_1, NoDup_map_items.
    + clear Hl. induction Hs as [|x l Hs IH Hx]; constructor; [|done]. intros Hin.
      rewrite Forall_forall in Hx. by destruct (Hx x Hin).
    + intros [k v]. by rewrite Hb, Hl.
Qed.

(** what [Seek] and [Prev] leave to visit downwards *)
Lemma downwards_split k m x l :
  from k m = x :: l →
  (if decide (x.1 = k) then x :: reverse (below k m) else reverse (below k m)) =
  reverse (filter (λ y : item, text_le y.1 k) (text_items m)).
Proof.
  intros E. assert (text_items m = below k m ++ from k m) as Es.
  { etrans; [apply (sorted_split (λ x y : item, text_le x.1 y.1) (λ x, ¬ text_le k x.1)); [apply items_sorted|]|].
    - intros y z _ _ Hyz Hz Hk. apply Hz. by etrans.
    - unfold below, from. f_equal. apply list_filter_iff. intros y. destruct (decide (text_le k y.1)); tauto. }
  assert (NoDup (from k m).*1) as Hnd.
  { pose proof (NoDup_map_items text_le m) as Hnd. rewrite Es, fmap_app in Hnd. by apply NoDup_app in Hnd as (_ & _ & ?). }
  assert (filter (λ y : item, text_le y.1 k) (from k m) = if decide (x.1 = k) then [x] else []) as Ef.
  { assert (x ∈ from k m) as Hx by (rewrite E; left). apply list_elem_of_filter in Hx as [Hkx _].
    pose proof (sorted_filter _ (λ x : item, text_le k x.1) _ (items_sorted m)) as Hs.
    change (StronglySorted (λ x y : item, text_le x.1 y.1) (from k m)) in Hs. rewrite E in Hs, Hnd.
    apply StronglySorted_inv in Hs as [_ Hl]. rewrite Forall_forall in Hl. apply NoDup_cons in Hnd as [Hn _].
    rewrite E, filter_cons, (filter_nothing _ l).
    - destruct (decide (x.1 = k)) as [->|Hne]; [by rewrite decide_True|]. rewrite decide_False; [done|].
      intros Hle. apply Hne. by apply (anti_symm text_le).
    - intros y Hy Hle. apply Hn. apply list_elem_of_fmap. exists y. split; [|done].
      apply (anti_symm text_le); [by apply Hl|]. by etrans. }
  rewrite Es, filter_app, Ef, (filter_everything _ (below k m)).
  - destruct (decide (x.1 = k)); [by rewrite reverse_app|by rewrite app_nil_r].
  - intros y Hy. apply list_elem_of_filter in Hy as [Hy _]. by destruct (total text_le k y.1).
Qed.

Lemma items_bound m : (length (text_items m) = size m)%nat.
Proof. unfold map_items. by rewrite merge_sort_Permutation, length_map_to_list. Qed.

(** the items between two keys, whichever is the lower *)
Definition span (start stop : bytes) (m : store) : list item :=
  if decide (text_le start stop) then between start stop m else between stop start m.

Lemma range_run m start stop limit offset :
  plain_store m → plain start → plain stop → Z.of_nat (length (span start stop m)) < 2 ^ 31 →
  range m start stop limit offset =
    if decide (text_le start stop) then Done (page limit (Z.max 0 offset) (between start stop m))
    else if decide (from start m = []) then Raise Undefined
    else Done (page limit (Z.max 0 offset) (reverse (between stop start m))).
Proof.
  intros Hm H1 H2 Hsz. unfold range. replace (if offset <? 0 then 0 else offset) with (Z.max 0 offset) by
    (destruct (Z.ltb_spec offset 0); lia).
  unfold span in Hsz.
  pose proof (strcmp_plain start stop H1 H2) as Hcmp. destruct (decide (text_le start stop)) as [Hle|Hnle].
  - rewrite (proj2 Hcmp Hle). unfold rangeGT. rewrite (proj2 Hcmp Hle). f_equal.
    assert (take_while (λ k, strcmp_le k stop) (from start m) = between start stop m) as E.
    { rewrite <-between_from. apply (take_while_filter (λ x y : item, text_le x.1 y.1)).
      - apply sorted_filter, items_sorted.
      - intros x y Hxy Hy. by etrans.
      - intros x Hx. apply strcmp_plain; [|done]. apply list_elem_of_filter in Hx as [_ Hx]. by eapply item_plain. }
    rewrite collect_page, E; [done|lia|by rewrite E].
  - assert (strcmp_le start stop = false) as -> by (apply not_true_is_false; by rewrite Hcmp).
    unfold rangeLT. assert (text_le stop start) as Hle by by destruct (total text_le start stop).
    rewrite (proj2 (strcmp_plain stop start H2 H1) Hle).
    destruct (from start m) as [|x l] eqn:E; [by rewrite decide_True|].
    rewrite (decide_False (P := x :: l = [])) by done. f_equal. rewrite (downwards_split start m x l E).
    assert (take_while (λ k, strcmp_le stop k) (reverse (filter (λ y : item, text_le y.1 start) (text_items m))) =
      reverse (between stop start m)) as Ew.
    { etrans.
      - apply (take_while_filter (flip (λ x y : item, text_le x.1 y.1)) _ (λ x, text_le stop x.1)).
        + apply sorted_reverse, sorted_filter, items_sorted.
        + intros y z Hyz Hy. unfold flip in Hyz. by etrans; [exact Hy|].
        + intros y Hy. apply strcmp_plain; [done|]. rewrite elem_of_reverse in Hy.
          apply list_elem_of_filter in Hy as [_ Hy]. by eapply item_plain.
      - unfold between. rewrite filter_reverse, list_filter_filter. done. }
    rewrite collect_page, Ew; [done|lia|by rewrite Ew, length_reverse].
Qed.

Lemma span_small m start stop : (length (span start stop m) ≤ size m)%nat.
Proof.
  unfold span, between. destruct (decide _); etrans; [apply length_filter| |apply length_filter|];
    by rewrite items_bound.
Qed.

(** C33 — On a store whose keys hold no NUL, [range] returns exactly a page of
    the keys between its bounds: in ascending order when the first bound is not
    above the second, in descending order otherwise; it skips [offset] items and
    returns at most [limit], but never less than one when there is one.  A
    descending range that starts above every key of the store reads an iterator
    that is not valid. *)
Theorem range_correct m start stop limit offset :
  plain_store m → plain start → plain stop → Z.of_nat (size m) < 2 ^ 31 →
  range m start stop limit offset =
    if decide (text_le start stop) then Done (page limit (Z.max 0 offset) (between start stop m))
    else if decide (from start m = []) then Raise Undefined
    else Done (page limit (Z.max 0 offset) (reverse (between stop start m))).
Proof.
  intros Hm H1 H2 Hsz. apply range_run; [done..|]. pose proof (span_small m start stop). lia.
Qed.
End range.
End values.
Abbreviation store := (gmap bytes bytes).
Abbreviation item := (bytes * bytes)%type.

(** ** A table whose keys are written as text *)
Section text_keys.
Context `{Countable K}.

Lemma elem_kmap {A} (f : K → bytes) (m : gmap K A) k v :
  (kmap f m : gmap bytes A) !! k = Some v → ∃ i, k = f i ∧ m !! i = Some v.
Proof.
  intros Hk. unfold kmap in Hk. apply elem_of_list_to_map_2 in Hk.
  apply list_elem_of_fmap in Hk as ([i x] & [= -> ->] & Hi). apply elem_of_map_to_list in Hi. by exists i.
Qed.

Lemma kmap_elem {A} (f : K → bytes) (m : gmap K A) i v :
  (∀ j w, m !! j = Some w → f j = f i → j = i) → m !! i = Some v → (kmap f m : gmap bytes A) !! f i = Some v.
Proof.
  intros Hinj Hi. unfold kmap. apply elem_of_list_to_map_1'.
  - intros y Hy. apply list_elem_of_fmap in Hy as ([j w] & [= E ->] & Hj). apply elem_of_map_to_list in Hj.
    assert (j = i) as -> by (by eapply Hinj). congruence.
  - apply list_elem_of_fmap. exists (i, v). split; [done|]. by apply elem_of_map_to_list.
Qed.

Lemma kmap_some {A} (f : K → bytes) (m : gmap K A) i v :
  m !! i = Some v → (kmap f m : gmap bytes A) !! f i ≠ None.
Proof.
  intros Hi Hn. unfold kmap in Hn. apply not_elem_of_list_to_map_2 in Hn. apply Hn. apply list_elem_of_fmap.
  exists (f i, v). split; [done|]. apply list_elem_of_fmap. exists (i, v). split; [done|].
  by apply elem_of_map_to_list.
Qed.
End text_keys.

(** Three heights and the first key behind them: the last height is found from
    above, with one item asked for. *)
Module RangeDemo.
Definition m : store := {["10_1" : bytes := [1]; "10_2" : bytes := [2]; "10_3" : bytes := [3]; "90" : bytes := []]}.
End RangeDemo.

Theorem range_correct_witness :
  range RangeDemo.m "10_9" "10_0" 1 0 = Done [("10_3" : bytes, [3])] ∧
  range RangeDemo.m "99" "10_0" 1 0 = Raise Undefined.
Proof.
  assert (plain_store RangeDemo.m) as Hm.
  { intros k Hk. apply elem_of_dom in Hk. revert k Hk.
    apply (bool_decide_unpack (set_Forall (λ k : bytes, 0 ∉ k) (dom RangeDemo.m))). vm_compute. exact I. }
  split.
  - rewrite (range_correct RangeDemo.m "10_9" "10_0" 1 0 Hm); [vm_compute; reflexivity | unfold plain; apply (bool_decide_unpack _); vm_compute; exact I ..].
  - rewrite (range_correct RangeDemo.m "99" "10_0" 1 0 Hm); [vm_compute; reflexivity | unfold plain; apply (bool_decide_unpack _); vm_compute; exact I ..].
Defined.
