(* ===== verification/Codec.v ===== *)
(** * Text encodings (src/jiexi/src/Common.cc [Hex2Bin], [Bin2Hex],
      [Strings::toBase64], [Strings::fromBase64]; Util.cc [UrlEncode],
      [UrlDecode], [escapeJson])

    Characters are the byte values 0 to 255: where the code shifts a signed
    [char], it masks the result. *)
From S2P Require Import Prelude Bytes KVDB.

(** ** Hexadecimal *)

(** [_hex2bin_char], as the [uint8] it is stored in *)
Definition hex2bin_char (c : Z) : Z :=
  u8 (if (48 <=? c) && (c <=? 57) then c - 48
      else if (97 <=? c) && (c <=? 102) then c - 97 + 10
      else if (65 <=? c) && (c <=? 70) then c - 65 + 10
      else -1).
Fixpoint hex_pairs (s : bytes) : bytes :=
  match s with
  | a :: b :: s => u8 (Z.lor (Z.shiftl (hex2bin_char a) 4) (hex2bin_char b)) :: hex_pairs s
  | _ => []
  end.
Definition Hex2Bin (s : bytes) : bool * bytes :=
  let psz := skip_0x (skip_space (c_str s)) in
  if Z.of_nat (length psz) mod 2 =? 1 then (false, []) else (true, hex_pairs psz).

Definition hexchars : bytes := "0123456789abcdef".
Definition hexchar (d : Z) : Z := nth (Z.to_nat d) hexchars 0.
Definition Bin2Hex (l : bytes) : bytes :=
  flat_map (λ p, [hexchar (Z.shiftr p 4); hexchar (Z.land p 15)]) l.

(** ** Base 64 *)

Definition basis_64 : bytes := "ABCDEFGHIJKLMNOPQRSTUVWXYZabcdefghijklmnopqrstuvwxyz0123456789+/".
Definition basis (i : Z) : Z := nth (Z.to_nat i) basis_64 0.

(** the first character of a group, then the two that mix bytes, then the last *)
Definition b64_0 (a : Z) : Z := basis (Z.land (Z.shiftr a 2) 63).
Definition b64_1 (a b : Z) : Z := basis (Z.lor (Z.shiftl (Z.land a 3) 4) (Z.shiftr (Z.land b 240) 4)).
Definition b64_2 (b c : Z) : Z := basis (Z.lor (Z.shiftl (Z.land b 15) 2) (Z.shiftr (Z.land c 192) 6)).
Definition b64_3 (c : Z) : Z := basis (Z.land c 63).

Fixpoint toBase64 (s : bytes) : bytes :=
  match s with
  | a :: b :: c :: s => b64_0 a :: b64_1 a b :: b64_2 b c :: b64_3 c :: toBase64 s
  | [a; b] => [b64_0 a; b64_1 a b; basis (Z.shiftl (Z.land b 15) 2); 61]
  | [a] => [b64_0 a; basis (Z.shiftl (Z.land a 3) 4); 61; 61]
  | [] => []
  end.

(** the table [pr2six]: 64 for a character outside the alphabet *)
Definition pr2six (c : Z) : Z :=
  if (65 <=? c) && (c <=? 90) then c - 65
  else if (97 <=? c) && (c <=? 122) then c - 71
  else if (48 <=? c) && (c <=? 57) then c + 4
  else if c =? 43 then 62
  else if c =? 47 then 63
  else 64.

Definition six_0 (a b : Z) : Z := u8 (Z.lor (Z.shiftl (pr2six a) 2) (Z.shiftr (pr2six b) 4)).
Definition six_1 (b c : Z) : Z := u8 (Z.lor (Z.shiftl (pr2six b) 4) (Z.shiftr (pr2six c) 2)).
Definition six_2 (c d : Z) : Z := u8 (Z.lor (Z.shiftl (pr2six c) 6) (pr2six d)).

(** groups of four while more than four characters are left *)
Fixpoint six_groups (s : bytes) : bytes :=
  match s with
  | a :: b :: c :: d :: s =>
      six_0 a b :: six_1 b c :: six_2 c d :: six_groups s
  | [a; b; c] => [six_0 a b; six_1 b c]
  | [a; b] => [six_0 a b]
  | _ => []
  end.
(** what follows the last character of the alphabet is cut off *)
Fixpoint drop_bad (s : bytes) : bytes :=
  match s with c :: s' => if 64 <=? pr2six c then drop_bad s' else s | [] => [] end.
Definition fromBase64 (s : bytes) : bytes := six_groups (reverse (drop_bad (reverse s))).

(** ** URLs *)

Definition isupper (c : Z) : bool := (65 <=? c) && (c <=? 90).
Definition islower (c : Z) : bool := (97 <=? c) && (c <=? 122).
Definition isalnum (c : Z) : bool := isdigit c || isupper c || islower c.
Definition tolower (c : Z) : Z := if isupper c then c + 32 else c.

Definition hexupper : bytes := "0123456789ABCDEF".
Definition to_hex (code : Z) : Z := nth (Z.to_nat (Z.land code 15)) hexupper 0.
Definition from_hex (ch : Z) : Z := if isdigit ch then ch - 48 else tolower ch - 97 + 10.

Definition unreserved (c : Z) : bool :=
  isalnum c || (c =? 45) || (c =? 95) || (c =? 46) || (c =? 126).
Definition url_char (c : Z) : bytes :=
  if unreserved c then [c] else [37; to_hex (Z.shiftr c 4); to_hex (Z.land c 15)].
Definition UrlEncode (s : bytes) : bytes := flat_map url_char (c_str s).

(** A percent sign without two characters behind it is dropped. *)
Fixpoint url_decode (s : bytes) : bytes :=
  match s with
  | [] => []
  | c :: s' =>
      if c =? 37 then
        match s' with
        | a :: b :: s'' => u8 (Z.lor (Z.shiftl (from_hex a) 4) (from_hex b)) :: url_decode s''
        | _ => url_decode s'
        end
      else (if c =? 43 then 32 else c) :: url_decode s'
  end.
(** the buffer is cut at its first NUL *)
Definition UrlDecode (s : bytes) : bytes := c_str (url_decode (c_str s)).

(** ** JSON strings *)
Definition escape_char (c : Z) : bytes :=
  if c =? 34 then [92; 34]
  else if c =? 92 then [92; 92]
  else if c =? 8 then [92; 98]
  else if c =? 12 then [92; 102]
  else if c =? 10 then [92; 110]
  else if c =? 13 then [92; 114]
  else if c =? 9 then [92; 116]
  else if (0 <=? c) && (c <=? 31) then [92; 117; 48; 48; hexchar (Z.shiftr c 4); hexchar (Z.land c 15)]
  else [c].
Definition escapeJson (s : bytes) : bytes := flat_map escape_char s.

(** What a JSON reader makes of the inside of a string (RFC 8259): [None] where
    the string ends or is not well formed.  Escapes beyond one byte do not occur
    here. *)
Fixpoint json_unescape (s : bytes) : option bytes :=
  match s with
  | [] => Some []
  | c :: s =>
      if c =? 92 then
        match s with
        | 34 :: s => (34 ::.) <$> json_unescape s
        | 92 :: s => (92 ::.) <$> json_unescape s
        | 98 :: s => (8 ::.) <$> json_unescape s
        | 102 :: s => (12 ::.) <$> json_unescape s
        | 110 :: s => (10 ::.) <$> json_unescape s
        | 114 :: s => (13 ::.) <$> json_unescape s
        | 116 :: s => (9 ::.) <$> json_unescape s
        | 117 :: 48 :: 48 :: a :: b :: s =>
            if (HexDigit a =? -1) || (HexDigit b =? -1) then None
            else ((16 * HexDigit a + HexDigit b) ::.) <$> json_unescape s
        | _ => None
        end
      else if (c =? 34) || ((0 <=? c) && (c <=? 31)) then None
      else (c ::.) <$> json_unescape s
  end.

(** ** Facts about all bytes, by trying them *)

Definition upto (n : nat) : list Z := Z.of_nat <$> seq 0 n.

Lemma elem_upto n z : 0 ≤ z < Z.of_nat n → z ∈ upto n.
Proof.
  intros Hz. apply list_elem_of_fmap. exists (Z.to_nat z). split; [lia|]. apply elem_of_seq. lia.
Qed.

Lemma forall_upto n (f : Z → bool) z : forallb f (upto n) = true → 0 ≤ z < Z.of_nat n → f z = true.
Proof. intros Hf Hz. rewrite forallb_forall in Hf. apply Hf, list_elem_of_In, elem_upto, Hz. Qed.

Lemma forall_upto3 n1 n2 n3 (f : Z → Z → Z → bool) x y z :
  forallb (λ x, forallb (λ y, forallb (f x y) (upto n3)) (upto n2)) (upto n1) = true →
  0 ≤ x < Z.of_nat n1 → 0 ≤ y < Z.of_nat n2 → 0 ≤ z < Z.of_nat n3 → f x y z = true.
Proof.
  intros Hf Hx Hy Hz. pose proof (forall_upto _ _ _ Hf Hx) as H1. pose proof (forall_upto _ _ _ H1 Hy) as H2.
  by pose proof (forall_upto _ _ _ H2 Hz).
Qed.

Ltac by_table n z :=
  lazymatch goal with
  | |- @eq Z _ _ => apply Z.eqb_eq
  | |- _ => idtac
  end;
  pattern z;
  lazymatch goal with
  | |- (λ x, ?b = true) z =>
      let Ht := fresh in
      assert (forallb (λ x, b) (upto n) = true) as Ht by (vm_compute; reflexivity);
      apply (forall_upto n _ z) in Ht; [exact Ht | assumption]
  end.

Lemma land_range z k : 0 ≤ k → 0 ≤ Z.land z (Z.ones k) < 2 ^ k.
Proof. intros Hk. rewrite Z.land_ones by done. apply Z.mod_pos_bound. lia. Qed.

(** ** Hexadecimal *)

Section hex.
Implicit Types (s l : bytes).

Lemma hexchar_ok d : 0 ≤ d < 16 → hexchar d = hexmap d.
Proof. intros Hd. by_table 16%nat d. Qed.
Lemma hex2bin_hexchar d : 0 ≤ d < 16 → hex2bin_char (hexchar d) = d.
Proof. intros Hd. by_table 16%nat d. Qed.

Lemma Bin2Hex_HexStr l : Forall byte_ok l → Bin2Hex l = HexStr l.
Proof.
  induction 1 as [|v l Hv Hl IH]; [done|]. destruct (byte_nibbles v Hv). simpl. by rewrite !hexchar_ok, IH.
Qed.

Lemma hex_pairs_Bin2Hex l : Forall byte_ok l → hex_pairs (Bin2Hex l) = l.
Proof.
  induction 1 as [|v l Hv Hl IH]; [done|]. destruct (byte_nibbles v Hv) as [H1 H2].
  cbn [Bin2Hex flat_map app hex_pairs]. rewrite !hex2bin_hexchar by done. f_equal; [|exact IH].
  unfold byte_ok in Hv. clear H1 H2. by_table 256%nat v.
Qed.

(** no blank, no NUL and no x among hexadecimal digits *)
Definition hex_digit (c : Z) : Prop := 48 ≤ c ≤ 57 ∨ 97 ≤ c ≤ 102.
Lemma hexchar_digit d : 0 ≤ d < 16 → hex_digit (hexchar d).
Proof.
  intros Hd. assert ((48 <=? hexchar d) && (hexchar d <=? 57) || (97 <=? hexchar d) && (hexchar d <=? 102) = true).
  { by_table 16%nat d. }
  unfold hex_digit. lia.
Qed.
Lemma Bin2Hex_digits l : Forall byte_ok l → Forall hex_digit (Bin2Hex l).
Proof.
  induction 1 as [|v l Hv Hl IH]; [constructor|]. destruct (byte_nibbles v Hv).
  simpl. constructor; [by apply hexchar_digit|]. constructor; [by apply hexchar_digit|done].
Qed.

Lemma c_str_nonzero s : Forall (λ c, c ≠ 0) s → c_str s = s.
Proof.
  induction 1 as [|c s Hc Hs IH]; [done|]. simpl. destruct (Z.eqb_spec c 0); [done|]. by rewrite IH.
Qed.

Lemma skip_hex s : Forall hex_digit s → skip_0x (skip_space (c_str s)) = s.
Proof.
  intros Hs. rewrite c_str_nonzero; [|eapply Forall_impl; [exact Hs|unfold hex_digit; lia]].
  destruct s as [|c s]; [done|]. apply Forall_cons in Hs as [Hc Hs]. cbn [skip_space].
  assert (isspace c = false) as -> by (unfold isspace, hex_digit in *; lia).
  unfold skip_0x. destruct (decide (c = 48)) as [->|Hne].
  - destruct s as [|x s]; [done|]. apply Forall_cons in Hs as [Hx _].
    assert ((x =? 120) || (x =? 88) = false) as -> by (unfold hex_digit in *; lia). done.
  - destruct c as [|c|c]; try done. do 6 (destruct c; try done).
Qed.

Lemma Hex2Bin_Bin2Hex l : Forall byte_ok l → Hex2Bin (Bin2Hex l) = (true, l).
Proof.
  intros Hl. unfold Hex2Bin. rewrite skip_hex by by apply Bin2Hex_digits.
  assert (length (Bin2Hex l) = (2 * length l)%nat) as ->.
  { clear Hl. induction l as [|v l IH]; [done|]. simpl in *. lia. }
  replace (Z.of_nat (2 * length l) mod 2) with 0.
  - simpl. by rewrite hex_pairs_Bin2Hex.
  - rewrite Nat2Z.inj_mul, Z.mul_comm, Z.mod_mul; done.
Qed.
End hex.

(** ** Base 64 *)

Section base64.
Implicit Types (s : bytes).

Lemma pr2six_basis i : 0 ≤ i < 64 → pr2six (basis i) = i.
Proof. intros Hi. by_table 64%nat i. Qed.

(** the six bits of each character *)
Lemma land_small (z : Z) (m k : Z) : 0 ≤ k → m = Z.ones k → 0 ≤ Z.land z m < 2 ^ k.
Proof. intros Hk ->. by apply land_range. Qed.

Lemma high_two c : byte_ok c → 0 ≤ Z.shiftr (Z.land c 192) 6 < 4.
Proof.
  intros Hc. unfold byte_ok in Hc.
  assert ((0 <=? Z.shiftr (Z.land c 192) 6) && (Z.shiftr (Z.land c 192) 6 <? 4) = true) by by_table 256%nat c. lia.
Qed.
Lemma high_four b : byte_ok b → 0 ≤ Z.shiftr (Z.land b 240) 4 < 16.
Proof.
  intros Hb. unfold byte_ok in Hb.
  assert ((0 <=? Z.shiftr (Z.land b 240) 4) && (Z.shiftr (Z.land b 240) 4 <? 16) = true) by by_table 256%nat b. lia.
Qed.

Definition mix (x k y : Z) : Z := Z.lor (Z.shiftl x k) y.

Lemma six_0_group a y : byte_ok a → 0 ≤ y < 16 → six_0 (b64_0 a) (basis (mix (Z.land a 3) 4 y)) = a.
Proof.
  intros Ha Hy. unfold byte_ok in Ha. apply Z.eqb_eq.
  apply (forall_upto3 256 16 1 (λ a y _, six_0 (b64_0 a) (basis (mix (Z.land a 3) 4 y)) =? a) a y 0);
    [vm_compute; reflexivity | lia | lia | lia].
Qed.

Lemma six_1_group x b z : 0 ≤ x < 4 → byte_ok b → 0 ≤ z < 4 →
  six_1 (basis (mix x 4 (Z.shiftr (Z.land b 240) 4))) (basis (mix (Z.land b 15) 2 z)) = b.
Proof.
  intros Hx Hb Hz. unfold byte_ok in Hb. apply Z.eqb_eq.
  apply (forall_upto3 4 256 4 (λ x b z,
    six_1 (basis (mix x 4 (Z.shiftr (Z.land b 240) 4))) (basis (mix (Z.land b 15) 2 z)) =? b) x b z);
    [vm_compute; reflexivity | lia | lia | lia].
Qed.

Lemma six_2_group x c : 0 ≤ x < 16 → byte_ok c →
  six_2 (basis (mix x 2 (Z.shiftr (Z.land c 192) 6))) (b64_3 c) = c.
Proof.
  intros Hx Hc. unfold byte_ok in Hc. apply Z.eqb_eq.
  apply (forall_upto3 16 256 1 (λ x c _, six_2 (basis (mix x 2 (Z.shiftr (Z.land c 192) 6))) (b64_3 c) =? c) x c 0);
    [vm_compute; reflexivity | lia | lia | lia].
Qed.

Lemma mix_zero x k : mix x k 0 = Z.shiftl x k.
Proof. unfold mix. apply Z.lor_0_r. Qed.

Lemma group_0 a b : byte_ok a → byte_ok b → six_0 (b64_0 a) (b64_1 a b) = a.
Proof. intros Ha Hb. apply (six_0_group a (Z.shiftr (Z.land b 240) 4)); [done|by apply high_four]. Qed.
Lemma group_1 a b c : byte_ok b → byte_ok c → six_1 (b64_1 a b) (b64_2 b c) = b.
Proof.
  intros Hb Hc. apply (six_1_group (Z.land a 3) b (Z.shiftr (Z.land c 192) 6)); [|done|by apply high_two].
  by apply (land_small a 3 2).
Qed.
Lemma group_2 b c : byte_ok c → six_2 (b64_2 b c) (b64_3 c) = c.
Proof. intros Hc. apply (six_2_group (Z.land b 15) c); [|done]. by apply (land_small b 15 4). Qed.
Lemma tail_0 a : byte_ok a → six_0 (b64_0 a) (basis (Z.shiftl (Z.land a 3) 4)) = a.
Proof. intros Ha. rewrite <-mix_zero. by apply six_0_group. Qed.
Lemma tail_1 a b : byte_ok b → six_1 (b64_1 a b) (basis (Z.shiftl (Z.land b 15) 2)) = b.
Proof. intros Hb. rewrite <-mix_zero. apply (six_1_group (Z.land a 3)); [by apply (land_small a 3 2)|done|lia]. Qed.

Lemma basis_good i : 0 ≤ i < 64 → pr2six (basis i) < 64.
Proof. intros Hi. rewrite pr2six_basis; lia. Qed.
Lemma b64_3_good c : pr2six (b64_3 c) < 64.
Proof. apply basis_good. by apply (land_small c 63 6). Qed.

(** the encoding without its padding *)
Fixpoint unpadded s : bytes :=
  match s with
  | a :: b :: c :: s => b64_0 a :: b64_1 a b :: b64_2 b c :: b64_3 c :: unpadded s
  | [a; b] => [b64_0 a; b64_1 a b; basis (Z.shiftl (Z.land b 15) 2)]
  | [a] => [b64_0 a; basis (Z.shiftl (Z.land a 3) 4)]
  | [] => []
  end.

(** induction by threes *)
Lemma threes_ind (P : bytes → Prop) :
  P [] → (∀ a, P [a]) → (∀ a b, P [a; b]) → (∀ a b c s, P s → P (a :: b :: c :: s)) → ∀ s, P s.
Proof.
  intros H0 H1 H2 H3. fix IH 1. intros [|a [|b [|c s]]]; [done|apply H1|apply H2|apply H3, IH].
Qed.

Lemma toBase64_padding s : ∃ k, toBase64 s = unpadded s ++ replicate k 61.
Proof.
  induction s as [|a|a b|a b c s [k IH]] using threes_ind; [by exists 0%nat|by exists 2%nat|by exists 1%nat|].
  exists k. simpl. by rewrite IH.
Qed.

Lemma six_groups_unpadded s : Forall byte_ok s → six_groups (unpadded s) = s.
Proof.
  induction s as [|a|a b|a b c s IH] using threes_ind; intros Hs; cbn [unpadded six_groups]; [done| | |];
    repeat (apply Forall_cons in Hs as [? Hs]).
  - by rewrite tail_0.
  - by rewrite group_0, tail_1.
  - rewrite group_0, group_1, group_2 by done. by rewrite IH.
Qed.

Lemma shiftl_six z : 0 ≤ Z.land z 15 < 16 ∧ 0 ≤ Z.shiftl (Z.land z 15) 2 < 64.
Proof.
  pose proof (land_small z 15 4 ltac:(lia) eq_refl) as Hz. change (2 ^ 4) with 16 in Hz.
  rewrite Z.shiftl_mul_pow2 by lia. change (2 ^ 2) with 4. lia.
Qed.
Lemma shiftl_six' z : 0 ≤ Z.shiftl (Z.land z 3) 4 < 64.
Proof.
  pose proof (land_small z 3 2 ltac:(lia) eq_refl) as Hz. change (2 ^ 2) with 4 in Hz.
  rewrite Z.shiftl_mul_pow2 by lia. change (2 ^ 4) with 16. lia.
Qed.

Lemma drop_bad_good c s : pr2six c < 64 → drop_bad (c :: s) = c :: s.
Proof. intros Hc. simpl. destruct (Z.leb_spec 64 (pr2six c)); [lia|done]. Qed.

Lemma unpadded_last s : unpadded s = [] ∨ ∃ l c, unpadded s = l ++ [c] ∧ pr2six c < 64.
Proof.
  induction s as [|a|a b|a b c s IH] using threes_ind; [by left| | |]; right.
  - exists [b64_0 a]. eexists. split; [done|]. apply basis_good, shiftl_six'.
  - exists [b64_0 a; b64_1 a b]. eexists. split; [done|]. apply basis_good, shiftl_six.
  - cbn [unpadded]. destruct IH as [->|(l & x & -> & Hx)].
    + exists [b64_0 a; b64_1 a b; b64_2 b c]. eexists. split; [done|]. apply b64_3_good.
    + exists (b64_0 a :: b64_1 a b :: b64_2 b c :: b64_3 c :: l), x. by split.
Qed.

Lemma drop_bad_pad k s : drop_bad (replicate k 61 ++ s) = drop_bad s.
Proof. by induction k. Qed.

Lemma fromBase64_toBase64 s : Forall byte_ok s → fromBase64 (toBase64 s) = s.
Proof.
  intros Hs. destruct (toBase64_padding s) as [k ->]. unfold fromBase64.
  rewrite reverse_app, reverse_replicate, drop_bad_pad.
  destruct (unpadded_last s) as [E|(l & c & E & Hc)].
  - etrans; [|by apply six_groups_unpadded]. by rewrite E.
  - rewrite E, reverse_snoc, drop_bad_good, <-reverse_snoc, reverse_involutive, <-E by done.
    by apply six_groups_unpadded.
Qed.
End base64.

(** ** URLs and JSON *)

Section url.
Implicit Types (s : bytes) (c : Z).

Lemma url_decode_char c s : 0 < c < 256 → url_decode (url_char c ++ s) = c :: url_decode s.
Proof.
  intros Hc. unfold url_char. destruct (unreserved c) eqn:E; cbn [app url_decode].
  - assert ((c =? 37) = false ∧ (c =? 43) = false) as [-> ->]; [|done].
    assert (implb (unreserved c) (negb (c =? 37) && negb (c =? 43)) = true) as Ht.
    { assert (0 ≤ c < Z.of_nat 256) as Hc' by lia. clear Hc E. by_table 256%nat c. }
    rewrite E in Ht. simpl in Ht. split; apply negb_true_iff; lia.
  - change (37 =? 37) with true. cbv iota. f_equal.
    assert (0 ≤ c < Z.of_nat 256) as Hc' by lia. clear Hc E. by_table 256%nat c.
Qed.

Lemma url_char_nonzero c : 0 < c < 256 → Forall (λ x, x ≠ 0) (url_char c).
Proof.
  intros Hc. assert (forallb (λ x, negb (x =? 0)) (url_char c) || (c =? 0) = true) as Ht.
  { assert (0 ≤ c < Z.of_nat 256) as Hc' by lia. clear Hc. by_table 256%nat c. }
  assert ((c =? 0) = false) as Hz by lia. rewrite Hz, orb_false_r in Ht. rewrite forallb_forall in Ht.
  apply Forall_forall. intros x Hx%list_elem_of_In%Ht ->. done.
Qed.

Lemma UrlDecode_UrlEncode s : Forall (λ c, 0 < c < 256) s → UrlDecode (UrlEncode s) = s.
Proof.
  intros Hs. assert (Forall (λ c, c ≠ 0) s) as Hnz by (eapply Forall_impl; [exact Hs|]; simpl; lia).
  unfold UrlDecode, UrlEncode. rewrite (c_str_nonzero s Hnz), (c_str_nonzero (flat_map _ _)).
  - assert (url_decode (flat_map url_char s) = s) as ->; [|by apply c_str_nonzero].
    clear Hnz. induction Hs as [|c s Hc Hs IH]; [done|]. simpl. by rewrite url_decode_char, IH.
  - clear Hnz. induction Hs as [|c s Hc Hs IH]; [constructor|]. simpl. apply Forall_app. split; [|done].
    by apply url_char_nonzero.
Qed.

Lemma json_unescape_char c s : byte_ok c → json_unescape (escape_char c ++ s) = (c ::.) <$> json_unescape s.
Proof.
  intros Hc. unfold escape_char.
  repeat (match goal with |- context [if c =? ?k then _ else _] => destruct (Z.eqb_spec c k) as [->|] end; [done|]).
  destruct ((0 <=? c) && (c <=? 31)) eqn:E; cbn [app json_unescape].
  - change (92 =? 92) with true. cbv iota.
    assert (0 ≤ c < Z.of_nat 32) as Hc' by lia.
    assert ((HexDigit (hexchar (Z.shiftr c 4)) =? -1) || (HexDigit (hexchar (Z.land c 15)) =? -1) = false) as ->.
    { apply negb_true_iff. clear - Hc'. by_table 32%nat c. }
    f_equal. f_equal. clear - Hc'. by_table 32%nat c.
  - rewrite E. destruct (Z.eqb_spec c 92), (Z.eqb_spec c 34); done.
Qed.

Lemma json_unescape_escapeJson s : Forall byte_ok s → json_unescape (escapeJson s) = Some s.
Proof. induction 1 as [|c s Hc Hs IH]; [done|]. simpl. by rewrite json_unescape_char, IH. Qed.
End url.

(** Every text encoding is read back: the bytes behind [Bin2Hex],
    [toBase64] and, for text without a NUL, [UrlEncode]; and a JSON reader gets
    back any text that [escapeJson] was given. *)
Theorem text_codecs_roundtrip (s : bytes) : Forall byte_ok s →
  Hex2Bin (Bin2Hex s) = (true, s) ∧ fromBase64 (toBase64 s) = s ∧
  (plain s → UrlDecode (UrlEncode s) = s) ∧ json_unescape (escapeJson s) = Some s.
Proof.
  intros Hs. split_and!; [by apply Hex2Bin_Bin2Hex | by apply fromBase64_toBase64 | |
    by apply json_unescape_escapeJson].
  intros Hp. apply UrlDecode_UrlEncode. apply Forall_forall. intros c Hc. rewrite Forall_forall in Hs.
  pose proof (Hs c Hc) as Hb. unfold byte_ok in Hb. assert (c ≠ 0); [|lia]. intros ->. by apply Hp.
Qed.

Theorem text_codecs_roundtrip_witness :
  toBase64 "Man%2" = lit "TWFuJTI=" ∧ fromBase64 (toBase64 [77; 97; 0; 255]) = [77; 97; 0; 255].
Proof.
  split; [vm_compute; reflexivity|]. apply (text_codecs_roundtrip [77; 97; 0; 255]).
  repeat constructor; discriminate.
Defined.
