(* ===== verification/Json.v ===== *)
(** * JSON values

    What the answers of the HTTP API mean to their reader (RFC 8259): values, the
    text they are written as without blanks, and a reader of such text.  The code
    under src/ only writes JSON; the reader is the other end of the line, and
    [json_read_print] is what an answer has to satisfy. *)
From S2P Require Import Prelude Bytes KVDB Codec.

#[local] Unset Elimination Schemes.
Inductive json :=
| JNull
| JBool (b : bool)
| JNum (z : Z)
| JStr (s : bytes)
| JArr (l : list json)
| JObj (l : list (bytes * json)).
#[local] Set Elimination Schemes.

(** induction through the lists *)
Fixpoint json_ind (P : json → Prop) (Hnull : P JNull) (Hbool : ∀ b, P (JBool b)) (Hnum : ∀ z, P (JNum z))
    (Hstr : ∀ s, P (JStr s)) (Harr : ∀ l, Forall P l → P (JArr l))
    (Hobj : ∀ l : list (bytes * json), Forall (λ m, P m.2) l → P (JObj l)) (v : json) : P v :=
  let rec := json_ind P Hnull Hbool Hnum Hstr Harr Hobj in
  match v with
  | JNull => Hnull
  | JBool b => Hbool b
  | JNum z => Hnum z
  | JStr s => Hstr s
  | JArr l => Harr l ((fix go l : Forall P l :=
      match l with [] => Forall_nil_2 _ | x :: l => Forall_cons_2 _ _ _ (rec x) (go l) end) l)
  | JObj l => Hobj l ((fix go l : Forall (λ m, P m.2) l :=
      match l with [] => Forall_nil_2 _ | m :: l => Forall_cons_2 _ _ _ (rec m.2) (go l) end) l)
  end.

(** ** Writing *)

Definition quoted (s : bytes) : bytes := 34 :: s ++ [34].
(** the parts with commas between them *)
Fixpoint commas (l : list bytes) : bytes :=
  match l with [] => [] | [s] => s | s :: l => s ++ 44 :: commas l end.
Fixpoint print (v : json) : bytes :=
  match v with
  | JNull => "null"
  | JBool b => if b then "true" else "false"
  | JNum z => fmt_d z
  | JStr s => quoted (escapeJson s)
  | JArr l => 91 :: commas (print <$> l) ++ [93]
  | JObj l => 123 :: commas ((λ m, quoted (escapeJson m.1) ++ 58 :: print m.2) <$> l) ++ [125]
  end.
Definition member (m : bytes * json) : bytes := quoted (escapeJson m.1) ++ 58 :: print m.2.

(** ** Reading *)

Definition head_is (d : Z) (s : bytes) : bool := match s with c :: _ => c =? d | [] => false end.
(** [s] without the prefix [p] *)
Fixpoint strip (p s : bytes) : option bytes :=
  match p with
  | [] => Some s
  | c :: p => if head_is c s then strip p (tail s) else None
  end.

(** up to the quote that ends a string *)
Fixpoint str_end (s : bytes) : option (bytes * bytes) :=
  match s with
  | [] => None
  | c :: s =>
      if c =? 34 then Some ([], s)
      else if c =? 92 then
        match s with [] => None | d :: s => '(x, s) ← str_end s; Some (c :: d :: x, s) end
      else '(x, s) ← str_end s; Some (c :: x, s)
  end.
Definition read_string (s : bytes) : option (bytes * bytes) :=
  if head_is 34 s then '(raw, s) ← str_end (tail s); x ← json_unescape raw; Some (x, s) else None.

Fixpoint skip_digits (s : bytes) : bytes :=
  match s with c :: s' => if isdigit c then skip_digits s' else s | [] => [] end.
Definition read_nat (s : bytes) : option (Z * bytes) :=
  match s with
  | c :: _ => if isdigit c then Some (digits_val 0 s, skip_digits s) else None
  | [] => None
  end.
Definition read_number (s : bytes) : option (Z * bytes) :=
  if head_is 45 s then '(z, s) ← read_nat (tail s); Some (- z, s) else read_nat s.

Section lists.
Variable value : bytes → option (json * bytes).
(** what comes behind a value: the next one, or the end of the list *)
Fixpoint elements (fuel : nat) (s : bytes) : option (list json * bytes) :=
  match fuel with
  | O => None
  | S fuel =>
      '(v, s) ← value s;
      if head_is 44 s then '(l, s) ← elements fuel (tail s); Some (v :: l, s)
      else if head_is 93 s then Some ([v], tail s)
      else None
  end.
Fixpoint members (fuel : nat) (s : bytes) : option (list (bytes * json) * bytes) :=
  match fuel with
  | O => None
  | S fuel =>
      '(k, s) ← read_string s;
      s ← strip [58] s;
      '(v, s) ← value s;
      if head_is 44 s then '(l, s) ← members fuel (tail s); Some ((k, v) :: l, s)
      else if head_is 125 s then Some ([(k, v)], tail s)
      else None
  end.
End lists.

Definition read_word (s : bytes) : option (json * bytes) :=
  match strip "null" s, strip "true" s, strip "false" s with
  | Some s, _, _ => Some (JNull, s)
  | _, Some s, _ => Some (JBool true, s)
  | _, _, Some s => Some (JBool false, s)
  | _, _, _ => '(z, s) ← read_number s; Some (JNum z, s)
  end.
Fixpoint read_value (fuel : nat) (s : bytes) : option (json * bytes) :=
  match fuel with
  | O => None
  | S fuel =>
      if head_is 123 s then
        if head_is 125 (tail s) then Some (JObj [], tail (tail s))
        else '(l, s) ← members (read_value fuel) fuel (tail s); Some (JObj l, s)
      else if head_is 91 s then
        if head_is 93 (tail s) then Some (JArr [], tail (tail s))
        else '(l, s) ← elements (read_value fuel) fuel (tail s); Some (JArr l, s)
      else if head_is 34 s then '(x, s) ← read_string s; Some (JStr x, s)
      else read_word s
  end.
(** a text that is one value *)
Definition json_read (s : bytes) : option json :=
  match read_value (S (length s)) s with Some (v, []) => Some v | _ => None end.

(** ** Reading back what was written *)

(** the strings of a value are bytes *)
Inductive json_ok : json → Prop :=
| ok_null : json_ok JNull
| ok_bool b : json_ok (JBool b)
| ok_num z : json_ok (JNum z)
| ok_str s : Forall byte_ok s → json_ok (JStr s)
| ok_arr l : Forall json_ok l → json_ok (JArr l)
| ok_obj l : Forall (λ m, Forall byte_ok m.1 ∧ json_ok m.2) l → json_ok (JObj l).

(** what may follow a value *)
Definition after_value (s : bytes) : Prop := ∀ c s', s = c :: s' → isdigit c = false.

Lemma str_end_char c s : byte_ok c →
  str_end (escape_char c ++ s) = '(x, r) ← str_end s; Some (escape_char c ++ x, r).
Proof.
  intros Hc. unfold escape_char.
  repeat match goal with |- context [if ?b then _ else _] => destruct b eqn:? end; cbn [app str_end Z.eqb Pos.eqb];
    rewrite ?Heqb, ?Heqb0; try (by destruct (str_end s) as [[]|]).
  destruct (byte_nibbles c Hc) as [H1 H2]. apply hexchar_digit in H1, H2. unfold hex_digit in H1, H2.
  repeat match goal with |- context [hexchar ?d =? ?k] => destruct (Z.eqb_spec (hexchar d) k); [lia|] end.
  by destruct (str_end s) as [[]|].
Qed.

Lemma str_end_escape x s : Forall byte_ok x → str_end (escapeJson x ++ 34 :: s) = Some (escapeJson x, s).
Proof.
  induction 1 as [|c x Hc Hx IH]; [done|]. simpl escapeJson. rewrite <-app_assoc, str_end_char by done.
  by change (flat_map escape_char x) with (escapeJson x); rewrite IH.
Qed.

Lemma read_string_quoted x s : Forall byte_ok x → read_string (quoted (escapeJson x) ++ s) = Some (x, s).
Proof.
  intros Hx. unfold quoted. cbn [app]. rewrite <-app_assoc. unfold read_string. cbn [head_is tail app].
  rewrite Z.eqb_refl, str_end_escape by done. simpl. by rewrite json_unescape_escapeJson.
Qed.

Lemma skip_digits_app s r : Forall digit_ok s → after_value r → skip_digits (s ++ r) = r.
Proof.
  intros Hs Hr. induction Hs as [|c s Hc Hs IH]; simpl.
  - destruct r as [|c r]; [done|]. simpl. by rewrite (Hr c r).
  - unfold digit_ok in Hc. by rewrite Hc.
Qed.

Lemma read_nat_fmt_u z r : 0 ≤ z → after_value r → read_nat (fmt_u z ++ r) = Some (z, r).
Proof.
  intros Hz Hr. pose proof (skip_digits_app _ r (fmt_u_digits z Hz) Hr) as Hs.
  pose proof (digits_val_fmt_u z r Hz Hr) as Hv. destruct (fmt_u_cons z Hz) as (c & s & E & Hc). unfold digit_ok in Hc.
  rewrite E in *. unfold read_nat. cbn [app] in *. by rewrite Hc, Hv, Hs.
Qed.

Lemma read_number_fmt_d z r : after_value r → read_number (fmt_d z ++ r) = Some (z, r).
Proof.
  intros Hr. unfold read_number, fmt_d. destruct (Z.ltb_spec z 0) as [Hz|Hz].
  - cbn [app head_is tail]. rewrite Z.eqb_refl, read_nat_fmt_u by (done || lia). simpl. by rewrite Z.opp_involutive.
  - destruct (fmt_u_cons z Hz) as (c & s & E & Hc%isdigit_iff).
    assert (head_is 45 (fmt_u z ++ r) = false) as -> by (rewrite E; simpl; lia). by apply read_nat_fmt_u.
Qed.

(** the first character of a number is none of those that start another value *)
Lemma fmt_d_head d z r : ¬ 48 ≤ d ≤ 57 → d ≠ 45 → head_is d (fmt_d z ++ r) = false.
Proof.
  intros Hd Hm. unfold fmt_d. destruct (Z.ltb_spec z 0) as [Hz|Hz]; [cbn [app head_is]; lia|].
  destruct (fmt_u_cons z Hz) as (c & s & -> & Hc%isdigit_iff). cbn [app head_is]. lia.
Qed.

Lemma print_head v : ∃ c s, print v = c :: s ∧ c ≠ 93 ∧ c ≠ 125.
Proof.
  destruct v as [|[]|z| | |]; try (by eexists _, _).
  simpl. unfold fmt_d. destruct (Z.ltb_spec z 0) as [Hz|Hz]; [by eexists _, _|].
  destruct (fmt_u_cons z Hz) as (c & s & -> & Hc%isdigit_iff). exists c, s. split_and!; [done|lia..].
Qed.

Lemma member_head m : ∃ s, member m = 34 :: s.
Proof. by eexists. Qed.

Definition reads (value : bytes → option (json * bytes)) (v : json) : Prop :=
  ∀ r, after_value r → value (print v ++ r) = Some (v, r).

Lemma elements_commas value fuel l r :
  l ≠ [] → (length l ≤ fuel)%nat → Forall (reads value) l →
  elements value fuel (commas (print <$> l) ++ 93 :: r) = Some (l, r).
Proof.
  intros Hne Hl Hv. revert fuel Hl. induction Hv as [|v l Hv Hvs IH]; [done|]. intros [|fuel] Hl; [simpl in Hl; lia|].
  destruct l as [|v' l].
  - cbn [elements fmap list_fmap commas]. rewrite Hv; [done|]. by intros c s [= <- _].
  - change (commas (print <$> v :: v' :: l)) with (print v ++ 44 :: commas (print <$> v' :: l)).
    cbn [elements]. rewrite <-app_assoc, Hv; [|by intros c s [= <- _]]. cbn [mbind option_bind app head_is tail].
    rewrite Z.eqb_refl, IH; [done|done|]. simpl in *. lia.
Qed.

Lemma members_commas value fuel (l : list (bytes * json)) r :
  l ≠ [] → (length l ≤ fuel)%nat → Forall (λ m, Forall byte_ok m.1 ∧ reads value m.2) l →
  members value fuel (commas (member <$> l) ++ 125 :: r) = Some (l, r).
Proof.
  intros Hne Hl Hv. revert fuel Hl. induction Hv as [|[k v] l [Hk Hv] Hvs IH]; [done|]. intros [|fuel] Hl; [simpl in Hl; lia|].
  cbn [fst snd] in Hk, Hv.
  assert (∀ r, after_value r → ∀ f, members value (S f) (member (k, v) ++ r) =
    if head_is 44 r then '(l, s) ← members value f (tail r); Some ((k, v) :: l, s)
    else if head_is 125 r then Some ([(k, v)], tail r) else None) as Hm.
  { intros r' Hr' f. cbn [members]. unfold member. cbn [fst snd]. rewrite <-app_assoc, read_string_quoted by done.
    cbn [mbind option_bind app strip head_is tail]. rewrite Z.eqb_refl. cbn [mbind option_bind]. by rewrite Hv. }
  destruct l as [|m' l].
  - change (commas (member <$> [(k, v)])) with (member (k, v)). rewrite Hm; [done|]. by intros c s [= <- _].
  - change (commas (member <$> (k, v) :: m' :: l)) with (member (k, v) ++ 44 :: commas (member <$> m' :: l)).
    rewrite <-app_assoc, Hm by (by intros c s [= <- _]). cbn [app head_is tail]. rewrite Z.eqb_refl, IH; [done|done|].
    simpl in *. lia.
Qed.

Lemma commas_length l : (length l ≤ S (length (commas l)))%nat ∧ ∀ s, s ∈ l → (length s ≤ length (commas l))%nat.
Proof.
  induction l as [|s l [IH1 IH2]]; [split; [simpl; lia|by intros s ?%elem_of_nil]|]. destruct l as [|s' l].
  - split; [simpl; lia|]. by intros t ->%list_elem_of_singleton.
  - change (commas (s :: s' :: l)) with (s ++ 44 :: commas (s' :: l)). rewrite length_app. cbn [length] in *.
    split; [lia|]. intros t [->|Ht]%elem_of_cons; [lia|]. specialize (IH2 t Ht). lia.
Qed.

Lemma read_value_print v : json_ok v → ∀ fuel r, (length (print v) < fuel)%nat → after_value r →
  read_value fuel (print v ++ r) = Some (v, r).
Proof.
  induction v as [| [] |z|s|l IH|l IH]; intros Hok [|fuel] r Hf Hr; try (simpl in Hf; lia); try done.
  - cbn [read_value print]. rewrite !fmt_d_head by lia. unfold read_word. simpl strip.
    rewrite !fmt_d_head by lia. by rewrite read_number_fmt_d.
  - inversion Hok. cbn [read_value print]. pose proof (read_string_quoted s r) as E. unfold quoted in *.
    cbn [app head_is] in *. change (34 =? 123) with false. change (34 =? 91) with false. rewrite Z.eqb_refl.
    by rewrite E.
  - inversion Hok as [| | | |? Hl|]; subst. cbn [read_value print] in *. cbn [app head_is tail].
    change (91 =? 123) with false. rewrite Z.eqb_refl, <-app_assoc. cbn [app length] in *. rewrite length_app in Hf. cbn [length] in Hf.
    destruct l as [|v l]; [done|].
    assert (head_is 93 (commas (print <$> v :: l) ++ 93 :: r) = false) as ->.
    { destruct (print_head v) as (c & t & E & Hc & _). destruct l; csimpl; rewrite E; simpl; lia. }
    rewrite elements_commas; [done|done| |].
    + destruct (commas_length (print <$> v :: l)) as [H1 _]. rewrite length_fmap in H1. lia.
    + rewrite Forall_forall in Hl, IH |- *. intros x Hx r' Hr'. apply IH; [done|by apply Hl| |done].
      destruct (commas_length (print <$> v :: l)) as [_ H2]. specialize (H2 (print x) (list_elem_of_fmap_2 _ _ _ Hx)). lia.
  - inversion Hok as [| | | | |? Hl]; subst. cbn [read_value print] in *.
    change ((λ m : bytes * json, quoted (escapeJson m.1) ++ 58 :: print m.2) <$> l) with (member <$> l) in *.
    cbn [app head_is tail]. rewrite Z.eqb_refl, <-app_assoc. cbn [app length] in *. rewrite length_app in Hf. cbn [length] in Hf.
    destruct l as [|m l]; [done|].
    assert (head_is 125 (commas (member <$> m :: l) ++ 125 :: r) = false) as ->.
    { destruct (member_head m) as (t & E). destruct l; cbn [fmap list_fmap commas]; by rewrite E. }
    rewrite members_commas; [done|done| |].
    + destruct (commas_length (member <$> m :: l)) as [H1 _]. rewrite length_fmap in H1. lia.
    + rewrite Forall_forall in Hl, IH |- *. intros x Hx. split; [by apply Hl|]. intros r' Hr'.
      apply IH; [done|by apply Hl| |done].
      destruct (commas_length (member <$> m :: l)) as [_ H2]. specialize (H2 (member x) (list_elem_of_fmap_2 _ _ _ Hx)). unfold member in H2 at 1.
      rewrite length_app in H2. cbn [length] in H2. lia.
Qed.

Lemma json_read_print v : json_ok v → json_read (print v) = Some v.
Proof.
  intros Hv. unfold json_read. pose proof (read_value_print v Hv (S (length (print v))) []) as E.
  rewrite app_nil_r in E. by rewrite E by (lia || done).
Qed.
