(* ===== verification/Base58.v ===== *)
(** * Addresses as text (src/jiexi/src/bitcoin/base58.h, bignum.h [getvch])

    Base 58 with a checksum, and the class CBitcoinAddress.  A CBigNum is a number
    that is not negative; double SHA-256 ([Hash], OpenSSL) is a parameter.  The
    claim says which texts the class takes for an address. *)
From S2P Require Import Prelude Tx Bytes KVDB.

Definition pszBase58 : bytes := "123456789ABCDEFGHJKLMNPQRSTUVWXYZabcdefghijkmnopqrstuvwxyz".
(** [strchr(pszBase58, c) - pszBase58] *)
Definition index58 (c : Z) : option Z := (Z.of_nat ∘ fst) <$> list_find (λ x, x = c) pszBase58.
Definition char58 (d : Z) : Z := nth (Z.to_nat d) pszBase58 0.

(** how often [d] stands in front *)
Fixpoint leading (d : Z) (s : bytes) : nat :=
  match s with c :: s => if c =? d then S (leading d s) else O | [] => O end.

(** ** [EncodeBase58] *)

(** the division loop; a round takes away a factor of 58, so the length of the
    number in bits is enough fuel *)
Fixpoint encode_loop (fuel : nat) (bn : Z) : bytes :=
  match fuel with
  | O => []
  | S fuel => if 0 <? bn then char58 (bn mod 58) :: encode_loop fuel (bn / 58) else []
  end.
Definition bits (bn : Z) : nat := S (Z.to_nat (Z.log2 bn)).
Definition EncodeBase58 (vch : bytes) : bytes :=
  let bn := le_val (reverse vch) in
  let str := encode_loop (bits bn) bn in
  reverse (str ++ replicate (leading 0 vch) 49).

(** ** [DecodeBase58] *)

Fixpoint decode_loop (bn : Z) (p : bytes) : option Z :=
  match p with
  | [] => Some bn
  | c :: p' =>
      match index58 c with
      | Some d => decode_loop (bn * 58 + d) p'
      | None => match skip_space p with [] => Some bn | _ => None end
      end
  end.

(** [getvch]: the magnitude as bytes, least significant first, and a zero byte
    behind it when its top bit would be taken for a sign *)
Fixpoint magnitude (fuel : nat) (bn : Z) : bytes :=
  match fuel with
  | O => []
  | S fuel => if 0 <? bn then bn mod 256 :: magnitude fuel (bn / 256) else []
  end.
Definition getvch (bn : Z) : bytes :=
  let l := magnitude (bits bn) bn in
  match last l with Some b => if 128 <=? b then l ++ [0] else l | None => [] end.
Definition trim_sign (l : bytes) : bytes :=
  match reverse l with a :: b :: _ => if (a =? 0) && (128 <=? b) then removelast l else l | _ => l end.

Definition DecodeBase58 (str : bytes) : option bytes :=
  let psz := skip_space (c_str str) in
  bn ← decode_loop 0 psz;
  let vchTmp := trim_sign (getvch bn) in
  Some (replicate (leading 49 psz) 0 ++ reverse vchTmp).

(** ** With a checksum *)
Section check.
Variable Hash : bytes → uint256.

Definition checksum (l : bytes) : bytes := take 4 (le_bytes 32 (Hash l)).
Definition EncodeBase58Check (vchIn : bytes) : bytes := EncodeBase58 (vchIn ++ checksum vchIn).
Definition DecodeBase58Check (str : bytes) : option bytes :=
  vchRet ← DecodeBase58 str;
  let k := (length vchRet - 4)%nat in
  if Z.of_nat (length vchRet) <? 4 then None
  else if decide (checksum (take k vchRet) = drop k vchRet) then Some (take k vchRet) else None.

(** ** [CBase58Data], [CBitcoinAddress] *)
Record CBase58Data := { vchVersion : bytes; vchData : bytes }.

Definition SetString (psz : bytes) : CBase58Data :=
  match DecodeBase58Check psz with
  | Some (v :: data) => {| vchVersion := [v]; vchData := data |}
  | _ => {| vchVersion := []; vchData := [] |}
  end.
Definition ToString58 (a : CBase58Data) : bytes := EncodeBase58Check (vchVersion a ++ vchData a).

Inductive CTxDestination := CKeyID (id : bytes) | CScriptID (id : bytes) | CNoDestination.

Variable testnet : bool.
Definition PUBKEY_ADDRESS : bytes := if testnet then [111] else [0].
Definition SCRIPT_ADDRESS : bytes := if testnet then [196] else [5].

Definition Set_dest (dest : CTxDestination) : option CBase58Data :=
  match dest with
  | CKeyID id => Some {| vchVersion := PUBKEY_ADDRESS; vchData := id |}
  | CScriptID id => Some {| vchVersion := SCRIPT_ADDRESS; vchData := id |}
  | CNoDestination => None
  end.
Definition IsValid (a : CBase58Data) : bool :=
  (Z.of_nat (length (vchData a)) =? 20) &&
  (bool_decide (vchVersion a = PUBKEY_ADDRESS) || bool_decide (vchVersion a = SCRIPT_ADDRESS)).
Definition Get_dest (a : CBase58Data) : CTxDestination :=
  if negb (IsValid a) then CNoDestination
  else if bool_decide (vchVersion a = PUBKEY_ADDRESS) then CKeyID (vchData a)
  else if bool_decide (vchVersion a = SCRIPT_ADDRESS) then CScriptID (vchData a)
  else CNoDestination.
Definition GetKeyID (a : CBase58Data) : option bytes :=
  if negb (IsValid a) || negb (bool_decide (vchVersion a = PUBKEY_ADDRESS)) then None else Some (vchData a).
Definition IsScript (a : CBase58Data) : bool := IsValid a && bool_decide (vchVersion a = SCRIPT_ADDRESS).
End check.

(** ** Numerals in any base *)
Section numerals.
Variable B : Z.
Hypothesis HB : 2 ≤ B.

(** least significant digit first *)
Definition num (l : list Z) : Z := foldr (λ d s, d + B * s) 0 l.
Fixpoint digs (fuel : nat) (z : Z) : list Z :=
  match fuel with O => [] | S fuel => if 0 <? z then z mod B :: digs fuel (z / B) else [] end.
Definition digit_of (d : Z) : Prop := 0 ≤ d < B.
(** the shortest numeral of a number *)
Record shortest (l : list Z) : Prop := { sh_digits : Forall digit_of l; sh_last : last l ≠ Some 0 }.

Lemma num_nonneg l : Forall digit_of l → 0 ≤ num l.
Proof using HB. induction 1 as [|d l Hd Hl IH]; simpl; [lia|]. unfold digit_of in Hd. nia. Qed.

Lemma num_zeros l k : num (l ++ replicate k 0) = num l.
Proof.
  unfold num. rewrite foldr_app. f_equal. induction k as [|k IH]; [done|]. simpl. rewrite IH. lia.
Qed.

Lemma num_pos l : shortest l → l ≠ [] → 0 < num l.
Proof using HB.
  intros [Hd Hl] Hne. induction Hd as [|d l Hd Hds IH]; [done|]. unfold digit_of in Hd. simpl.
  pose proof (num_nonneg l Hds) as Hn. destruct l as [|d' l]; [|rewrite last_cons_cons in Hl; specialize (IH Hl ltac:(done)); nia].
  simpl in *. assert (d ≠ 0) by congruence. lia.
Qed.

Lemma shortest_tail d l : shortest (d :: l) → shortest l.
Proof.
  intros [[Hd Hl]%Forall_cons Hn]. split; [done|]. destruct l; [done|]. by rewrite last_cons_cons in Hn.
Qed.

Lemma digs_num fuel l : shortest l → (length l ≤ fuel)%nat → digs fuel (num l) = l.
Proof using HB.
  intros Hs. revert fuel. induction l as [|d l IH]; intros [|fuel] Hf; try done; [simpl in Hf; lia|].
  pose proof (num_pos _ Hs ltac:(done)) as Hpos. simpl num in *. cbn [digs].
  rewrite (proj2 (Z.ltb_lt _ _) Hpos). pose proof (Forall_inv (sh_digits _ Hs)) as Hd. unfold digit_of in Hd.
  rewrite (Z.mul_comm B), Z.mod_add, Z.div_add by lia. rewrite Z.mod_small, Z.div_small by lia.
  f_equal. apply IH; [by eapply shortest_tail|]. simpl in Hf. lia.
Qed.

Lemma num_bits l : shortest l → (length l ≤ bits (num l))%nat.
Proof using HB.
  intros Hs. assert (l ≠ [] → 2 ^ (Z.of_nat (length l) - 1) ≤ num l) as Hb.
  { induction l as [|d l IH]; [done|]. intros _. pose proof (shortest_tail _ _ Hs) as Hs'.
    pose proof (Forall_inv (sh_digits _ Hs)) as Hd. unfold digit_of in Hd. destruct l as [|d' l].
    - pose proof (num_pos _ Hs ltac:(done)). simpl in *. lia.
    - specialize (IH Hs' ltac:(done)). set (l' := d' :: l) in *. cbn [length num foldr]. fold (num l').
      replace (Z.of_nat (S (length l')) - 1) with (1 + (Z.of_nat (length l') - 1)) by lia.
      assert (0 ≤ Z.of_nat (length l') - 1) by (subst l'; simpl; lia). rewrite Z.pow_add_r by lia. nia. }
  destruct l as [|d l]; [simpl; lia|]. specialize (Hb ltac:(done)). apply Z.log2_le_mono in Hb.
  unfold bits. rewrite Z.log2_pow2 in Hb by (simpl; lia). lia.
Qed.

Lemma digs_bits l : shortest l → digs (bits (num l)) (num l) = l.
Proof using HB. intros Hs. apply digs_num; [done|]. by apply num_bits. Qed.

Lemma digs_shortest fuel z : 0 ≤ z → (Z.to_nat (Z.log2 z) < fuel)%nat → shortest (digs fuel z) ∧ num (digs fuel z) = z.
Proof using HB.
  revert z. induction fuel as [|fuel IH]; intros z Hz Hf; [lia|]. cbn [digs].
  destruct (Z.ltb_spec 0 z) as [Hp|Hp]; [|split; [by split|simpl; lia]].
  assert (0 ≤ z / B < z) as Hq by (split; [apply Z.div_pos; lia|apply Z.div_lt; lia]).
  destruct (decide (z / B = 0)) as [E|Hne].
  - assert (digs fuel (z / B) = []) as -> by (rewrite E; by destruct fuel).
    apply Z.div_small_iff in E as [E|E]; try lia. rewrite Z.mod_small by lia. split; [|simpl; lia].
    split; [constructor; [unfold digit_of; lia|done]|]. simpl. intros [= ?]. lia.
  - assert (Z.log2 (z / B) < Z.log2 z) as Hl.
    { apply Z.lt_le_trans with (Z.log2 (2 * (z / B))); [rewrite Z.log2_double; lia|]. apply Z.log2_le_mono.
      etrans; [|apply (Z.mul_div_le z B); lia]. nia. }
    destruct (IH (z / B)) as [[Hd Hn] E]; [lia| |].
    { pose proof (Z.log2_nonneg (z / B)). lia. }
    split; [split|].
    + constructor; [|done]. unfold digit_of. apply Z.mod_pos_bound. lia.
    + destruct (digs fuel (z / B)) as [|d l] eqn:El; [simpl in E; lia|]. by rewrite last_cons_cons.
    + cbn [num foldr]. fold (num (digs fuel (z / B))). rewrite E. pose proof (Z.div_mod z B). lia.
Qed.
End numerals.

(** ** Texts and vectors: zeros, then a shortest numeral *)
Section texts.
Implicit Types (m l v : list Z) (r : bytes) (k : nat).
Definition blank (r : bytes) : Prop := Forall (λ c, isspace c = true) r.
Definition vec k m : bytes := replicate k 0 ++ reverse m.
Definition text k m : bytes := replicate k 49 ++ reverse (char58 <$> m).

Lemma encode_loop_digs fuel z : encode_loop fuel z = char58 <$> digs 58 fuel z.
Proof. revert z. induction fuel as [|fuel IH]; intros z; [done|]. cbn [encode_loop digs]. case_match; [|done]. csimpl. by rewrite IH. Qed.
Lemma magnitude_digs fuel z : magnitude fuel z = digs 256 fuel z.
Proof. revert z. induction fuel as [|fuel IH]; intros z; [done|]. cbn [magnitude digs]. case_match; [|done]. by rewrite IH. Qed.
Lemma le_val_num l : le_val l = num 256 l.
Proof. done. Qed.

Lemma leading_zeros d k s : head s ≠ Some d → leading d (replicate k d ++ s) = k.
Proof.
  intros Hs. induction k as [|k IH]; simpl.
  - destruct s as [|c s]; [done|]. simpl in *. destruct (Z.eqb_spec c d); [congruence|done].
  - by rewrite Z.eqb_refl, IH.
Qed.

Lemma leading_split d s : ∃ s', s = replicate (leading d s) d ++ s' ∧ head s' ≠ Some d.
Proof.
  induction s as [|c s (s' & E & Hs)]; [by exists []|]. simpl. destruct (Z.eqb_spec c d) as [->|Hne].
  - exists s'. simpl. by rewrite <-E.
  - exists (c :: s). split; [done|]. simpl. congruence.
Qed.

Lemma head_reverse l : head (reverse l) = last l.
Proof. by rewrite head_reverse. Qed.

Lemma vec_split B l : Forall (digit_of B) l → ∃ m, l = vec (leading 0 l) m ∧ shortest B m.
Proof.
  intros Hl. destruct (leading_split 0 l) as (s & E & Hs). exists (reverse s). unfold vec. rewrite reverse_involutive.
  split; [done|]. rewrite E in Hl. apply Forall_app in Hl as [_ Hl]. split; [by apply Forall_reverse|].
  by rewrite last_reverse.
Qed.

Lemma num_vec B k m : num B (reverse (vec k m)) = num B m.
Proof. unfold vec. by rewrite reverse_app, reverse_involutive, reverse_replicate, num_zeros. Qed.

Lemma index_char d : 0 ≤ d < 58 → index58 (char58 d) = Some d ∧ isspace (char58 d) = false ∧ (char58 d = 49 → d = 0).
Proof.
  assert (forallb (λ d, bool_decide (index58 (char58 d) = Some d ∧ isspace (char58 d) = false ∧
    (char58 d =? 49 = true → d = 0))) (seqZ 0 58) = true) as Hf by (vm_compute; reflexivity).
  intros Hd. rewrite forallb_forall in Hf. specialize (Hf d). rewrite bool_decide_eq_true in Hf.
  destruct Hf as (H1 & H2 & H3); [apply list_elem_of_In, elem_of_seqZ; lia|]. split_and!; [done|done|].
  intros E. apply H3. by apply Z.eqb_eq.
Qed.

Lemma index_inv c d : index58 c = Some d → c = char58 d ∧ 0 ≤ d < 58.
Proof.
  unfold index58. intros ([i x] & Hf & ->)%fmap_Some. apply list_find_Some in Hf as (Hi & -> & _).
  pose proof (lookup_lt_Some _ _ _ Hi) as Hl. change (length pszBase58) with 58%nat in Hl.
  unfold char58. cbn -[nth Nat.lt pszBase58]. rewrite Nat2Z.id. split; [|lia]. rewrite nth_lookup. by rewrite Hi.
Qed.

Lemma skip_blank r s : blank r → skip_space (r ++ s) = skip_space s.
Proof. induction 1 as [|c r Hc Hr IH]; [done|]. simpl. by rewrite Hc. Qed.

Lemma skip_space_split s : ∃ r, blank r ∧ s = r ++ skip_space s.
Proof.
  induction s as [|c s (r & Hr & E)]; [exists []; by split; [constructor|]|]. simpl. destruct (isspace c) eqn:Hc.
  - exists (c :: r). split; [by apply Forall_cons|]. cbn. by f_equal.
  - exists []. by split; [constructor|].
Qed.

(** the accumulated number *)
Definition horner (bn : Z) (ds : list Z) : Z := foldl (λ b d, b * 58 + d) bn ds.
Lemma horner_num ds : horner 0 ds = num 58 (reverse ds).
Proof.
  unfold horner. induction ds as [|d ds IH] using rev_ind; [done|]. rewrite foldl_snoc, reverse_snoc, IH. simpl.
  unfold num. lia.
Qed.

Lemma decode_loop_text bn ds r : Forall (digit_of 58) ds → blank r →
  decode_loop bn ((char58 <$> ds) ++ r) = Some (horner bn ds).
Proof.
  intros Hds Hr. revert bn. induction Hds as [|d ds Hd Hds IH]; intros bn.
  - cbn. destruct r as [|c r]; [done|]. cbn [decode_loop]. destruct (index58 c) as [d|] eqn:E.
    + apply index_inv in E as [-> Hd]. apply Forall_inv in Hr. apply index_char in Hd as (_ & ? & _). congruence.
    + pose proof (skip_blank _ [] Hr) as Es. rewrite app_nil_r in Es. by rewrite Es.
  - destruct (index_char d Hd) as (E & _). csimpl. cbn [decode_loop]. rewrite E. apply IH.
Qed.

Lemma decode_loop_inv p bn z : decode_loop bn p = Some z →
  ∃ ds r, p = (char58 <$> ds) ++ r ∧ Forall (digit_of 58) ds ∧ blank r ∧ z = horner bn ds.
Proof.
  revert bn. induction p as [|c p IH]; intros bn.
  - intros [= <-]. exists [], []. split_and!; [done|constructor..|done].
  - cbn [decode_loop]. destruct (index58 c) as [d|] eqn:E.
    + intros (ds & r & -> & Hds & Hr & ->)%IH. apply index_inv in E as [-> Hd].
      exists (d :: ds), r. split_and!; [done|by apply Forall_cons|done|done].
    + destruct (skip_space_split (c :: p)) as (r & Hr & Ep).
      destruct (skip_space (c :: p)) eqn:Es; [|done]. intros [= <-]. rewrite app_nil_r in Ep.
      exists [], r. split_and!; [done|constructor|done|done].
Qed.

Lemma trim_getvch m : shortest 256 m → trim_sign (getvch (num 256 m)) = m.
Proof.
  intros Hm. unfold getvch. rewrite magnitude_digs, digs_bits by (done || lia). destruct Hm as [Hd Hl].
  destruct m as [|b m _] using rev_ind; [done|]. rewrite last_snoc in *. unfold trim_sign.
  apply Forall_app in Hd as [_ Hd%Forall_inv]. unfold digit_of in Hd.
  destruct (Z.leb_spec 128 b) as [Hb|Hb].
  - rewrite !reverse_snoc. cbn [app]. rewrite Z.eqb_refl, (proj2 (Z.leb_le _ _) Hb). cbn [andb].
    apply removelast_last.
  - rewrite reverse_snoc. destruct (reverse m); [done|]. destruct (Z.eqb_spec b 0); [congruence|]. done.
Qed.

(** the two directions on their normal forms *)
Lemma encode_vec k m : shortest 256 m → EncodeBase58 (vec k m) = text k (digs 58 (bits (num 256 m)) (num 256 m)).
Proof.
  intros Hm. unfold EncodeBase58. rewrite le_val_num, num_vec, encode_loop_digs.
  unfold vec at 1. rewrite leading_zeros by (rewrite head_reverse; apply Hm).
  unfold text. by rewrite reverse_app, reverse_replicate.
Qed.

Lemma text_head m r : shortest 58 m → blank r → head (reverse (char58 <$> m) ++ r) ≠ Some 49.
Proof.
  intros [Hd Hl] Hr. destruct m as [|d m _] using rev_ind.
  - cbn. destruct r as [|c r]; [done|]. apply Forall_inv in Hr. intros [= ->]. done.
  - rewrite fmap_app, reverse_app. cbn. rewrite last_snoc in Hl. apply Forall_app in Hd as [_ Hd%Forall_inv].
    apply index_char in Hd as (_ & _ & Hz). intros [= E]. apply Hz in E. congruence.
Qed.

Lemma decode_text k m r : shortest 58 m → blank r →
  (bn ← decode_loop 0 (text k m ++ r);
   Some (replicate (leading 49 (text k m ++ r)) 0 ++ reverse (trim_sign (getvch bn)))) =
  Some (vec k (digs 256 (bits (num 58 m)) (num 58 m))).
Proof.
  intros Hm Hr. assert (text k m = char58 <$> vec k m) as E.
  { unfold text, vec. by rewrite fmap_app, fmap_reverse, fmap_replicate. }
  assert (Forall (digit_of 58) (vec k m)) as Hv.
  { apply Forall_app. split; [|by apply Forall_reverse, Hm]. apply Forall_replicate. unfold digit_of. lia. }
  rewrite E at 1. rewrite decode_loop_text by done. cbn [mbind option_bind].
  rewrite horner_num, num_vec. unfold text. rewrite <-app_assoc, leading_zeros by by apply text_head.
  pose proof (num_nonneg 58 ltac:(lia) m (sh_digits _ _ Hm)) as Hn.
  destruct (digs_shortest 256 ltac:(lia) (bits (num 58 m)) (num 58 m)) as [Hs En]; [done|unfold bits; lia|].
  rewrite <-En at 1. by rewrite trim_getvch.
Qed.

Lemma skip_text k m r : shortest 58 m → blank r → text k m = [] ∨ skip_space (text k m ++ r) = text k m ++ r.
Proof.
  intros Hm Hr. unfold text. destruct k as [|k]; [|by right]. cbn [replicate app].
  destruct m as [|d m _] using rev_ind; [by left|]. right. rewrite fmap_app. change (char58 <$> [d]) with [char58 d]. rewrite reverse_snoc.
  cbn [app skip_space]. destruct Hm as [[_ Hd%Forall_inv]%Forall_app _]. apply index_char in Hd as (_ & Hd & _). by rewrite Hd.
Qed.

(** What is decoded is exactly what is encoded, with blanks around it. *)
Lemma DecodeBase58_spec str v : DecodeBase58 str = Some v ↔
  Forall byte_ok v ∧ ∃ l r, blank l ∧ blank r ∧ c_str str = l ++ EncodeBase58 v ++ r.
Proof.
  unfold DecodeBase58. split.
  - destruct (skip_space_split (c_str str)) as (l & Hl & E). destruct (decode_loop 0 _) as [bn|] eqn:Ed; [|done].
    pose proof (decode_loop_inv _ _ _ Ed) as (ds & r & Ep & Hds & Hr & _). rewrite Ep in *.
    destruct (vec_split 58 ds Hds) as (m & Em & Hm). set (k := leading 0 ds) in *.
    assert (char58 <$> ds = text k m) as Et.
    { rewrite Em. unfold text, vec. by rewrite fmap_app, fmap_reverse, fmap_replicate. }
    rewrite Et in *. pose proof (decode_text k m r Hm Hr) as Hd. rewrite Ed in Hd. cbn [mbind option_bind] in *.
    rewrite Hd. clear Hd. intros E'. apply (inj Some) in E' as <-.
    pose proof (num_nonneg 58 ltac:(lia) m (sh_digits _ _ Hm)) as Hn.
    destruct (digs_shortest 256 ltac:(lia) (bits (num 58 m)) (num 58 m)) as [Hs En]; [done|unfold bits; lia|].
    revert Hs En. generalize (digs 256 (bits (num 58 m)) (num 58 m)). intros m' Hs En. split.
    + apply Forall_app. split; [apply Forall_replicate; unfold byte_ok; lia|]. apply Forall_reverse, (sh_digits _ _ Hs).
    + exists l, r. split_and!; [done|done|]. by rewrite encode_vec, En, digs_bits by (done || lia).
  - intros (Hv & l & r & Hl & Hr & ->). rewrite skip_blank by done.
    destruct (vec_split 256 v Hv) as (m & Em & Hm). set (k := leading 0 v) in *. rewrite Em, encode_vec by done.
    pose proof (num_nonneg 256 ltac:(lia) m (sh_digits _ _ Hm)) as Hn.
    destruct (digs_shortest 58 ltac:(lia) (bits (num 256 m)) (num 256 m)) as [Hs En]; [done|unfold bits; lia|].
    set (m' := digs 58 _ _) in *. assert (digs 256 (bits (num 58 m')) (num 58 m') = m) as Edm.
    { rewrite En. apply digs_bits; [lia|done]. }
    destruct (skip_text k m' r Hs Hr) as [E|E].
    + pose proof (skip_blank r [] Hr) as Es. rewrite app_nil_r in Es. rewrite E. cbn [app]. rewrite Es.
      pose proof (decode_text k m' [] Hs ltac:(constructor)) as Hd. rewrite E, Edm in Hd. done.
    + rewrite E, decode_text, Edm; done.
Qed.
End texts.

(** ** The checksum, and the claim *)
Section addresses.
Variables (Hash : bytes → uint256) (testnet : bool).
Abbreviation checksum := (checksum Hash).

Lemma length_checksum v : length (checksum v) = 4%nat.
Proof. unfold Base58.checksum. by rewrite length_take, length_le_bytes. Qed.
Lemma checksum_ok v : Forall byte_ok (checksum v).
Proof. apply Forall_take, le_bytes_ok. Qed.

Lemma DecodeBase58Check_spec str v : DecodeBase58Check Hash str = Some v ↔
  Forall byte_ok v ∧ ∃ l r, blank l ∧ blank r ∧ c_str str = l ++ EncodeBase58Check Hash v ++ r.
Proof.
  unfold DecodeBase58Check, EncodeBase58Check. split.
  - destruct (DecodeBase58 str) as [u|] eqn:E; [|done]. cbn [mbind option_bind].
    destruct (Z.ltb_spec (Z.of_nat (length u)) 4) as [|Hl]; [done|].
    destruct (decide _) as [Ec|]; [|done]. intros [= <-]. apply DecodeBase58_spec in E as (Hu & l & r & Hlr).
    split; [by apply Forall_take|]. exists l, r. by rewrite Ec, take_drop.
  - intros (Hv & Hlr). assert (DecodeBase58 str = Some (v ++ checksum v)) as ->.
    { apply DecodeBase58_spec. split; [|done]. apply Forall_app. split; [done|apply checksum_ok]. }
    cbn [mbind option_bind]. rewrite length_app, length_checksum.
    destruct (Z.ltb_spec (Z.of_nat (length v + 4)) 4); [lia|].
    replace (length v + 4 - 4)%nat with (length v) by lia.
    rewrite take_app_length, drop_app_length. by rewrite decide_True.
Qed.

Definition dest_id (d : CTxDestination) : option bytes :=
  match d with CKeyID id | CScriptID id => Some id | CNoDestination => None end.
(** the address [a] of the destination [d], a hash of 20 bytes *)
Definition address_of (d : CTxDestination) (a : CBase58Data) : Prop :=
  Set_dest testnet d = Some a ∧ Forall byte_ok (vchData a) ∧ length (vchData a) = 20%nat.
(** [str] is the text of [a], but for blanks around it *)
Definition spells (str : bytes) (a : CBase58Data) : Prop :=
  ∃ l r, blank l ∧ blank r ∧ c_str str = l ++ ToString58 Hash a ++ r.

Lemma prefixes_differ : PUBKEY_ADDRESS testnet ≠ SCRIPT_ADDRESS testnet.
Proof. by destruct testnet. Qed.

Lemma address_prefix d a : address_of d a → ∃ v, vchVersion a = [v] ∧ byte_ok v ∧
  (vchVersion a = PUBKEY_ADDRESS testnet ∨ vchVersion a = SCRIPT_ADDRESS testnet).
Proof.
  intros [E _]. destruct d; [| |done]; injection E as <-; cbn [vchVersion];
    unfold PUBKEY_ADDRESS, SCRIPT_ADDRESS, byte_ok; destruct testnet; eexists; (split; [done|]); (split; [lia|auto]).
Qed.

Lemma spells_read str d a : address_of d a → spells str a → SetString Hash str = a.
Proof.
  intros Ha Hs. destruct (address_prefix d a Ha) as (v & Ev & Hv & _). destruct Ha as (_ & Hd & _).
  unfold SetString. assert (DecodeBase58Check Hash str = Some (v :: vchData a)) as ->.
  { apply DecodeBase58Check_spec. split; [by constructor|]. destruct Hs as (l & r & ? & ? & E).
    exists l, r. unfold ToString58 in E. by rewrite Ev in E. }
  destruct a as [ver dat]. cbn in *. by rewrite Ev.
Qed.

Lemma valid_spells str : IsValid testnet (SetString Hash str) = true →
  ∃ d, address_of d (SetString Hash str) ∧ spells str (SetString Hash str).
Proof.
  unfold IsValid. intros [Hl Hver]%andb_true_iff. apply Z.eqb_eq in Hl.
  unfold SetString, spells, ToString58, address_of in *.
  destruct (DecodeBase58Check Hash str) as [[|v u]|] eqn:E; [done| |done]. cbn [vchVersion vchData app] in *.
  apply DecodeBase58Check_spec in E as (Hu & Hlr). apply Forall_cons in Hu as [_ Hu].
  apply orb_true_iff in Hver as [Hver|Hver]; apply bool_decide_eq_true in Hver; rewrite Hver in *.
  - exists (CKeyID u). split_and!; [done|done|lia|done].
  - exists (CScriptID u). split_and!; [done|done|lia|done].
Qed.

Lemma address_valid d a : address_of d a → IsValid testnet a = true.
Proof.
  intros Ha. destruct (address_prefix d a Ha) as (_ & _ & _ & Hv). destruct Ha as (_ & _ & Hl).
  unfold IsValid. rewrite Hl. apply andb_true_iff. split; [done|]. apply orb_true_iff.
  by destruct Hv; [left|right]; apply bool_decide_eq_true.
Qed.

Lemma address_dest d a : address_of d a →
  Get_dest testnet a = d ∧ GetKeyID testnet a = (match d with CKeyID id => Some id | _ => None end) ∧
  IsScript testnet a = match d with CScriptID _ => true | _ => false end.
Proof.
  intros Ha. pose proof (address_valid d a Ha) as Hv. unfold Get_dest, GetKeyID, IsScript. rewrite Hv.
  destruct Ha as (E & _). pose proof prefixes_differ as Hne. cbn [negb orb andb].
  destruct d; [| |done]; injection E as <-; cbn [vchVersion vchData].
  - rewrite bool_decide_true by done. rewrite bool_decide_false by done. done.
  - rewrite bool_decide_false by congruence. rewrite bool_decide_true by done. done.
Qed.

(** the characters of an address that is taken *)
Lemma base58_chars v : Forall (λ c, c ∈ pszBase58) (EncodeBase58 v).
Proof.
  assert (∀ d, 0 ≤ d < 58 → char58 d ∈ pszBase58) as Hc.
  { intros d Hd. unfold char58. apply list_elem_of_In, nth_In. change (length pszBase58) with 58%nat. lia. }
  unfold EncodeBase58. apply Forall_reverse, Forall_app. split; [|apply Forall_replicate, (Hc 0); lia].
  generalize (bits (le_val (reverse v))); intros fuel. generalize (le_val (reverse v)).
  induction fuel as [|fuel IH]; intros z; [constructor|]. cbn [encode_loop]. case_match; constructor; [|done].
  apply Hc, Z.mod_pos_bound. lia.
Qed.

(** a text that is taken consists of such characters, but for blanks *)
Lemma valid_chars str c : IsValid testnet (SetString Hash str) = true → c ∈ c_str str →
  isspace c = true ∨ c ∈ pszBase58.
Proof.
  intros (d & _ & (l & r & Hl & Hr & ->))%valid_spells. rewrite !elem_of_app.
  unfold blank in *. rewrite Forall_forall in Hl. rewrite Forall_forall in Hr.
  pose proof (base58_chars (vchVersion (SetString Hash str) ++ vchData (SetString Hash str) ++
    checksum (vchVersion (SetString Hash str) ++ vchData (SetString Hash str)))) as Ht.
  intros [Hc|[Hc|Hc]]; [left; by apply Hl|right|left; by apply Hr]. rewrite Forall_forall in Ht. apply Ht.
  unfold ToString58, EncodeBase58Check in Hc. by rewrite <-app_assoc in Hc.
Qed.
Lemma key_bytes str k : GetKeyID testnet (SetString Hash str) = Some k → Forall byte_ok k.
Proof.
  unfold GetKeyID. destruct (IsValid testnet (SetString Hash str)) eqn:E; [|done].
  apply valid_spells in E as (d & (_ & Hb & _) & _). cbn [negb orb]. case_match; [done|]. by intros [= <-].
Qed.

(** C32 — The class CBitcoinAddress takes for an address exactly the texts of the
    addresses of key hashes and script hashes, with blanks around them: such a
    text is read back to its destination, and no other text is valid. *)
Theorem addresses_roundtrip :
  (∀ str, IsValid testnet (SetString Hash str) = true ↔ ∃ d a, address_of d a ∧ spells str a) ∧
  ∀ str d a, address_of d a → spells str a →
    SetString Hash str = a ∧ Get_dest testnet a = d ∧
    GetKeyID testnet a = (match d with CKeyID id => Some id | _ => None end) ∧
    IsScript testnet a = (match d with CScriptID _ => true | _ => false end).
Proof.
  split.
  - intros str. split.
    + intros (d & Hd & Hs)%valid_spells. by exists d, (SetString Hash str).
    + intros (d & a & Ha & Hs). rewrite (spells_read str d a Ha Hs). by eapply address_valid.
  - intros str d a Ha Hs. split; [by eapply spells_read|]. by apply address_dest.
Qed.
End addresses.

(** a script hash on the test network, with a toy hash: a blank in front does no
    harm, a wrong letter does *)
Module AddressDemo.
Definition toy (l : bytes) : uint256 := 7 + foldl (λ x b, (x * 31 + b) mod 2 ^ 32) 1 l.
Definition id : bytes := replicate 20 200.
Definition a : CBase58Data := {| vchVersion := [196]; vchData := id |}.
Definition str : bytes := 32 :: ToString58 toy a.
End AddressDemo.

Theorem addresses_roundtrip_witness :
  Get_dest true (SetString AddressDemo.toy AddressDemo.str) = CScriptID AddressDemo.id ∧
  GetKeyID true (SetString AddressDemo.toy AddressDemo.str) = None ∧
  IsValid true (SetString AddressDemo.toy (AddressDemo.str ++ [49])) = false.
Proof.
  destruct (addresses_roundtrip AddressDemo.toy true) as [_ Hread].
  destruct (Hread AddressDemo.str (CScriptID AddressDemo.id) AddressDemo.a) as (E & Hd & Hk & _).
  - split_and!; [reflexivity | apply Forall_replicate; split; vm_compute; congruence | reflexivity].
  - exists [32], []. split_and!; [repeat constructor | constructor | vm_compute; reflexivity].
  - rewrite E. split_and!; [exact Hd | exact Hk | vm_compute; reflexivity].
Defined.
