(* ===== verification/Script.v ===== *)
(** * Scripts (src/jiexi/src/bitcoin/script.h, script.cpp, key.h)

    What the parser takes from a script: its text, its type and the destinations
    of an output.  A script is its bytes; reading an operation moves behind it.
    RIPEMD-160 of SHA-256 ([Hash160], OpenSSL) is a parameter, as is the check of
    addresses ([Base58]). *)
From S2P Require Import Prelude Tx Bytes Base58.

Definition OP_0 : Z := 0.
Definition OP_PUSHDATA1 : Z := 76.
Definition OP_PUSHDATA2 : Z := 77.
Definition OP_PUSHDATA4 : Z := 78.
Definition OP_1 : Z := 81.
Definition OP_16 : Z := 96.
Definition OP_RETURN : Z := 106.
Definition OP_DUP : Z := 118.
Definition OP_EQUAL : Z := 135.
Definition OP_EQUALVERIFY : Z := 136.
Definition OP_HASH160 : Z := 169.
Definition OP_CHECKSIG : Z := 172.
Definition OP_CHECKMULTISIG : Z := 174.
Definition OP_NOP10 : Z := 185.
(** for templates *)
Definition OP_SMALLDATA : Z := 249.
Definition OP_SMALLINTEGER : Z := 250.
Definition OP_PUBKEYS : Z := 251.
Definition OP_PUBKEYHASH : Z := 253.
Definition OP_PUBKEY : Z := 254.
Definition OP_INVALIDOPCODE : Z := 255.

Inductive txnouttype :=
  TX_NONSTANDARD | TX_PUBKEY | TX_PUBKEYHASH | TX_SCRIPTHASH | TX_MULTISIG | TX_NULL_DATA.
#[export] Instance txnouttype_eq_dec : EqDecision txnouttype.
Proof. solve_decision. Defined.
Definition GetTxnOutputType (t : txnouttype) : bytes :=
  match t with
  | TX_NONSTANDARD => lit "nonstandard"
  | TX_PUBKEY => lit "pubkey"
  | TX_PUBKEYHASH => lit "pubkeyhash"
  | TX_SCRIPTHASH => lit "scripthash"
  | TX_MULTISIG => lit "multisig"
  | TX_NULL_DATA => lit "nulldata"
  end.

(** the names of the operations from OP_PUSHDATA1 to OP_NOP10 *)
Definition op_names : list bytes :=
  [lit "OP_PUSHDATA1"; lit "OP_PUSHDATA2"; lit "OP_PUSHDATA4"; lit "-1"; lit "OP_RESERVED"; lit "1"; lit "2";
   lit "3"; lit "4"; lit "5"; lit "6"; lit "7"; lit "8"; lit "9"; lit "10"; lit "11"; lit "12"; lit "13";
   lit "14"; lit "15"; lit "16"; lit "OP_NOP"; lit "OP_VER"; lit "OP_IF"; lit "OP_NOTIF"; lit "OP_VERIF";
   lit "OP_VERNOTIF"; lit "OP_ELSE"; lit "OP_ENDIF"; lit "OP_VERIFY"; lit "OP_RETURN"; lit "OP_TOALTSTACK";
   lit "OP_FROMALTSTACK"; lit "OP_2DROP"; lit "OP_2DUP"; lit "OP_3DUP"; lit "OP_2OVER"; lit "OP_2ROT";
   lit "OP_2SWAP"; lit "OP_IFDUP"; lit "OP_DEPTH"; lit "OP_DROP"; lit "OP_DUP"; lit "OP_NIP"; lit "OP_OVER";
   lit "OP_PICK"; lit "OP_ROLL"; lit "OP_ROT"; lit "OP_SWAP"; lit "OP_TUCK"; lit "OP_CAT"; lit "OP_SUBSTR";
   lit "OP_LEFT"; lit "OP_RIGHT"; lit "OP_SIZE"; lit "OP_INVERT"; lit "OP_AND"; lit "OP_OR"; lit "OP_XOR";
   lit "OP_EQUAL"; lit "OP_EQUALVERIFY"; lit "OP_RESERVED1"; lit "OP_RESERVED2"; lit "OP_1ADD"; lit "OP_1SUB";
   lit "OP_2MUL"; lit "OP_2DIV"; lit "OP_NEGATE"; lit "OP_ABS"; lit "OP_NOT"; lit "OP_0NOTEQUAL"; lit "OP_ADD";
   lit "OP_SUB"; lit "OP_MUL"; lit "OP_DIV"; lit "OP_MOD"; lit "OP_LSHIFT"; lit "OP_RSHIFT"; lit "OP_BOOLAND";
   lit "OP_BOOLOR"; lit "OP_NUMEQUAL"; lit "OP_NUMEQUALVERIFY"; lit "OP_NUMNOTEQUAL"; lit "OP_LESSTHAN";
   lit "OP_GREATERTHAN"; lit "OP_LESSTHANOREQUAL"; lit "OP_GREATERTHANOREQUAL"; lit "OP_MIN"; lit "OP_MAX";
   lit "OP_WITHIN"; lit "OP_RIPEMD160"; lit "OP_SHA1"; lit "OP_SHA256"; lit "OP_HASH160"; lit "OP_HASH256";
   lit "OP_CODESEPARATOR"; lit "OP_CHECKSIG"; lit "OP_CHECKSIGVERIFY"; lit "OP_CHECKMULTISIG";
   lit "OP_CHECKMULTISIGVERIFY"; lit "OP_NOP1"; lit "OP_NOP2"; lit "OP_NOP3"; lit "OP_NOP4"; lit "OP_NOP5";
   lit "OP_NOP6"; lit "OP_NOP7"; lit "OP_NOP8"; lit "OP_NOP9"; lit "OP_NOP10"].
Example op_names_complete : length op_names = 110%nat ∧ nth 30 op_names [] = lit "OP_RETURN".
Proof. done. Qed.
Definition GetOpName (opcode : Z) : bytes :=
  if opcode =? OP_0 then lit "0"
  else if (OP_PUSHDATA1 <=? opcode) && (opcode <=? OP_NOP10) then nth (Z.to_nat (opcode - OP_PUSHDATA1)) op_names []
  else if opcode =? OP_PUBKEYHASH then lit "OP_PUBKEYHASH"
  else if opcode =? OP_PUBKEY then lit "OP_PUBKEY"
  else if opcode =? OP_SMALLDATA then lit "OP_SMALLDATA"
  else if opcode =? OP_INVALIDOPCODE then lit "OP_INVALIDOPCODE"
  else lit "OP_UNKNOWN".

(** ** Reading *)

(** what [GetOp2] returns and sets, and the bytes behind the iterator *)
Record op := { op_ok : bool; op_code : Z; op_vch : bytes; op_pc : bytes }.
Definition no_op (pc : bytes) : op := {| op_ok := false; op_code := OP_INVALIDOPCODE; op_vch := []; op_pc := pc |}.

(** the size of the operand *)
Definition operand_size (opcode : Z) (pc : bytes) : option (Z * bytes) :=
  let field (k : nat) := if (length pc <? k)%nat then None else Some (le_val (take k pc), drop k pc) in
  if opcode <? OP_PUSHDATA1 then Some (opcode, pc)
  else if opcode =? OP_PUSHDATA1 then field 1%nat
  else if opcode =? OP_PUSHDATA2 then field 2%nat
  else field 4%nat.
Definition GetOp2 (pc : bytes) : op :=
  match pc with
  | [] => no_op []
  | opcode :: pc =>
      if opcode <=? OP_PUSHDATA4 then
        match operand_size opcode pc with
        | None => no_op pc
        | Some (nSize, pc) =>
            if Z.of_nat (length pc) <? nSize then no_op pc
            else {| op_ok := true; op_code := opcode; op_vch := take (Z.to_nat nSize) pc;
                    op_pc := drop (Z.to_nat nSize) pc |}
        end
      else {| op_ok := true; op_code := opcode; op_vch := []; op_pc := pc |}
  end.

(** ** As text *)

(** [CBigNum(vch).getint()]: the top bit of the last byte is the sign *)
Definition getint (vch : bytes) : Z :=
  let neg := match last vch with Some b => 128 <=? b | None => false end in
  let n := if neg then le_val vch - 2 ^ (8 * Z.of_nat (length vch) - 1) else le_val vch in
  if negb neg then (if 2 ^ 31 - 1 <? n then 2 ^ 31 - 1 else n)
  else (if 2 ^ 31 - 1 <? n then - 2 ^ 31 else - n).
Definition ValueString (vch : bytes) : bytes :=
  if (length vch <=? 4)%nat then fmt_d (getint vch) else HexStr vch.

(** an operation is at least a byte, so the length of the script is enough fuel *)
Fixpoint text_loop (fuel : nat) (pc str : bytes) : bytes :=
  match fuel with
  | O => str
  | S fuel =>
      match pc with
      | [] => str
      | _ =>
          let str := if bool_decide (str = []) then str else str ++ [32] in
          let o := GetOp2 pc in
          if negb (op_ok o) then str ++ lit "[error]"
          else text_loop fuel (op_pc o)
            (str ++ if (0 <=? op_code o) && (op_code o <=? OP_PUSHDATA4) then ValueString (op_vch o)
                    else GetOpName (op_code o))
      end
  end.
Definition script_ToString (script : bytes) : bytes := text_loop (length script) script [].

(** ** [Solver] *)

Definition DecodeOP_N (opcode : Z) : Z := if opcode =? OP_0 then 0 else opcode - (OP_1 - 1).
Definition IsPayToScriptHash (script : bytes) : bool :=
  (length script =? 23)%nat && bool_decide (script !! 0%nat = Some OP_HASH160) &&
  bool_decide (script !! 1%nat = Some 20) && bool_decide (script !! 22%nat = Some OP_EQUAL).

(** in the order of the multimap *)
Definition mTemplates : list (txnouttype * bytes) :=
  [(TX_PUBKEY, [OP_PUBKEY; OP_CHECKSIG]);
   (TX_PUBKEYHASH, [OP_DUP; OP_HASH160; OP_PUBKEYHASH; OP_EQUALVERIFY; OP_CHECKSIG]);
   (TX_MULTISIG, [OP_SMALLINTEGER; OP_PUBKEYS; OP_SMALLINTEGER; OP_CHECKMULTISIG]);
   (TX_NULL_DATA, [OP_RETURN; OP_SMALLDATA]);
   (TX_NULL_DATA, [OP_RETURN])].
Definition MAX_OP_RETURN_RELAY : nat := 40.

Definition key_size (vch : bytes) : bool := (33 <=? length vch)%nat && (length vch <=? 65)%nat.
(** OP_PUBKEYS: keys as long as there are any *)
Fixpoint take_keys (fuel : nat) (o : op) (sols : list bytes) : op * list bytes :=
  match fuel with
  | O => (o, sols)
  | S fuel =>
      if key_size (op_vch o) then
        let sols := sols ++ [op_vch o] in
        let o' := GetOp2 (op_pc o) in
        if op_ok o' then take_keys fuel o' sols else (o', sols)
      else (o, sols)
  end.

(** the operation of the script against one of the template: the solutions, or no
    match *)
Definition match_op (o1 o2 : op) (sols : list bytes) : option (list bytes) :=
  if op_code o2 =? OP_PUBKEY then
    if key_size (op_vch o1) then Some (sols ++ [op_vch o1]) else None
  else if op_code o2 =? OP_PUBKEYHASH then
    if (length (op_vch o1) =? 20)%nat then Some (sols ++ [op_vch o1]) else None
  else if op_code o2 =? OP_SMALLINTEGER then
    if (op_code o1 =? OP_0) || ((OP_1 <=? op_code o1) && (op_code o1 <=? OP_16))
    then Some (sols ++ [[DecodeOP_N (op_code o1)]]) else None
  else if op_code o2 =? OP_SMALLDATA then
    if (MAX_OP_RETURN_RELAY <? length (op_vch o1))%nat then None else Some sols
  else if negb (op_code o1 =? op_code o2) || negb (bool_decide (op_vch o1 = op_vch o2)) then None
  else Some sols.

(** a template, whose operations are a byte each, bounds the rounds *)
Fixpoint match_template (fuel : nat) (pc1 pc2 : bytes) (sols : list bytes) : option (list bytes) :=
  if bool_decide (pc1 = []) && bool_decide (pc2 = []) then Some sols else
  match fuel with
  | O => None
  | S fuel =>
      let o1 := GetOp2 pc1 in
      if negb (op_ok o1) then None else
      let o2 := GetOp2 pc2 in
      if negb (op_ok o2) then None else
      if op_code o2 =? OP_PUBKEYS then
        let '(o1, sols) := take_keys (S (length pc1)) o1 sols in
        let o2 := GetOp2 (op_pc o2) in
        if negb (op_ok o2) then None else
        sols ← match_op o1 o2 sols; match_template fuel (op_pc o1) (op_pc o2) sols
      else sols ← match_op o1 o2 sols; match_template fuel (op_pc o1) (op_pc o2) sols
  end.

(** the value returned, [typeRet] and [vSolutionsRet] *)
Record solved := { sv_ok : bool; sv_type : txnouttype; sv_sols : list bytes }.
Fixpoint scan_templates (script1 : bytes) (l : list (txnouttype * bytes)) : solved :=
  match l with
  | [] => {| sv_ok := false; sv_type := TX_NONSTANDARD; sv_sols := [] |}
  | (type, script2) :: l =>
      match match_template (length script2) script1 script2 [] with
      | Some sols =>
          let m := default 0 (head (default [] (head sols))) in
          let n := default 0 (head (default [] (last sols))) in
          let bad := (m <? 1) || (n <? 1) || (n <? m) || negb (Z.of_nat (length sols) - 2 =? n) in
          {| sv_ok := negb (bool_decide (type = TX_MULTISIG) && bad); sv_type := type; sv_sols := sols |}
      | None => scan_templates script1 l
      end
  end.
Definition Solver (scriptPubKey : bytes) : solved :=
  if IsPayToScriptHash scriptPubKey then
    {| sv_ok := true; sv_type := TX_SCRIPTHASH; sv_sols := [take 20 (drop 2 scriptPubKey)] |}
  else scan_templates scriptPubKey mTemplates.

(** ** Destinations *)

Definition GetLen (chHeader : Z) : nat :=
  if (chHeader =? 2) || (chHeader =? 3) then 33
  else if (chHeader =? 4) || (chHeader =? 6) || (chHeader =? 7) then 65 else 0.
(** [CPubKey]: the bytes kept of a key, none when its length is not the one its
    first byte says *)
Definition CPubKey (vch : bytes) : bytes :=
  match vch with
  | [] => []
  | c :: _ => if negb (GetLen c =? 0)%nat && (GetLen c =? length vch)%nat then vch else []
  end.

Section destinations.
Variable Hash160 : bytes → bytes.

Definition GetID (vch : bytes) : bytes := Hash160 (CPubKey vch).
Definition ExtractDestination (scriptPubKey : bytes) : option CTxDestination :=
  let s := Solver scriptPubKey in
  if negb (sv_ok s) then None else
  let v := default [] (head (sv_sols s)) in
  match sv_type s with
  | TX_PUBKEY => Some (CKeyID (GetID v))
  | TX_PUBKEYHASH => Some (CKeyID v)
  | TX_SCRIPTHASH => Some (CScriptID v)
  | _ => None
  end.

(** the value returned, [typeRet], [addressRet] and, where it is set,
    [nRequiredRet] *)
Record extracted := { ex_ok : bool; ex_type : txnouttype; ex_addresses : list CTxDestination; ex_required : option Z }.
Definition ExtractDestinations (scriptPubKey : bytes) : extracted :=
  let s := Solver scriptPubKey in
  let fail := {| ex_ok := false; ex_type := sv_type s; ex_addresses := []; ex_required := None |} in
  if negb (sv_ok s) then fail
  else match sv_type s with
  | TX_NULL_DATA => fail
  | TX_MULTISIG =>
      {| ex_ok := true; ex_type := TX_MULTISIG;
         ex_addresses := (λ k, CKeyID (GetID k)) <$> removelast (tail (sv_sols s));
         ex_required := head (default [] (head (sv_sols s))) |}
  | type =>
      match ExtractDestination scriptPubKey with
      | None => {| ex_ok := false; ex_type := type; ex_addresses := []; ex_required := Some 1 |}
      | Some address => {| ex_ok := true; ex_type := type; ex_addresses := [address]; ex_required := Some 1 |}
      end
  end.
End destinations.

(** ** Writing *)

Definition push_data (b : bytes) : bytes :=
  (if (length b <? 76)%nat then [Z.of_nat (length b)]
   else if Z.of_nat (length b) <=? 255 then [OP_PUSHDATA1; Z.of_nat (length b)]
   else if Z.of_nat (length b) <=? 65535 then OP_PUSHDATA2 :: le_bytes 2 (Z.of_nat (length b))
   else OP_PUSHDATA4 :: le_bytes 4 (Z.of_nat (length b))) ++ b.
(** its assertion is [0 ≤ n ≤ 16] *)
Definition EncodeOP_N (n : Z) : Z := if n =? 0 then OP_0 else OP_1 + n - 1.
Definition small_int (n : Z) : bool := (0 <=? n) && (n <=? 16).
Definition SetDestination (dest : CTxDestination) : bytes :=
  match dest with
  | CNoDestination => []
  | CKeyID keyID => [OP_DUP; OP_HASH160; 20] ++ keyID ++ [OP_EQUALVERIFY; OP_CHECKSIG]
  | CScriptID scriptID => [OP_HASH160; 20] ++ scriptID ++ [OP_EQUAL]
  end.
Definition SetMultisig (nRequired : Z) (keys : list bytes) : outcome bytes :=
  if negb (small_int nRequired) || negb (small_int (Z.of_nat (length keys))) then Raise AssertFail
  else Done ([EncodeOP_N nRequired] ++ concat ((λ key, Z.of_nat (length (CPubKey key)) :: CPubKey key) <$> keys) ++
    [EncodeOP_N (Z.of_nat (length keys)); OP_CHECKMULTISIG]).

(** ** What an operation is *)

(** [p] is an operation that pushes [d] *)
Inductive pushes : bytes → bytes → Prop :=
| push_short d : (length d < 76)%nat → pushes (Z.of_nat (length d) :: d) d
| push_one d : Z.of_nat (length d) < 2 ^ 8 → pushes (OP_PUSHDATA1 :: le_bytes 1 (Z.of_nat (length d)) ++ d) d
| push_two d : Z.of_nat (length d) < 2 ^ 16 → pushes (OP_PUSHDATA2 :: le_bytes 2 (Z.of_nat (length d)) ++ d) d
| push_four d : Z.of_nat (length d) < 2 ^ 32 → pushes (OP_PUSHDATA4 :: le_bytes 4 (Z.of_nat (length d)) ++ d) d.

Definition read_op (c : Z) (d pc : bytes) : op := {| op_ok := true; op_code := c; op_vch := d; op_pc := pc |}.

Lemma GetOp2_code c pc : OP_PUSHDATA4 < c → GetOp2 (c :: pc) = read_op c [] pc.
Proof. intros Hc. unfold GetOp2. by replace (c <=? OP_PUSHDATA4) with false by lia. Qed.

Lemma operand_field (k : nat) c d pc :
  c = OP_PUSHDATA1 ∧ k = 1%nat ∨ c = OP_PUSHDATA2 ∧ k = 2%nat ∨ c = OP_PUSHDATA4 ∧ k = 4%nat →
  Z.of_nat (length d) < 2 ^ (8 * Z.of_nat k) →
  operand_size c (le_bytes k (Z.of_nat (length d)) ++ d ++ pc) = Some (Z.of_nat (length d), d ++ pc).
Proof.
  intros Hk Hd. pose proof (length_le_bytes k (Z.of_nat (length d))) as Hl.
  assert ((if (length (le_bytes k (Z.of_nat (length d)) ++ d ++ pc) <? k)%nat then None
    else Some (le_val (take k (le_bytes k (Z.of_nat (length d)) ++ d ++ pc)),
      drop k (le_bytes k (Z.of_nat (length d)) ++ d ++ pc))) = Some (Z.of_nat (length d), d ++ pc)) as E.
  { rewrite length_app, Hl. replace (_ <? k)%nat with false by (symmetry; apply Nat.ltb_ge; lia).
    rewrite take_app_length', drop_app_length' by done. by rewrite le_val_bytes_id by lia. }
  by destruct Hk as [[-> ->]|[[-> ->]|[-> ->]]].
Qed.

Lemma GetOp2_operand c d pc1 pc :
  c ≤ OP_PUSHDATA4 → operand_size c pc1 = Some (Z.of_nat (length d), d ++ pc) → GetOp2 (c :: pc1) = read_op c d pc.
Proof.
  intros Hc E. unfold GetOp2. replace (c <=? OP_PUSHDATA4) with true by lia. rewrite E, length_app.
  destruct (Z.ltb_spec (Z.of_nat (length d + length pc)) (Z.of_nat (length d))) as [Hlt|_]; [lia|].
  rewrite Nat2Z.id, take_app_length, drop_app_length. done.
Qed.

Lemma GetOp2_push p d pc : pushes p d → ∃ c, head p = Some c ∧ 0 ≤ c ≤ OP_PUSHDATA4 ∧ GetOp2 (p ++ pc) = read_op c d pc.
Proof.
  intros Hp. destruct Hp as [d Hd|d Hd|d Hd|d Hd]; eexists; (split; [done|]); cbn [app].
  - split; [unfold OP_PUSHDATA4; lia|]. apply GetOp2_operand; [unfold OP_PUSHDATA4; lia|]. unfold operand_size.
    by replace (_ <? OP_PUSHDATA1) with true by (unfold OP_PUSHDATA1; lia).
  - split; [done|]. rewrite <-app_assoc. apply GetOp2_operand; [done|]. by apply operand_field; [auto|].
  - split; [done|]. rewrite <-app_assoc. apply GetOp2_operand; [done|]. by apply operand_field; [auto|].
  - split; [done|]. rewrite <-app_assoc. apply GetOp2_operand; [done|]. by apply operand_field; [auto|].
Qed.

Lemma field_inv (k : nat) pc : Forall byte_ok pc → (k ≤ length pc)%nat →
  le_val (take k pc) ≤ Z.of_nat (length (drop k pc)) →
  let d := take (Z.to_nat (le_val (take k pc))) (drop k pc) in
  pc = (le_bytes k (Z.of_nat (length d)) ++ d) ++ drop (Z.to_nat (le_val (take k pc))) (drop k pc) ∧
  Z.of_nat (length d) < 2 ^ (8 * Z.of_nat k).
Proof.
  intros Hb Hk Hl d. assert (Forall byte_ok (take k pc)) as Ht by by apply Forall_take.
  pose proof (le_val_range _ Ht) as Hr. rewrite length_take_le in Hr by done.
  assert (Z.of_nat (length d) = le_val (take k pc)) as E by (subst d; rewrite length_take_le by lia; lia).
  rewrite E. split; [|lia]. pose proof (le_bytes_val _ Ht) as E2. rewrite length_take_le in E2 by done. rewrite E2.
  subst d. by rewrite <-app_assoc, !take_drop.
Qed.

(** what was read, the other way round *)
Lemma GetOp2_inv pc : Forall byte_ok pc → op_ok (GetOp2 pc) = true → ∃ p, pc = p ++ op_pc (GetOp2 pc) ∧
  (OP_PUSHDATA4 < op_code (GetOp2 pc) ∧ p = [op_code (GetOp2 pc)] ∧ op_vch (GetOp2 pc) = [] ∨
   op_code (GetOp2 pc) ≤ OP_PUSHDATA4 ∧ pushes p (op_vch (GetOp2 pc))).
Proof.
  intros Hb. destruct pc as [|c pc]; [done|]. unfold GetOp2. apply Forall_cons in Hb as [Hc Hb]. unfold byte_ok in Hc.
  destruct (Z.leb_spec c OP_PUSHDATA4) as [Hle|Hgt]; [|intros _; exists [c]; cbn; auto].
  unfold operand_size. destruct (Z.ltb_spec c OP_PUSHDATA1) as [Hs|Hs].
  - destruct (Z.ltb_spec (Z.of_nat (length pc)) c) as [|Hl]; [done|]. intros _. cbn [op_pc op_code op_vch].
    exists (c :: take (Z.to_nat c) pc). split; [cbn; by rewrite take_drop|]. right. split; [done|].
    assert (c = Z.of_nat (length (take (Z.to_nat c) pc))) as E by (rewrite length_take_le; lia).
    rewrite E at 1. apply push_short. unfold OP_PUSHDATA1 in Hs. lia.
  - assert (c = OP_PUSHDATA1 ∨ c = OP_PUSHDATA2 ∨ c = OP_PUSHDATA4) as Hcs
      by (unfold OP_PUSHDATA1, OP_PUSHDATA2, OP_PUSHDATA4 in *; lia).
    destruct Hcs as [-> | [-> | ->]]; cbn [Z.eqb OP_PUSHDATA1 OP_PUSHDATA2 OP_PUSHDATA4 Pos.eqb].
    all: match goal with |- context [(length ?pc <? ?k)%nat] => destruct (Nat.ltb_spec (length pc) k) as [|Hk]; [done|];
      destruct (Z.ltb_spec (Z.of_nat (length (drop k pc))) (le_val (take k pc))) as [|Hl]; [done|]; intros _;
      cbn [op_pc op_code op_vch]; match goal with H : Forall byte_ok pc |- _ =>
        destruct (field_inv k pc H Hk Hl) as [E1 E2] end end.
    + eexists (OP_PUSHDATA1 :: _). split; [cbn [app]; f_equal; exact E1|]. right. split; [done|]. by apply push_one.
    + eexists (OP_PUSHDATA2 :: _). split; [cbn [app]; f_equal; exact E1|]. right. split; [done|]. by apply push_two.
    + eexists (OP_PUSHDATA4 :: _). split; [cbn [app]; f_equal; exact E1|]. right. split; [done|]. by apply push_four.
Qed.

Lemma GetOp2_shorter pc : op_ok (GetOp2 pc) = true → (length (op_pc (GetOp2 pc)) < length pc)%nat.
Proof.
  destruct pc as [|c pc]; [done|]. unfold GetOp2. destruct (_ <=? _); [|cbn; lia].
  assert (∀ n pc', operand_size c pc = Some (n, pc') → length pc' ≤ length pc)%nat as Hf.
  { unfold operand_size. intros n pc'. repeat case_match; intros [= <- <-]; rewrite ?length_drop; lia. }
  destruct (operand_size c pc) as [[n pc']|]; [|done]. specialize (Hf n pc' eq_refl).
  destruct (_ <? _); cbn; [done|]. rewrite length_drop. lia.
Qed.
