(* ===== verification/ScriptSolver.v ===== *)
(** * Which scripts pay to whom

    The templates of [Solver] as a grammar of scripts ([standard]): the claim is
    that [ExtractDestinations] finds destinations for exactly these scripts. *)
From S2P Require Import Prelude Tx Bytes Base58 Script.

(** ** A step of the matching loop *)
Section steps.
Implicit Types (pc : bytes) (sols r : list bytes) (f : nat) (c n : Z).

Lemma match_end f pc sols r : match_template f pc [] sols = Some r ↔ pc = [] ∧ r = sols.
Proof.
  destruct pc as [|b pc].
  - destruct f; cbn; naive_solver.
  - destruct f; [cbn; naive_solver|]. cbn [match_template]. rewrite bool_decide_false by done. cbn [andb].
    destruct (op_ok _); cbn [negb GetOp2 no_op op_ok]; naive_solver.
Qed.

Lemma match_step f pc c t sols r : OP_PUSHDATA4 < c → c ≠ OP_PUBKEYS →
  match_template (S f) pc (c :: t) sols = Some r ↔ op_ok (GetOp2 pc) = true ∧
    ∃ sols', match_op (GetOp2 pc) (read_op c [] t) sols = Some sols' ∧ match_template f (op_pc (GetOp2 pc)) t sols' = Some r.
Proof.
  intros Hc Hk. cbn [match_template]. rewrite (bool_decide_false (c :: t = [])), andb_false_r by done.
  rewrite (GetOp2_code c t Hc). cbn [read_op op_ok op_code op_pc negb].
  replace (c =? OP_PUBKEYS) with false by lia. destruct (op_ok (GetOp2 pc)); cbn [negb]; [|naive_solver].
  unfold mbind, option_bind. destruct (match_op _ _ _); naive_solver.
Qed.

(** the operation read, in the three shapes the templates ask for *)
Lemma code_read pc c : OP_PUSHDATA4 < c → Forall byte_ok pc →
  op_ok (GetOp2 pc) = true → op_code (GetOp2 pc) = c → pc = c :: op_pc (GetOp2 pc).
Proof.
  intros Hc Hb Hok <-. destruct (GetOp2_inv pc Hb Hok) as (p & E & [(_ & Ep & _)|[Hle _]]); [|lia].
  by rewrite Ep in E.
Qed.

Lemma push_read pc : Forall byte_ok pc → op_ok (GetOp2 pc) = true → op_vch (GetOp2 pc) ≠ [] →
  ∃ p, pc = p ++ op_pc (GetOp2 pc) ∧ pushes p (op_vch (GetOp2 pc)).
Proof.
  intros Hb Hok Hv. destruct (GetOp2_inv pc Hb Hok) as (p & E & [(_ & _ & ?)|[_ Hp]]); [done|]. by exists p.
Qed.

Definition plain_code c : Prop := OP_PUSHDATA4 < c < OP_SMALLDATA.

Lemma step_code f pc c t sols r : plain_code c → Forall byte_ok pc →
  match_template (S f) pc (c :: t) sols = Some r ↔ ∃ pc', pc = c :: pc' ∧ match_template f pc' t sols = Some r.
Proof.
  intros [Hc1 Hc2] Hb. unfold OP_SMALLDATA in Hc2. rewrite match_step by (unfold OP_PUBKEYS; lia).
  unfold match_op, read_op. cbn [op_code op_vch].
  replace (c =? OP_PUBKEY) with false by (unfold OP_PUBKEY; lia).
  replace (c =? OP_PUBKEYHASH) with false by (unfold OP_PUBKEYHASH; lia).
  replace (c =? OP_SMALLINTEGER) with false by (unfold OP_SMALLINTEGER; lia).
  replace (c =? OP_SMALLDATA) with false by (unfold OP_SMALLDATA; lia). split.
  - intros (Hok & sols' & Hm & Hr). destruct (Z.eqb_spec (op_code (GetOp2 pc)) c) as [Ec|]; [|done].
    destruct (bool_decide _); [|done]. injection Hm as <-. exists (op_pc (GetOp2 pc)). split; [by apply code_read|done].
  - intros (pc' & -> & Hr). rewrite (GetOp2_code c pc') by done. cbn [read_op op_ok op_code op_vch op_pc].
    split; [done|]. exists sols. by rewrite Z.eqb_refl, bool_decide_true by done.
Qed.

Definition key_sized (k : bytes) : Prop := (33 ≤ length k ≤ 65)%nat.
Lemma key_size_spec k : key_size k = true ↔ key_sized k.
Proof. unfold key_size, key_sized. rewrite andb_true_iff, !Nat.leb_le. lia. Qed.

Lemma step_pubkey f pc t sols r : Forall byte_ok pc →
  match_template (S f) pc (OP_PUBKEY :: t) sols = Some r ↔
  ∃ p k pc', pc = p ++ pc' ∧ pushes p k ∧ key_sized k ∧ match_template f pc' t (sols ++ [k]) = Some r.
Proof.
  intros Hb. rewrite match_step by done. unfold match_op, read_op. cbn [op_code]. rewrite Z.eqb_refl. split.
  - intros (Hok & sols' & Hm & Hr). destruct (key_size _) eqn:Ek; [|done]. injection Hm as <-.
    apply key_size_spec in Ek. destruct (push_read pc Hb Hok) as (p & E & Hp).
    { intros E. rewrite E in Ek. unfold key_sized in Ek. simpl in Ek. lia. }
    by exists p, (op_vch (GetOp2 pc)), (op_pc (GetOp2 pc)).
  - intros (p & k & pc' & -> & Hp & Hk & Hr). destruct (GetOp2_push p k pc' Hp) as (c & _ & _ & ->). cbn.
    apply key_size_spec in Hk. rewrite Hk. split; [done|]. by eexists.
Qed.

Lemma step_hash f pc t sols r : Forall byte_ok pc →
  match_template (S f) pc (OP_PUBKEYHASH :: t) sols = Some r ↔
  ∃ p h pc', pc = p ++ pc' ∧ pushes p h ∧ length h = 20%nat ∧ match_template f pc' t (sols ++ [h]) = Some r.
Proof.
  intros Hb. rewrite match_step by done. unfold match_op, read_op. cbn [op_code].
  change (OP_PUBKEYHASH =? OP_PUBKEY) with false. rewrite Z.eqb_refl. split.
  - intros (Hok & sols' & Hm & Hr). destruct (Nat.eqb_spec (length (op_vch (GetOp2 pc))) 20) as [Ek|]; [|done].
    injection Hm as <-. destruct (push_read pc Hb Hok) as (p & E & Hp); [intros E; rewrite E in Ek; simpl in Ek; lia|].
    by exists p, (op_vch (GetOp2 pc)), (op_pc (GetOp2 pc)).
  - intros (p & k & pc' & -> & Hp & Hk & Hr). destruct (GetOp2_push p k pc' Hp) as (c & _ & _ & ->). cbn.
    rewrite Hk. split; [done|]. by eexists.
Qed.

Lemma small_read n pc : 0 ≤ n ≤ 16 → GetOp2 (EncodeOP_N n :: pc) = read_op (EncodeOP_N n) [] pc.
Proof.
  intros Hn. unfold EncodeOP_N. destruct (Z.eqb_spec n 0); [|apply GetOp2_code].
  { apply (GetOp2_operand OP_0 [] pc pc); [unfold OP_0, OP_PUSHDATA4; lia|done]. }
  unfold OP_PUSHDATA4, OP_1. lia.
Qed.

(** a small integer as operation *)
Definition is_small c : bool := (c =? OP_0) || ((OP_1 <=? c) && (c <=? OP_16)).
Lemma is_small_spec c : is_small c = true → ∃ n, 0 ≤ n ≤ 16 ∧ c = EncodeOP_N n ∧ DecodeOP_N c = n.
Proof.
  unfold is_small, DecodeOP_N, EncodeOP_N, OP_0, OP_1, OP_16. intros H. destruct (Z.eqb_spec c 0) as [E|Hc].
  - exists 0. by rewrite E.
  - exists (c - 80). replace (c - 80 =? 0) with false by lia. lia.
Qed.
Lemma small_spec n : 0 ≤ n ≤ 16 → is_small (EncodeOP_N n) = true ∧ DecodeOP_N (EncodeOP_N n) = n.
Proof.
  intros Hn. unfold is_small, DecodeOP_N, EncodeOP_N, OP_0, OP_1, OP_16. destruct (Z.eqb_spec n 0) as [->|]; [done|].
  replace (81 + n - 1 =? 0) with false by lia. lia.
Qed.

Lemma small_pc pc : Forall byte_ok pc → op_ok (GetOp2 pc) = true → is_small (op_code (GetOp2 pc)) = true →
  ∃ n, 0 ≤ n ≤ 16 ∧ DecodeOP_N (op_code (GetOp2 pc)) = n ∧ pc = EncodeOP_N n :: op_pc (GetOp2 pc).
Proof.
  intros Hb Hok Hs. destruct (is_small_spec _ Hs) as (n & Hn & Ec & Ed). exists n. split_and!; [lia|lia|done|].
  destruct (Z.eqb_spec n 0) as [->|Hn0].
  - destruct pc as [|c pc]; [done|]. assert (c = 0) as ->.
    2: { change (0 :: pc = 0 :: op_pc (GetOp2 (EncodeOP_N 0 :: pc))). by rewrite small_read. }
    change (EncodeOP_N 0) with 0 in Ec.
    revert Ec. unfold GetOp2, read_op, no_op, OP_INVALIDOPCODE. repeat case_match; cbn [op_code]; lia.
  - rewrite <-Ec. apply code_read; [|done|done|done]. rewrite Ec. unfold EncodeOP_N, OP_PUSHDATA4, OP_1.
    replace (n =? 0) with false by lia. lia.
Qed.

Lemma step_small f pc t sols r : Forall byte_ok pc →
  match_template (S f) pc (OP_SMALLINTEGER :: t) sols = Some r ↔
  ∃ n pc', 0 ≤ n ≤ 16 ∧ pc = EncodeOP_N n :: pc' ∧ match_template f pc' t (sols ++ [[n]]) = Some r.
Proof.
  intros Hb. rewrite match_step by done. unfold match_op, read_op. cbn [op_code].
  change (OP_SMALLINTEGER =? OP_PUBKEY) with false. change (OP_SMALLINTEGER =? OP_PUBKEYHASH) with false.
  rewrite Z.eqb_refl. split.
  - intros (Hok & sols' & Hm & Hr). fold (is_small (op_code (GetOp2 pc))) in Hm.
    destruct (is_small _) eqn:Es; [|done]. injection Hm as <-.
    destruct (small_pc pc Hb Hok Es) as (n & Hn & En & E). rewrite En in Hr. by exists n, (op_pc (GetOp2 pc)).
  - intros (n & pc' & Hn & -> & Hr). rewrite small_read by done. destruct (small_spec n Hn) as [Es Ed].
    cbn [read_op op_ok op_code op_pc]. fold (is_small (EncodeOP_N n)). rewrite Es, Ed. split; [done|]. by eexists.
Qed.

(** ** The keys of a multisig script *)

(** operations that push a key each, with the keys *)
Definition key_pushes (pks : list (bytes * bytes)) : Prop := Forall (λ x, pushes x.1 x.2 ∧ key_sized x.2) pks.

Lemma not_ok pc : op_ok (GetOp2 pc) = false → op_code (GetOp2 pc) = OP_INVALIDOPCODE.
Proof. unfold GetOp2, no_op. by repeat case_match. Qed.

Lemma take_keys_reads fuel pc sols : Forall byte_ok pc → op_ok (GetOp2 pc) = true → (length pc ≤ fuel)%nat →
  ∃ pks pc', pc = concat pks.*1 ++ pc' ∧ key_pushes pks ∧ take_keys fuel (GetOp2 pc) sols = (GetOp2 pc', sols ++ pks.*2).
Proof.
  revert pc sols. induction fuel as [|fuel IH]; intros pc sols Hb Hok Hl.
  { destruct pc; [done|]. simpl in Hl. lia. }
  cbn [take_keys]. destruct (key_size _) eqn:Ek.
  2: { exists [], pc. split_and!; [done|constructor|]. by rewrite app_nil_r. }
  pose proof Ek as Hk. apply key_size_spec in Hk. destruct (push_read pc Hb Hok) as (p & E & Hp).
  { intros E. rewrite E in Hk. unfold key_sized in Hk. simpl in Hk. lia. }
  pose proof (GetOp2_shorter pc Hok) as Hs. set (k := op_vch (GetOp2 pc)) in *. set (rest := op_pc (GetOp2 pc)) in *.
  destruct (op_ok (GetOp2 rest)) eqn:Hok'.
  - destruct (IH rest (sols ++ [k])) as (pks & pc' & E' & Hpks & Et); [|done|lia|].
    { rewrite E in Hb. by apply Forall_app in Hb as [_ ?]. }
    exists ((p, k) :: pks), pc'. split_and!; [|by constructor|by rewrite Et, <-app_assoc].
    cbn [fmap list_fmap concat fst]. by rewrite <-app_assoc, <-E'.
  - exists [(p, k)], rest. split_and!; [cbn; by rewrite app_nil_r|by constructor; [|constructor]|done].
Qed.

Lemma take_keys_gives fuel pks pc sols : key_pushes pks → op_ok (GetOp2 pc) = true → op_vch (GetOp2 pc) = [] →
  (length pks < fuel)%nat → take_keys fuel (GetOp2 (concat pks.*1 ++ pc)) sols = (GetOp2 pc, sols ++ pks.*2).
Proof.
  intros Hk Hok Hv. revert fuel sols. induction Hk as [|[p k] pks [Hp Hks] Hk IH]; intros [|fuel] sols Hf; try (simpl in Hf; lia).
  - cbn. rewrite Hv. cbn. by rewrite app_nil_r.
  - cbn [fmap list_fmap concat fst snd] in *. rewrite <-app_assoc.
    destruct (GetOp2_push p k (concat pks.*1 ++ pc) Hp) as (c & _ & _ & ->). cbn [take_keys read_op op_vch op_pc].
    apply key_size_spec in Hks. rewrite Hks. cbv zeta.
    assert (op_ok (GetOp2 (concat pks.*1 ++ pc)) = true) as ->.
    { destruct Hk as [|[p' k'] pks [Hp' _] _]; [done|]. cbn [fmap list_fmap concat fst snd]. rewrite <-app_assoc.
      by destruct (GetOp2_push p' k' (concat pks.*1 ++ pc) Hp') as (? & _ & _ & ->). }
    rewrite IH by (simpl in Hf; lia). by rewrite <-app_assoc.
Qed.

Lemma keys_length pks pc : key_pushes pks → (length pks ≤ length (concat pks.*1 ++ pc))%nat.
Proof.
  induction 1 as [|[p k] pks [Hp _] _ IH]; [simpl; lia|]. cbn [fmap list_fmap concat fst]. rewrite <-app_assoc, length_app.
  assert (length p ≠ 0)%nat by (cbn in Hp; destruct Hp; simpl; lia). simpl. lia.
Qed.

Lemma step_pubkeys f pc t sols r : Forall byte_ok pc →
  match_template (S f) pc (OP_PUBKEYS :: OP_SMALLINTEGER :: t) sols = Some r ↔
  ∃ pks n pc', 0 ≤ n ≤ 16 ∧ pc = concat pks.*1 ++ EncodeOP_N n :: pc' ∧ key_pushes pks ∧
    match_template f pc' t (sols ++ pks.*2 ++ [[n]]) = Some r.
Proof.
  intros Hb. cbn [match_template]. rewrite (bool_decide_false (OP_PUBKEYS :: _ = [])), andb_false_r by done.
  rewrite (GetOp2_code OP_PUBKEYS (OP_SMALLINTEGER :: t)) by done. cbn [read_op op_ok op_code op_pc negb].
  change (OP_PUBKEYS =? OP_PUBKEYS) with true. cbv iota. rewrite (GetOp2_code OP_SMALLINTEGER t) by done. split.
  - destruct (op_ok (GetOp2 pc)) eqn:Hok; cbn [negb]; [|done].
    destruct (take_keys_reads (S (length pc)) pc sols Hb Hok ltac:(lia)) as (pks & pc' & E & Hk & ->).
    cbn [read_op op_ok op_code op_pc negb]. unfold match_op. cbn [read_op op_code].
    change (OP_SMALLINTEGER =? OP_PUBKEY) with false. change (OP_SMALLINTEGER =? OP_PUBKEYHASH) with false.
    rewrite Z.eqb_refl. fold (is_small (op_code (GetOp2 pc'))). destruct (is_small _) eqn:Es; [|done].
    unfold mbind, option_bind. intros Hr. assert (op_ok (GetOp2 pc') = true) as Hok'.
    { destruct (op_ok (GetOp2 pc')) eqn:Ho; [done|]. by rewrite (not_ok pc' Ho) in Es. }
    destruct (small_pc pc') as (n & Hn & En & E'); [|done|done|].
    { rewrite E in Hb. by apply Forall_app in Hb as [_ ?]. }
    exists pks, n, (op_pc (GetOp2 pc')). split_and!; [lia|lia|by rewrite <-E'|done|]. by rewrite En, <-app_assoc in Hr.
  - intros (pks & n & pc' & Hn & -> & Hk & Hr). pose proof (small_read n pc' Hn) as E0.
    assert (op_ok (GetOp2 (concat pks.*1 ++ EncodeOP_N n :: pc')) = true) as ->.
    { destruct Hk as [|[p k] pks [Hp _] _]; [exact (f_equal op_ok E0)|]. cbn [fmap list_fmap concat fst]. rewrite <-app_assoc.
      by destruct (GetOp2_push p k (concat pks.*1 ++ EncodeOP_N n :: pc') Hp) as (? & _ & _ & ->). }
    cbn [negb]. rewrite take_keys_gives; [|done|by rewrite E0|by rewrite E0|pose proof (keys_length pks (EncodeOP_N n :: pc') Hk); lia].
    rewrite E0. destruct (small_spec n Hn) as [Es Ed]. cbn [read_op op_ok op_code op_pc negb]. unfold match_op. cbn [read_op op_code].
    change (OP_SMALLINTEGER =? OP_PUBKEY) with false. change (OP_SMALLINTEGER =? OP_PUBKEYHASH) with false.
    rewrite Z.eqb_refl. fold (is_small (EncodeOP_N n)). rewrite Es, Ed. unfold mbind, option_bind. by rewrite <-app_assoc.
Qed.
End steps.

(** ** The templates as a grammar *)
Section grammar.
Variable Hash160 : bytes → bytes.
Implicit Types (s p h k : bytes) (ds : list CTxDestination) (pks : list (bytes * bytes)).
Abbreviation GetID := (GetID Hash160).
Abbreviation ExtractDestinations := (ExtractDestinations Hash160).

(** the scripts that pay to somebody; a key or a hash may be pushed by any
    operation that pushes it *)
Inductive standard : bytes → txnouttype → list CTxDestination → Prop :=
| std_scripthash h : length h = 20%nat →
    standard ([OP_HASH160; 20] ++ h ++ [OP_EQUAL]) TX_SCRIPTHASH [CScriptID h]
| std_pubkey p k : pushes p k → key_sized k → standard (p ++ [OP_CHECKSIG]) TX_PUBKEY [CKeyID (GetID k)]
| std_pubkeyhash p h : pushes p h → length h = 20%nat →
    standard ([OP_DUP; OP_HASH160] ++ p ++ [OP_EQUALVERIFY; OP_CHECKSIG]) TX_PUBKEYHASH [CKeyID h]
| std_multisig m pks : 1 ≤ m ≤ Z.of_nat (length pks) → Z.of_nat (length pks) ≤ 16 → key_pushes pks →
    standard (EncodeOP_N m :: concat pks.*1 ++ [EncodeOP_N (Z.of_nat (length pks)); OP_CHECKMULTISIG])
      TX_MULTISIG ((λ k, CKeyID (GetID k)) <$> pks.*2).

Lemma scripthash_spec s : IsPayToScriptHash s = true ↔ ∃ h, length h = 20%nat ∧ s = [OP_HASH160; 20] ++ h ++ [OP_EQUAL].
Proof.
  unfold IsPayToScriptHash. rewrite !andb_true_iff, !bool_decide_eq_true, Nat.eqb_eq. split.
  - intros [[[Hl H0] H1] H2]. destruct s as [|a [|b s]]; [done..|]. injection H0 as ->. injection H1 as ->.
    simpl in Hl. destruct s as [|e h _] using rev_ind; [done|]. rewrite length_app in Hl. simpl in Hl.
    exists h. split; [lia|]. change (([OP_HASH160; 20] ++ h ++ [e]) !! 22%nat = Some OP_EQUAL) in H2.
    rewrite !lookup_app_r in H2 by (simpl; lia). simpl in H2. replace (20 - length h)%nat with 0%nat in H2 by lia.
    by injection H2 as ->.
  - intros (h & Hl & ->). rewrite !length_app, Hl. split_and!; [done|done|done|].
    rewrite !lookup_app_r by (simpl; lia). simpl. by rewrite Hl.
Qed.

Lemma pushes_head p k : pushes p k → ∃ c p', p = c :: p' ∧ 0 ≤ c ≤ OP_PUSHDATA4.
Proof.
  intros Hp. destruct (GetOp2_push p k [] Hp) as (c & Hh & Hc & _). destruct p as [|c' p]; [done|].
  injection Hh as ->. by exists c, p.
Qed.

Lemma match_pubkey s r : Forall byte_ok s → match_template 2 s [OP_PUBKEY; OP_CHECKSIG] [] = Some r ↔
  ∃ p k, s = p ++ [OP_CHECKSIG] ∧ pushes p k ∧ key_sized k ∧ r = [k].
Proof.
  intros Hb. rewrite step_pubkey by done. split.
  - intros (p & k & pc & -> & Hp & Hk & Hm). apply Forall_app in Hb as [_ Hb].
    apply step_code in Hm as (pc' & -> & [-> ->]%match_end); [|done|done]. by exists p, k.
  - intros (p & k & -> & Hp & Hk & ->). exists p, k, [OP_CHECKSIG]. split_and!; [done..|].
    apply Forall_app in Hb as [_ Hb]. apply step_code; [done|done|]. exists []. split; [done|]. by apply match_end.
Qed.

Lemma match_pubkeyhash s r : Forall byte_ok s →
  match_template 5 s [OP_DUP; OP_HASH160; OP_PUBKEYHASH; OP_EQUALVERIFY; OP_CHECKSIG] [] = Some r ↔
  ∃ p h, s = [OP_DUP; OP_HASH160] ++ p ++ [OP_EQUALVERIFY; OP_CHECKSIG] ∧ pushes p h ∧ length h = 20%nat ∧ r = [h].
Proof.
  intros Hb. rewrite step_code by done. split.
  - intros (s1 & -> & Hm). apply Forall_cons in Hb as [_ Hb].
    apply step_code in Hm as (s2 & -> & Hm); [|done|done]. apply Forall_cons in Hb as [_ Hb].
    apply step_hash in Hm as (p & h & s3 & -> & Hp & Hh & Hm); [|done]. apply Forall_app in Hb as [_ Hb].
    apply step_code in Hm as (s4 & -> & Hm); [|done|done]. apply Forall_cons in Hb as [_ Hb].
    apply step_code in Hm as (s5 & -> & [-> ->]%match_end); [|done|done]. by exists p, h.
  - intros (p & h & -> & Hp & Hh & ->). eexists. split; [done|]. apply Forall_cons in Hb as [_ Hb].
    apply step_code; [done|done|]. eexists. split; [done|]. apply Forall_cons in Hb as [_ Hb].
    apply step_hash; [done|]. exists p, h, [OP_EQUALVERIFY; OP_CHECKSIG]. split_and!; [done..|].
    apply Forall_app in Hb as [_ Hb]. apply step_code; [done|done|]. eexists. split; [done|].
    apply Forall_cons in Hb as [_ Hb]. apply step_code; [done|done|]. exists []. split; [done|]. by apply match_end.
Qed.

Lemma match_multisig s r : Forall byte_ok s →
  match_template 4 s [OP_SMALLINTEGER; OP_PUBKEYS; OP_SMALLINTEGER; OP_CHECKMULTISIG] [] = Some r ↔
  ∃ m pks n, s = EncodeOP_N m :: concat pks.*1 ++ [EncodeOP_N n; OP_CHECKMULTISIG] ∧ 0 ≤ m ≤ 16 ∧ 0 ≤ n ≤ 16 ∧
    key_pushes pks ∧ r = [m] :: pks.*2 ++ [[n]].
Proof.
  intros Hb. rewrite step_small by done. split.
  - intros (m & s1 & Hm & -> & Hr). apply Forall_cons in Hb as [_ Hb].
    apply step_pubkeys in Hr as (pks & n & s2 & Hn & -> & Hk & Hr); [|done].
    apply Forall_app in Hb as [_ Hb]. apply Forall_cons in Hb as [_ Hb].
    apply step_code in Hr as (s3 & -> & [-> ->]%match_end); [|done|done]. by exists m, pks, n.
  - intros (m & pks & n & -> & Hm & Hn & Hk & ->). exists m, (concat pks.*1 ++ [EncodeOP_N n; OP_CHECKMULTISIG]).
    split_and!; [lia|lia|done|]. apply Forall_cons in Hb as [_ Hb]. apply step_pubkeys; [done|].
    exists pks, n, [OP_CHECKMULTISIG]. split_and!; [lia|lia|done|done|].
    apply Forall_app in Hb as [_ Hb]. apply Forall_cons in Hb as [_ Hb].
    apply step_code; [done|done|]. exists []. split; [done|]. by apply match_end.
Qed.

(** ** What [Solver] returns *)

Definition found ty sols : solved := {| sv_ok := true; sv_type := ty; sv_sols := sols |}.

(** the count in a multisig script is that of its keys *)
Definition multisig_ok (m n : Z) pks : bool :=
  negb ((m <? 1) || (n <? 1) || (n <? m) || negb (Z.of_nat (length pks) =? n)).

Lemma scan_multisig s m n pks l : Forall byte_ok s →
  s = EncodeOP_N m :: concat pks.*1 ++ [EncodeOP_N n; OP_CHECKMULTISIG] → 0 ≤ m ≤ 16 → 0 ≤ n ≤ 16 → key_pushes pks →
  scan_templates s ((TX_MULTISIG, [OP_SMALLINTEGER; OP_PUBKEYS; OP_SMALLINTEGER; OP_CHECKMULTISIG]) :: l) =
    {| sv_ok := multisig_ok m n pks; sv_type := TX_MULTISIG; sv_sols := [m] :: pks.*2 ++ [[n]] |}.
Proof.
  intros Hb Es Hm Hn Hk. cbn [scan_templates length].
  rewrite (proj2 (match_multisig s ([m] :: pks.*2 ++ [[n]]) Hb)) by (exists m, pks, n; split_and!; try done; lia).
  cbn [head default]. rewrite app_comm_cons, last_snoc. cbn [default head].
  rewrite length_app. cbn [length]. rewrite length_fmap, bool_decide_true by done. cbn [andb].
  replace (Z.of_nat (S (length pks) + 1) - 2) with (Z.of_nat (length pks)) by lia. done.
Qed.

(** every script, by the template it matches *)
Lemma Solver_cases s : Forall byte_ok s →
  (∃ h, length h = 20%nat ∧ s = [OP_HASH160; 20] ++ h ++ [OP_EQUAL] ∧ Solver s = found TX_SCRIPTHASH [h]) ∨
  (∃ p k, s = p ++ [OP_CHECKSIG] ∧ pushes p k ∧ key_sized k ∧ Solver s = found TX_PUBKEY [k]) ∨
  (∃ p h, s = [OP_DUP; OP_HASH160] ++ p ++ [OP_EQUALVERIFY; OP_CHECKSIG] ∧ pushes p h ∧ length h = 20%nat ∧
    Solver s = found TX_PUBKEYHASH [h]) ∨
  (∃ m pks n, s = EncodeOP_N m :: concat pks.*1 ++ [EncodeOP_N n; OP_CHECKMULTISIG] ∧ 0 ≤ m ≤ 16 ∧ 0 ≤ n ≤ 16 ∧
    key_pushes pks ∧ Solver s = {| sv_ok := multisig_ok m n pks; sv_type := TX_MULTISIG; sv_sols := [m] :: pks.*2 ++ [[n]] |}) ∨
  sv_type (Solver s) = TX_NULL_DATA ∨ (sv_ok (Solver s) = false ∧ sv_type (Solver s) = TX_NONSTANDARD).
Proof.
  intros Hb. unfold Solver. destruct (IsPayToScriptHash s) eqn:Ep.
  { apply scripthash_spec in Ep as (h & Hh & ->). left. exists h. split_and!; [done|done|].
    change (drop 2 ([OP_HASH160; 20] ++ h ++ [OP_EQUAL])) with (h ++ [OP_EQUAL]). by rewrite take_app_length'. }
  right. unfold mTemplates. cbn [scan_templates length].
  destruct (match_template 2 s _ []) as [r|] eqn:E1.
  { left. apply match_pubkey in E1 as (p & k & -> & Hp & Hk & ->); [|done]. by exists p, k. }
  right. destruct (match_template 5 s _ []) as [r|] eqn:E2.
  { left. apply match_pubkeyhash in E2 as (p & h & -> & Hp & Hh & ->); [|done]. by exists p, h. }
  right. destruct (match_template 4 s _ []) as [r|] eqn:E3.
  { left. pose proof E3 as E. apply match_multisig in E as (m & pks & n & Es & Hm & Hn & Hk & Er); [|done].
    exists m, pks, n. split_and!; [done|lia|lia|lia|lia|done|].
    rewrite <-(scan_multisig s m n pks [] Hb Es Hm Hn Hk). cbn [scan_templates length]. by rewrite E3. }
  right. destruct (match_template 2 s [OP_RETURN; _] []) as [r|]; [by left|].
  destruct (match_template 1 s _ []) as [r|]; [by left|by right].
Qed.

(** a standard script is not one of a template that comes earlier *)
Lemma not_scripthash c s : c ≠ OP_HASH160 → IsPayToScriptHash (c :: s) = false.
Proof.
  intros Hc. destruct (IsPayToScriptHash (c :: s)) eqn:E; [|done].
  apply scripthash_spec in E as (h & _ & E). by injection E as ->.
Qed.
Lemma not_pubkey c s : OP_PUSHDATA4 < c → Forall byte_ok (c :: s) → match_template 2 (c :: s) [OP_PUBKEY; OP_CHECKSIG] [] = None.
Proof.
  intros Hc Hb. destruct (match_template 2 _ _ []) as [r|] eqn:E; [|done].
  apply match_pubkey in E as (p & k & E & Hp & _); [|done]. apply pushes_head in Hp as (c' & p' & -> & Hc').
  injection E as -> _. lia.
Qed.
Lemma not_pubkeyhash c s : c ≠ OP_DUP → Forall byte_ok (c :: s) →
  match_template 5 (c :: s) [OP_DUP; OP_HASH160; OP_PUBKEYHASH; OP_EQUALVERIFY; OP_CHECKSIG] [] = None.
Proof.
  intros Hc Hb. destruct (match_template 5 _ _ []) as [r|] eqn:E; [|done].
  apply match_pubkeyhash in E as (p & k & E & _); [|done]. by injection E as ->.
Qed.

Lemma Solver_pubkey p k : Forall byte_ok (p ++ [OP_CHECKSIG]) → pushes p k → key_sized k →
  Solver (p ++ [OP_CHECKSIG]) = found TX_PUBKEY [k].
Proof.
  intros Hb Hp Hk. unfold Solver. destruct (pushes_head p k Hp) as (c & p' & E & Hc).
  assert (IsPayToScriptHash (p ++ [OP_CHECKSIG]) = false) as ->.
  { rewrite E. apply not_scripthash. intros ->. unfold OP_HASH160, OP_PUSHDATA4 in Hc. lia. }
  unfold mTemplates. cbn [scan_templates length].
  by rewrite (proj2 (match_pubkey (p ++ [OP_CHECKSIG]) [k] Hb)) by (by exists p, k).
Qed.

Lemma Solver_pubkeyhash p h : let s := [OP_DUP; OP_HASH160] ++ p ++ [OP_EQUALVERIFY; OP_CHECKSIG] in
  Forall byte_ok s → pushes p h → length h = 20%nat → Solver s = found TX_PUBKEYHASH [h].
Proof.
  intros s Hb Hp Hh. pose proof (proj2 (match_pubkeyhash s [h] Hb)) as E. subst s. cbn [app] in *. unfold Solver.
  rewrite not_scripthash by done. unfold mTemplates. cbn [scan_templates length].
  rewrite not_pubkey by done. by rewrite E by (by exists p, h).
Qed.

Lemma Solver_multisig m pks : let s := EncodeOP_N m :: concat pks.*1 ++ [EncodeOP_N (Z.of_nat (length pks)); OP_CHECKMULTISIG] in
  Forall byte_ok s → 1 ≤ m ≤ Z.of_nat (length pks) → Z.of_nat (length pks) ≤ 16 → key_pushes pks →
  Solver s = found TX_MULTISIG ([m] :: pks.*2 ++ [[Z.of_nat (length pks)]]).
Proof.
  intros s Hb Hm Hn Hk. assert (81 ≤ EncodeOP_N m ≤ 96) as Hc.
  { unfold EncodeOP_N, OP_1. replace (m =? 0) with false by lia. lia. }
  unfold Solver. subst s. rewrite not_scripthash by (unfold OP_HASH160; lia). unfold mTemplates.
  cbn [scan_templates length]. rewrite not_pubkey by (unfold OP_PUSHDATA4; done || lia).
  rewrite not_pubkeyhash by (unfold OP_DUP; done || lia).
  pose proof (scan_multisig _ m (Z.of_nat (length pks)) pks [] Hb eq_refl ltac:(lia) ltac:(lia) Hk) as E.
  cbn [scan_templates length] in E. destruct (match_template 4 _ _ []) as [r|]; [|discriminate E]. rewrite E.
  unfold multisig_ok, found. f_equal.
  replace (m <? 1) with false by lia. replace (_ <? 1) with false by lia. replace (_ <? m) with false by lia.
  by rewrite Z.eqb_refl.
Qed.

Lemma multisig_ok_spec m n pks : multisig_ok m n pks = true → 1 ≤ m ≤ n ∧ n = Z.of_nat (length pks).
Proof.
  unfold multisig_ok. destruct (Z.ltb_spec m 1), (Z.ltb_spec n 1), (Z.ltb_spec n m); cbn [orb negb]; try done.
  destruct (Z.eqb_spec (Z.of_nat (length pks)) n); [lia|done].
Qed.

Lemma keys_between (m n : bytes) (ks : list bytes) : removelast (tail (m :: ks ++ [n])) = ks.
Proof. apply removelast_last. Qed.

Lemma extract_solved s ty sols : Solver s = found ty sols → ty ≠ TX_NULL_DATA → ty ≠ TX_MULTISIG → ty ≠ TX_NONSTANDARD →
  ∃ d, ExtractDestination Hash160 s = Some d ∧
    ExtractDestinations s = {| ex_ok := true; ex_type := ty; ex_addresses := [d]; ex_required := Some 1 |}.
Proof. intros E ???. unfold Script.ExtractDestinations, ExtractDestination. rewrite E. destruct ty; try done; by eexists. Qed.

Lemma standard_extracted s ty ds : Forall byte_ok s → standard s ty ds →
  let e := ExtractDestinations s in ex_ok e = true ∧ ex_type e = ty ∧ ex_addresses e = ds.
Proof.
  intros Hb Hs. unfold Script.ExtractDestinations, ExtractDestination. destruct Hs as [h Hh|p k Hp Hk|p h Hp Hh|m pks Hm Hn Hk].
  - unfold Solver. rewrite (proj2 (scripthash_spec _)) by (by exists h). cbn [sv_ok sv_type sv_sols negb head default].
    split_and!; [done|done|]. cbn [ex_addresses]. do 2 f_equal.
    change (drop 2 ([OP_HASH160; 20] ++ h ++ [OP_EQUAL])) with (h ++ [OP_EQUAL]). by rewrite take_app_length'.
  - by rewrite (Solver_pubkey p k Hb Hp Hk).
  - by rewrite (Solver_pubkeyhash p h Hb Hp Hh).
  - rewrite (Solver_multisig m pks Hb Hm Hn Hk). cbn [found sv_ok sv_type sv_sols negb ex_ok ex_type ex_addresses].
    by rewrite keys_between.
Qed.

Lemma extracted_standard s : Forall byte_ok s → let e := ExtractDestinations s in
  if ex_ok e then standard s (ex_type e) (ex_addresses e) else ex_addresses e = [].
Proof.
  intros Hb. unfold Script.ExtractDestinations, ExtractDestination.
  destruct (Solver_cases s Hb) as [(h & Hh & -> & ->)|[(p & k & -> & Hp & Hk & ->)|[(p & h & -> & Hp & Hh & ->)|
    [(m & pks & n & -> & Hm & Hn & Hk & ->)|[Ht|[Ho Ht]]]]]].
  - by apply std_scripthash.
  - by apply std_pubkey.
  - by apply std_pubkeyhash.
  - cbn [sv_ok sv_type sv_sols]. destruct (multisig_ok m n pks) eqn:Ho; cbn [negb ex_ok ex_type ex_addresses]; [|done].
    apply multisig_ok_spec in Ho as [Hmn ->]. rewrite keys_between. apply std_multisig; [done|lia|done].
  - rewrite Ht. by destruct (sv_ok _).
  - by rewrite Ho.
Qed.

(** C16 — [ExtractDestinations] finds destinations for exactly the scripts of the
    grammar [standard], with their type and in their order: a hash of a script, a
    key, a hash of a key, and at most sixteen keys of which at least one and at most
    all are required; every operation that pushes a key or hash counts, and a
    script that fails has no destination. *)
Theorem destinations_exact s : Forall byte_ok s → let e := ExtractDestinations s in
  (∀ ty ds, ex_ok e = true ∧ ex_type e = ty ∧ ex_addresses e = ds ↔ standard s ty ds) ∧
  (ex_ok e = false → ex_addresses e = []).
Proof.
  intros Hb e. pose proof (extracted_standard s Hb) as He. fold e in He. cbv zeta in He. split.
  - intros ty ds. split; [|by apply standard_extracted]. intros (Ho & <- & <-). by rewrite Ho in He.
  - intros Ho. by rewrite Ho in He.
Qed.

(** a destination is found in the script that is made for it *)
Lemma SetDestination_read d : Forall byte_ok (SetDestination d) →
  (∃ h, (d = CKeyID h ∨ d = CScriptID h) ∧ length h = 20%nat) → ex_addresses (ExtractDestinations (SetDestination d)) = [d].
Proof.
  intros Hb (h & [-> | ->] & Hh).
  - refine (proj2 (proj2 (standard_extracted _ TX_PUBKEYHASH _ Hb (std_pubkeyhash (20 :: h) h _ Hh)))).
    replace 20 with (Z.of_nat (length h)) by lia. apply push_short. lia.
  - apply (standard_extracted _ TX_SCRIPTHASH _ Hb), std_scripthash, Hh.
Qed.
End grammar.
