(* ===== verification/RecognizeBlock.v ===== *)
(** * Recognizing the miner of a block (src/jiexi/src/RecognizeBlock.cc)

    For every block of a range of heights the parser looks the coinbase up,
    names the pool it pays or whose tag it carries, and stores the name under key
    15.  The pools come from a JSON file ([loadConfigJson], read once with a
    third-party reader) and are a parameter. *)
From S2P Require Import Prelude Tx Bytes Text Serialize Ledger ParserTx ParserBlock KVDB Codec.

Record MinerInfo := { poolName_ : bytes; poolLink_ : bytes }.
Record MinerCoinbaseTag := { keyword_ : bytes; minerInfo_ : MinerInfo }.
Record pools := {
  payoutAddresses_ : gmap bytes MinerInfo;
  coinbaseTags_ : list MinerCoinbaseTag }.

(** Class Parser with the table under key 15, block hash to text. *)
Record whole := { core : parser; kv_extra : gmap bytes bytes }.
Definition with_core (p : parser) (w : whole) : whole := {| core := p; kv_extra := kv_extra w |}.
Definition with_extra (f : gmap bytes bytes → gmap bytes bytes) (w : whole) : whole :=
  {| core := core w; kv_extra := f (kv_extra w) |}.

(** [std::string::find] *)
Fixpoint starts_with (k s : bytes) : bool :=
  match k, s with
  | [], _ => true
  | _ :: _, [] => false
  | a :: k, b :: s => (a =? b) && starts_with k s
  end.
Fixpoint contains (k s : bytes) : bool :=
  starts_with k s || match s with [] => false | _ :: s => contains k s end.

(** the first payout address among the outputs, else the first tag in an input *)
Fixpoint first_some {A B} (f : A → option B) (l : list A) : option B :=
  match l with
  | [] => None
  | x :: l => match f x with Some y => Some y | None => first_some f l end
  end.
Definition input_tag (c : pools) (i : TxInput) : option MinerInfo :=
  let scriptStr := (Hex2Bin (ti_script_hex i)).2 in
  first_some (λ t, if contains (keyword_ t) scriptStr then Some (minerInfo_ t) else None) (coinbaseTags_ c).
Definition recognizeCoinbaseTx (c : pools) (cbtx : TxObject) : MinerInfo :=
  match first_some (λ o, first_some (λ a, payoutAddresses_ c !! a) (to_addresses o)) (o_outputs cbtx) with
  | Some info => info
  | None =>
      default {| poolName_ := "unknown"; poolLink_ := [] |} (first_some (input_tag c) (o_inputs cbtx))
  end.

Definition extra_text (i : MinerInfo) : bytes :=
  [123] ++ [34] ++ "pool_name" ++ [34; 58; 34] ++ escapeJson (poolName_ i) ++ [34; 44] ++
  [34] ++ "pool_link" ++ [34; 58; 34] ++ escapeJson (poolLink_ i) ++ [34] ++ [125].

(** [%010d] *)
Definition pad10 (z : Z) : bytes :=
  let s := fmt_u (Z.abs z) in
  if z <? 0 then 45 :: replicate (9 - length s) 48 ++ s else replicate (10 - length s) 48 ++ s.

(** The part of the store a range of heights meets: the heights, and the keys
    that come next, of which only the order matters. *)
Definition height_key (h : Z) : bytes := "10_" ++ pad10 h.
Definition height_store (t : block_tables) : store :=
  kmap height_key (kv_height t) ∪ kmap (λ h, lit "11_" ++ ToString h) ((λ _, []) <$> kv_block t).

Section recognize.
Variable c : pools.

(** [recognizeCoinbaseTx] of a block hash and its coinbase *)
Definition recordBlock (hash : bytes) (cbtx : TxObject) : M whole unit :=
  modify (with_extra (<[hash := extra_text (recognizeCoinbaseTx c cbtx)]>)).

(** the loop over the hashes; the first block that was recognized ends it *)
Fixpoint recognize_loop (stopWhenReachLast : bool) (values : list bytes) : M whole unit :=
  match values with
  | [] => mret tt
  | hash :: values =>
      w ← get;
      if stopWhenReachLast && bool_decide (is_Some (kv_extra w !! hash)) then mret tt
      else
        blockTxs ← kv_get (kv_block_txs (blks (core w)) !! (SetHex hash, 0));
        cbtx ← kv_get (kv_tx (tables (txs (core w))) !! SetHex (take 64 blockTxs));
        recordBlock hash cbtx ;;
        recognize_loop stopWhenReachLast values
  end.

Definition recognizeBlocks (beginHeight endHeight : Z) (stopWhenReachLast : bool) : M whole unit :=
  w ← get;
  kvs ← lift_outcome (range (height_store (blks (core w))) (height_key beginHeight) (height_key endHeight) 99999999 0);
  recognize_loop stopWhenReachLast kvs.*2.
End recognize.
