(* ===== verification/HttpApi.v ===== *)
(** * The HTTP API (src/jiexi/src/HttpAPI.h, HttpAPI.cc)

    Two read-only services on the key-value store: /kv hands out raw values in a
    flatbuffer, /api answers in JSON.  A request is what [evhtp_kv_find] finds in
    it, a reply is the object or the text that is sent; sockets, the headers that
    carry a checksum and a duration, and the encoding as a flatbuffer are the
    libraries' part. *)
From S2P Require Import Prelude Tx Bytes Text Serialize TxState Notify Ledger ParserTx ParserBlock KVDB Codec RecognizeBlock Base58.

Record request := { query : bytes → option bytes; headers_in : bytes → option bytes }.

Definition API_ERROR_SUCCESS : Z := 0.
Definition API_ERROR_EMPTY_PARAMS : Z := 100.
Definition API_ERROR_TOO_MANY_PARAMS : Z := 101.
Definition API_ERROR_EMPTY_METHOD : Z := 102.
Definition API_ERROR_METHOD_NOT_REGISTERED : Z := 103.
Definition API_ERROR_INVALID_PARAMS : Z := 201.

(** ** The key-value service *)

Record APIResponse := {
  data_ : bytes;
  length_ : list Z;
  offset_ : list Z;
  types_ : list bytes;
  keys_ : list bytes }.
Definition emptyResponse : APIResponse :=
  {| data_ := []; length_ := []; offset_ := []; types_ := []; keys_ := [] |}.

(** the table of types, for the 100 prefixes of two digits *)
Definition gKeyTypes : list (option bytes) :=
  foldl (λ l p, <[p.1 := Some p.2]> l) (replicate 100 None)
    [(1, lit "Tx"); (2, lit "TxSpentBy"); (3, lit "UnconfirmedTx"); (10, lit "string"); (11, lit "Block");
     (12, lit "string"); (13, lit "string"); (14, lit "string"); (15, lit "string"); (20, lit "Address");
     (21, lit "AddressTx"); (22, lit "string"); (23, lit "AddressUnspent"); (24, lit "AddressUnspentIdx");
     (30, lit "DoubleSpending"); (90, lit "string")]%nat.
Definition key_type (key : bytes) : bytes :=
  let keyPrefixInt := atoi (c_str (take 2 key)) in
  if (0 <=? keyPrefixInt) && (u64 keyPrefixInt <? Z.of_nat (length gKeyTypes))
  then default [] (gKeyTypes !! Z.to_nat keyPrefixInt ≫= id) else [].

(** a round of the loop of [dbPut2Resp], on vectors that grow by it *)
Definition put_value (resp : APIResponse) (kv : bytes * bytes) : APIResponse :=
  {| types_ := types_ resp ++ [key_type kv.1];
     offset_ := offset_ resp ++ [i32 (Z.of_nat (length (data_ resp)))];
     length_ := length_ resp ++ [i32 (Z.of_nat (length kv.2))];
     keys_ := keys_ resp ++ [kv.1];
     data_ := data_ resp ++ kv.2 |}.
(** the keys with their values; [resp] is empty where it is called *)
Definition dbPut2Resp (kvs : list (bytes * bytes)) (resp : APIResponse) : APIResponse := foldl put_value resp kvs.

(** [KVDB::multiGet] leaves the value of a key it does not find empty *)
Definition multiGet (db : gmap bytes bytes) (keys : list bytes) : list bytes := (λ k, default [] (db !! k)) <$> keys.
Definition dbGetKeys (db : gmap bytes bytes) (keys : list bytes) (resp : APIResponse) : outcome APIResponse :=
  if bool_decide (keys = []) then Raise AssertFail
  else Done (dbPut2Resp (zip keys (multiGet db keys)) resp).
Definition dbRangeKeys (db : gmap bytes bytes) (start stop : bytes) (limit offset : Z) (resp : APIResponse) :
    outcome APIResponse :=
  kvs ← range db start stop limit offset;
  if bool_decide (kvs = []) then Done resp else Done (dbPut2Resp kvs resp).

(** what [kv_output] sends: the object and the header RequestID *)
Record kv_reply := { error_no : Z; error_msg : bytes; response : APIResponse; RequestID : bytes }.
Definition status_ok (r : kv_reply) : bool := error_no r =? 0.
Definition kv_output (queryId : bytes) (resp : APIResponse) : kv_reply :=
  {| error_no := API_ERROR_SUCCESS; error_msg := []; response := resp; RequestID := queryId |}.

Section kv.
Variable now : Z.   (** milliseconds *)
Definition freshId : bytes := lit "rocksdb-" ++ fmt_d now.
Definition kv_output_error (no : Z) (msg : bytes) : kv_reply :=
  {| error_no := no; error_msg := msg; response := emptyResponse; RequestID := freshId |}.

Definition kv_handle_get (db : gmap bytes bytes) (params : list bytes) (queryId : bytes) : outcome kv_reply :=
  if bool_decide (params = []) then Done (kv_output_error API_ERROR_EMPTY_PARAMS (lit "params is empty"))
  else resp ← dbGetKeys db params emptyResponse; Done (kv_output queryId resp).

Definition kv_handle_range (db : gmap bytes bytes) (params : list bytes) (queryId : bytes) : outcome kv_reply :=
  match params with
  | start :: stop :: lim :: rest =>
      let limit := atoi lim in
      if (limit <=? 0) || (100000 <? limit) then
        Done (kv_output_error API_ERROR_INVALID_PARAMS (lit "invalid limit"))
      else
        let offset := match rest with off :: _ => atoi off | [] => 0 end in
        if offset <? 0 then Done (kv_output_error API_ERROR_INVALID_PARAMS (lit "invalid offset"))
        else resp ← dbRangeKeys db start stop limit offset emptyResponse; Done (kv_output queryId resp)
  | _ => Done (kv_output_error API_ERROR_INVALID_PARAMS
             (lit "params should be: {start_key, end_key, limit, [offset]}"))
  end.

Definition kv_handle_ping (queryId : bytes) : kv_reply :=
  let s := lit "pong" in
  kv_output queryId {| data_ := s; length_ := [i32 (Z.of_nat (length s))]; offset_ := [0];
    types_ := [lit "string"]; keys_ := [lit "ping"] |}.

Definition kMaxParamsCount : Z := 10000.
(** the parameters of a request; the values found are C strings *)
Definition kv_params (queryParams : option bytes) : list bytes :=
  match queryParams with
  | Some s => UrlDecode <$> split_limit s 44 (kMaxParamsCount + 1)
  | None => []
  end.
Definition cb_kv (db : gmap bytes bytes) (req : request) : outcome kv_reply :=
  let queryMethod := query req (lit "method") in
  let queryId := default freshId (headers_in req (lit "RequestID")) in
  let params := kv_params (query req (lit "params")) in
  if kMaxParamsCount <? Z.of_nat (length params) then
    Done (kv_output_error API_ERROR_TOO_MANY_PARAMS (lit "too many params, max: " ++ fmt_d kMaxParamsCount))
  else match queryMethod with
  | None => Done (kv_output_error API_ERROR_EMPTY_METHOD (lit "method is empty"))
  | Some m =>
      if bool_decide (m = lit "ping") then Done (kv_handle_ping queryId)
      else if bool_decide (m = lit "get") then kv_handle_get db params queryId
      else if bool_decide (m = lit "range") then kv_handle_range db params queryId
      else Done (kv_output_error API_ERROR_METHOD_NOT_REGISTERED (lit "method is not registered"))
  end.
End kv.

(** ** The JSON service *)

(** a buffer the handlers append to *)
Definition append (s : bytes) : M bytes unit := modify (λ buf, buf ++ s).
Definition jkey (name : bytes) : bytes := [34] ++ name ++ [34; 58].
Definition put_d (name : bytes) (z : Z) : M bytes unit := append (jkey name ++ fmt_d z ++ [44]).
Definition put_u (name : bytes) (z : Z) : M bytes unit := append (jkey name ++ fmt_u z ++ [44]).
Definition put_s (name s : bytes) : M bytes unit := append (jkey name ++ [34] ++ c_str s ++ [34; 44]).
Definition removeLastComma : M bytes unit :=
  modify (λ buf, if bool_decide (last buf = Some 44) then removelast buf else buf).

Section getTx.
Variable (t : tx_tables).

(** key 01 with a hash as text *)
Definition tx_object (txHash : bytes) : option TxObject :=
  if bool_decide (ToString (SetHex txHash) = txHash) then kv_tx t !! SetHex txHash else None.

Definition put_addresses (l : list bytes) : M bytes unit :=
  forM l (λ addr, append ([34] ++ c_str addr ++ [34])) ;;
  removeLastComma.

Definition put_input (verbose : Z) (coinbase : bool) (input : TxInput) : M bytes unit :=
  append [123] ;;
  (if 3 <=? verbose then
     put_u (lit "sequence") (ti_sequence input) ;;
     put_s (lit "script_asm") (ti_script_asm input) ;;
     put_s (lit "script_hex") (ti_script_hex input)
   else mret tt) ;;
  (if coinbase then mret tt else
     put_s (lit "prev_hash") (ti_prev_tx_hash input) ;;
     put_d (lit "prev_position") (ti_prev_position input) ;;
     put_d (lit "prev_value") (ti_prev_value input) ;;
     append (jkey (lit "prev_addr") ++ [91]) ;;
     put_addresses (ti_prev_addresses input) ;;
     append [93]) ;;
  removeLastComma ;;
  append [125; 44].

Definition put_output (verbose : Z) (output : TxOutput) : M bytes unit :=
  append [123] ;;
  append (jkey (lit "address") ++ [91]) ;;
  put_addresses (to_addresses output) ;;
  append [93; 44] ;;
  put_d (lit "value") (to_value output) ;;
  (if 3 <=? verbose then
     put_s (lit "script_asm") (to_script_asm output) ;;
     put_s (lit "script_hex") (to_script_hex output) ;;
     put_s (lit "script_type") (to_script_type output)
   else mret tt) ;;
  removeLastComma ;;
  append [125; 44].

Definition getTx (txHash : bytes) (verbose : Z) : M bytes unit :=
  fbTx ← kv_get (tx_object txHash);
  put_s (lit "hash") txHash ;;
  put_d (lit "block_height") (o_block_height fbTx) ;;
  append (jkey (lit "is_coinbase") ++ (if o_is_coinbase fbTx then lit "true" else lit "false") ++ [44]) ;;
  put_d (lit "inputs_count") (o_inputs_count fbTx) ;;
  put_d (lit "inputs_value") (o_inputs_value fbTx) ;;
  put_d (lit "outputs_count") (o_outputs_count fbTx) ;;
  put_d (lit "outputs_value") (o_outputs_value fbTx) ;;
  (if 2 <=? verbose then
     put_d (lit "size") (o_size fbTx) ;;
     put_d (lit "fee") (o_fee fbTx) ;;
     put_d (lit "version") (o_version fbTx) ;;
     put_u (lit "lock_time") (o_lock_time fbTx)
   else mret tt) ;;
  append (jkey (lit "inputs") ++ [91]) ;;
  forM (o_inputs fbTx) (put_input verbose (o_is_coinbase fbTx)) ;;
  removeLastComma ;;
  append [93; 44] ;;
  append (jkey (lit "outputs") ++ [91]) ;;
  forM (o_outputs fbTx) (put_output verbose) ;;
  removeLastComma ;;
  append [93].
End getTx.

Record APIInOut := {
  verbose_ : Z;
  pageNo_ : Z;
  pageSize_ : Z;
  errorNo_ : Z;
  errorMsg_ : bytes;
  out_ : bytes }.
Definition api_error (no : Z) (msg : bytes) (resp : APIInOut) : APIInOut :=
  {| verbose_ := verbose_ resp; pageNo_ := pageNo_ resp; pageSize_ := pageSize_ resp;
     errorNo_ := no; errorMsg_ := msg; out_ := out_ resp |}.
(** append to the answer *)
Definition api_write (m : M bytes unit) (resp : APIInOut) : outcome APIInOut :=
  match m (out_ resp) with
  | (Done _, buf) => Done {| verbose_ := verbose_ resp; pageNo_ := pageNo_ resp; pageSize_ := pageSize_ resp;
                             errorNo_ := errorNo_ resp; errorMsg_ := errorMsg_ resp; out_ := buf |}
  | (Raise e, _) => Raise e
  end.

Section handler.
Variables (Hash : bytes → uint256) (testnet : bool) (s : txs_state).

(** keys 21 as text *)
Definition addr_tx_key (p : bytes * Z) : bytes := lit "21_" ++ p.1 ++ [95] ++ pad10 p.2.
Definition addr_tx_store : gmap bytes AddressTx := kmap addr_tx_key (kv_addr_tx (led s)).

Definition put_address_tx (verbose : Z) (value : AddressTx) : M bytes unit :=
  append [123] ;;
  put_u (lit "block_time") (tx_block_time value) ;;
  put_d (lit "balance_diff") (balance_diff value) ;;
  getTx (tables s) (at_tx_hash value) verbose ;;
  append [125; 44].

Definition address_txs (address : bytes) (info : AddressInfo) (pageSize verbose : Z) : M bytes unit :=
  let endIdx := i32 (i32 (txCount_ info - 1) - pageSize) in
  let endIdx := if endIdx <=? 0 then 0 else endIdx in
  let keyStart := addr_tx_key (c_str address, i32 (txCount_ info - 1)) in
  let keyEnd := addr_tx_key (c_str address, endIdx) in
  kvs ← lift_outcome (range addr_tx_store keyStart keyEnd pageSize 0);
  assertM (negb (bool_decide (kvs = []))) ;;
  forM kvs (λ kv, put_address_tx verbose kv.2) ;;
  removeLastComma.

Definition put_address (address : bytes) (keyID : bytes) (pageSize verbose : Z) : M bytes unit :=
  let fbAddress := kv_addr (led s) !! address in
  let get f := match fbAddress with Some info => f info | None => 0 end in
  append [123] ;;
  put_s (lit "address") address ;;
  put_s (lit "hash160") (HexStr (reverse keyID)) ;;
  put_d (lit "n_tx") (get txCount_) ;;
  put_d (lit "total_received") (get received_) ;;
  put_d (lit "total_sent") (get sent_) ;;
  put_d (lit "final_balance") (get (λ i, i64 (received_ i - sent_ i))) ;;
  append (jkey (lit "txs") ++ [91]) ;;
  match fbAddress with
  | Some info => if 0 <? txCount_ info then address_txs address info pageSize verbose else mret tt
  | None => mret tt
  end ;;
  append [93] ;;
  append [125].

Definition address (resp : APIInOut) (req : request) : outcome APIInOut :=
  let address := default [] (query req (lit "address")) in
  let addressObj := SetString Hash address in
  if negb (IsValid testnet addressObj) then
    Done (api_error API_ERROR_INVALID_PARAMS (lit "invalid address") resp)
  else
    let keyID := default (replicate 20 0) (GetKeyID testnet addressObj) in
    api_write (put_address address keyID (pageSize_ resp) (verbose_ resp)) resp.

Definition tx (resp : APIInOut) (req : request) : outcome APIInOut :=
  let hash := default [] (query req (lit "hash")) in
  if negb (Z.of_nat (length hash) =? 64) then
    Done (api_error API_ERROR_INVALID_PARAMS (lit "invalid tx hash") resp)
  else api_write (append [123] ;; getTx (tables s) hash (verbose_ resp) ;; append [125]) resp.

(** ** Requests and replies *)

Definition api_output (data : bytes) (error_no : Z) (error_msg : bytes) : bool * bytes :=
  (error_no =? API_ERROR_SUCCESS,
   [123] ++ jkey (lit "error_no") ++ fmt_d error_no ++ [44] ++
   jkey (lit "error_msg") ++ [34] ++ c_str error_msg ++ [34; 44] ++ jkey (lit "data") ++
   (if bool_decide (data = []) then lit "null" else data) ++ [125]).

(** a numeric parameter with its default *)
Definition number_param (req : request) (name : bytes) (default : Z) : Z :=
  match query req name with Some v => atoi v | None => default end.
Definition api_params (req : request) : APIInOut :=
  let verbose := number_param req (lit "verbose") 1 in
  let pageNo := number_param req (lit "page_no") 1 in
  let pageSize := number_param req (lit "page_size") 50 in
  {| verbose_ := if verbose <=? 0 then 1 else verbose;
     pageNo_ := if pageNo <=? 0 then 1 else pageNo;
     pageSize_ := if (pageSize <? 0) || (1000 <? pageSize) then 50 else pageSize;
     errorNo_ := 0; errorMsg_ := []; out_ := [] |}.
Definition cb_api (req : request) : outcome (bool * bytes) :=
  match query req (lit "method") with
  | None => Done (api_output [] API_ERROR_EMPTY_PARAMS (lit "method is empty"))
  | Some method =>
      if bool_decide (method = lit "address") then
        resp ← address (api_params req) req; Done (api_output (out_ resp) (errorNo_ resp) (errorMsg_ resp))
      else if bool_decide (method = lit "tx") then
        resp ← tx (api_params req) req; Done (api_output (out_ resp) (errorNo_ resp) (errorMsg_ resp))
      else Done (api_output [] API_ERROR_INVALID_PARAMS (lit "method is not found"))
  end.
End handler.
