(* ===== verification/HttpApiFacts.v ===== *)
(** * What the JSON service writes

    The JSON values of a transaction and of an address, and that the handlers'
    appends and removed commas write exactly these values. *)
From S2P Require Import Prelude Tx Bytes Text Serialize TxState Notify Ledger ParserTx ParserBlock KVDB Codec Json RecognizeBlock Base58 HttpApi.

(** ** The values *)

Definition input_fields (verbose : Z) (coinbase : bool) (i : TxInput) : list (bytes * json) :=
  (if 3 <=? verbose then
     [(lit "sequence", JNum (ti_sequence i)); (lit "script_asm", JStr (ti_script_asm i));
      (lit "script_hex", JStr (ti_script_hex i))]
   else []) ++
  (if coinbase then [] else
     [(lit "prev_hash", JStr (ti_prev_tx_hash i)); (lit "prev_position", JNum (ti_prev_position i));
      (lit "prev_value", JNum (ti_prev_value i)); (lit "prev_addr", JArr (JStr <$> ti_prev_addresses i))]).
Definition output_fields (verbose : Z) (o : TxOutput) : list (bytes * json) :=
  [(lit "address", JArr (JStr <$> to_addresses o)); (lit "value", JNum (to_value o))] ++
  (if 3 <=? verbose then
     [(lit "script_asm", JStr (to_script_asm o)); (lit "script_hex", JStr (to_script_hex o));
      (lit "script_type", JStr (to_script_type o))]
   else []).
Definition tx_fields (verbose : Z) (hash : bytes) (o : TxObject) : list (bytes * json) :=
  [(lit "hash", JStr hash); (lit "block_height", JNum (o_block_height o));
   (lit "is_coinbase", JBool (o_is_coinbase o)); (lit "inputs_count", JNum (o_inputs_count o));
   (lit "inputs_value", JNum (o_inputs_value o)); (lit "outputs_count", JNum (o_outputs_count o));
   (lit "outputs_value", JNum (o_outputs_value o))] ++
  (if 2 <=? verbose then
     [(lit "size", JNum (o_size o)); (lit "fee", JNum (o_fee o)); (lit "version", JNum (o_version o));
      (lit "lock_time", JNum (o_lock_time o))]
   else []) ++
  [(lit "inputs", JArr ((λ i, JObj (input_fields verbose (o_is_coinbase o) i)) <$> o_inputs o));
   (lit "outputs", JArr ((λ x, JObj (output_fields verbose x)) <$> o_outputs o))].

(** ** Texts that need no escape *)

Definition safe_char (c : Z) : Prop := 32 ≤ c < 256 ∧ c ≠ 34 ∧ c ≠ 92.
Definition safe (s : bytes) : Prop := Forall safe_char s.

Lemma escape_safe s : safe s → escapeJson s = s.
Proof.
  induction 1 as [|c s [Hc [H1 H2]] Hs IH]; [done|]. simpl. rewrite IH. unfold escape_char.
  repeat match goal with |- context [c =? ?k] => destruct (Z.eqb_spec c k); [lia|] end.
  by replace ((0 <=? c) && (c <=? 31)) with false by lia.
Qed.
Lemma c_str_safe s : safe s → c_str s = s.
Proof. intros Hs. apply c_str_nonzero. eapply Forall_impl; [exact Hs|]. intros c [? _]. lia. Qed.
Lemma safe_bytes s : safe s → Forall byte_ok s.
Proof. intros Hs. eapply Forall_impl; [exact Hs|]. intros c [? _]. unfold byte_ok. lia. Qed.
Lemma print_safe s : safe s → print (JStr s) = 34 :: s ++ [34].
Proof. intros Hs. cbn [print]. unfold quoted. by rewrite escape_safe. Qed.
#[export] Instance safe_dec s : Decision (safe s).
Proof. unfold safe, safe_char. apply _. Defined.

(** ** Handlers that only append *)

Implicit Types (m k : M bytes unit).
Definition writes (m : M bytes unit) (s : bytes) : Prop := ∀ buf, m buf = (Done tt, buf ++ s).
(** parts, each with a comma behind it *)
Definition listed (l : list bytes) : bytes := flat_map (λ s, s ++ [44]) l.

Lemma listed_commas l : l ≠ [] → listed l = commas l ++ [44].
Proof.
  induction l as [|s l IH]; [done|]. intros _. destruct l as [|s' l]; [cbn; by rewrite app_nil_r|].
  change (listed (s :: s' :: l)) with ((s ++ [44]) ++ listed (s' :: l)). rewrite IH by done.
  change (commas (s :: s' :: l)) with (s ++ 44 :: commas (s' :: l)). by rewrite <-!app_assoc.
Qed.
Lemma listed_fmap {A} (f : A → bytes) (l : list A) : listed (f <$> l) = concat ((λ x, f x ++ [44]) <$> l).
Proof. induction l as [|x l IH]; [done|]. cbn. f_equal. exact IH. Qed.
Lemma listed_app l1 l2 : listed (l1 ++ l2) = listed l1 ++ listed l2.
Proof. apply flat_map_app. Qed.

Lemma writes_append s : writes (append s) s.
Proof. done. Qed.
Lemma writes_ret : writes (mret tt) [].
Proof. intros buf. by rewrite app_nil_r. Qed.
Lemma writes_bind m k s1 s2 : writes m s1 → writes k s2 → writes (m ;; k) (s1 ++ s2).
Proof. intros H1 H2 buf. rewrite (bind_Done _ _ _ _ _ (H1 buf)), H2. by rewrite app_assoc. Qed.
Lemma writes_eq m s s' : writes m s → s = s' → writes m s'.
Proof. by intros ? <-. Qed.
Lemma writes_if (b : bool) m1 m2 s1 s2 : writes m1 s1 → writes m2 s2 → writes (if b then m1 else m2) (if b then s1 else s2).
Proof. by destruct b. Qed.
Lemma writes_forM {A} (l : list A) (f : A → M bytes unit) (g : A → bytes) :
  (∀ x, x ∈ l → writes (f x) (g x)) → writes (forM l f) (concat (g <$> l)).
Proof.
  induction l as [|x l IH]; intros Hf; [apply writes_ret|]. cbn [forM]. csimpl.
  apply writes_bind; [apply Hf; by left|]. apply IH. intros y Hy. apply Hf. by right.
Qed.

Lemma writes_regroup m0 m1 m2 k s : writes (m0 ;; (m1 ;; m2) ;; k) s → writes (m0 ;; m1 ;; m2 ;; k) s.
Proof.
  intros Hw buf. rewrite <-(Hw buf). unfold mbind, M_bind. destruct (m0 buf) as [[[]|] b0]; [|done].
  destruct (m1 b0) as [[[]|] b1]; done.
Qed.

Lemma writes_assoc m1 m2 k s : writes (m1 ;; m2 ;; k) s → writes ((m1 ;; m2) ;; k) s.
Proof. intros Hw buf. by rewrite bind_assoc, Hw. Qed.

(** an opening bracket, a text, and the comma at its end taken away *)
Definition uncomma (t : bytes) : bytes := if bool_decide (last t = Some 44) then removelast t else t.
Lemma uncomma_listed l : uncomma (listed l) = commas l.
Proof.
  unfold uncomma. destruct (decide (l = [])) as [->|Hl]; [done|].
  rewrite listed_commas, last_snoc, bool_decide_true by done. apply removelast_last.
Qed.
Lemma uncomma_snoc t c : c ≠ 44 → uncomma (t ++ [c]) = t ++ [c].
Proof. intros Hc. unfold uncomma. by rewrite last_snoc, bool_decide_false by congruence. Qed.
Lemma commas_snoc l x : commas (l ++ [x]) = listed l ++ x.
Proof.
  induction l as [|y l IH]; [done|]. change ((y :: l) ++ [x]) with (y :: (l ++ [x])).
  change (listed (y :: l)) with ((y ++ [44]) ++ listed l). rewrite <-!app_assoc, <-IH. by destruct l.
Qed.

Lemma writes_open m0 p c m k t s :
  c ≠ 44 → writes m0 (p ++ [c]) → writes m t → writes k s →
  writes (m0 ;; m ;; removeLastComma ;; k) (p ++ c :: uncomma t ++ s).
Proof.
  intros Hc H0 Hm Hk buf. rewrite (bind_Done _ _ _ _ _ (H0 buf)), (bind_Done _ _ _ _ _ (Hm (buf ++ p ++ [c]))).
  assert (removeLastComma ((buf ++ p ++ [c]) ++ t) = (Done tt, (buf ++ p ++ [c]) ++ uncomma t)) as E.
  { unfold removeLastComma, modify, uncomma. f_equal. destruct t as [|d t _] using rev_ind.
    - cbn [last]. rewrite (bool_decide_false (None = Some 44)), !app_nil_r by done.
      by rewrite app_assoc, last_snoc, bool_decide_false by congruence.
    - rewrite app_assoc, !last_snoc. destruct (bool_decide _); [|by rewrite <-app_assoc]. by rewrite !removelast_last. }
  rewrite (bind_Done _ _ _ _ _ E), Hk. f_equal. by rewrite <-!app_assoc.
Qed.

(** ** Members and values *)

Definition members_of (l : list (bytes * json)) : bytes := listed (member <$> l).
Lemma members_app l1 l2 : members_of (l1 ++ l2) = members_of l1 ++ members_of l2.
Proof. unfold members_of. by rewrite fmap_app, listed_app. Qed.
Lemma members_cons x y l : members_of (x :: y :: l) = members_of [x] ++ members_of (y :: l).
Proof. apply (members_app [x] (y :: l)). Qed.
Lemma member_safe name v : safe name → member (name, v) = jkey name ++ print v.
Proof. intros Hn. unfold member, jkey, quoted. cbn [fst snd]. rewrite escape_safe by done. cbn [app]. by rewrite <-!app_assoc. Qed.
Lemma members_one name v : safe name → members_of [(name, v)] = jkey name ++ print v ++ [44].
Proof. intros Hn. unfold members_of, listed. cbn [fmap list_fmap flat_map]. rewrite member_safe, app_nil_r by done. by rewrite <-app_assoc. Qed.

Lemma writes_members m1 m2 l1 l2 :
  writes m1 (members_of l1) → writes m2 (members_of l2) → writes (m1 ;; m2) (members_of (l1 ++ l2)).
Proof. intros. rewrite members_app. by apply writes_bind. Qed.
Lemma writes_put_d name z : safe name → writes (put_d name z) (members_of [(name, JNum z)]).
Proof. intros Hn. by rewrite members_one. Qed.
Lemma writes_put_u name z : safe name → 0 ≤ z → writes (put_u name z) (members_of [(name, JNum z)]).
Proof.
  intros Hn Hz. rewrite members_one by done. cbn [print]. unfold fmt_d. rewrite (proj2 (Z.ltb_ge _ _) Hz). done.
Qed.
Lemma writes_put_s name s : safe name → safe s → writes (put_s name s) (members_of [(name, JStr s)]).
Proof.
  intros Hn Hs. rewrite members_one, print_safe by done. unfold put_s. rewrite c_str_safe by done.
  eapply writes_eq; [apply writes_append|]. cbn [app]. by rewrite <-!app_assoc.
Qed.

(** A list of addresses has no commas: it is an array when it holds at most one. *)
Definition single (l : list bytes) : Prop := (length l ≤ 1)%nat ∧ Forall safe l.
Lemma writes_addresses name l k s : single l → writes k s →
  writes (append (jkey name ++ [91]) ;; put_addresses l ;; k)
    (jkey name ++ 91 :: commas (print <$> (JStr <$> l)) ++ s).
Proof.
  intros [Hl Hs] Hk buf. rewrite (bind_Done (append _) _ _ _ _ eq_refl).
  assert (put_addresses l (buf ++ jkey name ++ [91]) =
    (Done tt, buf ++ jkey name ++ [91] ++ commas (print <$> (JStr <$> l)))) as E.
  { unfold put_addresses. destruct l as [|x [|]]; [| |simpl in Hl; lia].
    - cbn [forM]. rewrite (bind_Done (mret tt) _ _ _ _ eq_refl). unfold removeLastComma, modify. cbn [fmap list_fmap commas].
      rewrite app_assoc, last_snoc, bool_decide_false by done. f_equal. by rewrite <-!app_assoc.
    - apply Forall_inv in Hs. cbn [forM]. rewrite (bind_Done (append _ ;; mret tt) _ _ _ _ eq_refl), c_str_safe by done.
      unfold removeLastComma, modify. cbn [fmap list_fmap commas]. rewrite print_safe by done.
      assert ((buf ++ jkey name ++ [91]) ++ [34] ++ x ++ [34] = (buf ++ jkey name ++ [91] ++ 34 :: x) ++ [34]) as ->
        by (by rewrite <-!app_assoc).
      rewrite last_snoc, bool_decide_false by done. f_equal. by rewrite <-!app_assoc. }
  rewrite (bind_Done _ _ _ _ _ E), Hk. f_equal. rewrite <-!app_assoc. cbn [app]. by rewrite <-?app_assoc.
Qed.

Definition safe_input (i : TxInput) : Prop :=
  0 ≤ ti_sequence i ∧ safe (ti_script_asm i) ∧ safe (ti_script_hex i) ∧ safe (ti_prev_tx_hash i) ∧
  single (ti_prev_addresses i).
Definition safe_output (o : TxOutput) : Prop :=
  single (to_addresses o) ∧ safe (to_script_asm o) ∧ safe (to_script_hex o) ∧ safe (to_script_type o).
Definition safe_object (o : TxObject) : Prop :=
  Forall safe_input (o_inputs o) ∧ Forall safe_output (o_outputs o) ∧ 0 ≤ o_lock_time o.

Ltac by_compute_safe := apply (bool_decide_unpack _); vm_compute; exact I.

(** an array closes the object without a comma *)
Lemma uncomma_array l name (vs : list json) : safe name →
  uncomma (members_of l ++ jkey name ++ 91 :: commas (print <$> vs) ++ [93]) = commas (member <$> l ++ [(name, JArr vs)]).
Proof.
  intros Hn. rewrite fmap_app. change (member <$> [(name, JArr vs)]) with [member (name, JArr vs)].
  rewrite commas_snoc, member_safe by done. cbn [print]. fold (members_of l).
  replace (members_of l ++ jkey name ++ 91 :: commas (print <$> vs) ++ [93]) with
    ((members_of l ++ jkey name ++ 91 :: commas (print <$> vs)) ++ [93]) by (by rewrite <-!app_assoc).
  rewrite uncomma_snoc by done. by rewrite <-!app_assoc.
Qed.

(** an object with a comma behind it *)
Lemma print_object l : [123] ++ commas (member <$> l) ++ [125; 44] = print (JObj l) ++ [44].
Proof. cbn [print app]. by rewrite <-app_assoc. Qed.

Lemma writes_input verbose coinbase i : safe_input i →
  writes (put_input verbose coinbase i) (print (JObj (input_fields verbose coinbase i)) ++ [44]).
Proof.
  intros (Hseq & Hasm & Hhex & Hprev & Haddr). unfold put_input, input_fields. apply writes_regroup.
  set (l3 := if 3 <=? verbose then _ else [] : list (bytes * json)).
  match goal with |- writes (_ ;; (?m1 ;; _) ;; _) _ => assert (writes m1 (members_of l3)) as H3 end.
  { destruct (3 <=? verbose); [|apply writes_ret].
    apply (writes_members _ _ [_] [_; _]); [by apply writes_put_u; [by_compute_safe|]|].
    apply (writes_members _ _ [_] [_]); apply writes_put_s; (done || by_compute_safe). }
  rewrite <-print_object. eapply writes_eq.
  { eapply (writes_open _ [] 123 _ _ _ [125; 44]); [done|apply writes_append| |apply writes_append].
    eapply writes_bind; [exact H3|]. apply (writes_if coinbase _ _ []); [apply writes_ret|].
    eapply writes_bind; [by apply writes_put_s; [by_compute_safe|]|].
    eapply writes_bind; [apply writes_put_d; by_compute_safe|].
    eapply writes_bind; [apply writes_put_d; by_compute_safe|].
    apply (writes_addresses _ _ _ [93]); [done|apply writes_append]. }
  cbn [app]. f_equal. f_equal. destruct coinbase; rewrite ?app_nil_r; [apply uncomma_listed|].
  match goal with |- _ = commas (member <$> l3 ++ [?x; ?y; ?z; ?e]) =>
    rewrite (app_assoc l3 [x; y; z] [e] : l3 ++ [x; y; z; e] = _) end.
  rewrite <-uncomma_array by by_compute_safe.
  f_equal. by rewrite members_app, !members_cons, <-!app_assoc.
Qed.

Lemma writes_output verbose o : safe_output o →
  writes (put_output verbose o) (print (JObj (output_fields verbose o)) ++ [44]).
Proof.
  intros (Haddr & Hasm & Hhex & Htype). unfold put_output, output_fields. do 4 apply writes_regroup.
  rewrite <-print_object. eapply writes_eq.
  { eapply (writes_open _ [] 123 _ _ _ [125; 44]); [done|apply writes_append| |apply writes_append].
    eapply writes_bind; [eapply writes_bind|].
    - by apply writes_assoc, (writes_addresses _ _ _ [93; 44]); [|apply writes_append].
    - apply writes_put_d. by_compute_safe.
    - eapply (writes_if _ _ _ (members_of [_; _; _]) []); [|apply writes_ret].
      apply (writes_members _ _ [_] [_; _]); [by apply writes_put_s; [by_compute_safe|]|].
      apply (writes_members _ _ [_] [_]); apply writes_put_s; (done || by_compute_safe). }
  set (l3 := if 3 <=? verbose then _ else [] : list (bytes * json)).
  replace (if 3 <=? verbose then members_of _ else []) with (members_of l3) by (subst l3; by destruct (3 <=? verbose)).
  cbn [app]. f_equal. f_equal. rewrite <-(uncomma_listed (member <$> _)). f_equal.
  match goal with |- _ = listed (member <$> ?x :: ?y :: l3) => change (listed _) with (members_of ([x; y] ++ l3)) end.
  rewrite members_app, members_cons. f_equal. f_equal.
  rewrite members_one by by_compute_safe. cbn [print]. f_equal. cbn [app]. f_equal. by rewrite <-app_assoc.
Qed.

Lemma writes_put_b name (b : bool) : safe name →
  writes (append (jkey name ++ (if b then lit "true" else lit "false") ++ [44])) (members_of [(name, JBool b)]).
Proof. intros Hn. by rewrite members_one. Qed.

(** a list of objects *)
Lemma writes_objects {A} (l : list A) (f : A → M bytes unit) (g : A → list (bytes * json)) :
  (∀ x, x ∈ l → writes (f x) (print (JObj (g x)) ++ [44])) → writes (forM l f) (listed (print <$> ((λ x, JObj (g x)) <$> l))).
Proof.
  intros Hf. eapply writes_eq; [apply writes_forM; exact Hf|]. by rewrite <-list_fmap_compose, listed_fmap.
Qed.

(** an array under a name, with what follows it *)
Lemma writes_array name m k (vs : list json) s : writes m (listed (print <$> vs)) → writes k s →
  writes (append (jkey name ++ [91]) ;; m ;; removeLastComma ;; k) (jkey name ++ 91 :: commas (print <$> vs) ++ s).
Proof. intros Hm Hk. rewrite <-uncomma_listed. by apply writes_open; [|apply writes_append|..]. Qed.

Lemma writes_getTx t txHash verbose o : tx_object t txHash = Some o → safe txHash → safe_object o →
  writes (getTx t txHash verbose) (commas (member <$> tx_fields verbose txHash o)).
Proof.
  intros Ho Hhash (Hin & Hout & Hlock) buf. unfold getTx. rewrite Ho, (bind_Done (kv_get (Some o)) _ buf o buf eq_refl).
  match goal with |- ?m buf = (_, buf ++ ?s) => enough (writes m s) as Hw by apply Hw end. clear buf.
  eapply writes_eq.
  { do 7 (eapply writes_bind; [first [apply writes_put_d; by_compute_safe | apply writes_put_b; by_compute_safe |
      by apply writes_put_s; [by_compute_safe|]]|]).
    eapply writes_bind.
    { eapply (writes_if _ _ _ (members_of [_; _; _; _]) []); [|apply writes_ret].
      do 3 (apply (writes_members _ _ [_] (_ :: _)); [apply writes_put_d; by_compute_safe|]).
      by apply writes_put_u; [by_compute_safe|]. }
    eapply writes_array.
    { apply writes_objects. intros i Hi. apply writes_input. rewrite Forall_forall in Hin. by apply Hin. }
    eapply writes_bind; [apply writes_append|]. eapply writes_array; [|apply writes_append].
    apply writes_objects. intros i Hi. apply writes_output. rewrite Forall_forall in Hout. by apply Hout. }
  unfold tx_fields. set (l2 := if 2 <=? verbose then _ else [] : list (bytes * json)).
  replace (if 2 <=? verbose then members_of _ else []) with (members_of l2) by (subst l2; by destruct (2 <=? verbose)).
  match goal with |- _ = commas (member <$> ?f ++ l2 ++ [?i; ?x]) =>
    rewrite (app_assoc f l2 [i; x]), (app_assoc (f ++ l2) [i] [x] : (f ++ l2) ++ [i; x] = _), fmap_app;
    change (member <$> [x]) with [member x]; rewrite commas_snoc;
    change (listed (member <$> (f ++ l2) ++ [i])) with (members_of ((f ++ l2) ++ [i])) end.
  rewrite !members_app, !members_cons, (members_one (lit "inputs")), (member_safe (lit "outputs")) by by_compute_safe.
  cbn [print]. rewrite <-!app_assoc. cbn [app]. by rewrite <-!app_assoc.
Qed.

(** ** An address *)

Definition entry_fields (verbose : Z) (e : AddressTx) (o : TxObject) : list (bytes * json) :=
  [(lit "block_time", JNum (tx_block_time e)); (lit "balance_diff", JNum (balance_diff e))] ++
  tx_fields verbose (at_tx_hash e) o.

Lemma commas_app l1 l2 : l2 ≠ [] → commas (l1 ++ l2) = listed l1 ++ commas l2.
Proof.
  intros Hl. destruct l2 as [|x l2 _] using rev_ind; [done|]. rewrite app_assoc, !commas_snoc, listed_app.
  by rewrite app_assoc.
Qed.

Lemma writes_entry s verbose e o :
  tx_object (tables s) (at_tx_hash e) = Some o → safe (at_tx_hash e) → safe_object o → 0 ≤ tx_block_time e →
  writes (put_address_tx s verbose e) (print (JObj (entry_fields verbose e o)) ++ [44]).
Proof.
  intros Ho Hhash Hobj Ht. unfold put_address_tx. rewrite <-print_object. eapply writes_eq.
  { eapply writes_bind; [apply writes_append|]. eapply writes_bind; [by apply writes_put_u; [by_compute_safe|]|].
    eapply writes_bind; [apply writes_put_d; by_compute_safe|].
    eapply writes_bind; [by apply writes_getTx|apply writes_append]. }
  f_equal. unfold entry_fields. rewrite fmap_app, commas_app by done.
  match goal with |- _ = (listed (member <$> ?l) ++ _) ++ _ => change (listed (member <$> l)) with (members_of l) end.
  by rewrite members_cons, <-!app_assoc.
Qed.

(** the entry of a transaction as the store has it *)
Definition entry_json (T : tx_tables) (verbose : Z) (e : AddressTx) : json :=
  match tx_object T (at_tx_hash e) with Some o => JObj (entry_fields verbose e o) | None => JNull end.

Lemma writes_trim m l : l ≠ [] → writes m (listed l) → writes (m ;; removeLastComma) (commas l).
Proof.
  intros Hl Hm buf. rewrite (bind_Done _ _ _ _ _ (Hm buf)). unfold removeLastComma, modify.
  by rewrite listed_commas, app_assoc, last_snoc, bool_decide_true, removelast_last by done.
Qed.

(** the values an answer is made of hold bytes *)
Lemma json_ok_members l : Forall (λ m : bytes * json, safe m.1 ∧ json_ok m.2) l → json_ok (JObj l).
Proof. intros Hl. constructor. eapply Forall_impl; [exact Hl|]. intros m [? ?]. split; [by apply safe_bytes|done]. Qed.
Lemma json_ok_str s : safe s → json_ok (JStr s).
Proof. intros. constructor. by apply safe_bytes. Qed.
Lemma json_ok_list {A} (f : A → json) l : (∀ x, x ∈ l → json_ok (f x)) → json_ok (JArr (f <$> l)).
Proof. intros Hf. constructor. apply Forall_fmap, Forall_forall. exact Hf. Qed.
Lemma json_ok_strs l : Forall safe l → json_ok (JArr (JStr <$> l)).
Proof. intros Hl. apply json_ok_list. intros x Hx. rewrite Forall_forall in Hl. by apply json_ok_str, Hl. Qed.

Ltac ok_members :=
  repeat first [apply Forall_nil_2 | apply Forall_cons_2; [split; [by_compute_safe|cbn [snd];
    first [by constructor | by apply json_ok_str | by apply json_ok_strs | idtac]]|] | case_match | apply Forall_app_2].

Lemma json_ok_input verbose coinbase i : safe_input i → json_ok (JObj (input_fields verbose coinbase i)).
Proof. intros (_ & ? & ? & ? & [_ ?]). apply json_ok_members. unfold input_fields. ok_members. Qed.
Lemma json_ok_output verbose o : safe_output o → json_ok (JObj (output_fields verbose o)).
Proof. intros ([_ ?] & ? & ? & ?). apply json_ok_members. unfold output_fields. ok_members. Qed.
Lemma json_ok_tx verbose hash o : safe hash → safe_object o →
  Forall (λ m : bytes * json, safe m.1 ∧ json_ok m.2) (tx_fields verbose hash o).
Proof.
  intros Hh (Hin & Hout & _). rewrite Forall_forall in Hin. rewrite Forall_forall in Hout. unfold tx_fields. ok_members.
  - apply json_ok_list. intros x Hx. by apply json_ok_input, Hin.
  - apply json_ok_list. intros x Hx. by apply json_ok_output, Hout.
  - apply json_ok_list. intros x Hx. by apply json_ok_input, Hin.
  - apply json_ok_list. intros x Hx. by apply json_ok_output, Hout.
Qed.

(** ** The envelope *)

Definition answer (v : json) : json :=
  JObj [(lit "error_no", JNum 0); (lit "error_msg", JStr []); (lit "data", v)].
Lemma api_output_reads v : json_ok v → ∃ text, api_output (print v) 0 [] = (true, text) ∧ json_read text = Some (answer v).
Proof.
  intros Hv. exists (print (answer v)). split; [|apply json_read_print].
  - unfold api_output. f_equal. destruct (print_head v) as (c & t & E & _). rewrite bool_decide_false by (by rewrite E).
    cbn [print answer fmap list_fmap commas fst snd]. cbn [app]. rewrite <-!app_assoc. done.
  - unfold answer. apply json_ok_members. ok_members; done.
Qed.

(** ** Handlers that do not fail *)

Definition completes (m : M bytes unit) : Prop := ∀ buf, ∃ buf', m buf = (Done tt, buf').
Create HintDb api.
Lemma completes_modify f : completes (modify f).
Proof. intros buf. by eexists. Qed.
Lemma completes_ret : completes (mret tt).
Proof. intros buf. by eexists. Qed.
Lemma completes_bind m k : completes m → completes k → completes (m ;; k).
Proof. intros Hm Hk buf. destruct (Hm buf) as [b E]. rewrite (bind_Done _ _ _ _ _ E). apply Hk. Qed.
Lemma completes_if (b : bool) m k : completes m → completes k → completes (if b then m else k).
Proof. by destruct b. Qed.
Lemma completes_forM {A} (l : list A) f : (∀ x, x ∈ l → completes (f x)) → completes (forM l f).
Proof.
  induction l as [|x l IH]; intros Hf; [apply completes_ret|]. apply completes_bind; [apply Hf; by left|].
  apply IH. intros y Hy. apply Hf. by right.
Qed.
Ltac completes_tac :=
  repeat (first [apply completes_bind | apply completes_if | apply completes_modify | apply completes_ret
    | apply completes_forM; intros ? _ | solve [eauto with api]]).

Lemma completes_addresses l : completes (put_addresses l).
Proof. unfold put_addresses. completes_tac. Qed.
#[export] Hint Resolve completes_addresses : api.
Lemma completes_input verbose coinbase i : completes (put_input verbose coinbase i).
Proof. unfold put_input. completes_tac. Qed.
Lemma completes_output verbose o : completes (put_output verbose o).
Proof. unfold put_output. completes_tac. Qed.
#[export] Hint Resolve completes_input completes_output : api.

(** only the look-up of the object can fail *)
Lemma getTx_run t txHash verbose :
  match tx_object t txHash with
  | Some _ => completes (getTx t txHash verbose)
  | None => ∀ buf, getTx t txHash verbose buf = (Raise (Throw "not found key"), buf)
  end.
Proof.
  unfold getTx. destruct (tx_object t txHash) as [o|]; [|done].
  intros buf. rewrite (bind_Done (kv_get (Some o)) _ buf o buf eq_refl).
  match goal with |- ∃ b, ?m buf = _ => enough (completes m) as Hm by apply Hm end. completes_tac.
Qed.
