(* ===== verification/RecognizeFacts.v ===== *)
(** * What block recognition guarantees (src/jiexi/src/RecognizeBlock.cc)

    The keys of the heights in order, the blocks a range of heights visits and
    what is stored for them. *)
From S2P Require Import Prelude Tx Bytes Text Serialize Db Notify Ledger ParserTx ParserBlock ParserChain ChainFacts.
From S2P Require Import KVDB Codec RecognizeBlock.

(** ** The text of a height *)

Section pad.
Implicit Types (s t : bytes) (z : Z).

Lemma digits_val_app a s t : Forall digit_ok s → digits_val a (s ++ t) = digits_val (digits_val a s) t.
Proof.
  intros Hs. revert a. induction Hs as [|c s Hc Hs IH]; intros a; [done|]. simpl. unfold digit_ok in Hc.
  rewrite Hc. apply IH.
Qed.

Lemma digits_val_shift a s : Forall digit_ok s →
  digits_val a s = a * 10 ^ Z.of_nat (length s) + digits_val 0 s ∧ 0 ≤ digits_val 0 s < 10 ^ Z.of_nat (length s).
Proof.
  intros Hs. revert a. induction Hs as [|c s Hc Hs IH]; intros a; [simpl; lia|]. cbn [digits_val length].
  rewrite Hc. apply isdigit_iff in Hc. destruct (IH (10 * a + (c - 48))) as [-> _].
  destruct (IH (10 * 0 + (c - 48))) as [-> Hr]. rewrite Nat2Z.inj_succ, Z.pow_succ_r by lia.
  split; [ring|]. nia.
Qed.

Lemma digits_val_bound s : Forall digit_ok s → 0 ≤ digits_val 0 s < 10 ^ Z.of_nat (length s).
Proof. intros Hs. apply (digits_val_shift 0 s Hs). Qed.

(** Digit strings of one length are ordered as numbers. *)
Lemma text_le_digits s t : length s = length t → Forall digit_ok s → Forall digit_ok t →
  text_le s t ↔ digits_val 0 s ≤ digits_val 0 t.
Proof.
  revert t. induction s as [|a s IH]; intros [|b t] Hl Hs Ht; try done.
  apply Forall_cons in Hs as [Ha Hs], Ht as [Hb Ht]. simpl in Hl. injection Hl as Hl.
  rewrite text_le_cons, (IH t Hl Hs Ht). cbn [digits_val]. rewrite Ha, Hb.
  rewrite (proj1 (digits_val_shift (10 * 0 + (a - 48)) s Hs)), (proj1 (digits_val_shift (10 * 0 + (b - 48)) t Ht)).
  pose proof (digits_val_bound s Hs). pose proof (digits_val_bound t Ht). rewrite Hl in *.
  apply isdigit_iff in Ha, Hb. set (p := 10 ^ Z.of_nat (length t)) in *. split.
  - intros [Hlt|[-> Hle]]; [|lia]. nia.
  - intros Hle. destruct (Z.lt_trichotomy a b) as [?|[->|Hgt]]; [by left|right; split; [done|lia]|nia].
Qed.

Lemma length_digits_of fuel z acc (k : nat) :
  0 ≤ z < 10 ^ Z.of_nat k → (0 < k)%nat → (length (digits_of fuel z acc) ≤ k + length acc)%nat.
Proof.
  revert z acc k. induction fuel as [|fuel IH]; intros z acc k Hz Hk; cbn [digits_of]; [lia|].
  destruct (Z.ltb_spec z 10); [simpl; lia|].
  destruct k as [|[|k]]; [lia|simpl in Hz; lia|].
  specialize (IH (z / 10) (48 + z mod 10 :: acc) (S k)). simpl length in IH.
  rewrite (Nat2Z.inj_succ (S k)), Z.pow_succ_r in Hz by lia.
  assert (0 ≤ z / 10 < 10 ^ Z.of_nat (S k)); [|lia].
  split; [apply Z.div_pos; lia|]. apply Z.div_lt_upper_bound; lia.
Qed.

Definition height_ok z : Prop := 0 ≤ z < 10 ^ 10.

Lemma pad10_facts z : height_ok z →
  length (pad10 z) = 10%nat ∧ Forall digit_ok (pad10 z) ∧ digits_val 0 (pad10 z) = z.
Proof.
  intros [Hz Hz']. unfold pad10. replace (z <? 0) with false by lia. rewrite Z.abs_eq by done.
  assert (length (fmt_u z) ≤ 10)%nat as Hlen.
  { unfold fmt_u. etrans; [apply (length_digits_of _ _ _ 10); [change (Z.of_nat 10) with 10; lia|lia]|]. simpl. lia. }
  assert (∀ k, Forall digit_ok (replicate k 48)) as Hrep by (intros k; by apply Forall_replicate).
  split_and!.
  - rewrite length_app, length_replicate. lia.
  - apply Forall_app. split; [done|]. by apply fmt_u_digits.
  - rewrite digits_val_app by done.
    assert (∀ k, digits_val 0 (replicate k 48) = 0) as -> by (intros k; by induction k).
    rewrite <-(app_nil_r (fmt_u z)). by apply digits_val_fmt_u.
Qed.

Lemma height_key_le a b : height_ok a → height_ok b → text_le (height_key a) (height_key b) ↔ a ≤ b.
Proof.
  intros Ha Hb. destruct (pad10_facts a Ha) as (La & Da & Va), (pad10_facts b Hb) as (Lb & Db & Vb).
  unfold height_key. rewrite text_le_app, text_le_digits, Va, Vb; [done|congruence|done|done].
Qed.

Lemma height_key_inj a b : height_ok a → height_ok b → height_key a = height_key b → a = b.
Proof.
  intros Ha Hb E. assert (a ≤ b ∧ b ≤ a); [|lia]. split; apply height_key_le; try done; by rewrite E.
Qed.

Lemma height_key_plain z : height_ok z → plain (height_key z).
Proof.
  intros Hz. destruct (pad10_facts z Hz) as (_ & Hd & _). unfold plain, height_key. rewrite elem_of_app.
  intros [Hin|Hin]; [vm_compute in Hin; set_solver|]. rewrite Forall_forall in Hd. apply Hd in Hin. done.
Qed.
End pad.

(** ** The store the range runs over *)

Section store.
Context `{Hashing} `{Scripts}.
Implicit Types (cs : list (uint256 * Z)) (X : Z → gset bytes) (T : block_tables) (h : uint256).

(** the heights [e] to [b] of a chain *)
Definition heights_of cs (e b : nat) : list (uint256 * Z) := drop e (take (S b) cs).
Definition height_items cs (e b : nat) : list item :=
  imap (λ i c, (height_key (Z.of_nat (e + i)), ToString c.1)) (heights_of cs e b).

Lemma block_key_above h z : text_le (lit "11_" ++ ToString h) (height_key z) → False.
Proof. unfold height_key. simpl. rewrite !text_le_cons. lia. Qed.
Lemma height_below_block h z : text_le (height_key z) (lit "11_" ++ ToString h).
Proof. unfold height_key. simpl. rewrite !text_le_cons. lia. Qed.

Context (cs : list (uint256 * Z)) (X : Z → gset bytes) (T : block_tables).
Hypothesis HB : blocks_of cs X T.
Hypothesis Hlen : Z.of_nat (length cs) < 10 ^ 10.

Lemma height_lookup i v : kv_height T !! i = Some v →
  height_ok i ∧ ∃ c, cs !! Z.to_nat i = Some c ∧ v = ToString c.1.
Proof using All.
  rewrite (bl_height _ _ _ HB). case_decide as Hi; [|done]. intros (c & Hc & ->)%fmap_Some.
  split; [|by exists c]. apply lookup_lt_Some in Hc. unfold height_ok. lia.
Qed.

(** which keys at or below a height key the store holds *)
Lemma store_height k z v : height_ok z → text_le k (height_key z) →
  height_store T !! k = Some v ↔
  ∃ i c, k = height_key (Z.of_nat i) ∧ cs !! i = Some c ∧ v = ToString c.1.
Proof using All.
  intros Hz Hk. unfold height_store. rewrite lookup_union_Some_raw. split.
  - intros [Hh|[_ Hb]].
    + apply elem_kmap in Hh as (i & -> & Hi). apply height_lookup in Hi as ([Hi _] & c & Hc & ->).
      exists (Z.to_nat i), c. by rewrite Z2Nat.id.
    + apply elem_kmap in Hb as (h & -> & _). by apply block_key_above in Hk.
  - intros (i & c & -> & Hc & ->). left. assert (kv_height T !! Z.of_nat i = Some (ToString c.1)) as Hi.
    { rewrite (bl_height _ _ _ HB), decide_True, Nat2Z.id, Hc by lia. done. }
    apply kmap_elem; [|done]. intros j w Hj E. apply height_key_inj; [| |done].
    + by apply height_lookup in Hj as [? _].
    + by apply height_lookup in Hi as [? _].
Qed.

Lemma elem_height_items e b k v : (k, v) ∈ height_items cs e b ↔
  ∃ i c, (e ≤ i ≤ b)%nat ∧ k = height_key (Z.of_nat i) ∧ cs !! i = Some c ∧ v = ToString c.1.
Proof.
  unfold height_items. rewrite elem_of_lookup_imap. unfold heights_of. split.
  - intros (i & c & [= -> ->] & Hc). rewrite lookup_drop in Hc. apply lookup_take_Some in Hc as [Hc Hi].
    exists (e + i)%nat, c. split_and!; try done; lia.
  - intros (i & c & Hi & -> & Hc & ->). exists (i - e)%nat, c. split; [by replace (e + (i - e))%nat with i by lia|].
    rewrite lookup_drop. apply lookup_take_Some. replace (e + (i - e))%nat with i by lia. split; [done|lia].
Qed.

Lemma height_item_lookup e b i x : height_items cs e b !! i = Some x →
  ∃ c : uint256 * Z, x = (height_key (Z.of_nat (e + i)), ToString c.1) ∧ height_ok (Z.of_nat (e + i)).
Proof using Hlen.
  unfold height_items. rewrite list_lookup_imap. intros (c & Hc & ->)%fmap_Some. exists c. split; [done|].
  unfold heights_of in Hc. rewrite lookup_drop in Hc. apply lookup_take_Some in Hc as [Hc%lookup_lt_Some _].
  unfold height_ok. lia.
Qed.

Lemma height_items_sorted e b : StronglySorted (λ x y : item, text_lt x.1 y.1) (height_items cs e b).
Proof using Hlen.
  apply sorted_by_index. intros i j x y Hij (c & -> & Hi)%height_item_lookup (d & -> & Hj)%height_item_lookup.
  simpl. split; [apply height_key_le; [done|done|lia]|]. intros E%height_key_inj; [lia|done|done].
Qed.

Lemma heights_between (e b : nat) : Z.of_nat b < 10 ^ 10 → (e ≤ b)%nat →
  between (height_key (Z.of_nat e)) (height_key (Z.of_nat b)) (height_store T) = height_items cs e b.
Proof using All.
  intros Hb He. apply between_unique; [apply height_items_sorted|]. intros k v. rewrite elem_height_items.
  assert (∀ i c, cs !! i = Some c → height_ok (Z.of_nat i)) as Hi.
  { intros i c Hc%lookup_lt_Some. unfold height_ok. lia. }
  assert (height_ok (Z.of_nat e) ∧ height_ok (Z.of_nat b)) as [He' Hb'] by (unfold height_ok; lia). split.
  - intros (i & c & Hib & -> & Hc & ->). split; [split; apply height_key_le; eauto; lia|].
    apply (store_height _ (Z.of_nat b)); [done|apply height_key_le; eauto; lia|]. by exists i, c.
  - intros [[Hl Hr] Hk]. apply (store_height k (Z.of_nat b)) in Hk as (i & c & -> & Hc & ->); [|done|done].
    exists i, c. split_and!; try done; apply height_key_le in Hl, Hr; eauto; lia.
Qed.

Lemma height_store_plain : plain_store (height_store T).
Proof using All.
  intros k [v Hk]. unfold height_store in Hk. apply lookup_union_Some_raw in Hk as [Hk|[_ Hk]].
  - apply elem_kmap in Hk as (i & -> & Hi). apply height_lookup in Hi as [Hi _]. by apply height_key_plain.
  - apply elem_kmap in Hk as (h & -> & _). unfold plain. rewrite elem_of_app. intros [Hin|Hin].
    + vm_compute in Hin. set_solver.
    + assert (Forall hex_char (ToString h)) as Hc by (apply HexStr_chars, Forall_reverse, le_bytes_ok).
      rewrite Forall_forall in Hc. apply Hc, hex_char_facts in Hin. lia.
Qed.

(** the heights from [b] down to [e], however many there are *)
Lemma range_heights (e b : nat) :
  (e ≤ b)%nat → Z.of_nat b < 10 ^ 10 → cs ≠ [] → Z.of_nat (length cs) ≤ 99999999 →
  range (height_store T) (height_key (Z.of_nat b)) (height_key (Z.of_nat e)) 99999999 0 =
    Done (reverse (height_items cs e b)).
Proof using All.
  intros He Hb Hne Hcs.
  assert (height_ok (Z.of_nat e) ∧ height_ok (Z.of_nat b)) as [He' Hb'] by (unfold height_ok; lia).
  pose proof height_store_plain as Hplain.
  pose proof (height_key_plain _ He') as Pe. pose proof (height_key_plain _ Hb') as Pb.
  assert (∀ l : list item, (length l ≤ length cs)%nat → page 99999999 (Z.max 0 0) l = l) as Hpage.
  { intros l Hl. unfold page. change (Z.to_nat (Z.max 0 0)) with 0%nat. rewrite drop_0. apply take_ge.
    rewrite wrapU_id by (unfold in_u; lia). lia. }
  assert (length (height_items cs e b) ≤ length cs)%nat as Hl.
  { unfold height_items, heights_of. rewrite length_imap, length_drop, length_take. lia. }
  assert (Z.of_nat (length (span (height_key (Z.of_nat b)) (height_key (Z.of_nat e)) (height_store T))) < 2 ^ 31) as Hspan.
  { unfold span. destruct (decide (text_le _ _)) as [Hle|_]; [|rewrite heights_between by done; lia].
    apply height_key_le in Hle; [|done|done]. assert (b = e) as -> by lia. rewrite heights_between by done. lia. }
  rewrite range_run by done.
  destruct (decide (e = b)) as [->|Hlt].
  - rewrite decide_True by done. rewrite heights_between, Hpage by (done || lia). f_equal.
    assert (length (height_items cs b b) ≤ 1)%nat as H1.
    { unfold height_items, heights_of. rewrite length_imap, length_drop, length_take. lia. }
    by destruct (height_items cs b b) as [|x [|y l]]; [| |simpl in H1; lia].
  - rewrite decide_False by (rewrite height_key_le; [lia|done|done]).
    rewrite decide_False, heights_between, Hpage; [done| |done|lia|].
    + by rewrite length_reverse.
    + intros Hnil. destruct cs as [|c cs']; [done|].
      destruct (bl_object _ _ _ HB 0%nat c eq_refl) as (o & Ho & _).
      assert (∃ k v, height_store T !! k = Some v ∧ text_le (height_key (Z.of_nat b)) k) as (k & v & Hk & Hle).
      { destruct (height_store T !! (lit "11_" ++ ToString c.1)) as [v|] eqn:E.
        - exists (lit "11_" ++ ToString c.1), v. split; [done|]. apply height_below_block.
        - unfold height_store in E. apply lookup_union_None in E as [_ E].
          destruct (kmap_some (λ h, lit "11_" ++ ToString h) ((λ _, []) <$> kv_block T) c.1 ([] : bytes)); [|exact E].
          by rewrite lookup_fmap, Ho. }
      apply (filter_nil_not_elem_of _ _ (k, v)) in Hnil; [|done]. apply Hnil. by apply elem_of_map_items.
Qed.
End store.

(** ** The loop *)

Section loop.
Context `{Hashing} `{Scripts} (c : pools).
Implicit Types (w : whole) (l : list (uint256 * Z)) (m : gmap bytes bytes).

(** the object of a block's first transaction *)
Definition coinbase_of (p : parser) (h : uint256) (o : TxObject) : Prop := ∃ page,
  kv_block_txs (blks p) !! (h, 0) = Some page ∧ kv_tx (tables (txs p)) !! SetHex (take 64 page) = Some o.

(** the blocks before the first one that was recognized *)
Fixpoint until_known m l : list (uint256 * Z) :=
  match l with
  | [] => []
  | x :: l => if bool_decide (is_Some (m !! ToString x.1)) then [] else x :: until_known m l
  end.
Definition visits (stop : bool) m l : list (uint256 * Z) := if stop then until_known m l else l.

Lemma until_known_ext m m' l :
  (∀ x, x ∈ l → is_Some (m !! ToString x.1) ↔ is_Some (m' !! ToString x.1)) → until_known m l = until_known m' l.
Proof.
  induction l as [|x l IH]; intros Hm; [done|]. simpl.
  rewrite (bool_decide_ext (is_Some (m !! ToString x.1)) (is_Some (m' !! ToString x.1))) by (apply Hm; left).
  rewrite IH; [done|]. intros y Hy. apply Hm. by right.
Qed.

Lemma recognize_loop_run stop l w :
  NoDup l.*1 → (∀ x, x ∈ l → in_u 256 x.1) → (∀ x, x ∈ l → ∃ o, coinbase_of (core w) x.1 o) →
  ∃ m, recognize_loop c stop ((λ x, ToString x.1) <$> l) w = (Done tt, with_extra (λ _, m) w) ∧
    (∀ x, x ∈ visits stop (kv_extra w) l → ∃ o, coinbase_of (core w) x.1 o ∧
      m !! ToString x.1 = Some (extra_text (recognizeCoinbaseTx c o))) ∧
    (∀ k, (∀ x, x ∈ visits stop (kv_extra w) l → ToString x.1 ≠ k) → m !! k = kv_extra w !! k).
Proof.
  revert w. induction l as [|x l IH]; intros w Hnd Hr Hc.
  - exists (kv_extra w). split; [by destruct w|]. split; [|done]. destruct stop; by intros x Hx%elem_of_nil.
  - apply NoDup_cons in Hnd as [Hn Hnd].
    assert (∀ y, y ∈ l → ToString y.1 ≠ ToString x.1) as Hne.
    { intros y Hy E. apply Hn. apply list_elem_of_fmap. exists y. split; [|done].
      apply ToString_inj64; [apply Hr; left|apply Hr; by right|done]. }
    cbn [recognize_loop fmap list_fmap]. rewrite (bind_Done get _ w w w eq_refl).
    destruct (stop && bool_decide (is_Some (kv_extra w !! ToString x.1))) eqn:Es.
    + apply andb_true_iff in Es as [-> Eb]. exists (kv_extra w). split; [by destruct w|].
      unfold visits. simpl. rewrite Eb. split; [by intros y Hy%elem_of_nil|done].
    + assert (visits stop (kv_extra w) (x :: l) = x :: visits stop (kv_extra w) l) as ->.
      { unfold visits. destruct stop; [|done]. simpl in *. by rewrite Es. }
      destruct (Hc x ltac:(left)) as (o & page & Hp & Ho).
      rewrite SetHex_ToString, Hp by (apply Hr; left).
      rewrite (bind_Done (kv_get (Some page)) _ w page w eq_refl), Ho.
      rewrite (bind_Done (kv_get (Some o)) _ w o w eq_refl).
      set (w1 := with_extra (<[ToString x.1 := extra_text (recognizeCoinbaseTx c o)]>) w).
      rewrite (bind_Done (recordBlock c (ToString x.1) o) _ w tt w1 eq_refl).
      destruct (IH w1 Hnd) as (m & Hrun & Hin & Hout); [intros y Hy; apply Hr; by right|intros y Hy; apply (Hc y); by right|].
      assert (visits stop (kv_extra w1) l = visits stop (kv_extra w) l) as Ev.
      { unfold visits. destruct stop; [|done]. apply until_known_ext. intros y Hy. simpl.
        by rewrite lookup_insert_ne by (apply not_eq_sym, Hne, Hy). }
      rewrite Ev in Hin, Hout. exists m. split; [exact Hrun|].
      assert (∀ y, y ∈ visits stop (kv_extra w) l → y ∈ l) as Hsub.
      { unfold visits. destruct stop; [|done]. clear. induction l as [|z l IH]; intros y Hy; [done|].
        simpl in Hy. case_bool_decide; [by apply elem_of_nil in Hy|]. apply elem_of_cons in Hy as [->|Hy]; [left|].
        right. by apply IH. }
      split.
      * intros y [->|Hy]%elem_of_cons; [|by apply Hin]. exists o. split; [by exists page|].
        rewrite Hout; [apply lookup_insert_eq|]. intros y Hy. by apply Hne, Hsub.
      * intros k Hk. rewrite Hout; [|intros y Hy; apply Hk; by right]. apply lookup_insert_ne. apply Hk. left.
Qed.
End loop.

Section facts.
Context `{Hashing} `{Scripts} (c : pools).

(** C34 — Recognition of the heights from [b] down to [e] visits the blocks of
    the chain at these heights, highest first, and when it is told to, stops at
    the first that was recognized before.  For every block it visits it stores
    the miner its coinbase names; nothing else changes, so whatever lies below a
    recognized block is left as it was. *)
Theorem recognizeBlocks_correct cs X (w : whole) (e b : nat) (stop : bool) :
  blocks_of cs X (blks (core w)) → chain_ok cs X → cs ≠ [] → Z.of_nat (length cs) ≤ 99999999 →
  (e ≤ b)%nat → Z.of_nat b < 10 ^ 10 →
  (∀ x, x ∈ heights_of cs e b → ∃ o, coinbase_of (core w) x.1 o) →
  let visited := visits stop (kv_extra w) (reverse (heights_of cs e b)) in
  ∃ m, recognizeBlocks c (Z.of_nat b) (Z.of_nat e) stop w = (Done tt, with_extra (λ _, m) w) ∧
    (∀ x, x ∈ visited → ∃ o, coinbase_of (core w) x.1 o ∧
      m !! ToString x.1 = Some (extra_text (recognizeCoinbaseTx c o))) ∧
    (∀ k, (∀ x, x ∈ visited → ToString x.1 ≠ k) → m !! k = kv_extra w !! k).
Proof.
  intros HB Hok Hne Hlen He Hb Hcb visited. unfold recognizeBlocks.
  rewrite (bind_Done get _ w w w eq_refl), (range_heights cs X _ HB) by (done || lia).
  rewrite (bind_Done (lift_outcome (Done _)) _ w _ w eq_refl).
  assert ((reverse (height_items cs e b)).*2 = (λ x, ToString x.1) <$> reverse (heights_of cs e b)) as ->.
  { unfold height_items. rewrite !fmap_reverse. f_equal. rewrite fmap_imap. apply imap_const. }
  assert (heights_of cs e b `sublist_of` cs) as Hsub.
  { unfold heights_of. etrans; [apply sublist_drop|apply sublist_take]. }
  apply recognize_loop_run.
  - rewrite fmap_reverse, reverse_Permutation. eapply sublist_NoDup; [|by apply (fmap_sublist fst)]. apply Hok.
  - intros x Hx. rewrite elem_of_reverse in Hx. apply (cs_range _ _ Hok), list_elem_of_fmap_2.
    by eapply elem_of_sublist.
  - intros x Hx. rewrite elem_of_reverse in Hx. by apply Hcb.
Qed.
End facts.

(** The first block of [ChainDemo], its coinbase paying a known address. *)
Module RecognizeDemo.
#[local] Existing Instance Demo.hashing.
#[local] Existing Instance ChainDemo.scripts.
Import ChainDemo.
Definition pool : MinerInfo := {| poolName_ := "A"; poolLink_ := "http://a" |}.
Definition known : pools :=
  {| payoutAddresses_ := {[ [97] := pool ]};
     coinbaseTags_ := [ {| keyword_ := [1]; minerInfo_ := {| poolName_ := "B"; poolLink_ := [] |} |} ] |}.
Definition log : TxLog2 :=
  {| id_ := 1; type_ := 0; blkHeight_ := -1; blkId_ := 0; maxBlkTimestamp_ := 0; txHex_ := [];
     txHash_ := 1; tx_ := coinbase 1 5000000000 |}.
Definition object : TxObject := make_object 0 log [] 5000000000 5000000000.
Definition accepted : parser := snd (acceptBlock 210000 0 db row5 start).
Definition state : whole :=
  {| core := with_txs (with_tables (with_tx (<[1 := object]>)) (txs accepted)) accepted; kv_extra := ∅ |}.

Lemma state_blocks : blocks_of [(5, 100)] (without 5 0 none) (blks (core state)) ∧
  chain_ok [(5, 100)] (without 5 0 none).
Proof.
  destruct (acceptBlock_run 210000 0 db [] none block5 (EncodeHexBlock block5) row5 5000000000
    (coinbase 1 5000000000) start start_blocks start_ok decode5 fits5) as (p & Hrun & HB & Hok & _).
  assert (blks accepted = blks p) as E by (unfold accepted; rewrite Hrun; reflexivity).
  change (blks (core state)) with (blks accepted). rewrite E. exact (conj HB Hok).
Qed.
End RecognizeDemo.

Section witness.
#[local] Existing Instance Demo.hashing.
#[local] Existing Instance ChainDemo.scripts.
Import RecognizeDemo.

Theorem recognizeBlocks_correct_witness : ∃ m,
  recognizeBlocks known 0 0 true state = (Done tt, with_extra (λ _, m) state) ∧
  m !! ToString 5 = Some (extra_text pool).
Proof.
  destruct state_blocks as [HB Hok].
  destruct (recognizeBlocks_correct known [(5, 100)] (without 5 0 ChainDemo.none) state 0 0 true HB Hok)
    as (m & Hrun & Hin & _); [done | simpl; lia | lia | lia | |].
  - intros x Hx. apply list_elem_of_singleton in Hx as ->. exists object. exists (ToString 1).
    split; vm_compute; reflexivity.
  - exists m. split; [exact Hrun|]. destruct (Hin (5, 100)) as (o & (page & Hp & Ho) & Hm); [left|].
    assert (page = ToString 1) as -> by (vm_compute in Hp; injection Hp as <-; vm_compute; reflexivity).
    assert (o = object) as -> by (vm_compute in Ho; injection Ho as <-; vm_compute; reflexivity).
    etrans; [exact Hm|]. vm_compute. reflexivity.
Defined.
End witness.
