(* ===== verification/HttpAddress.v ===== *)
(** * The answers of the JSON service (src/jiexi/src/HttpAPI.cc [address], [tx])

    Which keys the page of an address meets, and what the two handlers answer on
    the tables of a world. *)
From S2P Require Import Prelude Tx Bytes Text Serialize TxState Notify Ledger LedgerSpec LedgerRefine ParserTx ParserRefine.
From S2P Require Import Balances Utxo ParserSpec ParserHistory ParserSteps ParserTables ParserClaims.
From S2P Require Import KVDB Codec Json Base58 RecognizeBlock RecognizeFacts HttpApi HttpApiFacts.

(** ** The keys of an address's transactions *)
Section keys.
Implicit Types (a k p : bytes) (i : Z).

(** no NUL, and no separator of the keys *)
Definition key_text a : Prop := plain a ∧ 95 ∉ a.

Lemma prefix_between p x y k : text_le (p ++ x) k → text_le k (p ++ y) → ∃ z, k = p ++ z.
Proof.
  revert k. induction p as [|c p IH]; intros k H1 H2; [by exists k|].
  destruct k as [|d k]; [by apply text_le_cons_nil in H1|]. cbn [app] in *. apply text_le_cons in H1, H2.
  assert (c = d ∧ text_le (p ++ x) k ∧ text_le k (p ++ y)) as (-> & H1' & H2') by (destruct H1 as [|[]], H2 as [|[]]; lia || tauto).
  destruct (IH k H1' H2') as [z ->]. by exists z.
Qed.

Lemma split_first a a' (x x' : bytes) : 95 ∉ a → 95 ∉ a' → a ++ 95 :: x = a' ++ 95 :: x' → a = a' ∧ x = x'.
Proof.
  revert a'. induction a as [|c a IH]; intros [|c' a'] Ha Ha' E; cbn in E.
  - by injection E.
  - injection E as <- _. set_solver.
  - injection E as -> _. set_solver.
  - injection E as -> E. destruct (IH a') as [-> ->]; set_solver.
Qed.

Lemma addr_tx_key_le a i j : height_ok i → height_ok j → text_le (addr_tx_key (a, i)) (addr_tx_key (a, j)) ↔ i ≤ j.
Proof.
  intros Hi Hj. destruct (pad10_facts i Hi) as (Li & Di & Vi), (pad10_facts j Hj) as (Lj & Dj & Vj).
  unfold addr_tx_key. cbn [fst snd]. by rewrite !text_le_app, text_le_digits, Vi, Vj by congruence.
Qed.
Lemma addr_tx_key_inj a a' i j : 95 ∉ a → 95 ∉ a' → height_ok i → height_ok j →
  addr_tx_key (a, i) = addr_tx_key (a', j) → a = a' ∧ i = j.
Proof.
  intros Ha Ha' Hi Hj E. unfold addr_tx_key in E. cbn [fst snd] in E. apply app_inv_head in E.
  apply split_first in E as [-> E]; [|done|done]. split; [done|].
  destruct (pad10_facts i Hi) as (_ & _ & <-), (pad10_facts j Hj) as (_ & _ & <-). by rewrite E.
Qed.
Lemma addr_tx_key_lt a i j : height_ok i → height_ok j → i < j → text_lt (addr_tx_key (a, i)) (addr_tx_key (a, j)).
Proof.
  intros Hi Hj Hlt. split; [apply addr_tx_key_le; [done|done|lia]|]. intros E.
  assert (text_le (addr_tx_key (a, j)) (addr_tx_key (a, i))) as Hle by by rewrite E.
  apply addr_tx_key_le in Hle; [lia|done|done].
Qed.
Lemma addr_tx_key_plain a i : plain a → height_ok i → plain (addr_tx_key (a, i)).
Proof.
  intros Ha Hi. destruct (pad10_facts i Hi) as (_ & Hd & _). unfold plain, addr_tx_key in *. cbn [fst snd].
  rewrite !elem_of_app. intros [Hin|[Hin|[Hin|Hin]]]; [vm_compute in Hin; set_solver|done|set_solver|].
  rewrite Forall_forall in Hd. apply Hd in Hin. done.
Qed.
End keys.

(** ** The newest transactions of an address *)
Section pages.
Variables (s : txs_state) (a : bytes) (L : list AddressTx).
Hypothesis Hstore : ∀ b i e, kv_addr_tx (led s) !! (b, i) = Some e → key_text b ∧ 0 ≤ i < 2 ^ 31.
Hypothesis HL : ∀ i, kv_addr_tx (led s) !! (a, i) = if decide (0 ≤ i) then L !! Z.to_nat i else None.
Hypothesis Hlen : Z.of_nat (length L) < 2 ^ 31.
Hypothesis Ha : key_text a.

(** the entries from [e] on, with their keys *)
Definition rows_from (e : nat) : list (bytes * AddressTx) :=
  imap (λ i x, (addr_tx_key (a, Z.of_nat (e + i)), x)) (drop e L).

Lemma index_ok i e : kv_addr_tx (led s) !! i = Some e → height_ok i.2 ∧ key_text i.1.
Proof using All. destruct i as [b i]. intros Hi. apply Hstore in Hi as [? ?]. unfold height_ok. split; [simpl; lia|done]. Qed.

Lemma addr_tx_lookup k e : addr_tx_store s !! k = Some e ↔ ∃ p, k = addr_tx_key p ∧ kv_addr_tx (led s) !! p = Some e.
Proof using All.
  unfold addr_tx_store. split; [apply elem_kmap|]. intros (p & -> & Hp). apply kmap_elem; [|done].
  intros [b j] e' Hj E. destruct p as [b' j']. destruct (index_ok _ _ Hj) as [Oj [_ Bj]], (index_ok _ _ Hp) as [Op [_ Bp]].
  apply addr_tx_key_inj in E as [-> ->]; done.
Qed.

Lemma addr_tx_store_plain : plain_store (addr_tx_store s).
Proof using All.
  intros k [e (p & -> & Hp)%addr_tx_lookup]. destruct p as [b i], (index_ok _ _ Hp) as [? [? _]].
  by apply addr_tx_key_plain.
Qed.

Lemma elem_rows_from e k x : (k, x) ∈ rows_from e ↔ ∃ i : nat, (e ≤ i)%nat ∧ k = addr_tx_key (a, Z.of_nat i) ∧ L !! i = Some x.
Proof.
  unfold rows_from. rewrite elem_of_lookup_imap. split.
  - intros (i & y & [= -> ->] & Hi). rewrite lookup_drop in Hi. exists (e + i)%nat. split_and!; [lia|done|done].
  - intros (i & He & -> & Hi). exists (i - e)%nat, x. rewrite lookup_drop. by replace (e + (i - e))%nat with i by lia.
Qed.

Lemma nat_index_ok i x : L !! i = Some x → height_ok (Z.of_nat i).
Proof using All. intros Hi%lookup_lt_Some. unfold height_ok. lia. Qed.

Lemma rows_between (e n : nat) : length L = S n → (e ≤ n)%nat →
  between (addr_tx_key (a, Z.of_nat e)) (addr_tx_key (a, Z.of_nat n)) (addr_tx_store s) = rows_from e.
Proof using All.
  intros En He. apply between_unique.
  - apply sorted_by_index. intros i j x y Hij. unfold rows_from. rewrite !list_lookup_imap, !lookup_drop.
    intros (x' & Hx & ->)%fmap_Some (y' & Hy & ->)%fmap_Some. cbn [fst].
    apply addr_tx_key_lt; [by eapply nat_index_ok|by eapply nat_index_ok|lia].
  - intros k x. rewrite elem_rows_from. assert (height_ok (Z.of_nat e) ∧ height_ok (Z.of_nat n)) as [Oe On] by (unfold height_ok; lia).
    split.
    + intros (i & Hi & -> & Hx). pose proof (nat_index_ok _ _ Hx) as Oi. pose proof (lookup_lt_Some _ _ _ Hx). split.
      * split; apply addr_tx_key_le; (done || lia).
      * apply addr_tx_lookup. exists (a, Z.of_nat i). split; [done|]. rewrite HL, decide_True, Nat2Z.id by lia. done.
    + intros [[H1 H2] ([b i] & -> & Hp)%addr_tx_lookup]. destruct (index_ok _ _ Hp) as [Oi [_ Hb]]. cbn [fst snd] in *.
      assert (b = a) as ->.
      { assert (∃ z, addr_tx_key (b, i) = (lit "21_" ++ a ++ [95]) ++ z) as (z & E).
        { unfold addr_tx_key in *. cbn [fst snd] in *. eapply prefix_between; rewrite <-!app_assoc; [exact H1|exact H2]. }
        unfold addr_tx_key in E. cbn [fst snd] in E. rewrite <-!app_assoc in E. apply app_inv_head in E.
        apply split_first in E as [-> _]; [done|done|apply Ha]. }
      apply addr_tx_key_le in H1; [|done|done]. rewrite HL in Hp. case_decide; [|done].
      exists (Z.to_nat i). rewrite Z2Nat.id by lia. split_and!; [lia|done|done].
Qed.

(** the page that is asked for: the newest entries, one at least *)
Lemma range_newest (n : nat) pageSize : length L = S n → 0 ≤ pageSize ≤ 1000 →
  let e := Z.max 0 (Z.of_nat n - pageSize) in
  ∃ kvs, range (addr_tx_store s) (addr_tx_key (a, Z.of_nat n)) (addr_tx_key (a, e)) pageSize 0 = Done kvs ∧
    kvs.*2 = take (Z.to_nat (Z.max 1 pageSize)) (reverse L).
Proof using All.
  intros En Hps e. assert (0 ≤ e ≤ Z.of_nat n) as He by lia.
  assert (height_ok e ∧ height_ok (Z.of_nat n)) as [Oe On] by (unfold height_ok; lia).
  pose proof (addr_tx_key_plain a e (proj1 Ha) Oe) as Pe. pose proof (addr_tx_key_plain a _ (proj1 Ha) On) as Pn.
  assert (∀ d : nat, length (rows_from d) = (length L - d)%nat) as Hrl by (intros d; unfold rows_from; by rewrite length_imap, length_drop).
  assert (∀ d : nat, (rows_from d).*2 = drop d L) as Hr2.
  { intros d. unfold rows_from. rewrite fmap_imap. apply list_eq. intros i. rewrite list_lookup_imap. by destruct (drop d L !! i). }
  assert (∀ l : list (bytes * AddressTx), page pageSize (Z.max 0 0) l = take (Z.to_nat (Z.max 1 pageSize)) l) as Hpage.
  { intros l. unfold page. change (Z.to_nat (Z.max 0 0)) with 0%nat. rewrite drop_0. f_equal. rewrite wrapU_id by (unfold in_u; lia). done. }
  rewrite <-(Z2Nat.id e) in * by lia. set (e' := Z.to_nat e) in *.
  assert (Z.of_nat (length (span (addr_tx_key (a, Z.of_nat n)) (addr_tx_key (a, Z.of_nat e')) (addr_tx_store s))) < 2 ^ 31) as Hspan.
  { unfold span. destruct (decide (text_le _ _)) as [Hle|_]; [|rewrite (rows_between e' n), Hrl by lia; lia].
    apply addr_tx_key_le in Hle; [|done|done]. replace e' with n by lia. rewrite (rows_between n n), Hrl by lia. lia. }
  rewrite range_run by (done || apply addr_tx_store_plain). destruct (decide (e' = n)) as [E|Hne].
  - rewrite E, decide_True by done. rewrite (rows_between n n), Hpage by lia. eexists. split; [done|].
    rewrite fmap_take, Hr2. assert (pageSize = 0 ∨ n = 0%nat) as Hcase by lia.
    destruct (rev_ind (λ l, length l = S n → ∃ l' x, l = l' ++ [x] ∧ length l' = n)
      ltac:(done) ltac:(intros x l' _ El; exists l', x; rewrite length_app in El; simpl in El; split; [done|lia]) L En)
      as (l' & x & -> & Hl').
    rewrite <-Hl' at 1. rewrite drop_app_length, reverse_snoc. destruct Hcase as [->|Hn].
    + done.
    + destruct l'; [done|]. simpl in Hl'. lia.
  - rewrite decide_False by (rewrite addr_tx_key_le by done; lia). rewrite decide_False.
    + rewrite (rows_between e' n), Hpage by lia. eexists. split; [done|]. rewrite fmap_take, fmap_reverse, Hr2.
      destruct (decide (e' = 0%nat)) as [->|]; [by rewrite drop_0|].
      rewrite <-(take_drop e' L) at 2. rewrite reverse_app, take_app_le; [done|]. rewrite length_reverse, length_drop. lia.
    + intros Hnil. assert (addr_tx_store s !! addr_tx_key (a, Z.of_nat n) = L !! n) as Hk.
      { destruct (L !! n) as [x|] eqn:Ex; [|apply lookup_ge_None in Ex; lia]. apply addr_tx_lookup.
        exists (a, Z.of_nat n). split; [done|]. by rewrite HL, decide_True, Nat2Z.id by lia. }
      destruct (L !! n) as [x|] eqn:Ex; [|apply lookup_ge_None in Ex; lia].
      assert ((addr_tx_key (a, Z.of_nat n), x) ∈ from (addr_tx_key (a, Z.of_nat n)) (addr_tx_store s)) as Hin.
      { unfold from. apply list_elem_of_filter. split; [done|]. by apply elem_of_map_items. }
      rewrite Hnil in Hin. by apply elem_of_nil in Hin.
Qed.
End pages.

(** ** Worlds whose texts need no escape *)

Definition base58_text (a : bytes) : Prop := Forall (λ c, c ∈ pszBase58) a.

Lemma base58_char_facts c : c ∈ pszBase58 → safe_char c ∧ c ≠ 95 ∧ isspace c = false.
Proof.
  assert (Forall (λ c, (32 ≤ c < 256 ∧ c ≠ 34 ∧ c ≠ 92) ∧ c ≠ 95 ∧ isspace c = false) pszBase58) as Hall.
  { apply (bool_decide_unpack _). vm_compute. exact I. }
  intros Hc. rewrite Forall_forall in Hall. by apply Hall.
Qed.
Lemma base58_safe a : base58_text a → safe a.
Proof. intros Ha. eapply Forall_impl; [exact Ha|]. intros c Hc. by apply base58_char_facts. Qed.
Lemma safe_plain a : safe a → plain a.
Proof. intros Hs Hin. unfold safe in Hs. rewrite Forall_forall in Hs. apply Hs in Hin as [? _]. lia. Qed.
Lemma base58_key a : base58_text a → key_text a.
Proof.
  intros Ha. split; [by apply safe_plain, base58_safe|]. intros Hin. unfold base58_text in Ha. rewrite Forall_forall in Ha.
  by apply Ha, base58_char_facts in Hin as (_ & ? & _).
Qed.

Lemma digits_safe l : Forall digit_ok l → safe l.
Proof. intros Hl. eapply Forall_impl; [exact Hl|]. intros c. unfold digit_ok, isdigit, safe_char. lia. Qed.
Lemma safe_HexStr l : Forall byte_ok l → safe (HexStr l).
Proof.
  intros Hl. eapply Forall_impl; [by apply HexStr_chars|]. intros c (d & Hd & ->). unfold safe_char, hexmap.
  case_match; lia.
Qed.
Lemma safe_hash h : safe (ToString h).
Proof. apply safe_HexStr, Forall_reverse, le_bytes_ok. Qed.

(** What a transaction has to be like for its JSON to be well formed: one address
    per output at most, and texts of scripts without quotes and control
    characters. *)
Record plain_tx `{Scripts} (t : CTransaction) : Prop := {
  plain_outs : ∀ o, o ∈ vout t → (length (destinations (scriptPubKey o)) ≤ 1)%nat ∧
    Forall base58_text (destinations (scriptPubKey o)) ∧ safe (script_text (scriptPubKey o)) ∧
    safe (script_type (scriptPubKey o)) ∧ Forall byte_ok (scriptPubKey o);
  plain_ins : ∀ i, i ∈ vin t → safe (script_text (scriptSig i)) ∧ Forall byte_ok (scriptSig i) ∧ 0 ≤ nSequence i;
  plain_lock : 0 ≤ nLockTime t }.

Section world.
Context `{Scripts} (body : uint256 → CTransaction) (hexes : uint256 → bytes) (C : gset bytes).
Implicit Types (w : world) (h g : uint256) (a : bytes) (o : TxObject).
Abbreviation world_ok := (world_ok body C).
Abbreviation shows := (shows body hexes C).

Record plain_world w : Prop := {
  pw_txs : ∀ h, live w h → plain_tx (body h);
  pw_chain : ∀ x, x ∈ w_chain w → 0 ≤ x.2.2;
  pw_pool : ∀ h t, w_pool w !! h = Some t → 0 ≤ t }.

Lemma plain_output w h x : plain_world w → live w h → x ∈ made_outputs body h → safe_output x.
Proof.
  intros Hp Hl (o & -> & Ho)%list_elem_of_fmap. destruct (plain_outs _ (pw_txs _ Hp _ Hl) _ Ho) as (H1 & H2 & H3 & H4 & H5).
  split_and!; cbn.
  - split; [done|]. eapply Forall_impl; [exact H2|]. apply base58_safe.
  - case_match; [constructor|done].
  - by apply safe_HexStr.
  - done.
Qed.

Lemma plain_prev w h x : world_ok w → plain_world w → live w h → x ∈ prev body h → safe_output x.
Proof.
  intros Hok Hp Hl Hx. pose proof (prev_Some body C h (ok_fine _ _ _ Hok _ Hl)) as Hprev. unfold prev_of in Hprev.
  destruct (IsCoinBase (body h)) eqn:Hc; [injection Hprev as E; rewrite <-E in Hx; by apply elem_of_nil in Hx|].
  apply mapM_Some in Hprev. apply list_elem_of_lookup in Hx as (k & Hk).
  destruct (Forall2_lookup_r _ _ _ _ _ Hprev Hk) as (i & Hi & Ho).
  apply (plain_output w (hash (prevout i))); [done| |by eapply list_elem_of_lookup_2].
  apply (ok_parents _ _ _ Hok h (hash (prevout i), i32 (n (prevout i))) Hl). apply elem_of_points. split; [done|].
  exists i. split; [by eapply list_elem_of_lookup_2|done].
Qed.

Lemma plain_object w h o : world_ok w → plain_world w → live w h → object_of body h o → safe_object o.
Proof.
  intros Hok Hp Hl Ho. split_and!.
  - rewrite (obj_inputs _ _ _ Ho), Forall_forall. intros y (k & i & -> & Hi)%elem_of_lookup_imap.
    destruct (plain_ins _ (pw_txs _ Hp _ Hl) i) as (H1 & H2 & H3); [by eapply list_elem_of_lookup_2|].
    unfold make_input. destruct (IsCoinBase (body h)).
    + split_and!; cbn; [done|constructor|by apply safe_HexStr|apply safe_hash|split; [simpl; lia|constructor]].
    + split_and!; cbn; [done|done|by apply safe_HexStr|apply safe_hash|].
      destruct (prev body h !! k) as [x|] eqn:Hk; cbn; [|split; [simpl; lia|constructor]].
      apply (plain_prev w h x); [done..|]. by eapply list_elem_of_lookup_2.
  - rewrite (obj_outputs _ _ _ Ho), Forall_forall. intros x. by apply plain_output with (w := w).
  - rewrite (obj_lock_time _ _ _ Ho). apply (pw_txs _ Hp _ Hl).
Qed.

Lemma tx_object_hash (t : tx_tables) h : in_u 256 h → tx_object t (ToString h) = kv_tx t !! h.
Proof.
  intros Hh. pose proof (SetHex_GetHex h [] Hh ltac:(done)) as E. rewrite app_nil_r in E.
  unfold tx_object. by rewrite E, bool_decide_true.
Qed.

(** the object behind the text of a live transaction's hash *)
Lemma live_tx_object w s h x : world_ok w → shows w s → shown_at w h x →
  ∃ o, tx_object (tables s) (ToString h) = Some o ∧ object_of body h o ∧ (o_block_height o, o_block_time o) = x.
Proof.
  intros Hok Hs Hx. pose proof (shows_tables _ _ _ _ _ Hs) as HT. assert (live w h) as Hl by (apply shown_live; by exists x).
  destruct (tab_objects _ _ _ _ HT h x Hx) as (o & Ho & E & _).
  exists o. rewrite tx_object_hash by apply (fine_hash _ _ _ (ok_fine _ _ _ Hok _ Hl)).
  split_and!; [done|exact (tab_made _ _ _ _ HT h o Ho)|done].
Qed.

(** ** The entries of an address *)
Section shown.
Context (w : world) (s : txs_state).
Hypothesis (Hok : world_ok w) (Hs : shows w s).

Lemma account_entry a A e : account_of body w a A → e ∈ acc_txs A →
  ∃ h, live w h ∧ touches body a h ∧ at_tx_hash e = ToString h ∧
    ((∃ x, (h, x) ∈ w_chain w ∧ tx_block_time e = x.2) ∨ w_pool w !! h = Some (tx_block_time e)).
Proof using All.
  intros [Hh _] He. rewrite (entries_perm _ _ _ _ Hh) in He. apply elem_of_app in He as [He|He].
  - apply list_elem_of_fmap in He as ([h x] & -> & [Ht Hx]%list_elem_of_filter). exists h. split_and!; [|done|done|left; by exists x].
    left. by apply (list_elem_of_fmap_2 fst _ (h, x)).
  - apply list_elem_of_fmap in He as ([h x] & -> & [Ht Hx]%list_elem_of_filter). apply elem_of_map_to_list in Hx.
    exists h. split_and!; [right; by exists x|done|done|by right].
Qed.

Lemma stored_entry b i e : kv_addr_tx (led s) !! (b, i) = Some e → b ∈ C ∧ 0 ≤ i < 2 ^ 31.
Proof using All.
  intros Hi. destruct (stored_account _ _ _ _ _ b Hs) as (A & Hrep & Ha & _). rewrite (rep_tx _ _ _ Hrep) in Hi.
  case_decide as Hpos; [|done]. destruct (account_entry b A e Ha) as (h & Hl & [d Ht] & _).
  { by eapply list_elem_of_lookup_2. }
  split; [|apply lookup_lt_Some in Hi; pose proof (rep_len _ _ _ Hrep); lia].
  apply (fine_cache _ _ _ (ok_fine _ _ _ Hok _ Hl)), elem_of_dom. by exists d.
Qed.

(** the object of an address; without one the address has no transactions *)
Lemma address_object a : ∃ A, account_rep (led s) a A ∧ account_of body w a A ∧ worth A ≡64 flow A ∧
  default newAddressInfo (kv_addr (led s) !! a) = account_info A.
Proof using All.
  destruct (stored_account _ _ _ _ _ a Hs) as (A & Hrep & Ha & Ei & Hw). by exists A.
Qed.

Hypothesis (HC : ∀ b, b ∈ C → base58_text b).

(** the newest entries, one at least *)
Definition newest (pageSize : Z) (L : list AddressTx) : list AddressTx :=
  take (Z.to_nat (Z.max 1 pageSize)) (reverse L).

Lemma newest_in e pageSize L : e ∈ newest pageSize L → e ∈ L.
Proof.
  intros (i & Hi & _)%elem_of_take. apply list_elem_of_lookup_2 in Hi. rewrite elem_of_reverse in Hi. exact Hi.
Qed.

(** what the page of an address runs over *)
Lemma page_run a A pageSize verbose buf : account_rep (led s) a A → account_of body w a A →
  acc_txs A ≠ [] → 0 ≤ pageSize ≤ 1000 →
  ∃ kvs : list (bytes * AddressTx), address_txs s a (account_info A) pageSize verbose buf =
      (forM kvs (λ kv, put_address_tx s verbose kv.2) ;; removeLastComma) buf ∧
    kvs ≠ [] ∧ kvs.*2 = newest pageSize (acc_txs A).
Proof using All.
  intros Hrep Ha Hne Hps. pose proof (rep_len _ _ _ Hrep) as Hlen.
  assert (∃ n, length (acc_txs A) = S n) as [n En] by (destruct (acc_txs A); [done|by eexists]).
  assert (∀ b i e, kv_addr_tx (led s) !! (b, i) = Some e → key_text b ∧ 0 ≤ i < 2 ^ 31) as Hstore.
  { intros b i e He. apply stored_entry in He as [Hb Hi]. split; [by apply base58_key, HC|done]. }
  assert (key_text a) as Hka.
  { destruct (acc_txs A !! 0%nat) as [e|] eqn:E0; [|apply lookup_ge_None in E0; lia].
    apply (Hstore a 0 e). by rewrite (rep_tx _ _ _ Hrep), decide_True by lia. }
  destruct (range_newest s a (acc_txs A) Hstore (rep_tx _ _ _ Hrep) Hlen Hka n pageSize En Hps) as (kvs & Hrange & Hvals).
  exists kvs. assert (kvs ≠ []) as Hk.
  { intros ->. apply (f_equal length) in Hvals. rewrite length_take, length_reverse in Hvals. simpl in Hvals. lia. }
  split_and!; [|done|done]. unfold address_txs. change (txCount_ (account_info A)) with (Z.of_nat (length (acc_txs A))).
  assert (i32 (Z.of_nat (length (acc_txs A)) - 1) = Z.of_nat n) as -> by (rewrite En, wrapS_id by (done || (unfold in_s; lia)); lia).
  assert ((if i32 (Z.of_nat n - pageSize) <=? 0 then 0 else i32 (Z.of_nat n - pageSize)) = Z.max 0 (Z.of_nat n - pageSize)) as ->.
  { rewrite wrapS_id by (done || (unfold in_s; lia)). destruct (Z.leb_spec (Z.of_nat n - pageSize) 0); lia. }
  rewrite (c_str_plain a) by apply Hka. cbv zeta. rewrite Hrange, (bind_Done (lift_outcome (Done kvs)) _ buf kvs buf eq_refl).
  rewrite bool_decide_false by done. by rewrite (bind_Done (assertM (negb false)) _ buf tt buf eq_refl).
Qed.

(** the answer about an address does not fail *)
Lemma completes_put_address a keyID pageSize verbose : 0 ≤ pageSize ≤ 1000 →
  completes (put_address s a keyID pageSize verbose).
Proof using All.
  intros Hps. destruct (address_object a) as (A & Hrep & Ha & _ & Ei).
  assert (completes match kv_addr (led s) !! a with
    | Some info => if 0 <? txCount_ info then address_txs s a info pageSize verbose else mret tt
    | None => mret tt end) as Htxs; [|unfold put_address; completes_tac].
  destruct (kv_addr (led s) !! a) as [info|]; [|apply completes_ret]. cbn in Ei. subst info.
  destruct (Z.ltb_spec 0 (txCount_ (account_info A))) as [Hpos|]; [|apply completes_ret].
  intros buf. destruct (page_run a A pageSize verbose buf) as (kvs & -> & _ & Hvals); [done|done| |done|].
  { intros E. unfold account_info in Hpos. rewrite E in Hpos. simpl in Hpos. lia. }
  match goal with |- ∃ b, ?m buf = _ => enough (completes m) as Hm by apply Hm end.
  apply completes_bind; [|apply completes_modify]. apply completes_forM. intros kv Hin.
  assert (kv.2 ∈ acc_txs A) as He.
  { apply (newest_in _ pageSize). rewrite <-Hvals. by apply (list_elem_of_fmap_2 snd). }
  destruct (account_entry a A kv.2 Ha He) as (h & Hl & _ & Eh & _). destruct (proj1 (shown_live w h) Hl) as [x Hat].
  destruct (live_tx_object w s h x Hok Hs Hat) as (o & Ho & _).
  pose proof (getTx_run (tables s) (at_tx_hash kv.2) verbose) as Hget. rewrite Eh, Ho in Hget.
  unfold put_address_tx. rewrite Eh. completes_tac.
Qed.

Hypothesis (Hp : plain_world w).

(** what the answer says of an entry *)
Definition described (e : AddressTx) : Prop := ∃ h o, live w h ∧ at_tx_hash e = ToString h ∧
  tx_object (tables s) (ToString h) = Some o ∧ object_of body h o ∧ safe_object o ∧ 0 ≤ tx_block_time e.
Lemma entry_described a A e : account_of body w a A → e ∈ acc_txs A → described e.
Proof using All.
  intros Ha He. destruct (account_entry a A e Ha He) as (h & Hl & _ & Eh & Ht).
  destruct (proj1 (shown_live w h) Hl) as [x Hat].
  destruct (live_tx_object w s h x Hok Hs Hat) as (o & Ho & Hobj & _). exists h, o. split_and!; try done.
  - by eapply plain_object.
  - destruct Ht as [([ht tm] & Hx & E)|Ht]; [rewrite E; by apply (pw_chain _ Hp) in Hx|by apply (pw_pool _ Hp) in Ht].
Qed.

Lemma described_writes verbose e : described e →
  writes (put_address_tx s verbose e) (print (entry_json (tables s) verbose e) ++ [44]).
Proof using All.
  intros (h & o & _ & Eh & Ho & _ & Hsafe & Ht). unfold entry_json. rewrite <-Eh in Ho. rewrite Ho.
  apply writes_entry; [done|rewrite Eh; apply safe_hash|done|done].
Qed.
Lemma described_ok verbose e : described e → json_ok (entry_json (tables s) verbose e).
Proof using All.
  intros (h & o & _ & Eh & Ho & _ & Hsafe & Ht). unfold entry_json. rewrite Eh, Ho. apply json_ok_members.
  apply Forall_app_2; [ok_members|]. rewrite Eh. apply json_ok_tx; [apply safe_hash|done].
Qed.

Lemma writes_page a A pageSize verbose : account_rep (led s) a A → account_of body w a A →
  acc_txs A ≠ [] → 0 ≤ pageSize ≤ 1000 →
  writes (address_txs s a (account_info A) pageSize verbose)
    (commas (print <$> (entry_json (tables s) verbose <$> newest pageSize (acc_txs A)))).
Proof using All.
  intros Hrep Ha Hne Hps buf. destruct (page_run a A pageSize verbose buf) as (kvs & -> & Hk & Hvals); [done..|].
  rewrite <-Hvals, <-!list_fmap_compose. apply (writes_trim (forM kvs _)); [by destruct kvs|].
  eapply writes_eq; [apply (writes_forM kvs _ (λ kv, print (entry_json (tables s) verbose kv.2) ++ [44]))|by rewrite listed_fmap].
  intros kv Hin. apply described_writes, (entry_described a A); [done|].
  apply (newest_in _ pageSize). rewrite <-Hvals. by apply (list_elem_of_fmap_2 snd).
Qed.

(** ** The answer about an address *)
Definition address_fields (a keyID : bytes) (pageSize verbose : Z) (A : account) : list (bytes * json) :=
  let i := account_info A in
  [(lit "address", JStr a); (lit "hash160", JStr (HexStr (reverse keyID))); (lit "n_tx", JNum (txCount_ i));
   (lit "total_received", JNum (received_ i)); (lit "total_sent", JNum (sent_ i));
   (lit "final_balance", JNum (i64 (received_ i - sent_ i)));
   (lit "txs", JArr (entry_json (tables s) verbose <$> newest pageSize (acc_txs A)))].

Lemma address_fields_ok a keyID pageSize verbose A : safe a → Forall byte_ok keyID → account_of body w a A →
  json_ok (JObj (address_fields a keyID pageSize verbose A)).
Proof using All.
  intros Hsa Hk Ha. assert (safe (HexStr (reverse keyID))) as Hh by by apply safe_HexStr, Forall_reverse.
  apply json_ok_members. unfold address_fields. ok_members.
  apply json_ok_list. intros e He%newest_in. by apply described_ok, (entry_described a A).
Qed.

(** the transactions in the answer *)
Lemma writes_txs a A pageSize verbose : 0 ≤ pageSize ≤ 1000 → account_rep (led s) a A →
  account_of body w a A → default newAddressInfo (kv_addr (led s) !! a) = account_info A →
  writes match kv_addr (led s) !! a with
    | Some info => if 0 <? txCount_ info then address_txs s a info pageSize verbose else mret tt
    | None => mret tt end (commas (print <$> (entry_json (tables s) verbose <$> newest pageSize (acc_txs A)))).
Proof using All.
  intros Hps Hrep Ha Ei. assert (txCount_ (account_info A) = Z.of_nat (length (acc_txs A))) as Hc by done.
  destruct (decide (acc_txs A = [])) as [E|Hne].
  - rewrite E in *. unfold newest. rewrite reverse_nil, take_nil.
    destruct (kv_addr (led s) !! a) as [info|]; [|apply writes_ret]. cbn in Ei. subst info. rewrite Hc. apply writes_ret.
  - destruct (kv_addr (led s) !! a) as [info|]; cbn in Ei.
    + subst info. rewrite Hc. destruct (Z.ltb_spec 0 (Z.of_nat (length (acc_txs A)))) as [_|Hle]; [by apply writes_page|].
      destruct (acc_txs A); [done|simpl in Hle; lia].
    + apply (f_equal txCount_) in Ei. rewrite Hc in Ei. destruct (acc_txs A); [done|simpl in Ei; lia].
Qed.

Lemma writes_put_address a keyID pageSize verbose : base58_text a → Forall byte_ok keyID → 0 ≤ pageSize ≤ 1000 →
  ∃ A, account_of body w a A ∧ worth A ≡64 flow A ∧
    writes (put_address s a keyID pageSize verbose) (print (JObj (address_fields a keyID pageSize verbose A))).
Proof using All.
  intros Hba Hk Hps. pose proof (base58_safe a Hba) as Hsa. destruct (address_object a) as (A & Hrep & Ha & Hw & Ei).
  assert (safe (HexStr (reverse keyID))) as Hh by by apply safe_HexStr, Forall_reverse.
  exists A. split_and!; [done|done|]. unfold put_address.
  assert (∀ f : AddressInfo → Z, f newAddressInfo = 0 →
    (match kv_addr (led s) !! a with Some i => f i | None => 0 end) = f (account_info A)) as Hget.
  { intros f Hf. rewrite <-Ei. by destruct (kv_addr (led s) !! a). }
  rewrite (Hget txCount_), (Hget received_), (Hget sent_), (Hget (λ i, i64 (received_ i - sent_ i))) by done.
  eapply writes_eq.
  { eapply writes_bind; [apply writes_append|].
    do 6 (eapply writes_bind; [first [apply writes_put_d; by_compute_safe | by apply writes_put_s; [by_compute_safe|]]|]).
    eapply writes_bind; [apply writes_append|]. eapply writes_bind; [|eapply writes_bind; apply writes_append].
    by apply (writes_txs a A). }
  cbn [print]. unfold address_fields. cbv zeta.
  match goal with |- _ = _ :: commas (?f <$> ?l) ++ _ => change (f <$> l) with (member <$> l) end.
  match goal with |- _ = _ :: commas (member <$> [?x1; ?x2; ?x3; ?x4; ?x5; ?x6; ?y]) ++ _ =>
    rewrite (fmap_app member [x1; x2; x3; x4; x5; x6] [y] : member <$> [x1; x2; x3; x4; x5; x6; y] = _);
    change (member <$> [y]) with [member y]; rewrite commas_snoc, member_safe by by_compute_safe;
    change (listed (member <$> [x1; x2; x3; x4; x5; x6])) with (members_of [x1; x2; x3; x4; x5; x6]) end.
  rewrite !members_cons. cbn [print]. cbn [app]. f_equal. rewrite <-!app_assoc. cbn [app]. by rewrite <-!app_assoc.
Qed.
End shown.
End world.
