(* ===== verification/HttpClaims.v ===== *)
(** * What the HTTP API answers

    The claims about the two services: the values and keys a client of /kv gets
    back, the JSON of a transaction and of an address, and when a request ends the
    server. *)
From S2P Require Import Prelude Tx Bytes Text Serialize TxState Notify Ledger LedgerSpec LedgerRefine ParserTx ParserRefine.
From S2P Require Import Balances Utxo ParserSpec ParserHistory ParserSteps ParserTables ParserClaims.
From S2P Require Import KVDB Codec Json Base58 RecognizeBlock RecognizeFacts HttpApi HttpApiFacts HttpAddress.

Section api.
Context `{Scripts} (body : uint256 → CTransaction) (hexes : uint256 → bytes) (C : gset bytes).
Variables (Hash : bytes → uint256) (testnet : bool).
Implicit Types (w : world) (s : txs_state) (req : request) (h : uint256) (a : bytes).
Abbreviation world_ok := (world_ok body C).
Abbreviation shows := (shows body hexes C).
Abbreviation plain_world := (plain_world body).
Abbreviation cb_api := (cb_api Hash testnet).

Lemma api_write_writes m t resp : writes m t → api_write m resp = Done {| verbose_ := verbose_ resp;
  pageNo_ := pageNo_ resp; pageSize_ := pageSize_ resp; errorNo_ := errorNo_ resp; errorMsg_ := errorMsg_ resp;
  out_ := out_ resp ++ t |}.
Proof. intros Hm. unfold api_write. by rewrite Hm. Qed.

(** a handler that wrote a value, in the reply *)
Lemma reply_of resp v reply : out_ resp = [] → errorNo_ resp = 0 → errorMsg_ resp = [] →
  api_output (print v) 0 [] = (true, reply) → ∀ m, writes m (print v) →
  (r ← api_write m resp; Done (api_output (out_ r) (errorNo_ r) (errorMsg_ r))) = Done (true, reply).
Proof.
  intros E1 E2 E3 Hout m Hm. rewrite (api_write_writes _ _ _ Hm), E1, E2, E3. unfold mbind, outcome_bind.
  cbn [out_ errorNo_ errorMsg_ app]. by rewrite Hout.
Qed.

Lemma page_size_range req : 0 ≤ pageSize_ (api_params req) ≤ 1000.
Proof.
  unfold api_params. cbn [pageSize_]. destruct (_ <? 0) eqn:E1; cbn [orb]; [lia|].
  destruct (1000 <? _) eqn:E2; lia.
Qed.

(** C18 — Where no output of a live transaction has more than one address, and no
    text of a script a quote or a control character ([plain_world]; with several
    addresses to an output the JSON is not valid, HttpAPI.cc:480): asked for the hash
    of a transaction of the chain or of the pool, the API replies with a JSON text
    that a reader takes back to exactly that transaction: its block, its inputs with
    what they spend, its outputs, sums and fee, in the detail that was asked for. *)
Theorem tx_answers w s req h x :
  world_ok w → shows w s → plain_world w → shown_at w h x →
  query req (lit "method") = Some (lit "tx") → query req (lit "hash") = Some (ToString h) →
  ∃ o reply, object_of body h o ∧ (o_block_height o, o_block_time o) = x ∧
    cb_api s req = Done (true, reply) ∧
    json_read reply = Some (answer (JObj (tx_fields (verbose_ (api_params req)) (ToString h) o))).
Proof.
  intros Hok Hs Hp Hx Hm Hh. assert (live w h) as Hl by (apply shown_live; by exists x).
  destruct (live_tx_object body hexes C w s h x Hok Hs Hx) as (o & Ho & Hobj & Eb).
  pose proof (plain_object body C w h o Hok Hp Hl Hobj) as Hsafe.
  set (v := JObj (tx_fields (verbose_ (api_params req)) (ToString h) o)).
  assert (json_ok v) as Hv by (apply json_ok_members, json_ok_tx; [apply safe_hash|done]).
  destruct (api_output_reads v Hv) as (reply & Hout & Hread). exists o, reply. split_and!; [done|done| |done].
  - unfold HttpApi.cb_api. rewrite Hm. rewrite bool_decide_false by done. rewrite bool_decide_true by done.
    unfold tx. rewrite Hh. change (default [] (Some (ToString h))) with (ToString h). cbv zeta. rewrite length_GetHex.
    change (negb (Z.of_nat 64 =? 64)) with false. cbv iota. apply (reply_of _ v); [done..|].
    eapply writes_eq.
    + eapply writes_bind; [apply writes_append|]. eapply writes_bind; [|apply writes_append].
      apply writes_getTx; [done|apply safe_hash|done].
    + subst v. cbn [print app]. done.
Qed.

(** the key hash in an address, zeros for a script's address *)
Definition key_of a : bytes := default (replicate 20 0) (GetKeyID testnet (SetString Hash a)).
Lemma key_of_bytes a : Forall byte_ok (key_of a).
Proof.
  unfold key_of. destruct (GetKeyID _ _) eqn:E; [by eapply key_bytes|]. apply Forall_replicate. unfold byte_ok. simpl. lia.
Qed.

Lemma valid_text a : IsValid testnet (SetString Hash a) = true → plain a → Forall (λ c, isspace c = false) a → base58_text a.
Proof.
  intros Hv Hp Hns. apply Forall_forall. intros c Hc. rewrite Forall_forall in Hns.
  destruct (valid_chars Hash testnet a c Hv) as [Hs|]; [by rewrite c_str_plain| |done]. rewrite Hns in Hs; done.
Qed.

(** what the API says of an address whose entries are [L] and whose unspent
    outputs are [u] *)
Definition address_json (s : txs_state) (pageSize verbose : Z) a (L : list AddressTx) (u : gmap (uint256 * Z) (Z * Z)) : json :=
  JObj [(lit "address", JStr a); (lit "hash160", JStr (HexStr (reverse (key_of a))));
    (lit "n_tx", JNum (Z.of_nat (length L)));
    (lit "total_received", JNum (i64 (total_of received_part L))); (lit "total_sent", JNum (i64 (total_of sent_part L)));
    (lit "final_balance", JNum (i64 (map_fold (λ _ pv x, pv.2 + x) 0 u)));
    (lit "txs", JArr (entry_json (tables s) verbose <$> newest pageSize L))].

(** C13 — Where no output of a live transaction has more than one address, and no
    text of a script a quote or a control character ([plain_world]; with several
    addresses to an output the JSON is not valid, HttpAPI.cc:480): asked for a valid
    address written without blanks, the API replies with a JSON text that a reader
    takes back to its state: the number of its transactions, what it received and
    sent, as balance the sum of its unspent outputs, and the newest entries of its
    history (the confirmed ones in chain order, then the unconfirmed), each with
    the transaction itself; at most as many as were asked for, but one if there is
    one. *)
Theorem address_answers w s req a u :
  world_ok w → shows w s → plain_world w → (∀ b, b ∈ C → base58_text b) →
  query req (lit "method") = Some (lit "address") → query req (lit "address") = Some a →
  IsValid testnet (SetString Hash a) = true → plain a → Forall (λ c, isspace c = false) a →
  (∀ h p p2 v, u !! (h, p) = Some (p2, v) ↔ live w h ∧ created (body h) p a p2 v ∧ ¬ spent body w (h, p)) →
  ∃ P reply, let L := (chain_entry body a <$> chain_of body w a) ++ P in
    P ≡ₚ pool_entry body a <$> pool_of body w a ∧ cb_api s req = Done (true, reply) ∧
    json_read reply = Some (answer (address_json s (pageSize_ (api_params req)) (verbose_ (api_params req)) a L u)) ∧
    ∀ e, e ∈ L → described body w s e.
Proof.
  intros Hok Hs Hp HC Hm Ha Hv Hpl Hns Hu. pose proof (valid_text a Hv Hpl Hns) as Hba.
  destruct (writes_put_address body hexes C w s Hok Hs HC Hp a (key_of a) _ (verbose_ (api_params req)) Hba
    (key_of_bytes a) (page_size_range req)) as (A & Hacc & Hw & Hwrites). destruct (Hacc) as [Hh Ho].
  assert (u = acc_unspent A) as ->.
  { apply map_eq. intros [h p]. apply option_eq. intros [p2 v]. by rewrite Hu, (outs_unspent _ _ _ _ Ho). }
  assert ((chain_entry body a <$> chain_of body w a) ++ drop (acc_conf A) (acc_txs A) = acc_txs A) as EL.
  { by rewrite <-(hist_conf _ _ _ _ Hh), take_drop. }
  assert (address_json s (pageSize_ (api_params req)) (verbose_ (api_params req)) a (acc_txs A) (acc_unspent A) =
    JObj (address_fields s a (key_of a) (pageSize_ (api_params req)) (verbose_ (api_params req)) A)) as EJ.
  { unfold address_json, address_fields. by rewrite (shown_balance A Hw). }
  pose proof (address_fields_ok body hexes C w s Hok Hs HC Hp a (key_of a) (pageSize_ (api_params req))
    (verbose_ (api_params req)) A (base58_safe a Hba) (key_of_bytes a) Hacc) as Hj.
  destruct (api_output_reads _ Hj) as (reply & Hout & Hread).
  exists (drop (acc_conf A) (acc_txs A)), reply. cbv zeta. rewrite EL, EJ. split_and!; [apply Hh| |done|].
  - unfold HttpApi.cb_api. rewrite Hm, bool_decide_true by done. unfold address. rewrite Ha.
    change (default [] (Some a)) with a. cbv zeta. rewrite Hv. cbn [negb].
    by apply (reply_of (api_params req) _ _ eq_refl eq_refl eq_refl Hout).
  - intros e He. by apply (entry_described body hexes C w s Hok Hs HC Hp a A).
Qed.

(** ** When a request ends the server *)

Lemma api_write_completes m resp : completes m → ∃ r, api_write m resp = Done r.
Proof. intros Hm. unfold api_write. destruct (Hm (out_ resp)) as [b ->]. by eexists. Qed.

(** C37 — Every request to /api is replied to, whatever its parameters, with one
    exception: a request for a transaction whose hash has 64 characters and is not
    that of a stored object throws, and nothing catches the exception, so it ends
    the server. *)
Theorem api_fails_exactly w s req e :
  world_ok w → shows w s → (∀ b, b ∈ C → base58_text b) →
  cb_api s req = Raise e ↔ e = Throw "not found key" ∧ query req (lit "method") = Some (lit "tx") ∧
    ∃ text, query req (lit "hash") = Some text ∧ length text = 64%nat ∧ tx_object (tables s) text = None.
Proof.
  intros Hok Hs HC. unfold HttpApi.cb_api. destruct (query req (lit "method")) as [m|]; [|naive_solver].
  case_bool_decide as Ea; [|case_bool_decide as Et; [|naive_solver]]; subst m.
  - split; [|naive_solver]. unfold address. destruct (negb _); [done|].
    destruct (api_write_completes (put_address s (default [] (query req (lit "address"))) (default (replicate 20 0)
      (GetKeyID testnet (SetString Hash (default [] (query req (lit "address")))))) (pageSize_ (api_params req))
      (verbose_ (api_params req))) (api_params req)) as [r ->]; [|done].
    apply (completes_put_address body hexes C w s Hok Hs HC), page_size_range.
  - unfold tx. destruct (query req (lit "hash")) as [text|]; [|naive_solver].
    change (default [] (Some text)) with text. cbv zeta.
    destruct (Z.eqb_spec (Z.of_nat (length text)) 64) as [Hl|Hl]; cbn [negb].
    + pose proof (getTx_run (tables s) text (verbose_ (api_params req))) as Hget.
      destruct (tx_object (tables s) text) as [o|] eqn:Ho.
      * destruct (api_write_completes (append [123] ;; getTx (tables s) text (verbose_ (api_params req)) ;; append [125])
          (api_params req)) as [r ->]; [by completes_tac|naive_solver].
      * unfold api_write. rewrite (bind_Done (append [123]) _ _ _ _ eq_refl), (bind_Raise _ _ _ _ _ (Hget _)).
        split; [|by intros [-> _]]. intros [= <-]. split_and!; [done|done|]. exists text. split_and!; [done|lia|done].
    + split; [done|]. intros (_ & _ & t & [= <-] & Hh & _). lia.
Qed.
End api.

(** ** The key-value service *)
Section kv.
Context (now : Z) (db : gmap bytes bytes).
Implicit Types (req : request) (keys : list bytes) (kvs : list (bytes * bytes)) (r : APIResponse).

(** the value the offset and the length at [i] cut out of the data *)
Definition slice r (i : nat) : option bytes :=
  off ← offset_ r !! i; len ← length_ r !! i; Some (take (Z.to_nat len) (drop (Z.to_nat off) (data_ r))).
Definition total kvs : nat := length (concat kvs.*2).

(** a response that was filled with [kvs] *)
Record filled r kvs : Prop := {
  fl_data : data_ r = concat kvs.*2;
  fl_keys : keys_ r = kvs.*1;
  fl_types : types_ r = key_type <$> kvs.*1;
  fl_length : length_ r = (λ v : bytes, Z.of_nat (length v)) <$> kvs.*2;
  fl_offset : offset_ r = imap (λ i _, Z.of_nat (total (take i kvs))) kvs }.

Lemma total_snoc kvs kv : total (kvs ++ [kv]) = (total kvs + length kv.2)%nat.
Proof. unfold total. rewrite fmap_app, concat_app, length_app. cbn. by rewrite app_nil_r. Qed.

Lemma put_filled r kvs kv : filled r kvs → Z.of_nat (total (kvs ++ [kv])) < 2 ^ 31 → filled (put_value r kv) (kvs ++ [kv]).
Proof.
  intros [H1 H2 H3 H4 H5] Hlt. rewrite total_snoc in Hlt.
  constructor; cbn [put_value data_ keys_ types_ length_ offset_]; rewrite ?H1, ?H2, ?H3, ?H4, ?H5, ?fmap_app.
  - rewrite concat_app. cbn. by rewrite app_nil_r.
  - done.
  - done.
  - cbn. do 2 f_equal. apply wrapS_id; [done|]. unfold in_s. lia.
  - rewrite imap_app. cbn. rewrite Nat.add_0_r, take_app_length. fold (total kvs). f_equal.
    + apply imap_ext. intros i x Hi. apply lookup_lt_Some in Hi. by rewrite take_app_le by lia.
    + f_equal. apply wrapS_id; [done|]. unfold in_s. lia.
Qed.

Lemma fill_all kvs : Z.of_nat (total kvs) < 2 ^ 31 → filled (dbPut2Resp kvs emptyResponse) kvs.
Proof.
  unfold dbPut2Resp. induction kvs as [|kv kvs IH] using rev_ind; intros Hlt; [by constructor|].
  rewrite foldl_snoc. apply put_filled; [|done]. apply IH. rewrite total_snoc in Hlt. lia.
Qed.

Lemma filled_slice r kvs i kv : filled r kvs → kvs !! i = Some kv → slice r i = Some kv.2.
Proof.
  intros [H1 _ _ H4 H5] Hi. unfold slice. rewrite H4, H5, list_lookup_imap, !list_lookup_fmap, Hi. cbn.
  rewrite !Nat2Z.id, H1. f_equal. rewrite <-(take_drop_middle kvs i kv Hi) at 2.
  rewrite fmap_app, concat_app. cbn. unfold total. rewrite drop_app_length. apply take_app_length.
Qed.

(** ** Parameters as documented: encoded, with commas between them *)

Lemma UrlEncode_chars k : 44 ∉ UrlEncode k.
Proof.
  unfold UrlEncode. intros Hin%list_elem_of_In%in_flat_map. destruct Hin as (c & _ & Hin%list_elem_of_In).
  unfold url_char in Hin. destruct (unreserved c) eqn:E.
  - apply list_elem_of_singleton in Hin as <-. by vm_compute in E.
  - assert (∀ d, to_hex d ≠ 44) as Hd.
    { intros d Hd. unfold to_hex in Hd. pose proof (Z.land_nonneg d 15). assert (Z.land d 15 < 16) as Hlt.
      { change 15 with (Z.ones 4). rewrite Z.land_ones by lia. apply Z.mod_pos_bound. lia. }
      assert (Forall (λ x, x ≠ 44) hexupper) as Hall by (apply (bool_decide_unpack _); vm_compute; exact I).
      rewrite Forall_forall in Hall. eapply Hall; [|exact Hd]. apply list_elem_of_In, nth_In.
      change (length hexupper) with 16%nat. lia. }
    set_solver.
Qed.
Lemma UrlEncode_nonempty k : k ≠ [] → plain k → UrlEncode k ≠ [].
Proof.
  intros Hk Hp. unfold UrlEncode. rewrite c_str_plain by done. destruct k as [|c k]; [done|]. cbn.
  unfold url_char. by destruct (unreserved c).
Qed.

Lemma split_commas l count limit : l ≠ [] → (∀ x, x ∈ l → 44 ∉ x ∧ x ≠ []) → count + Z.of_nat (length l) < limit →
  0 ≤ count → split_go 44 limit count [] (commas l) = l.
Proof.
  intros Hne Hl Hc H0. revert count Hc H0. induction l as [|x l IH]; [done|]. intros count Hc H0.
  destruct (Hl x ltac:(by left)) as [H1 H2]. destruct l as [|y l].
  - cbn [commas]. by rewrite split_last.
  - change (commas (x :: y :: l)) with (x ++ 44 :: commas (y :: l)). cbn [length] in Hc. rewrite split_go_item by done.
    replace (count + 1 =? limit) with false by lia. rewrite andb_false_r. cbn [reverse app]. f_equal.
    apply IH; [done|by intros z Hz; apply Hl; right|cbn [length]; lia|lia].
Qed.

(** C31 — A client that asks for at least one and at most 10000 keys, each encoded
    and with commas between them, whose values are less than 2 GB together, gets
    back these keys in their order, each with its type and, where its offset and
    length point, the value stored under it, or nothing when there is none.  This is
    not what KVAPI.md says of a key without a value, whose offset it promises to be
    -1: here such a key has a length of 0 at an offset that is never negative; and
    KVAPI.md allows only 2000 keys. *)
Theorem kv_get_answers req keys :
  keys ≠ [] → Z.of_nat (length keys) ≤ kMaxParamsCount → (∀ k, k ∈ keys → k ≠ [] ∧ Forall (λ c, 0 < c < 256) k) →
  Z.of_nat (length (concat (multiGet db keys))) < 2 ^ 31 →
  query req (lit "method") = Some (lit "get") → query req (lit "params") = Some (commas (UrlEncode <$> keys)) →
  ∃ reply, cb_kv now db req = Done reply ∧ status_ok reply = true ∧
    RequestID reply = default (freshId now) (headers_in req (lit "RequestID")) ∧
    keys_ (response reply) = keys ∧ types_ (response reply) = key_type <$> keys ∧
    (∀ i k, keys !! i = Some k → slice (response reply) i = Some (default [] (db !! k))) ∧
    Forall (λ o, 0 ≤ o) (offset_ (response reply)) ∧
    (∀ i k, keys !! i = Some k → db !! k = None →
      length_ (response reply) !! i = Some 0 ∧ offset_ (response reply) !! i ≠ Some (-1)).
Proof.
  intros Hne Hn Hk Hsize Hm Hp. unfold cb_kv. rewrite Hm, Hp. cbv zeta.
  assert (kv_params (Some (commas (UrlEncode <$> keys))) = keys) as ->.
  { unfold kv_params, split_limit. rewrite split_commas; [|by destruct keys| |rewrite length_fmap; lia|lia].
    - rewrite <-list_fmap_compose. rewrite <-(list_fmap_id keys) at 2. apply list_fmap_ext. intros i k Hi.
      apply list_elem_of_lookup_2, Hk in Hi as [_ Hc]. by apply UrlDecode_UrlEncode.
    - intros x (k & -> & Hin)%list_elem_of_fmap. destruct (Hk k Hin) as [H1 H2]. split; [apply UrlEncode_chars|].
      apply UrlEncode_nonempty; [done|]. intros H0. rewrite Forall_forall in H2. specialize (H2 0 H0). lia. }
  replace (kMaxParamsCount <? Z.of_nat (length keys)) with false by lia. rewrite !bool_decide_false by done.
  rewrite bool_decide_true by done. unfold kv_handle_get, dbGetKeys. rewrite !bool_decide_false by done.
  assert (length keys = length (multiGet db keys)) as El by (unfold multiGet; by rewrite length_fmap).
  pose proof (fill_all (zip keys (multiGet db keys))) as Hf. unfold total in Hf.
  rewrite snd_zip in Hf by lia. specialize (Hf Hsize). eexists. split; [reflexivity|].
  cbn [status_ok kv_output error_no RequestID response]. pose proof Hf as [_ H2 H3 H4 H5].
  rewrite fst_zip in H2, H3 by lia. rewrite snd_zip in H4 by lia.
  match goal with |- context [Forall ?P (offset_ ?r)] => assert (Forall P (offset_ r)) as Hoff end.
  { rewrite H5. apply Forall_forall. intros o Ho. apply elem_of_lookup_imap in Ho. destruct Ho as (i & x & -> & _). lia. }
  split_and!; [done|done|done|done| |done|].
  - intros i k Hi. rewrite (filled_slice _ _ i (k, default [] (db !! k)) Hf); [done|].
    rewrite lookup_zip_with, Hi. unfold multiGet. by rewrite list_lookup_fmap, Hi.
  - intros i k Hi Hnone. split.
    + rewrite H4. unfold multiGet. rewrite !list_lookup_fmap, Hi. cbn. by rewrite Hnone.
    + intros Ho. rewrite Forall_lookup in Hoff. specialize (Hoff i _ Ho). lia.
Qed.
End kv.
