(* ===== verification/HttpDemo.v ===== *)
(** * The HTTP claims on concrete requests

    A chain with one unconfirmed transaction that pays to an address of the test
    network, with a toy hash for the check of addresses, and a store of three
    keys. *)
From S2P Require Import Prelude Tx Bytes Text Serialize TxState Notify Ledger LedgerSpec LedgerRefine ParserTx ParserRefine.
From S2P Require Import Balances Utxo ParserSpec ParserHistory ParserSteps ParserTables ParserClaims ParserFacts.
From S2P Require Import KVDB Codec Json Base58 RecognizeBlock RecognizeFacts HttpApi HttpApiFacts HttpAddress HttpClaims.

Module HttpDemo.
Definition toy : bytes → uint256 := AddressDemo.toy.
(** the address of a key hash *)
Definition text : bytes := Eval vm_compute in
  ToString58 toy {| vchVersion := [111]; vchData := replicate 20 7 |}.

(** a script is the address it pays to *)
#[local] Instance scripts : Scripts := {|
  destinations := λ s, match s with [] => [] | _ => [s] end; script_text := λ s, s; script_type := λ _, [] |}.
Definition coinbase : CTransaction :=
  {| nVersion := 1; vin := [ {| prevout := {| hash := 0; n := u32 (-1) |}; scriptSig := [65]; nSequence := 0 |} ];
     vout := [ {| nValue := 5000000000; scriptPubKey := text |} ]; nLockTime := 0 |}.
Definition body (h : uint256) : CTransaction := if h =? 1 then coinbase else nullTx.
Definition hexes (h : uint256) : bytes := replicate 100 48.
Definition C : gset bytes := {[ text ]}.
Definition accept1 : TxLog2 :=
  {| id_ := 1; type_ := LOG2TYPE_TX_ACCEPT; blkHeight_ := -1; blkId_ := 0; maxBlkTimestamp_ := UNCONFIRM_TX_TIMESTAMP;
     txHex_ := hexes 1; txHash_ := 1; tx_ := body 1 |}.
Definition w1 := accept_of body emptyWorld 1 UNCONFIRM_TX_TIMESTAMP.
Lemma pool_one : w_pool w1 = {[ 1 := UNCONFIRM_TX_TIMESTAMP ]}.
Proof. vm_compute. reflexivity. Qed.
(** what is unspent for the address *)
Definition coins : gmap (uint256 * Z) (Z * Z) := {[ (1, 0) := (0, 5000000000) ]}.

Ltac by_compute := apply (bool_decide_unpack _); vm_compute; exact I.

Lemma paid_outs : outs_ok (body 1).
Proof. constructor; [by_compute | apply Forall_forall; by_compute | apply Forall_forall; by_compute]. Qed.
Lemma paid_fine : tx_fine body C 1.
Proof.
  constructor; [by_compute | apply paid_outs | | eexists; vm_compute; reflexivity | by_compute].
  constructor; [by_compute | done | by_compute | by_compute |].
  intros k Hk. exfalso. revert k Hk. apply Forall_forall. by_compute.
Qed.

Lemma paid_live h : live w1 h ↔ h = 1.
Proof.
  split; [|intros ->; right; eexists; vm_compute; reflexivity].
  intros [Hc|[tm Hp]]; [by apply elem_of_nil in Hc|].
  rewrite pool_one in Hp. by apply lookup_singleton_Some in Hp as [-> _].
Qed.

Lemma paid_step : tx_step body hexes C emptyWorld accept1 w1.
Proof.
  apply accepts; [done | done | done | | apply paid_fine | | by_compute].
  - intros [Hc|[tm Hp]]; [by apply elem_of_nil in Hc|by vm_compute in Hp].
  - intros k Hk. exfalso. revert k Hk. apply Forall_forall. by_compute.
Qed.

Lemma paid_reach : ∃ s, world_ok body C w1 ∧ shows body hexes C w1 s.
Proof.
  assert (legal body hexes C emptyWorld [Some accept1] w1) as Hl.
  { eapply legal_row; [exact paid_step | constructor]. }
  destruct (follow_all body hexes C 0 210000 0 Some _ _ _ first_start Hl (empty_world_ok body C)
    (first_shows body hexes C ltac:(vm_compute; discriminate)))
    as [(s & _ & Hs & Hok)|(l1 & t & l2 & w & s & _ & _ & _ & _ & _ & _ & Hn)]; [by exists s|].
  exfalso. apply Hn, ParserDemo.harmless.
Qed.

Lemma world_plain : plain_world body w1.
Proof.
  constructor.
  - intros h ->%paid_live. constructor; [apply Forall_forall; by_compute | apply Forall_forall; by_compute | done].
  - intros x Hx. by apply elem_of_nil in Hx.
  - intros h t Ht. rewrite pool_one in Ht. by apply lookup_singleton_Some in Ht as [_ <-].
Qed.

Lemma C_base58 b : b ∈ C → base58_text b.
Proof. intros ->%elem_of_singleton. by_compute. Qed.

Lemma coins_ok h p p2 v :
  coins !! (h, p) = Some (p2, v) ↔ live w1 h ∧ created (body h) p text p2 v ∧ ¬ spent body w1 (h, p).
Proof.
  unfold coins. rewrite lookup_singleton_Some, paid_live. split.
  - intros [[= <- <-] [= <- <-]]. split_and!; [done | |].
    + by exists 0%nat, 0%nat, {| nValue := 5000000000; scriptPubKey := text |}.
    + intros (g & ->%paid_live & Hg). revert Hg. by_compute.
  - intros (-> & (k & j & o & Ho & Hj & -> & -> & ->) & _).
    destruct k as [|k]; [|by destruct k]. injection Ho as <-. destruct j as [|j]; [done|by destruct j].
Qed.

(** requests *)
Definition find (l : list (bytes * bytes)) (k : bytes) : option bytes :=
  (list_find (λ p, p.1 = k) l) ≫= λ x, Some x.2.2.
Definition get l : request := {| query := find l; headers_in := λ _, None |}.
Definition ask_tx : request := get [(lit "method", lit "tx"); (lit "hash", ToString 1); (lit "verbose", lit "3")].
Definition ask_address : request := get [(lit "method", lit "address"); (lit "address", text)].
Definition ask_unknown : request := get [(lit "method", lit "tx"); (lit "hash", replicate 64 120)].
Definition keys : list bytes := [lit "01_a"; lit "k %,"; lit "none"; lit "90_x"].
Definition ask_kv : request := get [(lit "method", lit "get"); (lit "params", commas (UrlEncode <$> keys))].
Definition db : gmap bytes bytes :=
  list_to_map [(lit "01_a", [1; 2; 3]); (lit "k %,", [4]); (lit "90_x", [5; 0; 6])].
End HttpDemo.

Section witnesses.
#[local] Existing Instance HttpDemo.scripts.
Import HttpDemo.

Theorem tx_answers_witness : ∃ s o reply, object_of body 1 o ∧ o_outputs_value o = 5000000000 ∧
  cb_api toy true s ask_tx = Done (true, reply) ∧
  json_read reply = Some (answer (JObj (tx_fields 3 (ToString 1) o))).
Proof.
  destruct paid_reach as (s & Hok & Hs). exists s.
  destruct (tx_answers body hexes C toy true w1 s ask_tx 1 (-1, 0) Hok Hs world_plain) as (o & reply & Ho & _ & Hr & Hj).
  - right. split; [eexists; vm_compute; reflexivity | reflexivity].
  - vm_compute. reflexivity.
  - vm_compute. reflexivity.
  - exists o, reply. split; [exact Ho|]. split; [|split; [exact Hr | exact Hj]].
    assert (Done (o_outputs_value o) = Done 5000000000) as E.
    { rewrite <-(obj_outputs_value _ _ _ Ho). vm_compute. reflexivity. }
    by injection E.
Defined.

Theorem address_answers_witness : ∃ s P reply,
  P ≡ₚ [pool_entry body text (1, UNCONFIRM_TX_TIMESTAMP)] ∧ cb_api toy true s ask_address = Done (true, reply) ∧
  json_read reply = Some (answer (address_json toy true s 50 1 text P coins)).
Proof.
  destruct paid_reach as (s & Hok & Hs). exists s.
  destruct (address_answers body hexes C toy true w1 s ask_address text coins Hok Hs world_plain C_base58)
    as (P & reply & HP & Hr & Hj & _).
  - vm_compute. reflexivity.
  - vm_compute. reflexivity.
  - vm_compute. reflexivity.
  - by_compute.
  - by_compute.
  - exact coins_ok.
  - exists P, reply. split_and!; [rewrite HP; vm_compute; reflexivity | exact Hr | exact Hj].
Defined.

Theorem api_fails_exactly_witness : ∃ s, cb_api toy true s ask_unknown = Raise (Throw "not found key").
Proof.
  destruct paid_reach as (s & Hok & Hs). exists s.
  apply (api_fails_exactly body hexes C toy true w1 s ask_unknown (Throw "not found key") Hok Hs C_base58).
  split_and!; [reflexivity | vm_compute; reflexivity |]. exists (replicate 64 120).
  split_and!; [vm_compute; reflexivity | reflexivity |]. unfold tx_object. rewrite bool_decide_false; [reflexivity|].
  by_compute.
Defined.

Theorem kv_get_answers_witness : ∃ reply, cb_kv 0 db ask_kv = Done reply ∧ keys_ (response reply) = keys ∧
  slice (response reply) 1 = Some [4] ∧ slice (response reply) 2 = Some [] ∧ slice (response reply) 3 = Some [5; 0; 6].
Proof.
  destruct (kv_get_answers 0 db ask_kv keys) as (reply & Hr & _ & _ & Hk & _ & Hs & _).
  - discriminate.
  - vm_compute. discriminate.
  - apply Forall_forall. by_compute.
  - vm_compute. reflexivity.
  - vm_compute. reflexivity.
  - vm_compute. reflexivity.
  - exists reply. split_and!; [exact Hr | exact Hk | | |].
    + rewrite (Hs 1%nat (lit "k %,") eq_refl). vm_compute. reflexivity.
    + rewrite (Hs 2%nat (lit "none") eq_refl). vm_compute. reflexivity.
    + rewrite (Hs 3%nat (lit "90_x") eq_refl). vm_compute. reflexivity.
Defined.
End witnesses.
