(* ===== verification/ScriptFacts.v ===== *)
(** * Scripts in the explorer

    The scripts of bitcoind as an instance of the class [Scripts], against which
    the parser is proved, and what follows: every address in the tables can be read
    back, and every text the HTTP API prints of a script is harmless. *)
From S2P Require Import Prelude Tx Bytes Text Serialize TxState Notify Ledger LedgerSpec ParserTx Base58 Script ScriptSolver.
From S2P Require Import HttpApiFacts HttpAddress ParserErrors.

Section scripts.
(** what OpenSSL computes, and the network *)
Context (Hash160 : bytes → bytes) (Hash : bytes → uint256) (testnet : bool).
Hypothesis Hash160_size : ∀ l, length (Hash160 l) = 20%nat ∧ Forall byte_ok (Hash160 l).
Implicit Types (s a p h k : bytes) (d : CTxDestination) (o : CTxOut) (t : CTransaction).
Abbreviation ExtractDestinations := (ExtractDestinations Hash160).

(** [CBitcoinAddress(dest).ToString()] *)
Definition dest_text d : bytes :=
  ToString58 Hash (default {| vchVersion := []; vchData := [] |} (Set_dest testnet d)).
Definition bitcoin_scripts : Scripts := {|
  destinations := λ s, dest_text <$> ex_addresses (ExtractDestinations s);
  script_text := script_ToString;
  script_type := λ s, GetTxnOutputType (ex_type (ExtractDestinations s)) |}.
#[local] Existing Instance bitcoin_scripts.

(** ** Addresses *)

Lemma pushes_bytes p h : pushes p h → Forall byte_ok p → Forall byte_ok h.
Proof.
  intros Hp Hb. destruct Hp; apply Forall_cons in Hb as [_ Hb]; [done| | |]; by apply Forall_app in Hb as [_ ?].
Qed.

Definition dest_ok d : Prop := ∃ h, (d = CKeyID h ∨ d = CScriptID h) ∧ length h = 20%nat ∧ Forall byte_ok h.
Lemma standard_dest s ty ds : Forall byte_ok s → standard Hash160 s ty ds → Forall dest_ok ds.
Proof using Hash160_size.
  intros Hb Hs. assert (∀ k, dest_ok (CKeyID (GetID Hash160 k))) as Hkey.
  { intros k. eexists. split; [by left|]. apply Hash160_size. }
  destruct Hs as [h Hh|p k Hp Hk|p h Hp Hh|m pks Hm Hn Hk].
  - repeat constructor. exists h. split_and!; [by right|done|].
    apply Forall_app in Hb as [_ Hb]. by apply Forall_app in Hb as [? _].
  - by repeat constructor.
  - repeat constructor. exists h. split_and!; [by left|done|].
    apply Forall_app in Hb as [_ Hb]. apply Forall_app in Hb as [Hb _]. by eapply pushes_bytes.
  - apply Forall_fmap, Forall_forall. intros k _. apply Hkey.
Qed.

Lemma dests_ok s : Forall byte_ok s → Forall dest_ok (ex_addresses (ExtractDestinations s)).
Proof using Hash160_size.
  intros Hb. pose proof (extracted_standard Hash160 s Hb) as He. cbv zeta in He.
  destruct (ex_ok _); [by eapply standard_dest|]. rewrite He. constructor.
Qed.

Lemma dest_address d : dest_ok d → ∃ b, address_of testnet d b ∧ dest_text d = ToString58 Hash b.
Proof. intros (h & [-> | ->] & Hl & Hb); (eexists; split; [split_and!; [reflexivity|done|done]|done]). Qed.

Lemma address_base58 b : base58_text (ToString58 Hash b).
Proof. apply base58_chars. Qed.

Lemma dest_text_read d : dest_ok d → IsValid testnet (SetString Hash (dest_text d)) = true ∧
  Get_dest testnet (SetString Hash (dest_text d)) = d ∧ base58_text (dest_text d).
Proof.
  intros (b & Hb & ->)%dest_address. assert (SetString Hash (ToString58 Hash b) = b) as ->.
  { apply (spells_read Hash testnet _ d b Hb). exists [], []. split_and!; [constructor|constructor|].
    rewrite app_nil_r. apply c_str_safe, base58_safe, address_base58. }
  split_and!; [by eapply address_valid|by apply (address_dest testnet d b)|apply address_base58].
Qed.

(** ** Texts *)

Lemma fmt_d_safe z : safe (fmt_d z).
Proof.
  unfold fmt_d. destruct (Z.ltb_spec z 0).
  - apply Forall_cons. split; [unfold safe_char; lia|]. apply digits_safe, fmt_u_digits. lia.
  - by apply digits_safe, fmt_u_digits.
Qed.

Lemma GetOpName_safe c : safe (GetOpName c).
Proof.
  unfold GetOpName. assert (Forall safe op_names) as Hn by (apply (bool_decide_unpack _); vm_compute; exact I).
  repeat case_match; try (apply (bool_decide_unpack _); vm_compute; exact I).
  destruct (nth_in_or_default (Z.to_nat (c - OP_PUSHDATA1)) op_names []) as [Hin| ->]; [|constructor].
  rewrite Forall_forall in Hn. by apply Hn, list_elem_of_In.
Qed.

Lemma ValueString_safe v : Forall byte_ok v → safe (ValueString v).
Proof. intros Hv. unfold ValueString. case_match; [apply fmt_d_safe|by apply safe_HexStr]. Qed.

Lemma text_loop_safe fuel pc str : Forall byte_ok pc → safe str → safe (text_loop fuel pc str).
Proof.
  revert pc str. induction fuel as [|fuel IH]; intros pc str Hb Hs; [done|]. cbn [text_loop].
  destruct pc as [|c pc]; [done|]. set (s := if bool_decide (str = []) then str else str ++ [32]).
  assert (safe s) as Hs'.
  { subst s. case_bool_decide; [done|]. apply Forall_app. split; [done|]. repeat constructor; lia. }
  destruct (op_ok (GetOp2 (c :: pc))) eqn:Hok; cbn [negb].
  - destruct (GetOp2_inv _ Hb Hok) as (p & E & Hp). rewrite E in Hb. apply Forall_app in Hb as [Hbp Hb].
    apply IH; [done|]. apply Forall_app. split; [done|]. case_match; [|apply GetOpName_safe]. apply ValueString_safe.
    destruct Hp as [(_ & _ & ->)|[_ Hp]]; [constructor|by eapply pushes_bytes].
  - apply Forall_app. split; [done|]. apply (bool_decide_unpack _). vm_compute. exact I.
Qed.

Lemma type_safe ty : safe (GetTxnOutputType ty).
Proof. destruct ty; apply (bool_decide_unpack _); vm_compute; exact I. Qed.

(** one destination at most, but for keys of which several may sign *)
Lemma single_destination s : Forall byte_ok s → ex_type (ExtractDestinations s) ≠ TX_MULTISIG →
  (length (destinations s) ≤ 1)%nat.
Proof.
  intros Hb Ht. cbn [destinations bitcoin_scripts]. rewrite length_fmap.
  pose proof (extracted_standard Hash160 s Hb) as He. cbv zeta in He. destruct (ex_ok _); [|rewrite He; simpl; lia].
  revert Ht. destruct He; simpl; [lia..|done].
Qed.

(** C25 — Of a transaction that was read from the wire, every address that is
    listed is valid and read back to a destination of its script, and no text of a
    script or of its type holds a quote or a control character.  If, besides, no
    output asks for some of several keys (TX_MULTISIG), no output lists more than
    one address, and the transaction is one the HTTP API can print. *)
Theorem outputs_clean hex t : DecodeHexTx hex = Some t →
  (∀ o a, o ∈ vout t → a ∈ destinations (scriptPubKey o) →
    ∃ d, d ∈ ex_addresses (ExtractDestinations (scriptPubKey o)) ∧
      IsValid testnet (SetString Hash a) = true ∧ Get_dest testnet (SetString Hash a) = d) ∧
  (∀ o, o ∈ vout t → safe (script_text (scriptPubKey o)) ∧ safe (script_type (scriptPubKey o))) ∧
  (∀ i, i ∈ vin t → safe (script_text (scriptSig i))) ∧
  ((∀ o, o ∈ vout t → ex_type (ExtractDestinations (scriptPubKey o)) ≠ TX_MULTISIG) → plain_tx t).
Proof.
  intros (_ & (_ & [Hin _] & [Hout _] & Hlock) & _)%(decode_hex_canon tx_codec tx_ok).
  rewrite Forall_forall in Hin. rewrite Forall_forall in Hout.
  assert (∀ o a, o ∈ vout t → a ∈ destinations (scriptPubKey o) →
    ∃ d, dest_ok d ∧ d ∈ ex_addresses (ExtractDestinations (scriptPubKey o)) ∧ a = dest_text d) as Hdest.
  { intros o a Ho (d & -> & Hd)%list_elem_of_fmap. exists d. split_and!; [|done|done].
    apply Hout in Ho as [_ [Hb _]]. apply dests_ok in Hb. rewrite Forall_forall in Hb. by apply Hb. }
  split_and!.
  - intros o a Ho Ha. destruct (Hdest o a Ho Ha) as (d & Hd & Hin' & ->). exists d. split; [done|].
    destruct (dest_text_read d Hd) as (H1 & H2 & _). done.
  - intros o Ho. pose proof (Hout o Ho) as [_ [Hb _]]. split; [|apply type_safe].
    apply text_loop_safe; [done|constructor].
  - intros i Hi. apply Hin in Hi as (_ & [Hb _] & _). apply text_loop_safe; [done|constructor].
  - intros Hm. constructor.
    + intros o Ho. pose proof (Hout o Ho) as [_ [Hb _]]. split_and!; [by apply single_destination, Hm| | |apply type_safe|done].
      * apply Forall_forall. intros a Ha. destruct (Hdest o a Ho Ha) as (d & Hd & _ & ->). by apply dest_text_read.
      * apply text_loop_safe; [done|constructor].
    + intros i Hi. apply Hin in Hi as (_ & [Hb _] & Hs). split_and!; [|done|apply Hs].
      apply text_loop_safe; [done|constructor].
    + apply Hlock.
Qed.

(** ** A key twice *)

Lemma repeated_key_twice s m pks : Forall byte_ok s →
  s = EncodeOP_N m :: concat pks.*1 ++ [EncodeOP_N (Z.of_nat (length pks)); OP_CHECKMULTISIG] →
  1 ≤ m ≤ Z.of_nat (length pks) → Z.of_nat (length pks) ≤ 16 → key_pushes pks → ¬ NoDup (CPubKey <$> pks.*2) →
  ¬ NoDup (destinations s).
Proof.
  intros Hb -> Hm Hn Hk Hdup Hnd. apply Hdup.
  destruct (standard_extracted Hash160 _ TX_MULTISIG _ Hb (std_multisig Hash160 m pks Hm Hn Hk)) as (_ & _ & E).
  cbn [destinations bitcoin_scripts] in Hnd. rewrite E in Hnd. unfold GetID in Hnd.
  rewrite <-list_fmap_compose in Hnd.
  apply (NoDup_fmap_1 (λ v, dest_text (CKeyID (Hash160 v)))). by rewrite <-list_fmap_compose.
Qed.

(** C36 — An output that asks for some of several keys, two of which are the same
    key or are both malformed, stops the parser: a transaction that spends it is
    never accepted, in whatever state. *)
Theorem repeated_key_stops begin now row (st : txs_state) prev script value m pks :
  Forall byte_ok script →
  script = EncodeOP_N m :: concat pks.*1 ++ [EncodeOP_N (Z.of_nat (length pks)); OP_CHECKMULTISIG] →
  1 ≤ m ≤ Z.of_nat (length pks) → Z.of_nat (length pks) ≤ 16 → key_pushes pks → ¬ NoDup (CPubKey <$> pks.*2) →
  IsCoinBase (tx_ row) = false → blkHeight_ row = -1 → prevTxOutputs (tables st) (tx_ row) = Some prev →
  make_output {| nValue := value; scriptPubKey := script |} ∈ prev →
  ∃ e (st' : txs_state), acceptTx begin now row st = (Raise e, st').
Proof.
  intros Hb Hs Hm Hn Hk Hdup Hc Hh Hp Hin.
  apply (duplicate_unspendable begin now row st prev _ Hc Hh Hp Hin). cbn [to_addresses make_output scriptPubKey].
  by apply (repeated_key_twice script m pks).
Qed.
End scripts.

(** ** Concrete scripts *)
Module ScriptDemo.
(** a toy hash of 20 bytes *)
Definition hash160 (l : bytes) : bytes := le_bytes 20 (le_val l).
Lemma hash160_size l : length (hash160 l) = 20%nat ∧ Forall byte_ok (hash160 l).
Proof. split; [apply length_le_bytes|apply le_bytes_ok]. Qed.

Definition key1 : bytes := 2 :: replicate 32 9.
Definition key2 : bytes := replicate 40 1.
Definition pay_hash : bytes := SetDestination (CKeyID (replicate 20 7)).
(** one of two, of which the first is pushed in the long form *)
Definition multisig (k1 k2 : bytes) : bytes :=
  EncodeOP_N 1 :: ((OP_PUSHDATA1 :: le_bytes 1 (Z.of_nat (length k1)) ++ k1) ++ push_data k2) ++
    [EncodeOP_N 2; OP_CHECKMULTISIG].
Definition scripts : Scripts := bitcoin_scripts hash160 AddressDemo.toy true.

Definition payment : CTransaction :=
  {| nVersion := 1; vin := [ {| prevout := {| hash := 1; n := 0 |}; scriptSig := [1; 7; 76]; nSequence := 0 |} ];
     vout := [ {| nValue := 50; scriptPubKey := pay_hash |}; {| nValue := 0; scriptPubKey := [OP_RETURN; 1; 34] |} ];
     nLockTime := 0 |}.

(** an object with an output for the same key twice, and a row that spends it *)
Definition object : TxObject :=
  {| o_block_height := -1; o_block_time := 0; o_is_coinbase := false; o_version := 1; o_lock_time := 0; o_size := 100;
     o_fee := 0; o_inputs := []; o_inputs_count := 0; o_inputs_value := 0;
     o_outputs := [@make_output scripts {| nValue := 5; scriptPubKey := multisig key1 key1 |}];
     o_outputs_count := 1; o_outputs_value := 5; o_created_at := 0; o_is_double_spend := false |}.
Definition before : txs_state :=
  {| led := emptyLedger;
     tables := {| kv_tx := {[ 1 := object ]}; kv_spent := ∅; kv_unconfirmed := ∅; kv_meta := ∅ |};
     unconfirmedTxsCount_ := 0; unconfirmedTxsSize_ := 0; currBlockHeight_ := -1; notifications := [] |}.
Definition row : TxLog2 :=
  {| id_ := 1; type_ := LOG2TYPE_TX_ACCEPT; blkHeight_ := -1; blkId_ := 0; maxBlkTimestamp_ := 0; txHex_ := [];
     txHash_ := 2; tx_ := payment |}.
End ScriptDemo.

Section witnesses.
Import ScriptDemo.

(** two malformed keys have the same hash, and an output without destinations
    comes with none *)
Theorem destinations_exact_witness :
  ex_addresses (ExtractDestinations hash160 (multisig key1 key2)) = [CKeyID (hash160 key1); CKeyID (hash160 [])] ∧
  ex_addresses (ExtractDestinations hash160 [OP_RETURN; 1; 34]) = [].
Proof.
  split.
  - destruct (destinations_exact hash160 (multisig key1 key2)) as [He _]; [apply (bool_decide_unpack _); vm_compute; exact I|].
    apply (proj2 (He TX_MULTISIG [CKeyID (hash160 key1); CKeyID (hash160 [])])).
    apply (std_multisig hash160 1 [(OP_PUSHDATA1 :: le_bytes 1 (Z.of_nat (length key1)) ++ key1, key1); (push_data key2, key2)]);
      [simpl; lia | simpl; lia | repeat constructor; try (simpl; lia)].
  - destruct (destinations_exact hash160 [OP_RETURN; 1; 34]) as [_ He]; [apply (bool_decide_unpack _); vm_compute; exact I|].
    apply He. vm_compute. reflexivity.
Defined.

Theorem outputs_clean_witness : @plain_tx scripts payment ∧
  IsValid true (SetString AddressDemo.toy (dest_text AddressDemo.toy true (CKeyID (replicate 20 7)))) = true.
Proof.
  destruct (outputs_clean hash160 AddressDemo.toy true hash160_size (EncodeHexTx payment) payment) as (Ha & _ & _ & Hp).
  - vm_compute. reflexivity.
  - split.
    + apply Hp. apply Forall_forall. repeat constructor; vm_compute; discriminate.
    + destruct (Ha {| nValue := 50; scriptPubKey := pay_hash |} (dest_text AddressDemo.toy true (CKeyID (replicate 20 7))))
        as (d & _ & Hv & _); [by left | vm_compute; left | exact Hv].
Defined.

Theorem repeated_key_stops_witness : ∃ e st', @acceptTx scripts 0 0 row before = (Raise e, st').
Proof.
  apply (repeated_key_stops hash160 AddressDemo.toy true 0 0 row before (o_outputs object) (multisig key1 key1) 5 1
    [(OP_PUSHDATA1 :: le_bytes 1 (Z.of_nat (length key1)) ++ key1, key1); (push_data key1, key1)]).
  - apply (bool_decide_unpack _). vm_compute. exact I.
  - vm_compute. reflexivity.
  - simpl. lia.
  - simpl. lia.
  - repeat constructor; try (simpl; lia).
  - intros Hnd. apply NoDup_cons in Hnd as [Hn _]. apply Hn. left.
  - reflexivity.
  - reflexivity.
  - vm_compute. reflexivity.
  - left.
Defined.
End witnesses.
