(* ===== verification/Notifyd.v ===== *)
(** * The notification service (src/jiexi/src/NotifyLog.h, NotifyLog.cc)

    The parser appends notification lines to numbered log files
    ([NotifyProducer]); notifyd follows them ([NotifyLogReader]), books each line
    in the tables of the applications that asked for it ([Notify]), and takes
    subscriptions and hands out events over HTTP ([cb_address],
    [cb_pull_events]).  MySQL commits every statement; the rows of a table of
    events are in the order of their ids. *)
From S2P Require Import Prelude Tx Bytes LogFiles Notify KVDB Base58 HttpApi.

(** ** The tables *)

(** a row of event_app_<n>; the hash is its text *)
Record event_row := {
  ev_id : Z;
  ev_type : Z;
  ev_hash : bytes;
  ev_height : Z;
  ev_address : bytes;
  ev_amount : Z;
  ev_created : bytes }.
Record event_table := { ev_rows : list event_row; ev_next : Z }.
Definition newTable : event_table := {| ev_rows := []; ev_next := 1 |}.
(** the rows of app_subcribe (unique), the tables event_app_<n>, and value and
    updated_at of the row notify.file.status in meta_notifyd *)
Record notify_db := {
  app_subcribe : list (Z * bytes);
  event_app : gmap Z event_table;
  meta_notifyd : option (bytes * bytes) }.

(** class [Notify]; [lastWriteDBTime] is a variable of its thread *)
Record notifyd := {
  addressTable_ : gmap bytes (gset Z);
  appIds_ : gset Z;
  logFileIndex_ : Z;
  logFileOffset_ : Z;
  lastWriteDBTime : Z;
  ndb : notify_db }.
Definition with_table (f : gmap bytes (gset Z) → gmap bytes (gset Z)) (s : notifyd) : notifyd :=
  {| addressTable_ := f (addressTable_ s); appIds_ := appIds_ s; logFileIndex_ := logFileIndex_ s;
     logFileOffset_ := logFileOffset_ s; lastWriteDBTime := lastWriteDBTime s; ndb := ndb s |}.
Definition with_apps (f : gset Z → gset Z) (s : notifyd) : notifyd :=
  {| addressTable_ := addressTable_ s; appIds_ := f (appIds_ s); logFileIndex_ := logFileIndex_ s;
     logFileOffset_ := logFileOffset_ s; lastWriteDBTime := lastWriteDBTime s; ndb := ndb s |}.
Definition with_cursor (idx off : Z) (s : notifyd) : notifyd :=
  {| addressTable_ := addressTable_ s; appIds_ := appIds_ s; logFileIndex_ := idx;
     logFileOffset_ := off; lastWriteDBTime := lastWriteDBTime s; ndb := ndb s |}.
Definition with_written (t : Z) (s : notifyd) : notifyd :=
  {| addressTable_ := addressTable_ s; appIds_ := appIds_ s; logFileIndex_ := logFileIndex_ s;
     logFileOffset_ := logFileOffset_ s; lastWriteDBTime := t; ndb := ndb s |}.
Definition with_ndb (f : notify_db → notify_db) (s : notifyd) : notifyd :=
  {| addressTable_ := addressTable_ s; appIds_ := appIds_ s; logFileIndex_ := logFileIndex_ s;
     logFileOffset_ := logFileOffset_ s; lastWriteDBTime := lastWriteDBTime s; ndb := f (ndb s) |}.
Definition with_subs (f : list (Z * bytes) → list (Z * bytes)) (d : notify_db) : notify_db :=
  {| app_subcribe := f (app_subcribe d); event_app := event_app d; meta_notifyd := meta_notifyd d |}.
Definition with_events (f : gmap Z event_table → gmap Z event_table) (d : notify_db) : notify_db :=
  {| app_subcribe := app_subcribe d; event_app := f (event_app d); meta_notifyd := meta_notifyd d |}.
Definition with_meta (m : option (bytes * bytes)) (d : notify_db) : notify_db :=
  {| app_subcribe := app_subcribe d; event_app := event_app d; meta_notifyd := m |}.

Section notifyd.
Variables (Hash : bytes → uint256) (testnet : bool).

(** ** Subscriptions *)

Definition subscribed (s : notifyd) (appID : Z) (a : bytes) : bool :=
  match addressTable_ s !! a with Some X => bool_decide (appID ∈ X) | None => false end.
(** CREATE TABLE event_app_<n> when there is none *)
Definition create_table (appID : Z) : M notifyd unit :=
  s ← get;
  match event_app (ndb s) !! appID with
  | Some _ => mret tt
  | None => modify (with_ndb (with_events <[appID := newTable]>))
  end.
(** INSERT and DELETE, which have to change one row *)
Definition insert_subscription (appID : Z) (a : bytes) : M notifyd unit :=
  s ← get;
  if bool_decide ((appID, a) ∈ app_subcribe (ndb s)) then raise (Throw "exec sql failure")
  else modify (with_ndb (with_subs (λ l, l ++ [(appID, a)]))).
Definition delete_subscription (appID : Z) (a : bytes) : M notifyd unit :=
  s ← get;
  modify (with_ndb (with_subs (filter (λ x, x ≠ (appID, a))))) ;;
  if (length (filter (λ x, x = (appID, a)) (app_subcribe (ndb s))) =? 1)%nat then mret tt
  else raise (Throw "update DB failure").

Definition insertAddress (appID : Z) (address : bytes) (sync2mysql : bool) : M notifyd bool :=
  let bitcoinAddr := SetString Hash address in
  if negb (IsValid testnet bitcoinAddr) then mret false else
  let a := ToString58 Hash bitcoinAddr in
  s ← get;
  if subscribed s appID a then mret false else
  modify (with_table (λ t, <[a := {[appID]} ∪ default ∅ (t !! a)]> t)) ;;
  let isAppIDExist := bool_decide (appID ∈ appIds_ s) in
  (if isAppIDExist then mret tt else modify (with_apps (λ X, {[appID]} ∪ X))) ;;
  (if sync2mysql then
     (if isAppIDExist then mret tt else create_table appID) ;;
     insert_subscription appID a
   else mret tt) ;;
  mret true.

Definition removeAddress (appID : Z) (address : bytes) : M notifyd bool :=
  let bitcoinAddr := SetString Hash address in
  if negb (IsValid testnet bitcoinAddr) then mret false else
  let a := ToString58 Hash bitcoinAddr in
  s ← get;
  if negb (subscribed s appID a) then mret false else
  modify (with_table (λ t, <[c_str address := default ∅ (t !! c_str address) ∖ {[appID]}]> t)) ;;
  delete_subscription appID a ;;
  mret true.

(** the rows as text *)
Definition loadAddressTableFromDB : M notifyd unit :=
  s ← get;
  forM (app_subcribe (ndb s)) (λ row, b ← insertAddress (atoi (fmt_d row.1)) row.2 false; mret tt).

(** ** Events *)

Definition add_row (t : event_table) (type height amount : Z) (hash address created : bytes) : event_table :=
  {| ev_rows := ev_rows t ++ [{| ev_id := ev_next t; ev_type := type; ev_hash := hash; ev_height := height;
                                 ev_address := address; ev_amount := amount; ev_created := created |}];
     ev_next := ev_next t + 1 |}.
Definition insert_event (appID type height amount : Z) (hash address created : bytes) : M notifyd unit :=
  s ← get;
  match event_app (ndb s) !! appID with
  | None => raise (Throw "exec sql failure")
  | Some t => modify (with_ndb (with_events <[appID := add_row t type height amount hash address created]>))
  end.

Definition kMaxCount : Z := 3000000.
(** IFNULL(MIN(id), 0), IFNULL(MAX(id), 0) *)
Definition min_id (t : event_table) : Z :=
  match ev_id <$> ev_rows t with [] => 0 | x :: l => foldl Z.min x l end.
Definition max_id (t : event_table) : Z :=
  match ev_id <$> ev_rows t with [] => 0 | x :: l => foldl Z.max x l end.
Definition prune_events (appID : Z) : M notifyd unit :=
  s ← get;
  match event_app (ndb s) !! appID with
  | None => raise (Throw "exec sql failure")
  | Some t =>
      let minId := atoi (fmt_d (min_id t)) in
      let maxId := atoi (fmt_d (max_id t)) in
      assertM (minId <=? maxId) ;;
      if minId + kMaxCount + 500000 <? maxId then
        modify (with_ndb (with_events <[appID := {| ev_rows := filter (λ r, maxId - kMaxCount ≤ ev_id r) (ev_rows t);
                                                    ev_next := ev_next t |}]>))
      else mret tt
  end.

Definition handleBlockEvent (now : Z) (item : NotifyItem) : M notifyd Z :=
  s ← get;
  forM (set_items Z.le (appIds_ s)) (λ appId,
    insert_event appId (item_type item) (item_height item) 0 (ToString (item_hash item)) [] (date_FT now) ;;
    prune_events appId) ;;
  mret (Z.of_nat (length (set_items Z.le (appIds_ s)))).
Definition handleTxEvent (now : Z) (item : NotifyItem) : M notifyd Z :=
  s ← get;
  match addressTable_ s !! item_address item with
  | None => mret 0
  | Some X =>
      forM (set_items Z.le X) (λ appId,
        insert_event appId (item_type item) (item_height item) (item_amount item) (ToString (item_hash item))
          (item_address item) (date_FT now)) ;;
      mret (Z.of_nat (length (set_items Z.le X)))
  end.

(** ** The cursor *)

Definition status_text (idx off : Z) : bytes := fmt_d idx ++ [44] ++ fmt_d off.
(** an UPDATE that changes nothing affects no row *)
Definition updateStatus (now : Z) : M notifyd unit :=
  s ← get;
  let row := (status_text (logFileIndex_ s) (logFileOffset_ s), date_FT now) in
  match meta_notifyd (ndb s) with
  | None => raise (Throw "update DB failure")
  | Some old => if bool_decide (old = row) then raise (Throw "update DB failure")
                else modify (with_ndb (with_meta (Some row)))
  end.
Definition getStatus (now : Z) : M notifyd unit :=
  s ← get;
  match meta_notifyd (ndb s) with
  | None => modify (with_ndb (with_meta (Some (status_text 0 0, date_FT now)))) ;; modify (with_cursor 0 0)
  | Some (value, _) =>
      match split value 44 with
      | [i; o] => modify (with_cursor (atoi i) (atoi64 o))
      | _ => raise AssertFail
      end
  end.

(** a round of the loop over the lines of [threadConsumeNotifyLogs], at a time *)
Definition handle_notice (x : Z * (bytes * Z)) : M notifyd unit :=
  let '(now, (line, offset)) := x in
  modify (λ s, with_cursor (logFileIndex_ s) offset s) ;;
  item ← lift_outcome (parse line);
  match item with
  | None => mret tt
  | Some item =>
      cnt ← (if (item_type item =? NOTIFY_EVENT_BLOCK_ACCEPT) || (item_type item =? NOTIFY_EVENT_BLOCK_REJECT)
             then handleBlockEvent now item else handleTxEvent now item);
      s ← get;
      if (0 <? cnt) || (lastWriteDBTime s + 3 <? now) then updateStatus now ;; modify (with_written now)
      else mret tt
  end.
(** [NotifyLogReader::readLines] on a file: the complete lines with the offsets
    behind them *)
Definition readLines (content : bytes) (currFileOffset : Z) : list (bytes * Z) :=
  getlines (drop (Z.to_nat currFileOffset) content) [] currFileOffset 0.
(** a round of its outer loop; [isNewFileExist] was asked before, and [clock]
    gives the time at each line *)
Definition consume (files : gmap Z bytes) (isNewFileExist : bool) (clock : nat → Z) : M notifyd unit :=
  s ← get;
  match files !! logFileIndex_ s with
  | None => raise (Throw "open file failure")
  | Some content =>
      let lines := readLines content (logFileOffset_ s) in
      if isNewFileExist && bool_decide (lines = []) then modify (with_cursor (logFileIndex_ s + 1) 0)
      else forM (imap (λ i x, (clock i, x)) lines) handle_notice
  end.

(** a new process on the database, and [init] *)
Definition fresh (d : notify_db) : notifyd :=
  {| addressTable_ := ∅; appIds_ := ∅; logFileIndex_ := 0; logFileOffset_ := 0; lastWriteDBTime := 0; ndb := d |}.
Definition notify_init (now : Z) : M notifyd unit := loadAddressTableFromDB ;; getStatus now.

(** ** HTTP *)

Definition error_resp (no msg : bytes) : bytes :=
  [123] ++ jkey (lit "error_no") ++ no ++ [44] ++ jkey (lit "error_msg") ++ [34] ++ msg ++ [34; 125].
Definition cb_address (token : bytes) (req : request) : M notifyd bytes :=
  match query req (lit "appid"), query req (lit "token"), query req (lit "method"), query req (lit "address") with
  | Some queryAppID, Some queryToken, Some queryMethod, Some queryAddress =>
      let appID := atoi queryAppID in
      if negb (IsValid testnet (SetString Hash queryAddress)) then mret (error_resp (lit "1") (lit "invalid address"))
      else if negb (bool_decide (queryToken = c_str token)) then mret (error_resp (lit "1") (lit "invalid token"))
      else if appID <=? 0 then mret (error_resp (lit "1") (lit "invalid appid"))
      else if bool_decide (queryMethod = lit "insert") then
        b ← insertAddress appID queryAddress true;
        mret (if (b : bool) then error_resp (lit "0") [] else error_resp (lit "20") (lit "address already exist"))
      else if bool_decide (queryMethod = lit "delete") then
        b ← removeAddress appID queryAddress;
        mret (if (b : bool) then error_resp (lit "0") [] else error_resp (lit "21") (lit "address is not exist"))
      else mret (error_resp (lit "1") (lit "invalid method"))
  | _, _, _, _ => mret (error_resp (lit "1") (lit "invalid params"))
  end.

Definition print_row (r : event_row) : bytes :=
  [123] ++ jkey (lit "id") ++ fmt_d (ev_id r) ++ [44] ++ jkey (lit "type") ++ fmt_d (ev_type r) ++ [44] ++
  jkey (lit "hash") ++ [34] ++ ev_hash r ++ [34; 44] ++ jkey (lit "height") ++ fmt_d (ev_height r) ++ [44] ++
  jkey (lit "address") ++ [34] ++ ev_address r ++ [34; 44] ++ jkey (lit "amount") ++ fmt_d (ev_amount r) ++ [44] ++
  jkey (lit "created_at") ++ [34] ++ ev_created r ++ [34; 125; 44].
(** the reply, and the tables known to exist *)
Definition cb_pull_events (token : bytes) (d : notify_db) (req : request) (tableIndex : gset Z) : bytes * gset Z :=
  match query req (lit "appid"), query req (lit "token"), query req (lit "offset") with
  | Some queryAppID, Some queryToken, Some queryOffset =>
      let appID := atoi queryAppID in
      let offset := atoi64 queryOffset in
      if negb (bool_decide (queryToken = c_str token)) then (error_resp (lit "1") (lit "invalid token"), tableIndex)
      else if negb (bool_decide (appID ∈ tableIndex)) && negb (bool_decide (is_Some (event_app d !! appID))) then
        (error_resp (lit "30") (lit "app events table is not exist"), tableIndex)
      else
        let tableIndex := {[appID]} ∪ tableIndex in
        let res := take 1000 (filter (λ r, offset < ev_id r) (from_option ev_rows [] (event_app d !! appID))) in
        if bool_decide (res = []) then (error_resp (lit "30") (lit "app events table is empty"), tableIndex)
        else
          let resp := [123] ++ jkey (lit "error_no") ++ lit "0," ++ jkey (lit "error_msg") ++ [34; 34; 44] ++
            jkey (lit "results") ++ [91] ++ concat (print_row <$> res) in
          (removelast resp ++ [93; 125], tableIndex)
  | _, _, _ => (error_resp (lit "1") (lit "invalid params"), tableIndex)
  end.
End notifyd.

(** ** [NotifyProducer] *)

Record NotifyProducer := { fileIndex_ : Z; fileOffset_ : Z; is_open : bool }.
Definition kFileMaxSize_ : Z := 100 * 1024 * 1024.
(** the largest index of the files, -1 without one *)
Definition producer_init (files : gmap Z bytes) : NotifyProducer :=
  {| fileIndex_ := foldl Z.max (-1) (map_to_list files).*1; fileOffset_ := -1; is_open := false |}.
Definition producer_write (lines : bytes) : M (NotifyProducer * gmap Z bytes) unit :=
  '(p, files) ← get;
  let idx := if fileIndex_ p =? -1 then 0 else fileIndex_ p in
  let old := default [] (files !! idx) in
  let off := (if is_open p then fileOffset_ p else Z.of_nat (length old)) + Z.of_nat (length lines) in
  modify (λ _, (if kFileMaxSize_ <? off then {| fileIndex_ := idx + 1; fileOffset_ := off; is_open := false |}
                else {| fileIndex_ := idx; fileOffset_ := off; is_open := true |},
                <[idx := old ++ lines]> files)).
