(* ===== verification/NotifyFiles.v ===== *)
(** * The files of notification lines

    What a series of writes of [NotifyProducer], with restarts between any of
    them, leaves in the directory that notifyd reads. *)
From S2P Require Import Prelude Tx Bytes LogFiles Notify KVDB Base58 HttpApi Notifyd.

Implicit Types (p : NotifyProducer) (files : gmap Z bytes) (cs ws : list bytes) (gs : list (list bytes)).

Inductive producer_step := Write (lines : bytes) | Reopen.
Definition step_producer (x : producer_step) : M (NotifyProducer * gmap Z bytes) unit :=
  match x with Write lines => producer_write lines | Reopen => modify (λ s, (producer_init s.2, s.2)) end.
Definition writes_of (l : list producer_step) : list bytes :=
  flat_map (λ x, match x with Write lines => [lines] | Reopen => [] end) l.

(** files numbered from 0 *)
Definition numbered cs files : Prop := ∀ i, files !! i = if decide (0 ≤ i) then cs !! Z.to_nat i else None.
Definition large (g : list bytes) : Prop := kFileMaxSize_ < Z.of_nat (length (concat g)).

(** [gs] are the writes of each file; the next write goes to the last file, or to
    a new one when the last is full *)
Definition at_end p gs : Prop :=
  if is_open p then ∃ gs' g, gs = gs' ++ [g] ∧ fileIndex_ p = Z.of_nat (length gs') ∧ fileOffset_ p = Z.of_nat (length (concat g))
  else fileIndex_ p = Z.of_nat (length gs) - 1 ∨ fileIndex_ p = Z.of_nat (length gs) ∧ Forall large gs.
Definition holds (s : NotifyProducer * gmap Z bytes) gs : Prop :=
  numbered (@concat Z <$> gs) s.2 ∧ at_end s.1 gs ∧ ∀ gs' g, gs = gs' ++ [g] → Forall large gs'.

Lemma numbered_next cs files c : numbered cs files → numbered (cs ++ [c]) (<[Z.of_nat (length cs) := c]> files).
Proof.
  intros Hn i. destruct (decide (i = Z.of_nat (length cs))) as [->|Hne].
  - rewrite lookup_insert_eq, decide_True, Nat2Z.id by lia. by rewrite list_lookup_middle.
  - rewrite lookup_insert_ne, Hn by done. case_decide; [|done].
    destruct (decide (Z.to_nat i < length cs)%nat); [by rewrite lookup_app_l by done|].
    rewrite !lookup_ge_None_2; [done| |lia]. rewrite length_app. simpl. lia.
Qed.
Lemma numbered_last cs files c c' : numbered (cs ++ [c]) files → numbered (cs ++ [c']) (<[Z.of_nat (length cs) := c']> files).
Proof.
  intros Hn i. destruct (decide (i = Z.of_nat (length cs))) as [->|Hne].
  - rewrite lookup_insert_eq, decide_True, Nat2Z.id by lia. by rewrite list_lookup_middle.
  - rewrite lookup_insert_ne, Hn by done. case_decide; [|done].
    destruct (decide (Z.to_nat i < length cs)%nat); [by rewrite !lookup_app_l by done|].
    rewrite !lookup_ge_None_2; [done|..]; rewrite length_app; simpl; lia.
Qed.

(** the index [init] finds *)
Lemma foldl_max (l : list Z) a : a ≤ foldl Z.max a l ∧ (∀ x, x ∈ l → x ≤ foldl Z.max a l) ∧ (foldl Z.max a l = a ∨ foldl Z.max a l ∈ l).
Proof.
  revert a. induction l as [|y l IH]; intros a; [split_and!; [simpl; lia|by intros x ?%elem_of_nil|by left]|].
  cbn [foldl]. destruct (IH (Z.max a y)) as (H1 & H2 & H3). split_and!; [lia| |].
  - intros x [->|Hx]%elem_of_cons; [lia|by apply H2].
  - destruct H3 as [H3|H3]; [|right; by right]. destruct (Z.max_spec a y) as [[_ E]|[_ E]]; rewrite E in *; [right; rewrite H3; by left|by left].
Qed.
Lemma init_index cs files : numbered cs files → fileIndex_ (producer_init files) = Z.of_nat (length cs) - 1.
Proof.
  intros Hn. cbn. destruct (foldl_max (map_to_list files).*1 (-1)) as (H1 & H2 & H3). set (m := foldl _ _ _) in *.
  assert (∀ i, i ∈ (map_to_list files).*1 ↔ 0 ≤ i < Z.of_nat (length cs)) as Hin.
  { intros i. rewrite list_elem_of_fmap. split.
    - intros ([j c] & -> & Hj%elem_of_map_to_list). cbn. rewrite Hn in Hj. case_decide; [|done]. apply lookup_lt_Some in Hj. lia.
    - intros Hi. destruct (lookup_lt_is_Some_2 cs (Z.to_nat i) ltac:(lia)) as [c Hc]. exists (i, c). split; [done|].
      apply elem_of_map_to_list. by rewrite Hn, decide_True by lia. }
  destruct (decide (length cs = 0%nat)) as [E|E].
  - destruct H3 as [H3|H3]; [lia|]. apply Hin in H3. lia.
  - assert (Z.of_nat (length cs) - 1 ≤ m) by (apply H2, Hin; lia).
    destruct H3 as [H3|H3]; [lia|]. apply Hin in H3. lia.
Qed.

(** a write to the last file, or to a new one *)
Lemma write_last p gs g files lines : holds (p, files) (gs ++ [g]) →
  (if fileIndex_ p =? -1 then 0 else fileIndex_ p) = Z.of_nat (length gs) → ∃ s,
  producer_write lines (p, files) = (Done tt, s) ∧ holds s (gs ++ [g ++ [lines]]).
Proof.
  intros (Hn & Hat & Hlarge) Ei. cbn [fst snd] in *. specialize (Hlarge gs g eq_refl).
  assert (files !! Z.of_nat (length gs) = Some (concat g)) as Hold.
  { rewrite Hn, decide_True, Nat2Z.id, fmap_app by lia. apply list_lookup_middle. by rewrite length_fmap. }
  unfold producer_write. rewrite (bind_Done get _ _ _ _ eq_refl). cbv beta iota zeta. rewrite Ei, Hold. eexists. split; [reflexivity|].
  cbn [from_option].
  replace (if is_open p then fileOffset_ p else _) with (Z.of_nat (length (concat g))); cycle 1.
  { unfold at_end in Hat. destruct (is_open p); [|done]. destruct Hat as (gs' & g' & [_ ->]%app_inj_tail & _ & ->); done. }
  assert (concat (g ++ [lines]) = concat g ++ lines) as Econ by (rewrite concat_app; simpl; by rewrite app_nil_r).
  split_and!; cbn [fst snd].
  - rewrite fmap_app in *. cbn [fmap list_fmap] in *. rewrite Econ. pose proof (length_fmap (@concat Z) gs) as El. rewrite <-El.
    eapply numbered_last. exact Hn.
  - rewrite <-Nat2Z.inj_add, <-length_app, <-Econ. destruct (Z.ltb_spec kFileMaxSize_ (Z.of_nat (length (concat (g ++ [lines]))))).
    + unfold at_end. cbn. right. rewrite length_app. cbn [length]. split; [lia|]. apply Forall_app_2; [done|]. by constructor.
    + unfold at_end. cbn. by exists gs, (g ++ [lines]).
  - by intros gs' g' [-> _]%app_inj_tail.
Qed.
Lemma write_new p gs files lines : holds (p, files) gs → Forall large gs → is_open p = false →
  (if fileIndex_ p =? -1 then 0 else fileIndex_ p) = Z.of_nat (length gs) → ∃ s,
  producer_write lines (p, files) = (Done tt, s) ∧ holds s (gs ++ [[lines]]).
Proof.
  intros (Hn & Hat & _) Hlarge Ho Ei. cbn [fst snd] in *.
  assert (files !! Z.of_nat (length gs) = None) as Hold.
  { rewrite Hn, decide_True, Nat2Z.id by lia. apply lookup_ge_None_2. by rewrite length_fmap. }
  unfold producer_write. rewrite (bind_Done get _ _ _ _ eq_refl). cbv beta iota zeta. rewrite Ei, Hold, Ho. eexists. split; [reflexivity|]. cbn [from_option length]. rewrite app_nil_l, Z.add_0_l.
  assert (concat [lines] = lines) as Econ by apply app_nil_r.
  split_and!; cbn [fst snd].
  - rewrite fmap_app. cbn [fmap list_fmap]. rewrite Econ. pose proof (length_fmap (@concat Z) gs) as El. rewrite <-El.
    by apply numbered_next.
  - replace (Z.of_nat (length lines)) with (Z.of_nat (length (concat [lines]))) by by rewrite Econ.
    destruct (Z.ltb_spec kFileMaxSize_ (Z.of_nat (length (concat [lines])))).
    + unfold at_end. cbn. right. rewrite length_app. cbn [length]. split; [lia|]. apply Forall_app_2; [done|]. by constructor.
    + unfold at_end. cbn [is_open]. exists gs, [lines]. by rewrite Econ.
  - by intros gs' g' [-> _]%app_inj_tail.
Qed.

Lemma step_holds s gs x : holds s gs → ∃ s' gs', step_producer x s = (Done tt, s') ∧ holds s' gs' ∧
  concat gs' = concat gs ++ writes_of [x].
Proof.
  intros Hs. destruct s as [p files]. destruct x as [lines|]; cycle 1.
  { exists (producer_init files, files), gs. cbn. rewrite app_nil_r. destruct Hs as (Hn & _ & Hl). split_and!; try done.
    split_and!; [done| |done]. unfold at_end. left. cbn [fst]. change (fileIndex_ (producer_init files) = Z.of_nat (length gs) - 1).
    rewrite (init_index _ files Hn). by rewrite length_fmap. }
  cbn [step_producer writes_of flat_map app]. pose proof Hs as (_ & Hat & Hl). cbn [fst] in Hat.
  assert ((∃ gs0 g, gs = gs0 ++ [g] ∧ fileIndex_ p = Z.of_nat (length gs0)) ∨
    Forall large gs ∧ is_open p = false ∧ (if fileIndex_ p =? -1 then 0 else fileIndex_ p) = Z.of_nat (length gs)) as Hcase.
  { unfold at_end in Hat. destruct (is_open p); [left; destruct Hat as (gs0 & g & ? & ? & _); eauto|].
    destruct Hat as [Hi|[Hi Hall]]; [|right; split_and!; [done|done|]; rewrite Hi; case_match; lia].
    destruct gs as [|g gs0 _] using rev_ind; [right; cbn in Hi; rewrite Hi; by split_and!|].
    left. exists gs0, g. split; [done|]. rewrite length_app in Hi. simpl in Hi. lia. }
  destruct Hcase as [(gs0 & g & -> & Hi)|(Hall & Ho & Hi)].
  - destruct (write_last p gs0 g files lines Hs) as (s' & Hrun & Hs'); [rewrite Hi; case_match; lia|].
    exists s', (gs0 ++ [g ++ [lines]]). split_and!; [done|done|]. rewrite !concat_app. cbn. by rewrite !app_nil_r, app_assoc.
  - destruct (write_new p gs files lines Hs Hall Ho Hi) as (s' & Hrun & Hs').
    exists s', (gs ++ [[lines]]). split_and!; [done|done|]. rewrite concat_app. cbn. done.
Qed.

(** C24 — Whatever the parser writes, with restarts between any two writes, ends up
    in files numbered from 0 without gaps: read one after the other they are all
    the writes, each whole, once and in order, and every file but the last is
    larger than the limit. *)
Theorem files_in_order (l : list producer_step) : ∃ p files gs,
  forM l step_producer (producer_init ∅, ∅) = (Done tt, (p, files)) ∧ numbered (@concat Z <$> gs) files ∧
  concat gs = writes_of l ∧ ∀ gs' g, gs = gs' ++ [g] → Forall large gs'.
Proof.
  destruct (forM_ind (λ done s, ∃ gs, holds s gs ∧ concat gs = writes_of done) step_producer l (producer_init ∅, ∅))
    as ([p files] & Hrun & gs & (Hn & _ & Hl) & Egs).
  - exists []. split; [|done]. split_and!; [|by left|by intros [] ?]. intros i. cbn [snd]. rewrite lookup_empty. by case_decide.
  - intros l1 x l2 s _ (gs & Hs & Egs). destruct (step_holds s gs x Hs) as (s' & gs' & Hrun & Hs' & Egs').
    exists s'. split; [done|]. exists gs'. split; [done|]. rewrite Egs', Egs. unfold writes_of. by rewrite flat_map_app.
  - by exists p, files, gs.
Qed.

Theorem files_in_order_witness : ∃ p files gs,
  forM [Write [65; 10]; Reopen; Write [66; 10]] step_producer (producer_init ∅, ∅) = (Done tt, (p, files)) ∧
  numbered (@concat Z <$> gs) files ∧ concat gs = [[65; 10]; [66; 10]].
Proof.
  destruct (files_in_order [Write [65; 10]; Reopen; Write [66; 10]]) as (p & files & gs & H1 & H2 & H3 & _).
  exists p, files, gs. split; [exact H1|]. split; [exact H2|exact H3].
Defined.
