(* ===== verification/NotifydFacts.v ===== *)
(** * The notification service keeps its books

    The invariant of notifyd ([sound]), what each operation does to the
    subscriptions and the tables of events, and what a restart reads back. *)
From S2P Require Import Prelude Tx Bytes LogFiles Notify KVDB Base58 HttpApi HttpApiFacts HttpAddress Notifyd.

(** ** Tables of events *)

(** ids without gaps *)
Definition table_ok (t : event_table) : Prop :=
  ∃ lo, 1 ≤ lo ∧ ev_id <$> ev_rows t = seqZ lo (Z.of_nat (length (ev_rows t))) ∧
    ev_next t = lo + Z.of_nat (length (ev_rows t)).

(** a row for an item *)
Definition is_block (item : NotifyItem) : bool :=
  (item_type item =? NOTIFY_EVENT_BLOCK_ACCEPT) || (item_type item =? NOTIFY_EVENT_BLOCK_REJECT).
Definition row_for (now : Z) (item : NotifyItem) (id : Z) : event_row :=
  {| ev_id := id; ev_type := item_type item; ev_hash := ToString (item_hash item); ev_height := item_height item;
     ev_address := if is_block item then [] else item_address item;
     ev_amount := if is_block item then 0 else item_amount item; ev_created := date_FT now |}.
Definition booked (now : Z) (item : NotifyItem) (t : event_table) : event_table :=
  {| ev_rows := ev_rows t ++ [row_for now item (ev_next t)]; ev_next := ev_next t + 1 |}.
Definition pruned (t : event_table) : event_table :=
  if min_id t + kMaxCount + 500000 <? max_id t
  then {| ev_rows := filter (λ r, max_id t - kMaxCount ≤ ev_id r) (ev_rows t); ev_next := ev_next t |} else t.
Definition update_for (now : Z) (item : NotifyItem) (t : event_table) : event_table :=
  if is_block item then pruned (booked now item t) else booked now item t.

Lemma foldl_min_seqZ (n : nat) lo x : x ≤ lo → foldl Z.min x (seqZ lo (Z.of_nat n)) = x.
Proof. intros Hx. induction n as [|n IH]; [done|]. rewrite seqZ_S, foldl_snoc, IH. lia. Qed.
Lemma foldl_max_seqZ (n : nat) lo x : x < lo → foldl Z.max x (seqZ lo (Z.of_nat n)) = if (n =? 0)%nat then x else lo + Z.of_nat n - 1.
Proof.
  intros Hx. induction n as [|n IH]; [done|]. rewrite seqZ_S, foldl_snoc, IH. destruct n; cbn [Nat.eqb]; lia.
Qed.

Lemma table_bounds t lo : 1 ≤ lo → ev_id <$> ev_rows t = seqZ lo (Z.of_nat (length (ev_rows t))) → ev_rows t ≠ [] →
  min_id t = lo ∧ max_id t = lo + Z.of_nat (length (ev_rows t)) - 1.
Proof.
  intros Hlo Hids Hne. unfold min_id, max_id. rewrite Hids.
  destruct (length (ev_rows t)) as [|n] eqn:E; [by destruct (ev_rows t)|].
  rewrite seqZ_cons by lia. replace (Z.pred (Z.of_nat (S n))) with (Z.of_nat n) by lia.
  rewrite foldl_min_seqZ, foldl_max_seqZ by lia. split; [done|]. destruct n; cbn [Nat.eqb]; lia.
Qed.

(** rows from an id on, when ids have no gaps *)
Lemma filter_drop (l : list event_row) lo c : ev_id <$> l = seqZ lo (Z.of_nat (length l)) →
  filter (λ r, c ≤ ev_id r) l = drop (Z.to_nat (c - lo)) l.
Proof.
  revert lo. induction l as [|r l IH]; intros lo Hl; [by rewrite drop_nil|].
  cbn [fmap list_fmap length] in Hl. rewrite seqZ_cons in Hl by lia. injection Hl as Hr Hl.
  replace (Z.pred (Z.of_nat (S (length l)))) with (Z.of_nat (length l)) in Hl by lia.
  specialize (IH (Z.succ lo) Hl). destruct (decide (c ≤ lo)) as [Hc|Hc].
  - rewrite filter_cons_True by lia. rewrite IH. replace (Z.to_nat (c - Z.succ lo)) with 0%nat by lia.
    by replace (Z.to_nat (c - lo)) with 0%nat by lia.
  - rewrite filter_cons_False by lia. rewrite IH. by replace (Z.to_nat (c - lo)) with (S (Z.to_nat (c - Z.succ lo))) by lia.
Qed.

Lemma booked_ok now item t : table_ok t → table_ok (booked now item t).
Proof.
  intros (lo & Hlo & Hids & Hn). exists lo. cbn [booked ev_rows ev_next].
  rewrite fmap_app, Hids, length_app, Hn. cbn [length fmap list_fmap ev_id row_for]. split_and!; [done| |lia].
  by rewrite Nat.add_1_r, seqZ_S.
Qed.

(** what is left of a table and its news: nothing but rows more than three
    million behind is gone *)
Definition kept (t t' : event_table) (news : list event_row) : Prop :=
  ∃ k, (k ≤ length (ev_rows t ++ news))%nat ∧ ev_rows t' = drop k (ev_rows t ++ news) ∧
    ev_next t' = ev_next t + Z.of_nat (length news) ∧ (k = 0%nat ∨ kMaxCount < Z.of_nat (length (ev_rows t'))).

Lemma pruned_kept t : table_ok t → ev_rows t ≠ [] → table_ok (pruned t) ∧ kept t (pruned t) [].
Proof.
  intros (lo & Hlo & Hids & Hn) Hne. destruct (table_bounds t lo Hlo Hids Hne) as [Emin Emax].
  unfold pruned. rewrite Emin, Emax. set (n := Z.of_nat (length (ev_rows t))) in *. unfold kMaxCount in *.
  destruct (Z.ltb_spec (lo + 3000000 + 500000) (lo + n - 1)) as [Hlt|Hge].
  - set (k := Z.to_nat (lo + n - 1 - 3000000 - lo)). pose proof (filter_drop (ev_rows t) lo (lo + n - 1 - 3000000) Hids) as E.
    fold k in E. rewrite E. assert (k ≤ length (ev_rows t))%nat as Hk by lia. split.
    + exists (lo + Z.of_nat k). cbn [ev_rows ev_next]. rewrite length_drop. split_and!; [lia| |lia].
      rewrite fmap_drop, Hids. apply list_eq. intros i. rewrite lookup_drop. destruct (decide (i < length (ev_rows t) - k)%nat).
      * rewrite !lookup_seqZ_lt by lia. f_equal. lia.
      * rewrite !lookup_seqZ_ge by lia. done.
    + exists k. cbn [ev_rows ev_next length]. rewrite app_nil_r, length_drop. unfold kMaxCount. split_and!; [done|done|lia|right; lia].
  - split; [by exists lo|]. exists 0%nat. rewrite app_nil_r. cbn [length]. split_and!; [lia|done|lia|by left].
Qed.

Lemma kept_both t t1 t2 l1 l2 : kept t t1 l1 → kept t1 t2 l2 → kept t t2 (l1 ++ l2).
Proof.
  intros (k1 & Hk1 & E1 & N1 & M1) (k2 & Hk2 & E2 & N2 & M2). exists (k1 + k2)%nat. rewrite E1 in *.
  rewrite length_app, length_drop in Hk2. rewrite !length_app in *. split_and!.
  - lia.
  - rewrite E2, (app_assoc (ev_rows t)), <-(drop_drop _ k2 k1), (drop_app_le (ev_rows t ++ l1)) by (rewrite length_app; lia). done.
  - lia.
  - destruct M2 as [->|M2]; [|by right]. destruct M1 as [->|M1]; [by left|]. right. rewrite E2, drop_0, length_app. lia.
Qed.

Section notifyd.
Variables (Hash : bytes → uint256) (testnet : bool).
Implicit Types (s : notifyd) (app now : Z) (a str : bytes) (item : NotifyItem) (t : event_table).

(** ** The invariant *)

(** the address a text stands for, as [ToString] writes it *)
Definition canon str : bytes := ToString58 Hash (SetString Hash str).
Definition valid str : bool := IsValid testnet (SetString Hash str).

Definition stored s (i o : Z) : Prop := ∃ u, meta_notifyd (ndb s) = Some (status_text i o, u).
Record sound s : Prop := {
  nv_db : ∀ app a, (app, a) ∈ app_subcribe (ndb s) ↔ subscribed s app a = true;
  nv_nodup : NoDup (app_subcribe (ndb s));
  nv_valid : ∀ app a, (app, a) ∈ app_subcribe (ndb s) → valid a = true ∧ canon a = a ∧ in_s 32 app;
  nv_apps : ∀ app a, subscribed s app a = true → app ∈ appIds_ s;
  nv_tables : ∀ app, app ∈ appIds_ s → is_Some (event_app (ndb s) !! app);
  nv_rows : ∀ app t, event_app (ndb s) !! app = Some t → table_ok t;
  nv_cursor : in_s 32 (logFileIndex_ s) ∧ in_s 64 (logFileOffset_ s);
  nv_status : ∃ i o, stored s i o ∧ in_s 32 i ∧ in_s 64 o ∧
    (i < logFileIndex_ s ∨ i = logFileIndex_ s ∧ o ≤ logFileOffset_ s) }.

(** ** Booking an item *)

(** who gets the item *)
Definition wanted s app item : bool :=
  if is_block item then bool_decide (app ∈ appIds_ s) else subscribed s app (item_address item).
Definition book now item s : gmap Z event_table :=
  map_imap (λ app t, Some (if wanted s app item then update_for now item t else t)) (event_app (ndb s)).
Definition set_events (m : gmap Z event_table) s : notifyd := with_ndb (with_events (λ _, m)) s.

(** a loop over applications that changes the table of each *)
Lemma forM_tables (op : Z → M notifyd unit) (f : event_table → event_table) (P : event_table → Prop) l s :
  NoDup l →
  (∀ app t s', event_app (ndb s') !! app = Some t → P t →
    op app s' = (Done tt, set_events (<[app := f t]> (event_app (ndb s'))) s')) →
  (∀ app, app ∈ l → ∃ t, event_app (ndb s) !! app = Some t ∧ P t) →
  forM l op s = (Done tt, set_events (map_imap (λ app t, Some (if bool_decide (app ∈ l) then f t else t)) (event_app (ndb s))) s).
Proof.
  intros Hnd Hop Hl.
  destruct (forM_ind (λ done s', s' =
    set_events (map_imap (λ app t, Some (if bool_decide (app ∈ done) then f t else t)) (event_app (ndb s))) s) op l s)
    as (s' & -> & ->); [| |done].
  - unfold set_events, with_ndb, with_events. replace (map_imap _ _) with (event_app (ndb s)).
    + by destruct s as [? ? ? ? ? []].
    + apply map_eq. intros app. rewrite map_lookup_imap. destruct (event_app (ndb s) !! app); [|done]. cbn.
      by rewrite bool_decide_false by apply not_elem_of_nil.
  - intros l1 app l2 s1 E ->. assert (app ∉ l1) as Hnew.
    { rewrite E in Hnd. apply NoDup_app in Hnd as (_ & Hd & _). intros Hin. apply (Hd app Hin). by left. }
    destruct (Hl app) as (t & Ht & HP); [rewrite E; apply elem_of_app; right; by left|].
    set (m := map_imap _ (event_app (ndb s))). assert (m !! app = Some t) as Hm.
    { unfold m. rewrite map_lookup_imap, Ht. cbn. by rewrite bool_decide_false. }
    eexists. split; [by apply (Hop app t (set_events m s))|]. unfold set_events, with_ndb, with_events. cbn. do 2 f_equal.
    apply map_eq. intros app'. unfold m. rewrite !map_lookup_imap. destruct (decide (app' = app)) as [->|Hne].
    + rewrite lookup_insert_eq, Ht. cbn. rewrite bool_decide_true; [done|]. apply elem_of_app. right. by left.
    + rewrite lookup_insert_ne, map_lookup_imap by done. destruct (event_app (ndb s) !! app'); [|done]. cbn.
      assert (bool_decide (app' ∈ l1) = bool_decide (app' ∈ l1 ++ [app])) as ->; [|done].
      apply bool_decide_ext. rewrite elem_of_app, list_elem_of_singleton. naive_solver.
Qed.

Lemma prune_run app t s : event_app (ndb s) !! app = Some t → table_ok t → ev_rows t ≠ [] → ev_next t ≤ 2 ^ 31 →
  prune_events app s = (Done tt, set_events (<[app := pruned t]> (event_app (ndb s))) s).
Proof.
  intros Ht (lo & Hlo & Hids & Hn) Hne Hmax. destruct (table_bounds t lo Hlo Hids Hne) as [Emin Emax].
  assert (0 < length (ev_rows t))%nat as Hl by (destruct (ev_rows t); [done|simpl; lia]).
  unfold prune_events. rewrite (bind_Done get _ _ _ _ eq_refl). cbv beta. rewrite Ht. cbv zeta.
  rewrite Emin, Emax, !atoi_fmt_d by (unfold in_s; lia).
  replace (lo <=? lo + Z.of_nat (length (ev_rows t)) - 1) with true by lia.
  rewrite (bind_Done (assertM true) _ _ _ _ eq_refl).
  unfold pruned. rewrite Emin, Emax. case_match; [done|].
  unfold set_events, with_ndb, with_events. rewrite insert_id by done. by destruct s as [? ? ? ? ? []].
Qed.

Lemma update_run now item app t s : event_app (ndb s) !! app = Some t → table_ok t → ev_next t < 2 ^ 31 →
  is_block item = true →
  (insert_event app (item_type item) (item_height item) 0 (ToString (item_hash item)) [] (date_FT now) ;; prune_events app) s
  = (Done tt, set_events (<[app := update_for now item t]> (event_app (ndb s))) s).
Proof.
  intros Ht Hok Hmax Hb. unfold insert_event. rewrite bind_assoc, (bind_Done get _ _ _ _ eq_refl). cbv beta. rewrite Ht.
  rewrite (bind_Done (modify _) _ _ _ _ eq_refl).
  assert (booked now item t = add_row t (item_type item) (item_height item) 0 (ToString (item_hash item)) [] (date_FT now)) as E.
  { unfold booked, add_row, row_for. by rewrite Hb. }
  rewrite <-E. rewrite (prune_run app (booked now item t)).
  - unfold set_events, with_ndb, with_events. cbn. rewrite insert_insert_eq. unfold update_for. by rewrite Hb.
  - cbn. apply lookup_insert_eq.
  - by apply booked_ok.
  - cbn. by destruct (ev_rows t).
  - cbn. lia.
Qed.

Lemma update_for_ok now item t : table_ok t → table_ok (update_for now item t) ∧ kept t (update_for now item t) [row_for now item (ev_next t)].
Proof.
  intros Hok. pose proof (booked_ok now item t Hok) as Hb. unfold update_for.
  assert (kept t (booked now item t) [row_for now item (ev_next t)]) as Hk.
  { exists 0%nat. cbn. split_and!; [lia|done|lia|by left]. }
  destruct (is_block item); [|done]. destruct (pruned_kept (booked now item t) Hb) as [H1 H2]; [cbn; by destruct (ev_rows t)|].
  split; [done|]. change [row_for now item (ev_next t)] with ([row_for now item (ev_next t)] ++ []). by eapply kept_both.
Qed.

Lemma book_run now item s : sound s → (∀ app t, event_app (ndb s) !! app = Some t → ev_next t < 2 ^ 31) →
  ∃ cnt, (if (item_type item =? NOTIFY_EVENT_BLOCK_ACCEPT) || (item_type item =? NOTIFY_EVENT_BLOCK_REJECT)
          then handleBlockEvent now item else handleTxEvent now item) s = (Done cnt, set_events (book now item s) s) ∧
    0 ≤ cnt ∧ (cnt = 0 → ∀ app, wanted s app item = false).
Proof.
  intros Hs Hmax. change ((item_type item =? NOTIFY_EVENT_BLOCK_ACCEPT) || (item_type item =? NOTIFY_EVENT_BLOCK_REJECT))
    with (is_block item). unfold book, wanted. destruct (is_block item) eqn:Hb.
  - unfold handleBlockEvent. rewrite (bind_Done get _ _ _ _ eq_refl). cbv beta.
    erewrite bind_Done; [|eapply (forM_tables _ (update_for now item) (λ t, table_ok t ∧ ev_next t < 2 ^ 31));
      [apply NoDup_set_items|intros app t s' Ht [Hok Hn]; by apply update_run|]].
    2: { intros app Hin%elem_of_set_items. destruct (nv_tables s Hs app Hin) as [t Ht]. exists t.
      split_and!; [done|by eapply nv_rows|by eapply Hmax]. }
    exists (Z.of_nat (length (set_items Z.le (appIds_ s)))). split; [|split; [lia|]].
    + unfold mret, M_ret. f_equal. unfold set_events, with_ndb, with_events. do 2 f_equal. apply map_eq. intros app.
      rewrite !map_lookup_imap. destruct (event_app (ndb s) !! app); [|done]. cbn. do 2 f_equal.
      by rewrite (bool_decide_ext _ _ (elem_of_set_items Z.le (appIds_ s) app)).
    + intros E app. apply bool_decide_eq_false. intros Hin%(elem_of_set_items Z.le).
      destruct (set_items Z.le (appIds_ s)); [by apply elem_of_nil in Hin|simpl in E; lia].
  - unfold handleTxEvent. rewrite (bind_Done get _ _ _ _ eq_refl). cbv beta. unfold subscribed.
    destruct (addressTable_ s !! item_address item) as [X|] eqn:EX.
    + erewrite bind_Done; [|eapply (forM_tables _ (update_for now item) (λ _, True)); [apply NoDup_set_items| |]].
      2: { intros app t s' Ht _. unfold insert_event. rewrite (bind_Done get _ _ _ _ eq_refl). cbv beta. rewrite Ht.
        unfold update_for, booked, row_for, add_row. by rewrite Hb. }
      2: { intros app Hin%elem_of_set_items. destruct (nv_tables s Hs app) as [t Ht]; [|by exists t].
        apply (nv_apps s Hs app (item_address item)). unfold subscribed. rewrite EX. by apply bool_decide_eq_true. }
      exists (Z.of_nat (length (set_items Z.le X))). split; [|split; [lia|]].
      * unfold mret, M_ret. f_equal. unfold set_events, with_ndb, with_events. do 2 f_equal. apply map_eq. intros app.
        rewrite !map_lookup_imap. destruct (event_app (ndb s) !! app); [|done]. cbn. do 2 f_equal.
        by rewrite (bool_decide_ext _ _ (elem_of_set_items Z.le X app)).
      * intros E app. apply bool_decide_eq_false. intros Hin%(elem_of_set_items Z.le).
        destruct (set_items Z.le X); [by apply elem_of_nil in Hin|simpl in E; lia].
    + exists 0. split_and!; [|done|done]. unfold mret, M_ret. f_equal. unfold set_events, with_ndb, with_events.
      replace (map_imap _ _) with (event_app (ndb s)); [by destruct s as [? ? ? ? ? []]|].
      apply map_eq. intros app. rewrite map_lookup_imap. by destruct (event_app (ndb s) !! app).
Qed.

(** ** The cursor as text *)

Lemma status_split i o : split (status_text i o) 44 = [fmt_d i; fmt_d o].
Proof.
  unfold split, status_text. cbn [app]. rewrite split_go_item by apply fmt_d_no_comma. cbn [negb andb Z.eqb].
  rewrite split_last; [done|apply fmt_d_no_comma|apply fmt_d_not_nil].
Qed.
Lemma status_inj i o i' o' : in_s 32 i → in_s 64 o → in_s 32 i' → in_s 64 o' →
  status_text i o = status_text i' o' → i = i' ∧ o = o'.
Proof.
  intros Hi Ho Hi' Ho' E. assert (split (status_text i o) 44 = split (status_text i' o') 44) as E2 by by rewrite E.
  rewrite !status_split in E2. injection E2 as E1 E2. split.
  - by rewrite <-(atoi_fmt_d i), <-(atoi_fmt_d i'), E1.
  - by rewrite <-(atoi64_fmt_d o), <-(atoi64_fmt_d o'), E2.
Qed.

(** ** A line *)

Lemma sound_cursor off s : sound s → logFileOffset_ s ≤ off → in_s 64 off → sound (with_cursor (logFileIndex_ s) off s).
Proof.
  intros Hs Hle Hoff. destruct Hs as [H1 H2 H3 H4 H5 H6 [H7 _] (i & o & Hst & Hi & Ho & Hlt)].
  constructor; try done. exists i, o. split_and!; [done|done|done|]. cbn. lia.
Qed.

Lemma sound_book now item s : sound s → sound (set_events (book now item s) s).
Proof.
  intros Hs. destruct Hs as [H1 H2 H3 H4 H5 H6 H7 H8].
  constructor; try done.
  - intros app Hin. cbn. unfold book. rewrite map_lookup_imap. destruct (H5 app Hin) as [t ->]. by eexists.
  - intros app t. cbn. unfold book. rewrite map_lookup_imap.
    destruct (event_app (ndb s) !! app) as [t0|] eqn:E; [|done]. intros [= <-]. specialize (H6 app t0 E).
    case_match; [|done]. by apply update_for_ok.
Qed.

Lemma status_run now i o s : sound s → stored s i o → in_s 32 i → in_s 64 o → (i, o) ≠ (logFileIndex_ s, logFileOffset_ s) →
  ∃ s', updateStatus now s = (Done tt, s') ∧
    s' = with_ndb (with_meta (Some (status_text (logFileIndex_ s) (logFileOffset_ s), date_FT now))) s.
Proof.
  intros Hs [u Hu] Hi Ho Hne. unfold updateStatus. rewrite (bind_Done get _ _ _ _ eq_refl). cbv beta zeta. rewrite Hu.
  rewrite bool_decide_false; [by eexists|]. intros [= E _]. apply Hne.
  destruct (nv_cursor s Hs) as [Hc1 Hc2]. by destruct (status_inj _ _ _ _ Hi Ho Hc1 Hc2 E) as [-> ->].
Qed.

Lemma sound_status now s : sound s →
  sound (with_ndb (with_meta (Some (status_text (logFileIndex_ s) (logFileOffset_ s), date_FT now))) s).
Proof.
  intros Hs. destruct Hs as [H1 H2 H3 H4 H5 H6 [H7 H7'] H8]. constructor; try done.
  exists (logFileIndex_ s), (logFileOffset_ s). split_and!; [by eexists|done|done|]. right. cbn. lia.
Qed.
Lemma sound_written now s : sound s → sound (with_written now s).
Proof. by intros [H1 H2 H3 H4 H5 H6 H7 H8]; constructor. Qed.

(** what no line changes *)
Definition same_subs s s' : Prop := addressTable_ s' = addressTable_ s ∧ appIds_ s' = appIds_ s ∧
  app_subcribe (ndb s') = app_subcribe (ndb s).
Definition item_of (o : outcome (option NotifyItem)) : option NotifyItem :=
  match o with Done (Some item) => Some item | _ => None end.
Definition readable (o : outcome (option NotifyItem)) : Prop := ∃ x, o = Done x.
Definition books now (o : option NotifyItem) s : gmap Z event_table :=
  match o with Some item => book now item s | None => event_app (ndb s) end.
Definition silent (o : option NotifyItem) s : Prop :=
  ∀ item, o = Some item → ∀ app, wanted s app item = false.

Lemma notice_run now line off s :
  sound s → readable (parse line) → logFileOffset_ s < off → in_s 64 off →
  (∀ app t, event_app (ndb s) !! app = Some t → ev_next t < 2 ^ 31) →
  ∃ s', handle_notice (now, (line, off)) s = (Done tt, s') ∧ sound s' ∧ same_subs s s' ∧
    logFileIndex_ s' = logFileIndex_ s ∧ logFileOffset_ s' = off ∧
    event_app (ndb s') = books now (item_of (parse line)) s ∧
    (silent (item_of (parse line)) s ∧ meta_notifyd (ndb s') = meta_notifyd (ndb s) ∨ stored s' (logFileIndex_ s) off).
Proof.
  intros Hs [o Ho] Hlt Hoff Hmax. unfold handle_notice. rewrite (bind_Done (modify _) _ _ _ _ eq_refl).
  set (s1 := with_cursor (logFileIndex_ s) off s). assert (sound s1) as Hs1 by (apply sound_cursor; [done|lia|done]).
  rewrite (bind_Done (lift_outcome (parse line)) _ _ o s1) by (by rewrite Ho). rewrite Ho. cbn [item_of].
  destruct o as [item|]; [|exists s1; split_and!; try done; left; split; [by intros ? [=]|done]].
  destruct (book_run now item s1 Hs1 Hmax) as (cnt & Hrun & Hcnt & Hnone).
  rewrite (bind_Done _ _ _ _ _ Hrun). rewrite (bind_Done get _ _ _ _ eq_refl). cbv beta.
  set (s2 := set_events (book now item s1) s1) in *. assert (sound s2) as Hs2 by by apply sound_book.
  destruct ((0 <? cnt) || (lastWriteDBTime s2 + 3 <? now)) eqn:Ew.
  - destruct (nv_status s Hs) as (i & o & Hst & Hi & Ho' & Hbefore).
    destruct (status_run now i o s2 Hs2 Hst Hi Ho') as (s3 & Hup & Es3).
    { cbn. intros [= -> ->]. lia. }
    rewrite (bind_Done _ _ _ _ _ Hup). exists (with_written now s3). split; [done|]. rewrite Es3.
    split_and!; try done; [apply sound_written, sound_status, Hs2|]. right. by eexists.
  - exists s2. split_and!; try done. left. split; [|done]. intros item' [= <-]. apply Hnone.
    apply orb_false_iff in Ew as [Ew _]. lia.
Qed.

(** ** Many lines *)
Abbreviation notice := (Z * (bytes * Z))%type.
Implicit Types (L : list notice).
Definition item_at (x : notice) : option NotifyItem := item_of (parse x.2.1).

(** lines at ascending offsets behind [o], that can be parsed *)
Fixpoint ascending (o : Z) L : Prop :=
  match L with
  | [] => True
  | x :: L => (o < x.2.2 ∧ in_s 64 x.2.2 ∧ readable (parse x.2.1)) ∧ ascending x.2.2 L
  end.
Definition room s L : Prop :=
  ∀ app t, event_app (ndb s) !! app = Some t → ev_next t + Z.of_nat (length L) ≤ 2 ^ 31.
Definition offset_after (o : Z) L : Z := match last L with Some x => x.2.2 | None => o end.

(** the rows an application gets for lines *)
Fixpoint news s app L (id : Z) : list event_row :=
  match L with
  | [] => []
  | x :: L =>
      match item_at x with
      | Some item => if wanted s app item then row_for x.1 item id :: news s app L (id + 1) else news s app L id
      | None => news s app L id
      end
  end.

Lemma news_length s app L id : (length (news s app L id) ≤ length L)%nat.
Proof.
  revert id. induction L as [|x L IH]; intros id; [done|]. cbn [news length]. repeat case_match; cbn [length];
    [specialize (IH (id + 1))|specialize (IH id)|specialize (IH id)]; lia.
Qed.
Lemma same_wanted s s' app item : same_subs s s' → wanted s' app item = wanted s app item.
Proof. intros (H1 & H2 & _). unfold wanted, subscribed. by rewrite H1, H2. Qed.
Lemma same_news s s' app L id : same_subs s s' → news s' app L id = news s app L id.
Proof.
  intros Hs. revert id. induction L as [|x L IH]; intros id; [done|]. cbn [news].
  destruct (item_at x) as [item|]; [|done]. rewrite (same_wanted s s' app item Hs). case_match; by rewrite !IH.
Qed.
Lemma same_trans s1 s2 s3 : same_subs s1 s2 → same_subs s2 s3 → same_subs s1 s3.
Proof. intros (H1 & H2 & H3) (H4 & H5 & H6). split_and!; congruence. Qed.

Lemma offset_cons x L o : offset_after o (x :: L) = offset_after x.2.2 L.
Proof. unfold offset_after. destruct L as [|y L]; [done|]. rewrite last_cons_cons. by destruct (last (y :: L)) eqn:E; [|apply last_None in E]. Qed.

Lemma offset_behind o o' L : L ≠ [] → offset_after o L = offset_after o' L.
Proof. intros Hne. unfold offset_after. destruct (last L) eqn:E; [done|]. by apply last_None in E. Qed.

Lemma books_lookup now o s app : books now o s !! app =
  (λ t, match o with Some item => if wanted s app item then update_for now item t else t | None => t end) <$> event_app (ndb s) !! app.
Proof.
  unfold books. destruct o as [item|]; [|by destruct (event_app (ndb s) !! app)].
  unfold book. rewrite map_lookup_imap. by destruct (event_app (ndb s) !! app).
Qed.

Lemma update_next now item t : ev_next (update_for now item t) = ev_next t + 1.
Proof. unfold update_for, pruned. by repeat case_match. Qed.

(** the position written last, and nothing to book behind it *)
Definition resumable s o L s' : Prop := ∃ j, (j ≤ length L)%nat ∧
  stored s' (logFileIndex_ s) (offset_after o (take j L)) ∧ Forall (λ x, silent (item_at x) s) (drop j L).

Lemma notices_run L s : sound s → ascending (logFileOffset_ s) L → room s L →
  ∃ s', forM L handle_notice s = (Done tt, s') ∧ sound s' ∧ same_subs s s' ∧
    logFileIndex_ s' = logFileIndex_ s ∧ logFileOffset_ s' = offset_after (logFileOffset_ s) L ∧
    (∀ app, match event_app (ndb s) !! app with
            | Some t => ∃ t', event_app (ndb s') !! app = Some t' ∧ table_ok t' ∧ kept t t' (news s app L (ev_next t))
            | None => event_app (ndb s') !! app = None end) ∧
    (∀ o, stored s (logFileIndex_ s) o → resumable s o L s').
Proof.
  revert s. induction L as [|[now [line off]] L IH]; intros s Hs Ha Hr.
  - exists s. split_and!; try done.
    + intros app. destruct (event_app (ndb s) !! app) as [t|] eqn:E; [|done]. exists t. split_and!; [done|by eapply nv_rows|].
      exists 0%nat. cbn. rewrite app_nil_r. split_and!; [lia|done|lia|by left].
    + intros o Ho. exists 0%nat. split_and!; [lia|done|constructor].
  - destruct Ha as [(Hlt & Hoff & Hread) Ha]. cbn [fst snd] in *.
    destruct (notice_run now line off s Hs Hread Hlt Hoff) as (s1 & Hrun & Hs1 & Hsame & Hidx & Hoff1 & Hbooks & Hst).
    { intros app t Ht. specialize (Hr app t Ht). simpl in Hr. lia. }
    destruct (IH s1 Hs1) as (s' & Hrun' & Hs' & Hsame' & Hidx' & Hoff' & Hev & Hres).
    + by rewrite Hoff1.
    + intros app t1 Ht1. rewrite Hbooks, books_lookup in Ht1. destruct (event_app (ndb s) !! app) as [t|] eqn:Et; [|done].
      specialize (Hr app t Et). simpl in Hr. injection Ht1 as <-. repeat case_match; rewrite ?update_next; lia.
    + exists s'. split_and!; [cbn [forM]; by rewrite (bind_Done _ _ _ _ _ Hrun)|done|by eapply same_trans|congruence| | |].
      * by rewrite offset_cons, <-Hoff1.
      * intros app. specialize (Hev app). rewrite Hbooks, books_lookup in Hev.
        destruct (event_app (ndb s) !! app) as [t|] eqn:Et; [|done]. cbn [fmap option_fmap option_map] in Hev.
        destruct Hev as (t' & Ht' & Hok & Hk). exists t'. split_and!; [done|done|].
        rewrite (same_news s s1 app L _ Hsame) in Hk. cbn [news]. unfold item_at. cbn [fst snd].
        destruct (item_of (parse line)) as [item|]; [|done]. destruct (wanted s app item); [|done].
        rewrite update_next in Hk. change (?x :: ?l) with ([x] ++ l). eapply kept_both; [|exact Hk].
        apply update_for_ok. by apply (nv_rows s Hs app).
      * intros o Ho. assert (∀ L', Forall (λ x, silent (item_at x) s1) L' → Forall (λ x, silent (item_at x) s) L') as Hsil.
        { intros L' HL. eapply Forall_impl; [exact HL|]. intros x Hx item E app. by rewrite <-(same_wanted s s1 app item Hsame), (Hx item E). }
        destruct Hst as [[Hnone Hmeta]|Hst].
        -- destruct (Hres o) as (j & Hj & Hstj & Hd); [unfold stored; by rewrite Hidx, Hmeta|].
           destruct j as [|j].
           ++ exists 0%nat. rewrite Hidx in Hstj. split_and!; [lia|done|]. constructor; [done|by apply Hsil].
           ++ exists (S (S j)). cbn [take drop length]. rewrite Hidx in Hstj. split_and!; [lia| |by apply Hsil].
              rewrite offset_cons. by rewrite (offset_behind _ o) by (destruct L; [simpl in Hj; lia|done]).
        -- destruct (Hres off) as (j & Hj & Hstj & Hd); [by rewrite Hidx|]. exists (S j). rewrite Hidx in Hstj.
           cbn [take drop length]. rewrite offset_cons. split_and!; [lia|done|by apply Hsil].
Qed.
End notifyd.
