(* ===== verification/NotifydSubs.v ===== *)
(** * Subscriptions of the notification service, and its restart *)
From S2P Require Import Prelude Tx Bytes LogFiles Notify KVDB Base58 HttpApi HttpApiFacts HttpAddress Notifyd NotifydFacts.

Section subs.
Variables (Hash : bytes → uint256) (testnet : bool).
Implicit Types (s : notifyd) (app now : Z) (a str : bytes) (t : event_table) (rows : list (Z * bytes)).
Abbreviation canon := (canon Hash).
Abbreviation valid := (valid Hash testnet).
Abbreviation sound := (sound Hash testnet).
Abbreviation insertAddress := (insertAddress Hash testnet).
Abbreviation removeAddress := (removeAddress Hash testnet).

(** ** The spelling of addresses *)

Lemma canon_plain str : c_str (canon str) = canon str.
Proof. apply c_str_safe, base58_safe, base58_chars. Qed.

Lemma canon_read str : valid str = true → SetString Hash (canon str) = SetString Hash str.
Proof.
  intros (d & Hd & _)%valid_spells. apply (spells_read Hash testnet _ d _ Hd). exists [], [].
  split_and!; [constructor|constructor|]. rewrite app_nil_r. apply canon_plain.
Qed.
Lemma canon_valid str : valid str = true → valid (canon str) = true ∧ canon (canon str) = canon str.
Proof.
  intros Hv. change (IsValid testnet (SetString Hash (canon str)) = true ∧ ToString58 Hash (SetString Hash (canon str)) = canon str).
  by rewrite canon_read.
Qed.

(** ** INSERT and DELETE *)

(** the table of addresses with [app] added at [a], or taken away *)
Definition enter app a s : notifyd :=
  with_apps (λ X, {[app]} ∪ X) (with_table (λ m, <[a := {[app]} ∪ default ∅ (m !! a)]> m) s).

Lemma subscribed_enter app a s app' a' :
  subscribed (enter app a s) app' a' = true ↔ subscribed s app' a' = true ∨ (app' = app ∧ a' = a).
Proof.
  unfold subscribed, enter. cbn. destruct (decide (a' = a)) as [->|Hne].
  - rewrite lookup_insert_eq, bool_decide_eq_true, elem_of_union, elem_of_singleton.
    destruct (addressTable_ s !! a) as [X|]; cbn; rewrite ?bool_decide_eq_true; set_solver.
  - rewrite lookup_insert_ne by done. naive_solver.
Qed.

Lemma insert_refused app str b s : valid str = false ∨ subscribed s app (canon str) = true →
  insertAddress app str b s = (Done false, s).
Proof.
  intros H. unfold Notifyd.insertAddress. fold (valid str). destruct (valid str) eqn:Hv; cbn [negb]; [|done].
  destruct H as [H|H]; [done|]. rewrite (bind_Done get _ _ _ _ eq_refl). cbv beta. fold (canon str). by rewrite H.
Qed.

Lemma insert_loaded app str s : valid str = true → subscribed s app (canon str) = false →
  insertAddress app str false s = (Done true, enter app (canon str) s).
Proof.
  intros Hv Hn. unfold Notifyd.insertAddress. fold (valid str). rewrite Hv. cbn [negb].
  rewrite (bind_Done get _ _ _ _ eq_refl). cbv beta. fold (canon str). rewrite Hn.
  rewrite (bind_Done (modify _) _ _ _ _ eq_refl). cbv zeta. unfold enter. case_bool_decide as Hin.
  - unfold mbind, M_bind, mret, M_ret. f_equal. unfold with_apps, with_table. cbn. f_equal. set_solver.
  - done.
Qed.

Lemma insert_synced app str s : sound s → valid str = true → subscribed s app (canon str) = false →
  ∃ s', insertAddress app str true s = (Done true, s') ∧
    s' = with_ndb (λ d, {| app_subcribe := app_subcribe d ++ [(app, canon str)];
      event_app := if bool_decide (app ∈ appIds_ s) then event_app d
                   else match event_app d !! app with Some _ => event_app d | None => <[app := newTable]> (event_app d) end;
      meta_notifyd := meta_notifyd d |}) (enter app (canon str) s).
Proof.
  intros Hs Hv Hn. unfold Notifyd.insertAddress. fold (valid str). rewrite Hv. cbn [negb].
  rewrite (bind_Done get _ _ _ _ eq_refl). cbv beta. fold (canon str). rewrite Hn.
  rewrite (bind_Done (modify _) _ _ _ _ eq_refl). cbv zeta.
  assert ((app, canon str) ∉ app_subcribe (ndb s)) as Hnew.
  { intros Hin%(nv_db _ _ s Hs). congruence. }
  assert (∀ s1, app_subcribe (ndb s1) = app_subcribe (ndb s) → insert_subscription app (canon str) s1 =
    (Done tt, with_ndb (with_subs (λ l, l ++ [(app, canon str)])) s1)) as Hins.
  { intros s1 E. unfold insert_subscription. rewrite (bind_Done get _ _ _ _ eq_refl). cbv beta. rewrite E.
    by rewrite bool_decide_false. }
  case_bool_decide as Hin.
  - rewrite (bind_Done (mret tt) _ _ _ _ eq_refl). rewrite bind_assoc, (bind_Done (mret tt) _ _ _ _ eq_refl).
    rewrite (bind_Done _ _ _ _ _ (Hins (with_table _ s) eq_refl)). eexists. split; [done|].
    unfold with_ndb, with_subs, enter, with_apps, with_table. cbn. f_equal. set_solver.
  - rewrite (bind_Done (modify _) _ _ _ _ eq_refl). unfold create_table. rewrite !bind_assoc.
    rewrite (bind_Done get _ _ _ _ eq_refl). cbv beta.
    change (event_app (ndb (with_apps _ (with_table _ s)))) with (event_app (ndb s)).
    destruct (event_app (ndb s) !! app) eqn:Et.
    + rewrite (bind_Done (mret tt) _ _ _ _ eq_refl).
      rewrite (bind_Done _ _ _ _ _ (Hins (with_apps _ (with_table _ s)) eq_refl)). eexists. split; [done|].
      unfold with_ndb, with_subs, enter, with_apps, with_table. cbn. by rewrite Et.
    + rewrite (bind_Done (modify _) _ _ _ _ eq_refl).
      erewrite bind_Done; [|by apply Hins]. eexists. split; [done|].
      unfold with_ndb, with_subs, with_events, enter, with_apps, with_table. cbn. by rewrite Et.
Qed.

Lemma insert_sound app str s s' : sound s → in_s 32 app → valid str = true → subscribed s app (canon str) = false →
  insertAddress app str true s = (Done true, s') → sound s' ∧
    ∀ app' a', subscribed s' app' a' = true ↔ subscribed s app' a' = true ∨ (app' = app ∧ a' = canon str).
Proof.
  intros Hs Happ Hv Hn Hrun. destruct (insert_synced app str s Hs Hv Hn) as (s1 & Hrun1 & Es1).
  rewrite Hrun in Hrun1. injection Hrun1 as ->. rewrite Es1. split; [|intros; apply subscribed_enter].
  pose proof Hs as [H1 H2 H3 H4 H5 H6 H7 H8]. destruct (canon_valid str Hv) as [Hcv Hcc].
  set (m := if bool_decide (app ∈ appIds_ s) then event_app (ndb s) else
    match event_app (ndb s) !! app with Some _ => event_app (ndb s) | None => <[app := newTable]> (event_app (ndb s)) end).
  assert (∀ app', app' = app ∨ is_Some (event_app (ndb s) !! app') → is_Some (m !! app')) as Htab.
  { intros app' Happ'. unfold m. case_bool_decide as Hin.
    - destruct Happ' as [->|]; [by apply H5|done].
    - destruct (event_app (ndb s) !! app) eqn:E; [destruct Happ' as [->|]; [by rewrite E|done]|].
      destruct (decide (app' = app)) as [->|]; [rewrite lookup_insert_eq; by eexists|rewrite lookup_insert_ne by done; naive_solver]. }
  assert (∀ app' t, m !! app' = Some t → table_ok t) as Hok.
  { intros app' t. unfold m. case_bool_decide; [apply H6|]. destruct (event_app (ndb s) !! app); [apply H6|].
    intros [[_ <-]|[_ ?]]%lookup_insert_Some; [|by eapply H6]. exists 1. cbn. by split_and!. }
  constructor.
  - intros app' a'. cbn [app_subcribe ndb with_ndb]. rewrite elem_of_app, list_elem_of_singleton.
    change (subscribed (with_ndb ?f ?x)) with (subscribed x). rewrite subscribed_enter.
    change (ndb (enter app (canon str) s)) with (ndb s). rewrite H1. naive_solver.
  - apply NoDup_app. split_and!; [done| |apply NoDup_singleton]. intros x Hx ->%list_elem_of_singleton.
    apply H1 in Hx. congruence.
  - intros app' a' [Hin|E%list_elem_of_singleton]%elem_of_app; [by apply H3|]. injection E as -> ->. done.
  - intros app' a' [Hin|[-> _]]%subscribed_enter; cbn; [apply elem_of_union; right; by eapply H4|set_solver].
  - intros app' Hin. cbn in Hin. apply Htab. apply elem_of_union in Hin as [->%elem_of_singleton|Hin]; [by left|right; by apply H5].
  - exact Hok.
  - exact H7.
  - exact H8.
Qed.

Definition leave app key s : notifyd := with_table (λ m, <[key := default ∅ (m !! key) ∖ {[app]}]> m) s.

Lemma subscribed_leave app key s app' a' :
  subscribed (leave app key s) app' a' = true ↔ subscribed s app' a' = true ∧ ¬ (app' = app ∧ a' = key).
Proof.
  unfold subscribed, leave. cbn. destruct (decide (a' = key)) as [->|Hne].
  - rewrite lookup_insert_eq, bool_decide_eq_true, elem_of_difference, elem_of_singleton.
    destruct (addressTable_ s !! key) as [X|]; cbn; rewrite ?bool_decide_eq_true; set_solver.
  - rewrite lookup_insert_ne by done. naive_solver.
Qed.

Lemma filter_one {A} `{EqDecision A} (x : A) l : NoDup l → length (filter (λ y, y = x) l) = if bool_decide (x ∈ l) then 1%nat else 0%nat.
Proof.
  induction 1 as [|y l Hy Hnd IH]; [done|]. destruct (decide (y = x)) as [->|E].
  - rewrite filter_cons_True by done. cbn. rewrite IH, bool_decide_false by done. by rewrite bool_decide_true by by left.
  - rewrite filter_cons_False, IH by done. assert (bool_decide (x ∈ l) = bool_decide (x ∈ y :: l)) as ->; [|done].
    apply bool_decide_ext. rewrite elem_of_cons. naive_solver.
Qed.

Lemma delete_run app a s : NoDup (app_subcribe (ndb s)) →
  delete_subscription app a s =
    (if bool_decide ((app, a) ∈ app_subcribe (ndb s)) then Done tt else Raise (Throw "update DB failure"),
     with_ndb (with_subs (filter (λ x, x ≠ (app, a)))) s).
Proof.
  intros Hnd. unfold delete_subscription. rewrite (bind_Done get _ _ _ _ eq_refl). cbv beta.
  rewrite (bind_Done (modify _) _ _ _ _ eq_refl). rewrite filter_one by done. by case_bool_decide.
Qed.

Lemma remove_refused app str s : valid str = false ∨ subscribed s app (canon str) = false →
  removeAddress app str s = (Done false, s).
Proof.
  intros H. unfold Notifyd.removeAddress. fold (valid str). destruct (valid str) eqn:Hv; cbn [negb]; [|done].
  destruct H as [H|H]; [done|]. rewrite (bind_Done get _ _ _ _ eq_refl). cbv beta. fold (canon str). by rewrite H.
Qed.

Lemma remove_run app str s : valid str = true → subscribed s app (canon str) = true → NoDup (app_subcribe (ndb s)) →
  removeAddress app str s =
    (if bool_decide ((app, canon str) ∈ app_subcribe (ndb s)) then Done true else Raise (Throw "update DB failure"),
     with_ndb (with_subs (filter (λ x, x ≠ (app, canon str)))) (leave app (c_str str) s)).
Proof.
  intros Hv Hsub Hnd. unfold Notifyd.removeAddress. fold (valid str). rewrite Hv. cbn [negb].
  rewrite (bind_Done get _ _ _ _ eq_refl). cbv beta. fold (canon str). rewrite Hsub. cbn [negb].
  rewrite (bind_Done (modify _) _ _ _ _ eq_refl). fold (leave app (c_str str) s).
  unfold mbind at 1, M_bind at 1. rewrite delete_run by done. change (ndb (leave app (c_str str) s)) with (ndb s).
  by case_bool_decide.
Qed.

Lemma remove_sound app str s s' : sound s → valid str = true → subscribed s app (canon str) = true → c_str str = canon str →
  removeAddress app str s = (Done true, s') → sound s' ∧
    ∀ app' a', subscribed s' app' a' = true ↔ subscribed s app' a' = true ∧ ¬ (app' = app ∧ a' = canon str).
Proof.
  intros Hs Hv Hsub Hc Hrun. pose proof Hs as [H1 H2 H3 H4 H5 H6 H7 H8].
  rewrite remove_run, Hc in Hrun by done. case_bool_decide; [|done]. injection Hrun as <-.
  split; [|intros; apply subscribed_leave]. constructor; try done.
  - intros app' a'. cbn [app_subcribe ndb with_ndb with_subs]. rewrite list_elem_of_filter.
    change (subscribed (with_ndb ?f ?x)) with (subscribed x). rewrite subscribed_leave.
    change (ndb (leave app (canon str) s)) with (ndb s). rewrite H1. naive_solver.
  - cbn. by apply NoDup_filter.
  - intros app' a' Hin. cbn in Hin. apply list_elem_of_filter in Hin as [_ Hin]. by apply H3.
  - intros app' a' [Hin _]%subscribed_leave. by eapply H4.
Qed.

(** ** A new process *)

Lemma load_run s0 rows : addressTable_ s0 = ∅ → appIds_ s0 = ∅ → app_subcribe (ndb s0) = rows → NoDup rows →
  (∀ app a, (app, a) ∈ rows → valid a = true ∧ canon a = a ∧ in_s 32 app) →
  ∃ s', loadAddressTableFromDB Hash testnet s0 = (Done tt, s') ∧ ndb s' = ndb s0 ∧
    (∀ app a, subscribed s' app a = true ↔ (app, a) ∈ rows) ∧ appIds_ s' = list_to_set rows.*1.
Proof.
  intros Ht Ha Hr Hnd Hok. unfold loadAddressTableFromDB. rewrite (bind_Done get _ _ _ _ eq_refl). cbv beta. rewrite Hr.
  apply (forM_ind (λ l s, ndb s = ndb s0 ∧ (∀ app a, subscribed s app a = true ↔ (app, a) ∈ l) ∧ appIds_ s = list_to_set l.*1)).
  - split_and!; [done| |done]. intros app a. unfold subscribed. rewrite Ht, lookup_empty. split; [done|by intros ?%elem_of_nil].
  - intros l1 [app a] l2 s1 E (Hd & Hs & Happs). cbn [fst snd].
    destruct (Hok app a) as (Hv & Hc & Hin); [rewrite E; apply elem_of_app; right; by left|].
    rewrite atoi_fmt_d by done. assert (subscribed s1 app (canon a) = false) as Hn.
    { rewrite Hc. apply not_true_is_false. rewrite Hs. rewrite E in Hnd. apply NoDup_app in Hnd as (_ & Hd' & _).
      intros Hin'. apply (Hd' _ Hin'). by left. }
    exists (enter app a s1). split; [rewrite (bind_Done _ _ _ _ _ (insert_loaded app a s1 Hv Hn)); by rewrite Hc|].
    split_and!; [done| |].
    + intros app' a'. rewrite subscribed_enter, Hs, elem_of_app, list_elem_of_singleton. naive_solver.
    + cbn. rewrite Happs, fmap_app, list_to_set_app_L. cbn. set_solver.
Qed.

Lemma notify_init_run now s : sound s → ∃ s', notify_init Hash testnet now (fresh (ndb s)) = (Done tt, s') ∧ sound s' ∧
  ndb s' = ndb s ∧ (∀ app a, subscribed s' app a = subscribed s app a) ∧
  appIds_ s' = list_to_set (app_subcribe (ndb s)).*1 ∧ stored s (logFileIndex_ s') (logFileOffset_ s').
Proof.
  intros Hs. pose proof Hs as [H1 H2 H3 H4 H5 H6 H7 (i & o & Hst & Hi & Ho & _)].
  destruct (load_run (fresh (ndb s)) _ eq_refl eq_refl eq_refl H2 H3) as (s1 & Hrun & Hd & Hsub & Happs).
  exists (with_cursor i o s1). assert (getStatus now s1 = (Done tt, with_cursor i o s1)) as Hget.
  { destruct Hst as [u Hu]. unfold getStatus. rewrite (bind_Done get _ _ _ _ eq_refl). cbv beta.
    rewrite Hd. cbn [ndb fresh]. rewrite Hu, status_split. by rewrite atoi_fmt_d, atoi64_fmt_d. }
  assert (∀ app a, subscribed (with_cursor i o s1) app a = subscribed s app a) as Hsame.
  { intros app a. apply eq_true_iff_eq. change (subscribed (with_cursor i o s1)) with (subscribed s1). by rewrite Hsub, H1. }
  split_and!; [unfold notify_init; by rewrite (bind_Done _ _ _ _ _ Hrun)| |done|done|done|done].
  constructor.
  - intros app a. rewrite Hsame. cbn [ndb with_cursor]. rewrite Hd. apply H1.
  - cbn. by rewrite Hd.
  - cbn. rewrite Hd. exact H3.
  - intros app a. change (subscribed (with_cursor i o s1)) with (subscribed s1). rewrite Hsub. cbn. rewrite Happs.
    intros Hin. apply elem_of_list_to_set. by apply (list_elem_of_fmap_2 fst _ (app, a)).
  - intros app. cbn. rewrite Happs, Hd. intros ([app' a] & -> & Hin)%elem_of_list_to_set%list_elem_of_fmap.
    cbn. eapply H5, H4. by apply H1.
  - cbn. rewrite Hd. exact H6.
  - done.
  - exists i, o. cbn. split_and!; [|done|done|right; lia]. destruct Hst as [u Hu]. exists u. cbn. by rewrite Hd.
Qed.
End subs.
