(* ===== verification/NotifydPull.v ===== *)
(** * Pulling events

    What a client reads that asks [cb_pull_events] again and again, each time from
    the last id it has seen. *)
From S2P Require Import Prelude Tx Bytes Text LogFiles Notify KVDB Codec Json Base58 HttpApi HttpApiFacts HttpAddress.
From S2P Require Import Notifyd NotifydFacts NotifydSubs.

(** ** The reply *)

Definition row_fields (r : event_row) : list (bytes * json) :=
  [(lit "id", JNum (ev_id r)); (lit "type", JNum (ev_type r)); (lit "hash", JStr (ev_hash r));
   (lit "height", JNum (ev_height r)); (lit "address", JStr (ev_address r)); (lit "amount", JNum (ev_amount r));
   (lit "created_at", JStr (ev_created r))].
Definition row_json (r : event_row) : json := JObj (row_fields r).
Definition pulled (rows : list event_row) : json :=
  JObj [(lit "error_no", JNum 0); (lit "error_msg", JStr []); (lit "results", JArr (row_json <$> rows))].

(** texts that need no escape *)
Definition printable (r : event_row) : Prop := safe (ev_hash r) ∧ safe (ev_address r) ∧ safe (ev_created r).

Lemma print_row_json r : printable r → print_row r = print (row_json r) ++ [44].
Proof.
  intros (Hh & Ha & Hc). unfold row_json, row_fields. cbn [print fmap list_fmap commas fst snd].
  repeat match goal with |- context [quoted (escapeJson (lit ?k)) ++ 58 :: ?x] =>
    replace (quoted (escapeJson (lit k)) ++ 58 :: x) with (jkey (lit k) ++ x) by reflexivity end.
  rewrite !escape_safe by done. unfold print_row, quoted. by repeat (rewrite <-app_assoc; cbn [app]).
Qed.
Lemma row_json_ok r : printable r → json_ok (row_json r).
Proof. intros (Hh & Ha & Hc). apply json_ok_members. unfold row_fields. ok_members. Qed.

Definition pull_query (token : bytes) (app offset : Z) (req : request) : Prop :=
  (∃ q, query req (lit "appid") = Some q ∧ atoi q = app) ∧ query req (lit "token") = Some (c_str token) ∧
  ∃ q, query req (lit "offset") = Some q ∧ atoi64 q = offset.

(** the rows of a reply *)
Definition behind (offset : Z) (t : event_table) : list event_row := filter (λ r, offset < ev_id r) (ev_rows t).

Lemma pull_run token d req T app offset t : pull_query token app offset req → event_app d !! app = Some t →
  Forall printable (ev_rows t) →
  ∃ reply, cb_pull_events token d req T = (reply, {[app]} ∪ T) ∧
    json_read reply = Some (if bool_decide (behind offset t = [])
      then JObj [(lit "error_no", JNum 30); (lit "error_msg", JStr (lit "app events table is empty"))]
      else pulled (take 1000 (behind offset t))).
Proof.
  intros ((qa & Ea & Happ) & Et & qo & Eo & Hoff) Ht Hp. unfold cb_pull_events.
  rewrite Ea, Et, Eo, Happ, Hoff, bool_decide_true, Ht by done. cbn [negb].
  rewrite (bool_decide_true (is_Some (Some t))) by by eexists. rewrite andb_false_r. cbn [from_option]. fold (behind offset t).
  set (l := behind offset t). assert (take 1000 l = [] ↔ l = []) as El by (destruct l; by split).
  destruct (decide (l = [])) as [E|E].
  - rewrite !bool_decide_true by tauto. eexists. split; [done|]. by vm_compute.
  - rewrite !bool_decide_false by tauto. eexists. split; [done|].
    assert (Forall printable (take 1000 l)) as Hl.
    { apply Forall_take, Forall_forall. intros r [_ Hr]%list_elem_of_filter. rewrite Forall_forall in Hp. by apply Hp. }
    rewrite <-json_read_print.
    + f_equal. rewrite <-El in E. revert E Hl. generalize (take 1000 l). clear l El. intros l E Hl.
      assert (concat (print_row <$> l) = listed (print <$> (row_json <$> l))) as ->.
      { rewrite <-list_fmap_compose, listed_fmap. f_equal. apply list_fmap_ext. intros i r Hr.
        rewrite Forall_lookup in Hl. by apply print_row_json, (Hl i). }
      rewrite listed_commas by by destruct l. rewrite !app_assoc, removelast_last. unfold pulled.
      cbn [print fmap list_fmap commas fst snd]. generalize (commas (print <$> (row_json <$> l))). intros txt.
      change [93; 125] with ([93] ++ [125]). rewrite <-!app_assoc, (app_assoc txt [93]). reflexivity.
    + apply json_ok_members. repeat apply Forall_cons_2; [..|constructor]; (split; [by_compute_safe|]); cbn [snd].
      * constructor.
      * apply json_ok_str. constructor.
      * constructor. apply Forall_fmap. eapply Forall_impl; [exact Hl|]. apply row_json_ok.
Qed.

(** ** Polling *)

Definition at_key (k : bytes) (v : json) : option json :=
  match v with JObj l => (λ x, x.2.2) <$> list_find (λ m, m.1 = k) l | _ => None end.
Definition id_of (v : json) : Z := match at_key (lit "id") v with Some (JNum z) => z | _ => 0 end.
(** a client: until a reply holds no rows, it asks again from the last id *)
Fixpoint poll (token : bytes) (d : notify_db) (ask : Z → request) (T : gset Z) (fuel : nat) (offset : Z) : list json :=
  match fuel with
  | O => []
  | S fuel =>
      let '(reply, T) := cb_pull_events token d (ask offset) T in
      match json_read reply ≫= at_key (lit "results") with
      | Some (JArr (v :: l)) => (v :: l) ++ poll token d ask T fuel (id_of (List.last (v :: l) v))
      | _ => []
      end
  end.

Lemma behind_seq t lo offset : ev_id <$> ev_rows t = seqZ lo (Z.of_nat (length (ev_rows t))) →
  behind offset t = drop (Z.to_nat (offset + 1 - lo)) (ev_rows t).
Proof.
  intros Hids. rewrite <-(filter_drop _ lo) by done. unfold behind. apply list_filter_iff. intros r. lia.
Qed.

Lemma behind_ids t offset i r : table_ok t → behind offset t !! i = Some r →
  behind (ev_id r) t = drop (S i) (behind offset t) ∧ 0 ≤ ev_id r < ev_next t.
Proof.
  intros (lo & Hlo & Hids & Hn) Hr. rewrite !(behind_seq t lo) in * by done. rewrite lookup_drop in Hr.
  set (k := Z.to_nat (offset + 1 - lo)) in *. pose proof (lookup_lt_Some _ _ _ Hr) as Hlt.
  assert (ev_id r = lo + Z.of_nat (k + i)) as ->.
  { assert ((ev_id <$> ev_rows t) !! (k + i)%nat = Some (ev_id r)) as E by by rewrite list_lookup_fmap, Hr.
    rewrite Hids, lookup_seqZ_lt in E by lia. by injection E as <-. }
  split; [|lia]. rewrite drop_drop. f_equal. lia.
Qed.

Lemma poll_all token d ask app t fuel T offset : (∀ o, in_s 64 o → pull_query token app o (ask o)) →
  event_app d !! app = Some t → table_ok t → ev_next t ≤ 2 ^ 31 → Forall printable (ev_rows t) → in_s 64 offset →
  (length (behind offset t) < fuel)%nat → poll token d ask T fuel offset = row_json <$> behind offset t.
Proof.
  intros Hask Ht Hok Hmax Hp. revert T offset. induction fuel as [|fuel IH]; intros T offset Hoff Hlen; [lia|].
  cbn [poll]. destruct (pull_run token d (ask offset) T app offset t) as (reply & -> & ->); [by apply Hask|done|done|].
  case_bool_decide as E; [by rewrite E|]. change (Some (pulled ?l) ≫= at_key (lit "results")) with (Some (JArr (row_json <$> l))).
  set (l := take 1000 (behind offset t)). destruct (rev_ind (λ l, l = [] ∨ ∃ l' r, l = l' ++ [r])
    ltac:(by left) ltac:(by right; eauto) l) as [El|(l' & r & El)]; [subst l; by destruct (behind offset t)|].
  assert (behind offset t !! length l' = Some r) as Hr.
  { assert (l !! length l' = Some r) as Hl by by rewrite El, list_lookup_middle.
    subst l. by apply lookup_take_Some in Hl as [? _]. }
  destruct (behind_ids t offset _ r Hok Hr) as [Hrest Hid].
  assert (l ++ behind (ev_id r) t = behind offset t) as Eall.
  { rewrite Hrest. assert (S (length l') = length l) as -> by (rewrite El, length_app; simpl; lia).
    subst l. rewrite length_take. destruct (Nat.le_ge_cases 1000 (length (behind offset t))).
    - rewrite Nat.min_l by done. apply take_drop.
    - rewrite Nat.min_r, take_ge, drop_ge by lia. by rewrite app_nil_r. }
  assert (∀ v, id_of (List.last (row_json <$> l) v) = ev_id r) as Hlast.
  { intros v. rewrite El, fmap_app. cbn [fmap list_fmap]. by rewrite last_last. }
  rewrite <-Eall, fmap_app. destruct (row_json <$> l) as [|v l0] eqn:Ev; [rewrite El in Ev; by destruct l'|].
  rewrite Hlast. f_equal. apply lookup_lt_Some in Hr. apply IH; [unfold in_s; lia|]. rewrite Hrest, length_drop. lia.
Qed.

(** ** Rows of booked events *)
Section rows.
Variables (Hash : bytes → uint256) (testnet : bool).
Implicit Types (s : notifyd) (app now : Z) (L : list (Z * (bytes * Z))).

Lemma date_safe now : safe (date_FT now).
Proof.
  unfold date_FT. destruct (civil _) as [[y m] d]. unfold safe.
  repeat first [apply digits_safe, pad_digits | apply Forall_app_2 | apply Forall_cons_2; [unfold safe_char; lia|]].
Qed.
Lemma canon_safe str : safe (canon Hash str).
Proof. apply base58_safe, base58_chars. Qed.

(** the rows an application gets need no escapes: it subscribed the address *)
Lemma news_printable s app L id : sound Hash testnet s → Forall printable (news s app L id).
Proof.
  intros Hs. revert id. induction L as [|x L IH]; intros id; [constructor|]. cbn [news].
  destruct (item_at x) as [item|]; [|done]. destruct (wanted s app item) eqn:Hw; [|done]. constructor; [|done].
  split_and!; [apply safe_hash| |apply date_safe]. unfold wanted in Hw. cbn. destruct (is_block item); [constructor|].
  apply (nv_db _ _ s Hs) in Hw. destruct (nv_valid _ _ s Hs _ _ Hw) as (_ & <- & _). apply canon_safe.
Qed.

Lemma news_ids s app L id : ev_id <$> news s app L id = seqZ id (Z.of_nat (length (news s app L id))).
Proof.
  revert id. induction L as [|x L IH]; intros id; [done|]. cbn [news]. repeat case_match; try done.
  cbn [fmap list_fmap length]. rewrite IH, (seqZ_cons id) by lia.
  by replace (Z.pred (Z.of_nat (S _))) with (Z.of_nat (length (news s app L (id + 1)))) by lia.
Qed.

(** C15 — A client that has seen the rows of its application up to now and asks
    again from the last id it saw, reading each reply as JSON, gets what was booked
    for the lines handled since, each event once and in order, as long as no more
    than three million are waiting. *)
Theorem pulled_once token s L app t ask T fuel :
  sound Hash testnet s → ascending (logFileOffset_ s) L → room s L →
  event_app (ndb s) !! app = Some t → Forall printable (ev_rows t) →
  (∀ o, in_s 64 o → pull_query token app o (ask o)) →
  Z.of_nat (length L) ≤ kMaxCount → (length L < fuel)%nat →
  ∃ s', forM L handle_notice s = (Done tt, s') ∧
    poll token (ndb s') ask T fuel (ev_next t - 1) = row_json <$> news s app L (ev_next t).
Proof.
  intros Hs Ha Hr Ht Hp Hask Hmax Hfuel.
  destruct (notices_run Hash testnet L s Hs Ha Hr) as (s' & Hrun & _ & _ & _ & _ & Hev & _).
  exists s'. split; [done|]. specialize (Hev app). rewrite Ht in Hev. destruct Hev as (t' & Ht' & Hok' & k & Hk & Erows & En & Hkeep).
  set (N := news s app L (ev_next t)) in *. assert (length N ≤ length L)%nat as HN by apply news_length.
  assert (∀ r, r ∈ ev_rows t → ev_id r ≤ ev_next t - 1) as Hold.
  { intros r [i Hi]%list_elem_of_lookup. destruct (nv_rows _ _ s Hs app t Ht) as (lo & Hlo & Hids & Hn).
    assert ((ev_id <$> ev_rows t) !! i = Some (ev_id r)) as E by by rewrite list_lookup_fmap, Hi.
    rewrite Hids in E. apply lookup_seqZ in E. lia. }
  assert (behind (ev_next t - 1) t' = N) as EN.
  { assert (k ≤ length (ev_rows t))%nat as Hk'.
    { destruct Hkeep as [->|Hkeep]; [lia|]. rewrite Erows, length_drop, length_app in Hkeep. lia. }
    unfold behind. rewrite Erows, drop_app_le, filter_app by done. rewrite (filter_nothing _ (drop k _)); cycle 1.
    { intros r Hin Hlt. apply (subseteq_drop k) in Hin. specialize (Hold r Hin). lia. }
    rewrite app_nil_l. apply filter_everything. intros r Hin. pose proof (news_ids s app L (ev_next t)) as E. fold N in E.
    apply list_elem_of_lookup in Hin as [i Hi]. assert ((ev_id <$> N) !! i = Some (ev_id r)) as Ei by by rewrite list_lookup_fmap, Hi.
    rewrite E in Ei. apply lookup_seqZ in Ei. lia. }
  rewrite <-EN. apply (poll_all _ _ _ app); try done.
  - specialize (Hr app t Ht). lia.
  - rewrite Erows. apply Forall_drop, Forall_app_2; [done|by apply news_printable].
  - destruct (nv_rows _ _ s Hs app t Ht) as (lo & Hlo & _ & Hn). specialize (Hr app t Ht). unfold in_s. lia.
  - rewrite EN. lia.
Qed.
End rows.
