(* ===== verification/NotifydClaims.v ===== *)
(** * What applications are notified of

    The claims about the notification service. *)
From S2P Require Import Prelude Tx Bytes LogFiles Notify KVDB Json Base58 HttpApi HttpApiFacts HttpAddress.
From S2P Require Import Notifyd NotifydFacts NotifydSubs.

Section claims.
Variables (Hash : bytes → uint256) (testnet : bool).
Implicit Types (s : notifyd) (app now : Z) (a str : bytes) (t : event_table) (L : list (Z * (bytes * Z))).
Abbreviation canon := (canon Hash).
Abbreviation valid := (valid Hash testnet).
Abbreviation sound := (sound Hash testnet).

(** ** Subscriptions *)

(** A removal under another spelling: the row goes, memory keeps the address. *)
Lemma respelled_removal app str s : sound s → valid str = true → subscribed s app (canon str) = true →
  c_str str ≠ canon str →
  ∃ s', removeAddress Hash testnet app str s = (Done true, s') ∧ subscribed s' app (canon str) = true ∧
    (app, canon str) ∉ app_subcribe (ndb s') ∧ NoDup (app_subcribe (ndb s')).
Proof.
  intros Hs Hv Hsub Hc. assert ((app, canon str) ∈ app_subcribe (ndb s)) as Hin by by apply (nv_db _ _ s Hs).
  pose proof (remove_run Hash testnet app str s Hv Hsub (nv_nodup _ _ s Hs)) as Hrun. rewrite bool_decide_true in Hrun by done.
  eexists. split; [exact Hrun|]. split_and!.
  - apply subscribed_leave; naive_solver.
  - by intros [? _]%list_elem_of_filter.
  - apply NoDup_filter, (nv_nodup _ _ s Hs).
Qed.

(** C23 — The table of addresses in memory and the rows of app_subcribe agree
    after every insertion, and after every removal with the address spelled as it is
    printed.  Inserting answers whether the text is an address the application has
    not, and adds that one; such a removal answers whether it has it and takes that
    one away; a new process has the subscriptions the old one had.  A removal with
    the address of a subscription spelled in another way (a blank in front) breaks
    the agreement: it answers that it succeeded, and the row is gone, but the
    address stays subscribed in memory (NotifyLog.cc:573). *)
Theorem subscriptions_agree now app str s : sound s → in_s 32 app →
  (∃ s', insertAddress Hash testnet app str true s = (Done (valid str && negb (subscribed s app (canon str))), s') ∧
     sound s' ∧ ∀ app' a', subscribed s' app' a' = true ↔
       subscribed s app' a' = true ∨ valid str = true ∧ app' = app ∧ a' = canon str) ∧
  (c_str str = canon str ∨ valid str && subscribed s app (canon str) = false →
   ∃ s', removeAddress Hash testnet app str s = (Done (valid str && subscribed s app (canon str)), s') ∧
     sound s' ∧ ∀ app' a', subscribed s' app' a' = true ↔
       subscribed s app' a' = true ∧ ¬ (valid str = true ∧ app' = app ∧ a' = canon str)) ∧
  (c_str str ≠ canon str → valid str = true → subscribed s app (canon str) = true →
   ∃ s', removeAddress Hash testnet app str s = (Done true, s') ∧ subscribed s' app (canon str) = true ∧
     (app, canon str) ∉ app_subcribe (ndb s')) ∧
  ∃ s', notify_init Hash testnet now (fresh (ndb s)) = (Done tt, s') ∧ sound s' ∧
    ∀ app' a', subscribed s' app' a' = subscribed s app' a'.
Proof.
  intros Hs Happ. split_and!.
  - destruct (decide (valid str = true ∧ subscribed s app (canon str) = false)) as [[Hv Hn]|Hno].
    + destruct (insert_synced Hash testnet app str s Hs Hv Hn) as (s' & Hrun & _).
      destruct (insert_sound Hash testnet app str s s' Hs Happ Hv Hn Hrun) as [Hs' Hsub].
      exists s'. rewrite Hv, Hn. split_and!; [done|done|]. intros. rewrite Hsub. naive_solver.
    + exists s. rewrite insert_refused by (destruct (valid str), (subscribed s app (canon str)); naive_solver).
      split_and!; [|done|]; destruct (valid str), (subscribed s app (canon str)) eqn:E; naive_solver.
  - intros Hor. destruct (decide (valid str = true ∧ subscribed s app (canon str) = true)) as [[Hv Hsub]|Hno].
    + assert ((app, canon str) ∈ app_subcribe (ndb s)) as Hin by by apply (nv_db _ _ s Hs).
      pose proof (remove_run Hash testnet app str s Hv Hsub (nv_nodup _ _ s Hs)) as Hrun. rewrite bool_decide_true in Hrun by done.
      assert (c_str str = canon str) as Hc by (destruct Hor as [?|Hor]; [done|by rewrite Hv, Hsub in Hor]).
      destruct (remove_sound Hash testnet app str s _ Hs Hv Hsub Hc Hrun) as [Hs' Hsub'].
      eexists. rewrite Hrun, Hv, Hsub. split_and!; [done|done|]. intros. rewrite Hsub'. naive_solver.
    + exists s. rewrite remove_refused by (destruct (valid str), (subscribed s app (canon str)); naive_solver).
      split_and!; [|done|]; destruct (valid str), (subscribed s app (canon str)) eqn:E; naive_solver.
  - intros Hc Hv Hsub. destruct (respelled_removal app str s Hs Hv Hsub Hc) as (s' & H1 & H2 & H3 & _). by exists s'.
  - destruct (notify_init_run Hash testnet now s Hs) as (s' & Hrun & Hs' & _ & Hsub & _). by exists s'.
Qed.

(** Removing a subscription with its address spelled in another way, a space
    in front for one, reports success and deletes the row, but leaves the address
    subscribed in memory: removing it again, properly spelled, fails on the
    database, and inserting it is refused, so that the application gets its events
    until notifyd is restarted. *)
Theorem misspelled_removal app str s : sound s → valid str = true → subscribed s app (canon str) = true →
  c_str str ≠ canon str →
  ∃ s', removeAddress Hash testnet app str s = (Done true, s') ∧ subscribed s' app (canon str) = true ∧
    (app, canon str) ∉ app_subcribe (ndb s') ∧
    (removeAddress Hash testnet app (canon str) s').1 = Raise (Throw "update DB failure") ∧
    insertAddress Hash testnet app (canon str) true s' = (Done false, s').
Proof.
  intros Hs Hv Hsub Hc. destruct (canon_valid Hash testnet str Hv) as [Hcv Hcc].
  destruct (respelled_removal app str s Hs Hv Hsub Hc) as (s' & Hrun & Hsub' & Hout & Hnd). exists s'.
  split_and!; [done|done|done| |].
  - rewrite remove_run; [|done|by rewrite Hcc|exact Hnd]. by rewrite Hcc, bool_decide_false.
  - apply insert_refused. right. by rewrite Hcc.
Qed.

(** ** Lines of a file *)

(** what a round reads: the complete lines behind the cursor, with the times at
    which they are handled *)
Definition notices (clock : nat → Z) (content : bytes) (off : Z) : list (Z * (bytes * Z)) :=
  imap (λ i x, (clock i, x)) (readLines content off).

Fixpoint offsets_from (pos bound : Z) (l : list (bytes * Z)) : Prop :=
  match l with [] => True | x :: l => pos < x.2 ≤ bound ∧ offsets_from x.2 bound l end.
Lemma getlines_offsets (txt cur : bytes) pos count pos' : pos' ≤ pos →
  offsets_from pos' (pos + Z.of_nat (length txt)) (getlines txt cur pos count).
Proof.
  revert cur pos count pos'. induction txt as [|c txt IH]; intros cur pos count pos' Hp; [done|]. cbn [getlines].
  replace (pos + Z.of_nat (length (c :: txt))) with (pos + 1 + Z.of_nat (length txt)) by (simpl; lia).
  destruct (c =? 10); [|apply IH; lia]. cbn. split; [lia|]. case_match; [done|]. apply IH. lia.
Qed.

Lemma ascending_imap (clock : nat → Z) l pos bound : offsets_from pos bound l → - 2 ^ 63 ≤ pos → bound < 2 ^ 63 →
  Forall (λ x, readable (parse x.1)) l → ascending pos (imap (λ i x, (clock i, x)) l).
Proof.
  intros Ho Hpos Hb Hr. revert clock pos Ho Hpos. induction Hr as [|x l Hx Hr IH]; intros clock pos Ho Hpos; [done|].
  destruct Ho as [Hx' Ho]. cbn. split; [split_and!; [lia|unfold in_s; lia|done]|].
  apply (IH (λ i, clock (S i))); [done|lia].
Qed.

Lemma round_run s content clock : sound s → 0 ≤ logFileOffset_ s ≤ Z.of_nat (length content) →
  Z.of_nat (length content) < 2 ^ 63 →
  let L := notices clock content (logFileOffset_ s) in
  Forall (λ x, readable (parse x.2.1)) L → room s L →
  ∃ s', forM L handle_notice s = (Done tt, s') ∧ sound s' ∧ same_subs s s' ∧
    logFileIndex_ s' = logFileIndex_ s ∧ logFileOffset_ s' = offset_after (logFileOffset_ s) L ∧
    ∀ app, match event_app (ndb s) !! app with
           | Some t => ∃ t', event_app (ndb s') !! app = Some t' ∧ table_ok t' ∧ kept t t' (news s app L (ev_next t))
           | None => event_app (ndb s') !! app = None end.
Proof.
  intros Hs Ho Hc L Hread Hroom.
  destruct (notices_run Hash testnet L s Hs) as (s' & Hrun & Hs' & Hsame & Hidx & Hoff & Hev & _); [|done|by exists s'].
  unfold L, notices. apply (ascending_imap clock _ _ (Z.of_nat (length content))).
  - pose proof (getlines_offsets (drop (Z.to_nat (logFileOffset_ s)) content) [] (logFileOffset_ s) 0 (logFileOffset_ s)
      ltac:(lia)) as Hoffs.
    rewrite length_drop in Hoffs. replace (logFileOffset_ s + _) with (Z.of_nat (length content)) in Hoffs by lia. exact Hoffs.
  - lia.
  - done.
  - apply Forall_forall. intros x Hx. apply list_elem_of_lookup in Hx as [i Hx]. rewrite Forall_forall in Hread.
    apply (Hread (clock i, x)). apply (list_elem_of_lookup_2 _ i). unfold L, notices. by rewrite list_lookup_imap, Hx.
Qed.

(** C14 — A round of notifyd on a sound state never fails when the lines of its file
    can be parsed: it handles the complete lines behind its cursor and moves behind
    the last, or goes on to the next file when there is one and nothing is left.
    The table of every application then holds what it held and one row for each
    block event, and each transaction event of an address it subscribed, in the
    order of the lines, numbered without gaps; only rows more than three million
    behind may be gone.  The ids stay below 2^31 ([room]), past which they are read
    wrongly. *)
Theorem events_booked s files isNew clock content :
  sound s → files !! logFileIndex_ s = Some content → 0 ≤ logFileOffset_ s ≤ Z.of_nat (length content) →
  Z.of_nat (length content) < 2 ^ 63 → logFileIndex_ s < 2 ^ 31 - 1 →
  let L := notices clock content (logFileOffset_ s) in
  Forall (λ x, readable (parse x.2.1)) L → room s L →
  ∃ s', consume files isNew clock s = (Done tt, s') ∧ sound s' ∧ same_subs s s' ∧
    (logFileIndex_ s', logFileOffset_ s') =
      (if isNew && bool_decide (L = []) then (logFileIndex_ s + 1, 0)
       else (logFileIndex_ s, offset_after (logFileOffset_ s) L)) ∧
    ∀ app, match event_app (ndb s) !! app with
           | Some t => ∃ t', event_app (ndb s') !! app = Some t' ∧ table_ok t' ∧ kept t t' (news s app L (ev_next t))
           | None => event_app (ndb s') !! app = None end.
Proof.
  intros Hs Hf Ho Hc Hi L Hread Hroom. unfold consume. rewrite (bind_Done get _ _ _ _ eq_refl). cbv beta. rewrite Hf. cbv zeta.
  set (l := readLines content (logFileOffset_ s)). assert (bool_decide (l = []) = bool_decide (L = [])) as El.
  { apply bool_decide_ext. unfold L, notices. fold l. by destruct l. }
  rewrite El. destruct (isNew && bool_decide (L = [])) eqn:E.
  - apply andb_true_iff in E as [_ E%bool_decide_eq_true]. exists (with_cursor (logFileIndex_ s + 1) 0 s).
    pose proof Hs as [H1 H2 H3 H4 H5 H6 [H7 H7'] (i & o & Hst & Hi' & Ho' & Hb)]. split_and!; try done.
    + constructor; try done.
      * cbn. unfold in_s in *. lia.
      * exists i, o. cbn. split_and!; [done|done|done|left; lia].
    + intros app. destruct (event_app (ndb s) !! app) as [t|] eqn:Et; [|done]. exists t. split_and!; [done|by apply (H6 app)|].
      rewrite E. exists 0%nat. cbn. rewrite app_nil_r. split_and!; [lia|done|lia|by left].
  - destruct (round_run s content clock Hs Ho Hc Hread Hroom) as (s' & Hrun & Hs' & Hsame & Hidx & Hoff & Hev).
    exists s'. by rewrite Hidx, Hoff.
Qed.

(** ** Stopping between lines *)

Definition agree s s' : Prop := (∀ app a, subscribed s' app a = subscribed s app a) ∧ appIds_ s' = appIds_ s.
Lemma agree_wanted s s' app item : agree s s' → wanted s' app item = wanted s app item.
Proof. intros [H1 H2]. unfold wanted. by rewrite H1, H2. Qed.
Lemma same_agree s s' : same_subs s s' → agree s s'.
Proof. intros (H1 & H2 & _). split; [|done]. intros. unfold subscribed. by rewrite H1. Qed.
Lemma agree_trans s1 s2 s3 : agree s1 s2 → agree s2 s3 → agree s1 s3.
Proof. intros [H1 H2] [H3 H4]. split; [intros; by rewrite H3|congruence]. Qed.
Lemma agree_sym s1 s2 : agree s1 s2 → agree s2 s1.
Proof. intros [H1 H2]. split; [intros; by rewrite H1|congruence]. Qed.

Lemma agree_books now o s s' : agree s s' → event_app (ndb s') = event_app (ndb s) → books now o s' = books now o s.
Proof.
  intros Ha He. apply map_eq. intros app. rewrite !books_lookup, He. destruct (event_app (ndb s) !! app); [|done]. cbn.
  destruct o; [|done]. by rewrite (agree_wanted s s' app _ Ha).
Qed.

Lemma room_cons now line off L s s' : room s ((now, (line, off)) :: L) →
  event_app (ndb s') = books now (item_of (parse line)) s → room s' L.
Proof.
  intros Hr He app t. rewrite He, books_lookup. destruct (event_app (ndb s) !! app) as [t0|] eqn:Et; [|done].
  specialize (Hr app t0 Et). simpl in Hr. intros [= <-]. repeat case_match; rewrite ?update_next; lia.
Qed.

Lemma notices_agree L s1 s2 : sound s1 → sound s2 → ascending (logFileOffset_ s1) L → ascending (logFileOffset_ s2) L →
  room s1 L → agree s1 s2 → event_app (ndb s2) = event_app (ndb s1) →
  ∃ s1' s2', forM L handle_notice s1 = (Done tt, s1') ∧ forM L handle_notice s2 = (Done tt, s2') ∧
    event_app (ndb s2') = event_app (ndb s1').
Proof.
  revert s1 s2. induction L as [|[now [line off]] L IH]; intros s1 s2 Hs1 Hs2 Ha1 Ha2 Hr Ha He; [by exists s1, s2|].
  destruct Ha1 as [(Hlt1 & Hoff & Hread) Ha1]. destruct Ha2 as [(Hlt2 & _ & _) Ha2]. cbn [fst snd] in *.
  assert (∀ app t, event_app (ndb s1) !! app = Some t → ev_next t < 2 ^ 31) as Hmax.
  { intros app t Ht. specialize (Hr app t Ht). simpl in Hr. lia. }
  destruct (notice_run Hash testnet now line off s1 Hs1 Hread Hlt1 Hoff Hmax) as (u1 & Hr1 & Hu1 & Hb1 & _ & Ho1 & Hv1 & _).
  destruct (notice_run Hash testnet now line off s2 Hs2 Hread Hlt2 Hoff ltac:(by rewrite He)) as (u2 & Hr2 & Hu2 & Hb2 & _ & Ho2 & Hv2 & _).
  destruct (IH u1 u2) as (s1' & s2' & H1 & H2 & H3); [done|done|by rewrite Ho1|by rewrite Ho2|by eapply room_cons| | |].
  - apply (agree_trans _ s1); [apply agree_sym, same_agree, Hb1|]. by apply (agree_trans _ s2), same_agree.
  - rewrite Hv1, Hv2. by apply agree_books.
  - exists s1', s2'. cbn [forM]. by rewrite (bind_Done _ _ _ _ _ Hr1), (bind_Done _ _ _ _ _ Hr2).
Qed.

Lemma notices_silent L s : sound s → ascending (logFileOffset_ s) L → room s L → Forall (λ x, silent (item_at x) s) L →
  ∃ s', forM L handle_notice s = (Done tt, s') ∧ sound s' ∧ agree s s' ∧ event_app (ndb s') = event_app (ndb s) ∧
    logFileOffset_ s' = offset_after (logFileOffset_ s) L.
Proof.
  revert s. induction L as [|[now [line off]] L IH]; intros s Hs Ha Hr Hsil; [by exists s|].
  destruct Ha as [(Hlt & Hoff & Hread) Ha]. apply Forall_cons in Hsil as [Hx Hsil]. cbn [fst snd] in *.
  destruct (notice_run Hash testnet now line off s Hs Hread Hlt Hoff) as (u & Hrun & Hu & Hsame & _ & Ho & Hv & _).
  { intros app t Ht. specialize (Hr app t Ht). simpl in Hr. lia. }
  assert (event_app (ndb u) = event_app (ndb s)) as Hev.
  { rewrite Hv. apply map_eq. intros app. rewrite books_lookup. destruct (event_app (ndb s) !! app); [|done]. cbn.
    unfold item_at in Hx. cbn in Hx. destruct (item_of (parse line)) as [item|]; [|done]. by rewrite (Hx item eq_refl). }
  destruct (IH u) as (s' & Hrun' & Hs' & Hag & Hev' & Hoff'); [done|by rewrite Ho|by eapply room_cons| |].
  - eapply Forall_impl; [exact Hsil|]. intros x Hy item E app. rewrite (agree_wanted s u); [by apply Hy|by apply same_agree].
  - exists s'. split_and!; [cbn [forM]; by rewrite (bind_Done _ _ _ _ _ Hrun)|done| |congruence|by rewrite offset_cons, Hoff', Ho].
    by apply (agree_trans _ u), Hag; apply same_agree.
Qed.

Lemma offset_app o L1 L2 : offset_after o (L1 ++ L2) = offset_after (offset_after o L1) L2.
Proof. unfold offset_after. rewrite last_app. by destruct (last L2). Qed.
Lemma ascending_app o L1 L2 : ascending o (L1 ++ L2) ↔ ascending o L1 ∧ ascending (offset_after o L1) L2.
Proof.
  revert o. induction L1 as [|x L1 IH]; intros o; [cbn; naive_solver|]. cbn [app ascending]. rewrite IH, offset_cons. tauto.
Qed.
Lemma offset_in o j L : in_s 64 o → ascending o L → in_s 64 (offset_after o (take j L)).
Proof.
  revert o j. induction L as [|x L IH]; intros o j Ho Ha; [by rewrite take_nil|]. destruct j as [|j]; [done|].
  destruct Ha as [(_ & Hx & _) Ha]. cbn [take]. rewrite offset_cons. by apply IH.
Qed.
Lemma news_silent s app L1 L2 id : Forall (λ x, silent (item_at x) s) L2 → news s app (L1 ++ L2) id = news s app L1 id.
Proof.
  intros Hsil. revert id. induction L1 as [|x L1 IH]; intros id; cbn [Datatypes.app news].
  - induction Hsil as [|x L2 Hx _ IH]; [done|]. cbn [news]. destruct (item_at x) as [item|]; [|done]. by rewrite (Hx item eq_refl).
  - by repeat case_match; rewrite ?IH.
Qed.
Lemma room_after s s' L1 L2 : room s (L1 ++ L2) →
  (∀ app, match event_app (ndb s) !! app with
          | Some t => ∃ t', event_app (ndb s') !! app = Some t' ∧ table_ok t' ∧ kept t t' (news s app L1 (ev_next t))
          | None => event_app (ndb s') !! app = None end) → room s' L2.
Proof.
  intros Hr Hev app t' Ht'. specialize (Hev app). destruct (event_app (ndb s) !! app) as [t|] eqn:Et; [|congruence].
  destruct Hev as (t1 & Ht1 & _ & k & _ & _ & Hn & _). rewrite Ht' in Ht1. injection Ht1 as <-.
  specialize (Hr app t Et). rewrite length_app in Hr. rewrite Hn.
  pose proof (news_length s app L1 (ev_next t)). lia.
Qed.
Lemma room_le s L1 L2 : room s (L1 ++ L2) → room s L1 ∧ room s L2.
Proof. intros Hr. split; intros app t Ht; specialize (Hr app t Ht); rewrite length_app in Hr; lia. Qed.

(** C17 — As long as every application has a subscription, and no subscription
    changed since the cursor was stored, stopping notifyd between any two lines
    loses and repeats nothing.  The stored cursor may be behind, since lines that
    concern nobody do not store it; a new process reads these lines again, books
    nothing for them, and its tables after the lines that follow are those of a
    process that was not stopped.  (Without the two conditions this fails:
    NotifyLog.cc:574 and NotifyLog.cc:666.) *)
Theorem restart_exact now s L1 L2 :
  sound s → stored s (logFileIndex_ s) (logFileOffset_ s) →
  (∀ app, app ∈ appIds_ s → ∃ a, subscribed s app a = true) →
  ascending (logFileOffset_ s) (L1 ++ L2) → room s (L1 ++ L2) →
  ∃ s1 s2 r r2 j, forM L1 handle_notice s = (Done tt, s1) ∧ forM L2 handle_notice s1 = (Done tt, s2) ∧
    notify_init Hash testnet now (fresh (ndb s1)) = (Done tt, r) ∧ (j ≤ length L1)%nat ∧
    (logFileIndex_ r, logFileOffset_ r) = (logFileIndex_ s, offset_after (logFileOffset_ s) (take j L1)) ∧
    forM (drop j L1 ++ L2) handle_notice r = (Done tt, r2) ∧ event_app (ndb r2) = event_app (ndb s2).
Proof.
  intros Hs Hst Happs [Ha1 Ha2]%ascending_app Hr. destruct (room_le _ _ _ Hr) as [Hr1 _].
  destruct (notices_run Hash testnet L1 s Hs Ha1 Hr1) as (s1 & Hrun1 & Hs1 & Hsame & Hidx & Hoff & Hev & Hres).
  pose proof (room_after s s1 L1 L2 Hr Hev) as Hr2. destruct (Hres _ Hst) as (j & Hj & Hstj & Hsil).
  destruct (notify_init_run Hash testnet now s1 Hs1) as (r & Hinit & Hsr & Hdb & Hsub & Hids & Hstr).
  assert (logFileIndex_ r = logFileIndex_ s ∧ logFileOffset_ r = offset_after (logFileOffset_ s) (take j L1)) as [Ei Eo].
  { destruct Hstj as [u Hu]. destruct Hstr as [u' Hu']. rewrite Hu in Hu'. injection Hu' as E _.
    destruct (nv_cursor _ _ s Hs) as [Hi Ho]. destruct (nv_cursor _ _ r Hsr) as [Hi' Ho'].
    pose proof (offset_in _ j L1 Ho Ha1) as Hin.
    by destruct (status_inj _ _ _ _ Hi Hin Hi' Ho' E) as [<- <-]. }
  assert (agree s1 r) as Hag1.
  { split; [done|]. rewrite Hids. apply set_eq. intros app. rewrite elem_of_list_to_set. split.
    - intros ([app' a] & -> & Hin)%list_elem_of_fmap. apply (nv_apps _ _ s1 Hs1 app' a). by apply (nv_db _ _ s1 Hs1).
    - destruct Hsame as (Ht & Hi & Hd). rewrite Hi. intros (a & Ha)%Happs. apply (list_elem_of_fmap_2 fst _ (app, a)).
      rewrite Hd. by apply (nv_db _ _ s Hs). }
  assert (agree s r) as Hag by (by apply (agree_trans _ s1), Hag1; apply same_agree).
  assert (ascending (logFileOffset_ r) (drop j L1)) as Hdrop.
  { rewrite Eo. rewrite <-(take_drop j L1) in Ha1. by apply ascending_app in Ha1 as [_ ?]. }
  assert (room r (drop j L1)) as Hrr.
  { intros app t Ht. rewrite Hdb in Ht. specialize (Hev app). destruct (event_app (ndb s) !! app) as [t0|] eqn:E0; [|congruence].
    destruct Hev as (t1 & Ht1 & _ & k & _ & _ & Hn & _). rewrite Ht in Ht1. injection Ht1 as <-. rewrite Hn.
    pose proof (news_silent s app (take j L1) (drop j L1) (ev_next t0) Hsil) as En.
    rewrite take_drop in En. rewrite En, length_drop. pose proof (news_length s app (take j L1) (ev_next t0)) as Hl.
    rewrite length_take in Hl. specialize (Hr1 app t0 E0). lia. }
  destruct (notices_silent (drop j L1) r Hsr Hdrop Hrr) as (u & Hrunu & Hu & Hagu & Hevu & Hoffu).
  { eapply Forall_impl; [exact Hsil|]. intros x Hx item E app. rewrite (agree_wanted s r app item Hag). by apply Hx. }
  destruct (notices_agree L2 s1 u Hs1 Hu) as (s2 & r2 & Hrun2 & Hrunr & Hev2).
  - by rewrite Hoff.
  - rewrite Hoffu, Eo, <-offset_app, take_drop. done.
  - done.
  - by apply (agree_trans _ r).
  - by rewrite Hevu, Hdb.
  - exists s1, s2, r, r2, j. split_and!; [done|done|done|done|by rewrite Ei, Eo| |done].
    rewrite forM_app. by rewrite (bind_Done _ _ _ _ _ Hrunu).
Qed.
End claims.
