(* ===== verification/NotifyCompose.v ===== *)
(** * From the parser to the applications

    The lines the parser writes for a transaction, read by notifyd. *)
From S2P Require Import Prelude Tx Bytes Text Serialize TxState Notify Ledger LedgerSpec LedgerRefine ParserTx ParserRefine.
From S2P Require Import Balances Utxo ParserSpec ParserHistory ParserSteps ParserTables ParserClaims.
From S2P Require Import LogFiles KVDB Codec Json Base58 HttpApi HttpApiFacts HttpAddress Script ScriptSolver ScriptFacts.
From S2P Require Import Notifyd NotifydFacts NotifydSubs NotifydPull NotifydClaims.

(** ** Reading whole lines *)

Lemma getlines_line (l cur txt : bytes) pos count : 10 ∉ l →
  getlines (l ++ 10 :: txt) cur pos count = (reverse cur ++ l, pos + Z.of_nat (length l) + 1) ::
    (if Nat.ltb 500 (S count) then [] else getlines txt [] (pos + Z.of_nat (length l) + 1) (S count)).
Proof.
  revert cur pos. induction l as [|c l IH]; intros cur pos Hl; cbn [app getlines length].
  - by rewrite Z.eqb_refl, app_nil_r, Z.add_0_r.
  - replace (c =? 10) with false by (symmetry; apply Z.eqb_neq; set_solver).
    rewrite IH by set_solver. rewrite reverse_cons, <-app_assoc. cbn [app].
    by replace (pos + 1 + Z.of_nat (length l)) with (pos + Z.of_nat (S (length l))) by lia.
Qed.
(** 501 lines are read at once *)
Lemma getlines_render (ls : list bytes) pos count : Forall (λ l, 10 ∉ l) ls → (count + length ls ≤ 501)%nat →
  (getlines (render ls) [] pos count).*1 = ls ∧
  from_option snd pos (last (getlines (render ls) [] pos count)) = pos + Z.of_nat (length (render ls)).
Proof.
  intros Hls. revert pos count. induction Hls as [|l ls Hl Hls IH]; intros pos count Hlen; [cbn; split; [done|lia]|].
  cbn [length] in Hlen. cbn [render flat_map]. fold (render ls). rewrite <-app_assoc. cbn [app].
  rewrite getlines_line by done. rewrite reverse_nil, app_nil_l, length_app. cbn [length].
  destruct (Nat.ltb_spec 500 (S count)).
  - destruct ls; [|cbn in Hlen; lia]. cbn. split; [done|lia].
  - destruct (IH (pos + Z.of_nat (length l) + 1) (S count)) as [IH1 IH2]; [lia|]. split; [cbn [fmap list_fmap]; by rewrite IH1|].
    destruct (getlines (render ls) [] _ (S count)) as [|x r] eqn:E.
    + cbn in *. lia.
    + rewrite last_cons_cons. destruct (last (x :: r)) eqn:El; [|by apply last_None in El]. cbn in *. lia.
Qed.

Lemma filter_ext_in {P : Type} (R1 R2 : P → Prop) `{∀ p, Decision (R1 p), ∀ p, Decision (R2 p)} (ps : list P) :
  Forall (λ p, R1 p ↔ R2 p) ps → filter R1 ps = filter R2 ps.
Proof.
  induction 1 as [|p ps Hp Hps IH]; [done|]. destruct (decide (R1 p)) as [HR|HR].
  - rewrite !filter_cons_True by tauto. by rewrite IH.
  - rewrite !filter_cons_False by tauto. done.
Qed.

(** ** Rows for items *)
Section items.
Context {P : Type} (f : P → NotifyItem) (Q : P → Prop).
Implicit Types (s : notifyd) (app : Z) (ps : list P).

Definition row_of_item (r : event_row) (p : P) : Prop := Q p ∧ ∃ now id, r = row_for now (f p) id.
Lemma news_items s app L ps id : L.*2.*1 = (λ p, toStr (f p)) <$> ps → Forall (λ p, item_ok (f p) ∧ Q p) ps →
  Forall2 row_of_item (news s app L id) (filter (λ p, wanted s app (f p) = true) ps).
Proof.
  revert ps id. induction L as [|[now [line off]] L IH]; intros [|p ps] id E Hok; try done.
  apply Forall_cons in Hok as [[Hp HQ] Hok]. injection E as E1 E2. cbn [news].
  unfold item_at. cbn [fst snd]. rewrite E1, notify_roundtrip by done. cbn [item_of].
  destruct (wanted s app (f p)) eqn:Hw.
  - rewrite filter_cons_True by done. constructor; [split; [done|by exists now, id]|by apply IH].
  - rewrite filter_cons_False by congruence. by apply IH.
Qed.
End items.

Lemma safe_field x y : safe x → safe y → safe (x ++ 44 :: y).
Proof. intros Hx Hy. apply Forall_app_2; [done|]. apply Forall_cons_2; [unfold safe_char; lia|done]. Qed.
Lemma item_safe i : safe (item_address i) → safe (toStr i).
Proof.
  intros Ha. unfold toStr. destruct (is_tx_event _); [|destruct (is_block_event _); [|constructor]].
  - do 2 (apply safe_field; [first [apply date_safe | apply fmt_d_safe]|]).
    apply safe_field; [done|]. apply safe_field; [apply fmt_d_safe|]. apply safe_field; [apply safe_hash|apply fmt_d_safe].
  - do 2 (apply safe_field; [first [apply date_safe | apply fmt_d_safe]|]).
    apply safe_field; [apply fmt_d_safe|apply safe_hash].
Qed.

(** ** The items of a transaction *)
Section notified.
Context `{Scripts} (body : uint256 → CTransaction) (hexes : uint256 → bytes) (C : gset bytes).
Variables (begin interval now : Z) (varargs : bytes → option bytes) (Hash : bytes → uint256) (testnet : bool).
Hypothesis C_text : ∀ a, a ∈ C → base58_text a ∧ (length a ≤ 35)%nat.
Implicit Types (w : world) (s : txs_state) (d : notifyd) (t : TxLog2) (a : bytes) (app : Z).
Abbreviation bal := (bal body).

Lemma balances_range (l : list (bytes * Z)) (m : gmap bytes Z) : map_Forall (λ _ v, in_s 64 v) m →
  map_Forall (λ _ v, in_s 64 v) (foldl add_balance m l).
Proof.
  revert m. induction l as [|p l IH]; intros m Hm; [done|]. cbn [foldl]. apply IH. unfold add_balance.
  apply map_Forall_insert_2; [|done]. by apply wrapS_range.
Qed.

Definition item_for t (p : bytes * Z) : NotifyItem :=
  loadtx now (event_type (type_ t)) p.1 (txHash_ t) (blkHeight_ t) p.2.
Lemma tx_event_item w w' t p : tx_step body hexes C w t w' → is_block (item_for t p) = false.
Proof. intros Hstep. unfold is_block. cbn. by inversion Hstep as [Ht|Ht|c x Ht|Ht]; rewrite Ht. Qed.
Lemma items_ok w w' t : world_ok body C w → tx_step body hexes C w t w' → in_s 32 (blkHeight_ t) →
  Forall (λ p, item_ok (item_for t p) ∧ item_address (item_for t p) = p.1 ∧ base58_text p.1)
    (text_items (bal (txHash_ t))).
Proof using All.
  intros Hok Hstep Hh. assert (tx_fine body C (txHash_ t)) as Hf.
  { inversion Hstep as [_ _ _ _ Hf|_ _ Hp|c x _ _ Hc|_ _ Hp]; [done|..]; apply (ok_fine _ _ _ Hok).
    - by right.
    - left. unfold confirmed. rewrite Hc, fmap_app. apply elem_of_app. right. by left.
    - by right. }
  assert (is_tx_event (event_type (type_ t)) = true ∧ is_block_event (event_type (type_ t)) = false) as [Ht1 Ht2].
  { inversion Hstep as [Ht|Ht|c x Ht|Ht]; rewrite Ht; done. }
  apply Forall_forall. intros [a v] Hp%elem_of_map_items. unfold item_for, loadtx. cbn.
  destruct (C_text a) as [Hb Hl]; [apply (fine_cache _ _ _ Hf); by apply elem_of_dom_2 in Hp|].
  unfold clip. rewrite take_ge by done. split_and!; [|done|done]. constructor; cbn.
  - apply wrapU_range. lia.
  - by left.
  - done.
  - unfold bal, addressBalance in Hp. eapply (balances_range _ ∅); [apply map_Forall_empty|exact Hp].
  - apply (fine_hash _ _ _ Hf).
  - intros Hin. unfold base58_text in Hb. rewrite Forall_forall in Hb. apply Hb in Hin. vm_compute in Hin. set_solver.
  - done.
  - by rewrite Ht2.
Qed.

(** what a row tells of a transaction that changes the balance of an address *)
Definition told t (r : event_row) (p : bytes * Z) : Prop :=
  ev_type r = event_type (type_ t) ∧ ev_hash r = ToString (txHash_ t) ∧ ev_height r = blkHeight_ t ∧
  ev_address r = p.1 ∧ ev_amount r = p.2.

(** C8 — From the parser to the applications, for a legal transaction row that
    touches at most 501 addresses, each a base58 text of at most 35 characters:
    unless the row is a rejection that touches an address and whose formatting of
    line 1661, which is undefined, does not come back or prints another
    transaction's hash, the parser handles it to its end and, once it writes
    notifications, writes a line for each address the transaction touches; when
    notifyd, in whatever sound state whose tables have room for 501 more ids, reads
    these lines, the table of each application gets, for exactly those of the
    addresses it subscribed, a row with the event, the transaction, the height and
    what the transaction adds to or takes from the address. *)
Theorem applications_told w t s w' :
  world_ok body C w → shows body hexes C w s → tx_step body hexes C w t w' →
  in_s 32 (blkHeight_ t) → isWriteNotificationLogs begin s = true → (size (bal (txHash_ t)) ≤ 501)%nat →
  let items := notes begin now (bal (txHash_ t)) t s in
  disturbed body varargs t ∨
  ∃ s', handleTx varargs begin interval now t s = (Done tt, s') ∧ shows body hexes C w' s' ∧
    notifications s' = notifications s ++ items ∧
    ∀ d files clock old, sound Hash testnet d →
      let content := old ++ render (toStr <$> items) in
      files !! logFileIndex_ d = Some content → logFileOffset_ d = Z.of_nat (length old) →
      Z.of_nat (length content) < 2 ^ 63 →
      (∀ app et, event_app (ndb d) !! app = Some et → ev_next et + 501 ≤ 2 ^ 31) →
      ∃ d', consume files false clock d = (Done tt, d') ∧ sound Hash testnet d' ∧
        logFileOffset_ d' = Z.of_nat (length content) ∧
        ∀ app et, event_app (ndb d) !! app = Some et → ∃ et' rows, event_app (ndb d') !! app = Some et' ∧
          kept et et' rows ∧
          Forall2 (told t) rows (filter (λ p, subscribed d app p.1 = true) (text_items (bal (txHash_ t)))).
Proof using All.
  intros Hok Hs Hstep Hh Hw Hsize items. destruct (decide (disturbed body varargs t)) as [?|Hv]; [by left|right].
  destruct (handle_row body hexes C begin interval now varargs w t s w' Hok Hs Hstep Hv) as (s' & Hrun & Hs' & _ & Hn).
  exists s'. split_and!; [done|done|done|].
  assert (items = item_for t <$> text_items (bal (txHash_ t))) as -> by (unfold items, notes; by rewrite Hw).
  intros d files clock old Hd content Hf Hoff Hlen Hroom.
  pose proof (items_ok w w' t Hok Hstep Hh) as Hitems. set (ps := text_items (bal (txHash_ t))) in *.
  assert (length ps ≤ 501)%nat as Hps by (unfold ps; rewrite map_items_perm, length_map_to_list; done).
  assert ((readLines content (logFileOffset_ d)).*1 = (λ p, toStr (item_for t p)) <$> ps ∧
    from_option snd (logFileOffset_ d) (last (readLines content (logFileOffset_ d))) = Z.of_nat (length content)) as [Hlines Hend].
  { unfold readLines. rewrite Hoff, Nat2Z.id. unfold content. rewrite drop_app_length, length_app, Nat2Z.inj_add, <-list_fmap_compose.
    apply getlines_render; [|rewrite length_fmap; lia]. apply Forall_fmap. eapply Forall_impl; [exact Hitems|].
    intros p (_ & Ea & Hb) Hin. assert (safe (toStr (item_for t p))) as Hsafe by (apply item_safe; rewrite Ea; by apply base58_safe).
    unfold safe in Hsafe. rewrite Forall_forall in Hsafe. apply Hsafe in Hin as [? _]. lia. }
  set (L := notices clock content (logFileOffset_ d)).
  assert (L.*2 = readLines content (logFileOffset_ d)) as HL.
  { unfold L, notices. rewrite fmap_imap. apply list_eq. intros i. rewrite list_lookup_imap.
    by destruct (readLines _ _ !! i). }
  assert (length L = length ps) as HLlen by (rewrite <-(length_fmap snd L), HL, <-(length_fmap fst), Hlines; apply length_fmap).
  destruct (round_run Hash testnet d content clock Hd) as (d' & Hrund & Hd' & _ & _ & Hoff' & Hev).
  - rewrite Hoff. unfold content. rewrite length_app. lia.
  - done.
  - fold L. apply Forall_forall. intros x Hx. assert (x.2.1 ∈ L.*2.*1) as Hx2 by by apply list_elem_of_fmap_2, list_elem_of_fmap_2.
    rewrite HL, Hlines in Hx2. apply list_elem_of_fmap in Hx2 as (p & -> & Hp). rewrite Forall_forall in Hitems.
    destruct (Hitems p Hp) as (Hi & _). rewrite notify_roundtrip by done. by eexists.
  - fold L. intros app et Het. specialize (Hroom app et Het). lia.
  - fold L in Hrund, Hoff', Hev. exists d'. split_and!.
    + unfold consume. rewrite (bind_Done get _ _ _ _ eq_refl). cbv beta. rewrite Hf. exact Hrund.
    + done.
    + rewrite Hoff', <-Hend, <-HL. unfold offset_after. rewrite fmap_last. by destruct (last L).
    + intros app et Het. specialize (Hev app). rewrite Het in Hev. destruct Hev as (et' & Het' & _ & Hkept).
      exists et', (news d app L (ev_next et)). split_and!; [done|done|].
      pose proof (news_items (item_for t) (λ p, item_address (item_for t p) = p.1 ∧ base58_text p.1) d app L ps (ev_next et)) as Hnews.
      rewrite HL in Hnews. specialize (Hnews Hlines Hitems). rewrite <-(filter_ext_in (λ p, wanted d app (item_for t p) = true) (λ p, subscribed d app p.1 = true)).
      * eapply Forall2_impl; [exact Hnews|]. intros r p [[Ea _] (tm & id & ->)]. unfold told, row_for.
        by rewrite (tx_event_item w w' t p Hstep), Ea.
      * eapply Forall_impl; [exact Hitems|]. intros p (_ & Ea & _). unfold wanted.
        by rewrite (tx_event_item w w' t p Hstep), Ea.
Qed.
End notified.
