(* ===== verification/NotifydDemo.v ===== *)
(** * The claims about the notification service on a concrete state

    An application of notifyd with one address of the test network, with the toy
    hash of [AddressDemo] for the check of addresses. *)
From S2P Require Import Prelude Tx Bytes Text LogFiles Notify KVDB Codec Json Base58 HttpApi HttpApiFacts HttpAddress HttpDemo.
From S2P Require Import TxState Ledger LedgerSpec ParserTx ParserRefine ParserSpec ParserClaims ParserFacts.
From S2P Require Import Notifyd NotifydFacts NotifydSubs NotifydPull NotifydClaims NotifyCompose.

Module NotifydDemo.
Definition toy : bytes → uint256 := AddressDemo.toy.
Definition text : bytes := HttpDemo.text.
Definition empty_db : notify_db := {| app_subcribe := []; event_app := ∅; meta_notifyd := None |}.
Definition s0 : notifyd := Eval vm_compute in (notify_init toy true 100 (fresh empty_db)).2.
(** application 7 with the address *)
Definition s1 : notifyd := Eval vm_compute in (insertAddress toy true 7 text true s0).2.

Definition item (type : Z) (a : bytes) : NotifyItem :=
  {| item_timestamp := 1400000000; item_type := type; item_height := 5; item_amount := 3; item_hash := 9; item_address := a |}.
(** nobody's address; the address; a block *)
Definition line1 : bytes := Eval vm_compute in toStr (item NOTIFY_EVENT_TX_ACCEPT [65]).
Definition line2 : bytes := Eval vm_compute in toStr (item NOTIFY_EVENT_TX_ACCEPT text).
Definition line3 : bytes := Eval vm_compute in toStr (loadblock 1400000000 NOTIFY_EVENT_BLOCK_ACCEPT 9 5).
Definition content : bytes := line1 ++ [10] ++ line2 ++ [10] ++ line3 ++ [10; 50].
Definition clock (i : nat) : Z := 200 + Z.of_nat i.
Definition L : list (Z * (bytes * Z)) := Eval vm_compute in notices clock content 0.
Definition ask (o : Z) : request :=
  HttpDemo.get [(lit "appid", lit "7"); (lit "token", lit "x"); (lit "offset", fmt_d o)].

Lemma no_subs app a : subscribed s0 app a = false.
Proof. reflexivity. Qed.
Lemma s0_sound : sound toy true s0.
Proof.
  constructor.
  - intros app a. rewrite no_subs. split; [by intros ?%elem_of_nil|done].
  - constructor.
  - intros app a H. by apply elem_of_nil in H.
  - intros app a. by rewrite no_subs.
  - intros app H. by apply elem_of_empty in H.
  - intros app t. change (event_app (ndb s0)) with (∅ : gmap Z event_table). by rewrite lookup_empty.
  - by unfold in_s.
  - exists 0, 0. split_and!; [by eexists | by unfold in_s | by unfold in_s | by right].
Qed.
Lemma text_valid : valid toy true text = true ∧ canon toy text = text ∧ c_str text = text.
Proof. vm_compute. done. Qed.
Lemma s1_sound : sound toy true s1.
Proof.
  eapply (insert_sound toy true 7 text s0 s1 s0_sound); [by unfold in_s | apply text_valid | apply no_subs |].
  vm_compute. reflexivity.
Qed.
Lemma s1_events : event_app (ndb s1) = {[ 7 := newTable ]}.
Proof. vm_compute. reflexivity. Qed.
Lemma s1_apps app : app ∈ appIds_ s1 → app = 7.
Proof. replace (appIds_ s1) with ({[ 7 ]} : gset Z) by (vm_compute; reflexivity). apply elem_of_singleton. Qed.
Lemma room_s1 l : (length l ≤ 3)%nat → room s1 l.
Proof. intros Hl app t. rewrite s1_events. intros [_ <-]%lookup_singleton_Some. cbn. lia. Qed.
Lemma L_read : Forall (λ x, readable (parse x.2.1)) L.
Proof. repeat constructor; eexists; vm_compute; reflexivity. Qed.
Lemma L_ascending : ascending 0 L.
Proof. pose proof L_read as H. unfold L in *. apply Forall_cons in H as [H1 H]. apply Forall_cons in H as [H2 H].
  apply Forall_cons in H as [H3 _]. cbn [ascending snd]. unfold in_s. split_and!; (exact H1 || exact H2 || exact H3 || done || lia).
Qed.
Lemma ask_query o : in_s 64 o → pull_query (lit "x") 7 o (ask o).
Proof. intros Ho. split_and!; [by exists (lit "7") | done | exists (fmt_d o)]. split; [done|by apply atoi64_fmt_d]. Qed.
End NotifydDemo.
Import NotifydDemo.

Theorem events_booked_witness : ∃ s t, consume {[ 0 := content ]} false clock s1 = (Done tt, s) ∧
  event_app (ndb s) !! 7 = Some t ∧ ev_next t = 3 ∧ logFileOffset_ s = 311.
Proof.
  destruct (events_booked toy true s1 {[ 0 := content ]} false clock content s1_sound) as (s & Hrun & _ & _ & Hcur & Hev).
  - vm_compute. reflexivity.
  - vm_compute. done.
  - vm_compute. done.
  - vm_compute. done.
  - exact L_read.
  - apply room_s1. vm_compute. lia.
  - specialize (Hev 7). rewrite s1_events, lookup_singleton_eq in Hev. destruct Hev as (t & Ht & _ & k & _ & _ & Hn & _).
    exists s, t. split; [exact Hrun|]. split; [exact Ht|]. split.
    + rewrite Hn. vm_compute. reflexivity.
    + injection Hcur as _ ->. vm_compute. reflexivity.
Defined.

Theorem restart_exact_witness : ∃ s s2 r r2 j, forM (take 1 L) handle_notice s1 = (Done tt, s) ∧
  forM (drop 1 L) handle_notice s = (Done tt, s2) ∧ notify_init toy true 300 (fresh (ndb s)) = (Done tt, r) ∧
  forM (drop j (take 1 L) ++ drop 1 L) handle_notice r = (Done tt, r2) ∧ event_app (ndb r2) = event_app (ndb s2).
Proof.
  destruct (restart_exact toy true 300 s1 (take 1 L) (drop 1 L) s1_sound) as (s & s2 & r & r2 & j & H1 & H2 & H3 & _ & _ & H4 & H5).
  - eexists. vm_compute. reflexivity.
  - intros app ->%s1_apps. exists text. vm_compute. reflexivity.
  - rewrite take_drop. exact L_ascending.
  - rewrite take_drop. apply room_s1. vm_compute. lia.
  - exists s, s2, r, r2, j. split_and!; [exact H1 | exact H2 | exact H3 | exact H4 | exact H5].
Defined.

Theorem pulled_once_witness : ∃ s, forM L handle_notice s1 = (Done tt, s) ∧
  id_of <$> poll (lit "x") (ndb s) ask ∅ 4 0 = [1; 2].
Proof.
  destruct (pulled_once toy true (lit "x") s1 L 7 newTable ask ∅ 4 s1_sound) as (s & H1 & H2).
  - exact L_ascending.
  - apply room_s1. vm_compute. lia.
  - vm_compute. reflexivity.
  - constructor.
  - exact ask_query.
  - vm_compute. discriminate.
  - vm_compute. lia.
  - exists s. split; [exact H1|]. change 0 with (ev_next newTable - 1). rewrite H2. vm_compute. reflexivity.
Defined.

Theorem subscriptions_agree_witness : ∃ s, removeAddress toy true 7 text s1 = (Done true, s) ∧ sound toy true s ∧
  subscribed s 7 text = false.
Proof.
  destruct (subscriptions_agree toy true 300 7 text s1 s1_sound) as (_ & Hrem & _); [vm_compute; done|].
  destruct Hrem as (s & Hrun & Hs & Hsub); [left; vm_compute; reflexivity|].
  exists s. split; [exact Hrun|]. split; [exact Hs|]. apply not_true_is_false. rewrite Hsub. intros [_ Hno]. apply Hno.
  split_and!; vm_compute; reflexivity.
Defined.

(** with a space in front *)
Theorem misspelled_removal_witness : ∃ s, removeAddress toy true 7 (32 :: text) s1 = (Done true, s) ∧
  subscribed s 7 text = true ∧ (removeAddress toy true 7 text s).1 = Raise (Throw "update DB failure").
Proof.
  assert (canon toy (32 :: text) = text) as E by (vm_compute; reflexivity).
  destruct (misspelled_removal toy true 7 (32 :: text) s1 s1_sound) as (s & H1 & H2 & _ & H3 & _).
  - vm_compute. reflexivity.
  - vm_compute. reflexivity.
  - rewrite E. vm_compute. discriminate.
  - rewrite E in H2, H3. exists s. split_and!; [exact H1 | exact H2 | exact H3].
Defined.

(** the parser of [HttpDemo], which accepts a transaction that pays to the address *)
Section parser.
#[local] Existing Instance HttpDemo.scripts.
Definition notices_of_tx : list NotifyItem :=
  notes 0 1500000000 (bal HttpDemo.body (txHash_ HttpDemo.accept1)) HttpDemo.accept1 first_start.

Theorem applications_told_witness : ∃ s d et r,
  handleTx Some 0 210000 1500000000 HttpDemo.accept1 first_start = (Done tt, s) ∧
  consume {[ 0 := render (toStr <$> notices_of_tx) ]} false clock s1 = (Done tt, d) ∧
  event_app (ndb d) !! 7 = Some et ∧ ev_rows et = [r] ∧ ev_address r = text ∧ ev_amount r = 5000000000.
Proof.
  destruct (applications_told HttpDemo.body HttpDemo.hexes HttpDemo.C 0 210000 1500000000 Some toy true) with
    (w := emptyWorld) (t := HttpDemo.accept1) (s := first_start) (w' := HttpDemo.w1) as [(_ & _ & Hn)|(s & H1 & _ & _ & Htold)].
  - intros a Ha. split; [by apply HttpDemo.C_base58|]. apply elem_of_singleton in Ha as ->. vm_compute. lia.
  - apply empty_world_ok.
  - apply first_shows. vm_compute. discriminate.
  - exact HttpDemo.paid_step.
  - by unfold in_s.
  - vm_compute. reflexivity.
  - vm_compute. lia.
  - exfalso. apply Hn, ParserDemo.harmless.
  - destruct (Htold s1 {[ 0 := render (toStr <$> notices_of_tx) ]} clock [] s1_sound) as (d & H2 & _ & _ & Hev).
    + vm_compute. reflexivity.
    + reflexivity.
    + vm_compute. reflexivity.
    + intros app et. rewrite s1_events. intros [_ <-]%lookup_singleton_Some. vm_compute. discriminate.
    + destruct (Hev 7 newTable) as (et & rows & H3 & (k & Hk & H4 & _ & Hkeep) & Hrows); [vm_compute; reflexivity|].
      match type of Hrows with Forall2 _ _ ?l => replace l with [(text, 5000000000)] in Hrows by (vm_compute; reflexivity) end.
      apply Forall2_cons_inv_r in Hrows as (r & rest & Hr & Hnil & Erows). apply Forall2_nil_inv_r in Hnil as ->.
      rewrite Erows in H4, Hk. destruct Hr as (_ & _ & _ & Ha & Hm). exists s, d, et, r.
      split_and!; [exact H1 | exact H2 | exact H3 | | exact Ha | exact Hm]. rewrite H4. destruct Hkeep as [->|Hkeep]; [reflexivity|].
      rewrite H4, length_drop in Hkeep. cbn in Hkeep. unfold kMaxCount in Hkeep. lia.
Defined.
End parser.
