(* ===== verification/ParserMain.v ===== *)
(** * The parser's handler thread (src/jiexi/src/Parser.cc
      [threadHandleTxlogs], [updateLastTxlog2Id])

    One turn of the loop: what is done with a row of txlogs2.  The file with the
    time of the last row and the call of a URL are left out. *)
From S2P Require Import Prelude Tx Bytes Serialize TxState Db Ledger ParserTx ParserBlock RecognizeBlock TxLogs.

(** operations of the parts of the parser *)
Definition on_core {A} (m : M parser A) : M whole A := zoom core with_core m.
Definition on_txs (m : M txs_state unit) : M whole unit :=
  on_core (zoom txs with_txs m).

(** [TxLog2::isEmpty] *)
Definition isEmpty (t : TxLog2) : bool := txHash_ t =? 0.

Section handle.
Context `{Hashing} `{Scripts}.
Variables (c : pools) (varargs : bytes → option bytes) (begin interval now : Z).

Definition dispatch (db : database) (t : TxLog2) : M whole unit :=
  if type_ t =? LOG2TYPE_TX_ACCEPT then on_txs (acceptTx begin now t)
  else if type_ t =? LOG2TYPE_TX_CONFIRM then
    (if IsCoinBase (tx_ t)
     then on_core (acceptBlock interval now db t) ;;
          recognizeBlocks c (blkHeight_ t) (blkHeight_ t) true
     else mret tt) ;;
    on_txs (confirmTx begin interval now t)
  else if type_ t =? LOG2TYPE_TX_UNCONFIRM then on_txs (unconfirmTx begin now t)
  else if type_ t =? LOG2TYPE_TX_REJECT then
    (if IsCoinBase (tx_ t) then on_core (rejectBlock now db t) else mret tt) ;;
    on_txs (rejectTx varargs begin now t)
  else mret tt.

Definition handleRow (db : database) (t : TxLog2) : M whole unit :=
  if isEmpty t then mret tt
  else
    dispatch db t ;;
    on_txs (updateLastTxlog2Id (id_ t)).

(** a new process on the stored tables *)
Definition restart_whole (s : whole) : whole := with_core (with_txs (restart (txs (core s))) (core s)) s.
End handle.

(** ** A history of the handler thread: rows, each with the database and the time
    it was handled at, and new processes *)
Inductive event :=
  | Handled (db : database) (now : Z) (t : TxLog2)
  | Restarted.

Section run.
Context `{Hashing} `{Scripts}.
Variables (c : pools) (varargs : bytes → option bytes) (begin interval : Z).

Definition run_event (e : event) : M whole unit :=
  match e with
  | Handled db now t => handleRow c varargs begin interval now db t
  | Restarted => modify restart_whole
  end.
Definition run_events (l : list event) : M whole unit := forM l run_event.
End run.

(** what a fresh store starts from *)
Definition first_whole : whole :=
  {| core := {| txs := {| led := emptyLedger;
                          tables := {| kv_tx := ∅; kv_spent := ∅; kv_unconfirmed := ∅; kv_meta := ∅ |};
                          unconfirmedTxsCount_ := 0; unconfirmedTxsSize_ := 0; currBlockHeight_ := -1; notifications := [] |};
                blks := {| kv_height := ∅; kv_block := ∅; kv_block_txs := ∅; kv_orphan := ∅; kv_block_time := ∅ |} |};
     kv_extra := ∅ |}.
