(* ===== verification/MainFacts.v ===== *)
(** * The rows of txlogs2, handled as a whole (src/jiexi/src/Parser.cc
      [threadHandleTxlogs])

    The transaction tables, the block tables and the recognized miners move
    together: a view is the world of the transactions with the chain and the
    orphans, and every legal row takes the store to the next view. *)
From S2P Require Import Prelude Tx Bytes Text Serialize TxState Db Notify Ledger LedgerSpec LedgerRefine ParserTx ParserBlock ParserRefine.
From S2P Require Import Balances Utxo ParserSpec ParserHistory ParserSteps ParserTables ParserClaims ParserFacts ParserChain.
From S2P Require Import KVDB Codec RecognizeBlock RecognizeFacts TxLogs ParserMain.

Record view := {
  v_world : world;
  v_chain : list (uint256 * Z);
  v_orphans : Z → gset bytes }.

Section facts.
Context `{Hashing} `{Scripts} (body : uint256 → CTransaction) (hexes : uint256 → bytes) (C : gset bytes).
Variables (c : pools) (varargs : bytes → option bytes) (begin interval now : Z).
Implicit Types (v : view) (s : whole) (t : TxLog2) (db : database) (blk : CBlock).
Abbreviation world_ok := (world_ok body C).
Abbreviation shows := (shows body hexes C).
Abbreviation tx_step := (tx_step body hexes C).
Abbreviation handleRow := (handleRow c varargs begin interval now).

(** The store shows a view, and the row [id] was the last. *)
Record displays v s : Prop := {
  d_txs : shows (v_world v) (txs (core s));
  d_world : world_ok (v_world v);
  d_blocks : blocks_of (v_chain v) (v_orphans v) (blks (core s));
  d_chain : chain_ok (v_chain v) (v_orphans v) }.
Definition offset_of s : option bytes := kv_meta (tables (txs (core s))) !! offset_key.

(** A legal row: the transaction's part is legal; the confirmation of a coinbase
    brings its block, on top of the chain, and its rejection takes the last block
    away. *)
Inductive row_step db v t : view → Prop :=
| row_tx w' :
    (IsCoinBase (tx_ t) = false ∨ type_ t = LOG2TYPE_TX_ACCEPT ∨ type_ t = LOG2TYPE_TX_UNCONFIRM) →
    tx_step (v_world v) t w' →
    row_step db v t {| v_world := w'; v_chain := v_chain v; v_orphans := v_orphans v |}
| row_block w' blk hex value cb :
    IsCoinBase (tx_ t) = true → type_ t = LOG2TYPE_TX_CONFIRM → tx_step (v_world v) t w' →
    decodeBlock db (blkId_ t) = Done (blk, hex) →
    block_fits interval (v_chain v) (v_orphans v) blk t value cb → TxHash cb = txHash_ t →
    Z.of_nat (length (v_chain v)) < 99999999 →
    row_step db v t {| v_world := w'; v_chain := v_chain v ++ [(BlockHash blk, maxBlkTimestamp_ t)];
                       v_orphans := without (BlockHash blk) (blkHeight_ t) (v_orphans v) |}
| row_unblock w' blk hex cs :
    IsCoinBase (tx_ t) = true → type_ t = LOG2TYPE_TX_REJECT → tx_step (v_world v) t w' →
    decodeBlock db (blkId_ t) = Done (blk, hex) →
    v_chain v = cs ++ [(BlockHash blk, maxBlkTimestamp_ t)] → blkHeight_ t = Z.of_nat (length cs) →
    (∀ x, last cs = Some x → hashPrevBlock (header blk) = x.1) →
    row_step db v t {| v_world := w'; v_chain := cs;
                       v_orphans := with_one (BlockHash blk) (blkHeight_ t) (v_orphans v) |}.

(** ** What does not change the world shown *)

Lemma shows_same w (x y : txs_state) :
  led x = led y → tables x = tables y → unconfirmedTxsCount_ x = unconfirmedTxsCount_ y →
  unconfirmedTxsSize_ x = unconfirmedTxsSize_ y → shows w x → shows w y.
Proof. intros E1 E2 E3 E4 [S1 S2 S3 S4 S5]. constructor; by rewrite <-?E1, <-?E2, <-?E3, <-?E4. Qed.

Lemma shows_block w x l h : shows w x → shows w (with_notifications l (set_curr_height h x)).
Proof. by apply shows_same. Qed.

Lemma shows_offset w x id : shows w x →
  ∃ y, updateLastTxlog2Id id x = (Done tt, y) ∧ shows w y ∧ kv_meta (tables y) !! offset_key = Some (fmt_d id).
Proof.
  intros [S1 S2 S3 S4 S5]. eexists. split; [reflexivity|]. split; [|by apply lookup_insert_eq].
  constructor; try done; [by destruct S2|]. etrans; [|exact S5]. unfold init_counters.
  cbn [tables with_tables kv_meta with_meta]. by rewrite !lookup_insert_ne by (vm_compute; discriminate).
Qed.

Lemma on_txs_run (m : M txs_state unit) s x :
  m (txs (core s)) = (Done tt, x) → on_txs m s = (Done tt, with_core (with_txs x (core s)) s).
Proof. intros Hm. unfold on_txs, on_core, zoom. by rewrite Hm. Qed.
Lemma on_core_run {A} (m : M parser A) s a p :
  m (core s) = (Done a, p) → on_core m s = (Done a, with_core p s).
Proof. intros Hm. unfold on_core, zoom. by rewrite Hm. Qed.

(** the transaction's part of a row *)
Lemma tx_part v t s w' (m : M txs_state unit) v' :
  (∃ x, m (txs (core s)) = (Done tt, x) ∧ shows w' x ∧ world_ok w') →
  v_world v' = w' → blocks_of (v_chain v') (v_orphans v') (blks (core s)) → chain_ok (v_chain v') (v_orphans v') →
  ∃ s', on_txs m s = (Done tt, s') ∧ displays v' s' ∧ kv_extra s' = kv_extra s.
Proof.
  intros (x & Hm & Hx & Hok) <- HB Hc. eexists. split; [by apply on_txs_run|]. split; [|done]. by split.
Qed.
(** the index of a new block's coinbase *)
Lemma page_coinbase blk T T' cb :
  paged blk T T' → head (vtx blk) = Some cb → in_u 256 (TxHash cb) →
  ∃ page, kv_block_txs T' !! (BlockHash blk, 0) = Some page ∧ SetHex (take 64 page) = TxHash cb.
Proof.
  intros [_ Hp] Hcb Hr. specialize (Hp 0%nat). change (Z.of_nat 0) with 0 in Hp.
  destruct (vtx blk) as [|tx l]; [done|]. injection Hcb as ->.
  assert (hashes_text (cb :: l) = ToString (TxHash cb) ++ hashes_text l) as E by done. rewrite E in Hp.
  assert (take 64 (piece (ToString (TxHash cb) ++ hashes_text l) 0) = ToString (TxHash cb)) as Et.
  { unfold piece. rewrite Nat.mul_0_r, drop_0, take_take. replace (64 `min` page_size)%nat with 64%nat
      by (unfold page_size; lia). apply take_app_length'. by rewrite length_ToString. }
  destruct (piece _ 0) as [|b k] eqn:Ep.
  - apply (f_equal length) in Et. rewrite take_nil, length_ToString in Et. done.
  - exists (b :: k). split; [done|]. rewrite Et. by apply SetHex_ToString.
Qed.

(** Recognition after a block was put on the chain stores one miner, unless the
    block had one. *)
Lemma recognize_top cs X h tm s o :
  blocks_of (cs ++ [(h, tm)]) X (blks (core s)) → chain_ok (cs ++ [(h, tm)]) X →
  Z.of_nat (length cs) < 99999999 → coinbase_of (core s) h o →
  recognizeBlocks c (Z.of_nat (length cs)) (Z.of_nat (length cs)) true s =
    (Done tt, with_extra (λ m, match m !! ToString h with
      | Some _ => m
      | None => <[ToString h := extra_text (recognizeCoinbaseTx c o)]> m end) s).
Proof.
  intros HB Hok Hlen (page & Hp & Ho). unfold recognizeBlocks. rewrite (bind_Done get _ s s s eq_refl).
  rewrite (range_heights (cs ++ [(h, tm)]) X _ HB);
    [|rewrite length_app; simpl; lia|lia|lia|by destruct cs|rewrite length_app; simpl; lia].
  rewrite (bind_Done (lift_outcome (Done _)) _ s _ s eq_refl).
  assert ((reverse (height_items (cs ++ [(h, tm)]) (length cs) (length cs))).*2 = [ToString h]) as ->.
  { unfold height_items, heights_of. rewrite take_ge by (rewrite length_app; simpl; lia).
    by rewrite drop_app_length. }
  cbn [recognize_loop]. rewrite (bind_Done get _ s s s eq_refl). simpl andb.
  assert (in_u 256 h) as Hh by (apply (cs_range _ _ Hok); rewrite fmap_app; apply elem_of_app; right; left).
  destruct (kv_extra s !! ToString h) as [x|] eqn:E.
  - rewrite bool_decide_true by done. unfold with_extra. rewrite E. by destruct s.
  - rewrite bool_decide_false by (by intros [? ?]). cbn [andb]. rewrite SetHex_ToString, Hp by done.
    rewrite (bind_Done (kv_get (Some page)) _ s page s eq_refl), Ho.
    rewrite (bind_Done (kv_get (Some o)) _ s o s eq_refl). rewrite (bind_Done (recordBlock _ _ _) _ s tt _ eq_refl).
    unfold with_extra. by rewrite E.
Qed.

(** ** One row *)

(** the coinbase of the block, stored when it was accepted *)
Lemma pool_coinbase w x h : shows w x → is_Some (w_pool w !! h) → ∃ o, kv_tx (tables x) !! h = Some o.
Proof.
  intros Hs Hp. destruct (tab_objects _ _ _ _ (shows_tables _ _ _ _ _ Hs) h (-1, 0)) as (o & Ho & _); [by right|].
  by exists o.
Qed.

Lemma confirm_block db v t s w' blk hex value cb :
  displays v s → type_ t = LOG2TYPE_TX_CONFIRM → tx_step (v_world v) t w' →
  decodeBlock db (blkId_ t) = Done (blk, hex) →
  block_fits interval (v_chain v) (v_orphans v) blk t value cb → TxHash cb = txHash_ t →
  Z.of_nat (length (v_chain v)) < 99999999 →
  ∃ s1, (on_core (acceptBlock interval now db t) ;; recognizeBlocks c (blkHeight_ t) (blkHeight_ t) true) s = (Done tt, s1) ∧
    displays {| v_world := v_world v; v_chain := v_chain v ++ [(BlockHash blk, maxBlkTimestamp_ t)];
                v_orphans := without (BlockHash blk) (blkHeight_ t) (v_orphans v) |} s1.
Proof.
  intros [D1 D2 D3 D4] Hty Hstep Hdec Hfit Hcb Hlen.
  destruct (acceptBlock_run interval now db _ _ blk hex t value cb (core s) D3 D4 Hdec Hfit)
    as (p & Hrun & HB & Hok & Hpage & Htxs).
  rewrite (bind_Done _ _ _ _ _ (on_core_run _ s _ _ Hrun)).
  inversion Hstep as [E | E Hrow Hpool | k x E | E]; try (rewrite Hty in E; discriminate E).
  assert (live (v_world v) (txHash_ t)) as Hlive by by right.
  pose proof (fine_hash _ _ _ (ok_fine _ _ _ D2 _ Hlive)) as Hh.
  destruct (pool_coinbase _ _ _ D1 Hpool) as [o Ho].
  destruct (page_coinbase blk _ _ cb Hpage (proj1 (bf_coinbase _ _ _ _ _ _ _ Hfit))) as (page & Hp & Hhash);
    [by rewrite Hcb|].
  rewrite (bf_height _ _ _ _ _ _ _ Hfit) in *.
  rewrite (recognize_top (v_chain v) _ (BlockHash blk) (maxBlkTimestamp_ t) (with_core p s) o HB Hok Hlen).
  - eexists. split; [done|]. split; [|done..]. cbn [core with_extra with_core v_world]. rewrite Htxs. by apply shows_block.
  - exists page. split; [done|]. cbn [core with_core]. rewrite Hhash, Hcb, Htxs. exact Ho.
Qed.

Lemma reject_block db v t s blk hex cs :
  displays v s → decodeBlock db (blkId_ t) = Done (blk, hex) →
  v_chain v = cs ++ [(BlockHash blk, maxBlkTimestamp_ t)] → blkHeight_ t = Z.of_nat (length cs) →
  (∀ x, last cs = Some x → hashPrevBlock (header blk) = x.1) →
  ∃ s1, on_core (rejectBlock now db t) s = (Done tt, s1) ∧
    displays {| v_world := v_world v; v_chain := cs; v_orphans := with_one (BlockHash blk) (blkHeight_ t) (v_orphans v) |} s1.
Proof.
  intros [D1 D2 D3 D4] Hdec Hcs Hh Hl. rewrite Hcs in D3, D4.
  destruct (rejectBlock_run now db cs (v_orphans v) blk hex t (core s) D3 D4 Hdec Hh Hl)
    as (p & Hrun & HB & Hok & Htxs).
  eexists. split; [by apply on_core_run|]. split; [|done..]. cbn [core with_core v_world]. rewrite Htxs. by apply shows_block.
Qed.

(** the transaction's part, on the view the block's part left *)
Lemma dispatch_tx v t s w' :
  displays v s → tx_step (v_world v) t w' → ¬ disturbed body varargs t →
  ∃ x, handleTx varargs begin interval now t (txs (core s)) = (Done tt, x) ∧ shows w' x ∧ world_ok w'.
Proof.
  intros [D1 D2 _ _] Hstep Hv.
  destruct (handle_row body hexes C begin interval now varargs _ t _ w' D2 D1 Hstep Hv) as (x & ? & ? & ? & _).
  by exists x.
Qed.

Lemma dispatch_run db v t s v' :
  displays v s → row_step db v t v' → ¬ disturbed body varargs t →
  ∃ s', dispatch c varargs begin interval now db t s = (Done tt, s') ∧ displays v' s'.
Proof.
  intros Hd Hstep Hv.
  assert (∀ v1 s1 w1, displays v1 s1 → tx_step (v_world v1) t w1 → ∃ s', on_txs (handleTx varargs begin interval now t) s1 = (Done tt, s') ∧
    displays {| v_world := w1; v_chain := v_chain v1; v_orphans := v_orphans v1 |} s') as Htx.
  { intros v1 s1 w1 Hd1 Hs1. destruct (dispatch_tx v1 t s1 w1 Hd1 Hs1 Hv) as (x & Hx & Hsh & Hok).
    eexists. split; [by apply on_txs_run|]. split; [done|done|apply Hd1|apply Hd1]. }
  unfold dispatch. inversion Hstep as [w' Hcb Hw | w' blk hex value cb Hcb Hty Hw Hdec Hfit Hh Hlen
    | w' blk hex cs Hcb Hty Hw Hdec Hcs Hh Hl]; subst v'.
  - destruct (Htx v s w' Hd Hw) as (s' & Hrun & Hd'). exists s'. split; [|done]. unfold handleTx in Hrun.
    inversion Hw as [E | E | k x E | E]; rewrite E in *; cbn [Z.eqb] in *; try exact Hrun.
    + destruct Hcb as [Hcb|[Hx|Hx]]; [|discriminate Hx|discriminate Hx]. rewrite Hcb. exact Hrun.
    + destruct Hcb as [Hcb|[Hx|Hx]]; [|discriminate Hx|discriminate Hx]. rewrite Hcb. exact Hrun.
  - destruct (confirm_block db v t s w' blk hex value cb Hd Hty Hw Hdec Hfit Hh Hlen) as (s1 & Hrun1 & Hd1).
    destruct (Htx _ s1 w' Hd1 Hw) as (s' & Hrun & Hd'). exists s'. split; [|exact Hd']. unfold handleTx in Hrun.
    rewrite Hty in *. cbn [Z.eqb] in *. rewrite Hcb.
    apply (bind_Done _ (λ _, on_txs (confirmTx begin interval now t))) in Hrun1.
    etrans; [|exact Hrun]. exact Hrun1.
  - destruct (reject_block db v t s blk hex cs Hd Hdec Hcs Hh Hl) as (s1 & Hrun1 & Hd1).
    destruct (Htx _ s1 w' Hd1 Hw) as (s' & Hrun & Hd'). exists s'. split; [|exact Hd']. unfold handleTx in Hrun.
    rewrite Hty in *. cbn [Z.eqb] in *. rewrite Hcb.
    apply (bind_Done _ (λ _, on_txs (rejectTx varargs begin now t))) in Hrun1.
    etrans; [|exact Hrun]. exact Hrun1.
Qed.

Lemma handleRow_run db v t s v' :
  displays v s → row_step db v t v' → ¬ disturbed body varargs t → txHash_ t ≠ 0 →
  ∃ s', handleRow db t s = (Done tt, s') ∧ displays v' s' ∧ offset_of s' = Some (fmt_d (id_ t)).
Proof.
  intros Hd Hstep Hv Hne. destruct (dispatch_run db v t s v' Hd Hstep Hv) as (s1 & Hrun & Hd1).
  destruct (shows_offset _ _ (id_ t) (d_txs _ _ Hd1)) as (y & Hy & Hsh & Hoff).
  unfold handleRow, ParserMain.handleRow, isEmpty. destruct (Z.eqb_spec (txHash_ t) 0); [done|].
  rewrite (bind_Done _ _ _ _ _ Hrun), (on_txs_run _ s1 y Hy). eexists. split; [done|].
  split; [|exact Hoff]. split; [exact Hsh|apply Hd1..].
Qed.

Lemma restart_displays v s : displays v s → displays v (restart_whole s) ∧ offset_of (restart_whole s) = offset_of s.
Proof. intros [D1 D2 D3 D4]. split; [|done]. split; [by apply restart_shows|done..]. Qed.
End facts.

(** ** Histories *)
Section histories.
Context `{Hashing} `{Scripts} (body : uint256 → CTransaction) (hexes : uint256 → bytes) (C : gset bytes).
Variables (c : pools) (varargs : bytes → option bytes) (begin interval : Z).
Abbreviation displays := (displays body hexes C).
Abbreviation run_events := (run_events c varargs begin interval).

Inductive legal_events : view → list event → view → Prop :=
| legal_done v : legal_events v [] v
| legal_handled v db now t v1 l v2 :
    row_step body hexes C interval db v t v1 → txHash_ t ≠ 0 →
    legal_events v1 l v2 → legal_events v (Handled db now t :: l) v2
| legal_restarted v l v2 : legal_events v l v2 → legal_events v (Restarted :: l) v2.

Definition empty_view : view := {| v_world := emptyWorld; v_chain := []; v_orphans := λ _, ∅ |}.

Lemma first_displays : Z.of_nat (size C) ≤ kMaxCacheCount → displays empty_view first_whole.
Proof.
  intros HC. constructor; cbn [v_world v_chain v_orphans empty_view].
  - by apply first_shows.
  - apply empty_world_ok.
  - constructor; simpl.
    + intros i. rewrite lookup_empty. by case_decide.
    + done.
    + intros tm i. rewrite lookup_empty. by case_decide.
    + intros i. by rewrite lookup_empty.
    + intros i h _ Hin. by apply elem_of_empty in Hin.
  - constructor; [constructor | by intros h Hh%elem_of_nil | intros i x Hx; by apply elem_of_empty in Hx
      | by intros h i Hh%elem_of_nil].
Qed.

(** The run reached, with every row before it handled and displayed, the
    rejection of a transaction with an address whose formatting (line 1661) is not
    harmless. *)
Definition meets_disturbed v (l : list event) s : Prop :=
  ∃ l1 db now t l2 v1 s1, l = l1 ++ Handled db now t :: l2 ∧ legal_events v l1 v1 ∧
    run_events l1 s = (Done tt, s1) ∧ displays v1 s1 ∧ disturbed body varargs t.

Lemma meets_cons e v v1 l s s1 :
  (∀ l1 v2, legal_events v1 l1 v2 → legal_events v (e :: l1) v2) →
  run_event c varargs begin interval e s = (Done tt, s1) →
  meets_disturbed v1 l s1 → meets_disturbed v (e :: l) s.
Proof.
  intros Hlegal Hrun (l1 & db & now & t & l2 & v2 & s2 & -> & Hl & Hrun' & Hrest).
  exists (e :: l1), db, now, t, l2, v2, s2. split; [done|]. split; [by apply Hlegal|]. split; [|done].
  unfold run_events, ParserMain.run_events. cbn [forM]. by rewrite (bind_Done _ _ _ _ _ Hrun).
Qed.

Lemma run_history v l v' s :
  legal_events v l v' → displays v s →
  (∃ s', run_events l s = (Done tt, s') ∧ displays v' s') ∨ meets_disturbed v l s.
Proof.
  assert (∀ e v v1 l v2 s s1, run_event c varargs begin interval e s = (Done tt, s1) →
    (∀ l1 v2, legal_events v1 l1 v2 → legal_events v (e :: l1) v2) →
    (∃ s', run_events l s1 = (Done tt, s') ∧ displays v2 s') ∨ meets_disturbed v1 l s1 →
    (∃ s', run_events (e :: l) s = (Done tt, s') ∧ displays v2 s') ∨ meets_disturbed v (e :: l) s) as Hcons.
  { intros e v0 v1 l0 v2 s0 s1 Hrun Hlegal [(s' & Hrun' & Hs')|Hm]; [left|right; by eapply meets_cons].
    exists s'. split; [|done]. unfold run_events, ParserMain.run_events. cbn [forM].
    by rewrite (bind_Done _ _ _ _ _ Hrun). }
  intros Hl. revert s. induction Hl as [v|v db now t v1 l v2 Hstep Hne Hl IH|v l v2 Hl IH]; intros s Hs; [left; by exists s| |].
  - destruct (decide (disturbed body varargs t)) as [Hd|Hd].
    { right. exists [], db, now, t, l, v, s. split_and!; [done|constructor|done..]. }
    destruct (handleRow_run body hexes C c varargs begin interval now db v t s v1 Hs Hstep Hd Hne) as (s1 & Hrun & Hs1 & _).
    apply (Hcons (Handled db now t) v v1 _ _ s s1 Hrun); [|by apply IH]. intros. by eapply legal_handled.
  - apply (Hcons Restarted v v _ _ s (restart_whole s) eq_refl); [|by apply IH, restart_displays].
    intros. by apply legal_restarted.
Qed.

(** C4 — From an empty store, any history of legal rows, blocks included, with
    restarts between any of them, is handled to its end without an exception or a
    failed assertion; then every table shows exactly the view of the history: the
    transactions and their state, every address, the chain of blocks and the
    orphans.  The one exception: the history has a rejection of a transaction with
    an address whose formatting of a [uint256] with [%s] (line 1661, undefined
    behaviour) does not come back, or prints another transaction's hash; the rows
    before it are handled and displayed. *)
Theorem rows_handled l v :
  legal_events empty_view l v → Z.of_nat (size C) ≤ kMaxCacheCount →
  (∃ s, run_events l first_whole = (Done tt, s) ∧ displays v s) ∨ meets_disturbed empty_view l first_whole.
Proof. intros Hl HC. apply (run_history _ _ _ _ Hl). by apply first_displays. Qed.
End histories.

(** ** A history with a block, its coinbase, a payment, and all of it undone *)
Module WholeDemo.
#[local] Existing Instance ParserDemo.scripts.
Import ParserDemo.
#[local] Instance hashing : Hashing :=
  {| TxHash := λ tx, Z.of_nat (length (vout tx)); BlockHash := λ b, nNonce (header b) |}.
Definition block5 : CBlock := Demo.block 5 0 100 [coinbase].
Definition db : database :=
  {| txlogs2 := []; memrepo_txs := []; explorer_meta := None;
     raw_blocks := [ {| rb_id := 0; rb_hash := 5; rb_height := 0; rb_chain_id := 0; rb_hex := EncodeHexBlock block5 |} ];
     raw_txs := ∅ |}.
Definition no_pools : pools := {| payoutAddresses_ := ∅; coinbaseTags_ := [] |}.
Definition reject1 : TxLog2 := row LOG2TYPE_TX_REJECT 1 0 1231006505.
Definition w6 : world := reject_of body w5 1.

Lemma decode_block5 : decodeBlock db 0 = Done (block5, EncodeHexBlock block5).
Proof. vm_compute. reflexivity. Qed.

Lemma fits_block5 : block_fits 210000 [] (λ _, ∅) block5 confirm1 5000000000 coinbase.
Proof.
  constructor.
  - done.
  - split; [|done]. by unfold in_u.
  - by intros ?%elem_of_nil.
  - intros i _ Hin. by apply elem_of_empty in Hin.
  - done.
  - done.
  - vm_compute. discriminate.
Qed.

Lemma step6 : tx_step body hexes C w5 reject1 w6.
Proof.
  apply rejects; [done | done | by_compute | | by_compute].
  intros k (g & Hg%live_listed & Hk).
  assert (Forall (λ g, Forall (λ k, k.1 ≠ txHash_ reject1) (points (body g)))
    ((ParserSpec.w_chain w5).*1 ++ (map_to_list (w_pool w5)).*1)) as Hf by by_compute.
  rewrite Forall_forall in Hf. specialize (Hf g Hg). rewrite Forall_forall in Hf. by apply Hf.
Qed.

Definition history : list event :=
  [Handled db 0 accept1; Handled db 10 confirm1; Restarted; Handled db 20 accept2; Handled db 30 reject2;
   Handled db 40 unconfirm1; Handled db 50 reject1].
Definition orphans : Z → gset bytes := with_one 5 0 (without 5 0 (λ _, ∅)).
Definition last_view : view := {| v_world := w6; v_chain := []; v_orphans := orphans |}.

Definition with_world (w : world) (v : view) : view :=
  {| v_world := w; v_chain := v_chain v; v_orphans := v_orphans v |}.
Definition view2 : view := {| v_world := w2; v_chain := [(5, 1231006505)]; v_orphans := without 5 0 (λ _, ∅) |}.
Abbreviation step := (row_step body hexes C 210000 db).

Lemma history1 : step empty_view accept1 (with_world w1 empty_view).
Proof. apply (row_tx body hexes C 210000 db empty_view accept1 w1); [right; by left | exact step1]. Qed.
Lemma history2 : step (with_world w1 empty_view) confirm1 view2.
Proof.
  exact (row_block body hexes C 210000 db (with_world w1 empty_view) confirm1 w2 block5 (EncodeHexBlock block5)
    5000000000 coinbase eq_refl eq_refl step2 decode_block5 fits_block5 eq_refl eq_refl).
Qed.
Lemma history3 : step view2 accept2 (with_world w3 view2).
Proof. apply (row_tx body hexes C 210000 db view2 accept2 w3); [by left | exact step3]. Qed.
Lemma history4 : step (with_world w3 view2) reject2 (with_world w4 view2).
Proof. apply (row_tx body hexes C 210000 db (with_world w3 view2) reject2 w4); [by left | exact step4]. Qed.
Lemma history5 : step (with_world w4 view2) unconfirm1 (with_world w5 view2).
Proof. apply (row_tx body hexes C 210000 db (with_world w4 view2) unconfirm1 w5); [right; by right | exact step5]. Qed.
Lemma nothing_last (x : uint256 * Z) : last [] = Some x → hashPrevBlock (header block5) = x.1.
Proof. discriminate. Qed.
Lemma history6 : step (with_world w5 view2) reject1 last_view.
Proof.
  exact (row_unblock body hexes C 210000 db (with_world w5 view2) reject1 w6 block5 (EncodeHexBlock block5) []
    eq_refl eq_refl step6 decode_block5 eq_refl eq_refl nothing_last).
Qed.

Lemma history_legal : legal_events body hexes C 210000 empty_view history last_view.
Proof.
  eapply legal_handled; [exact history1 | done |].
  eapply legal_handled; [exact history2 | done |]. apply legal_restarted.
  eapply legal_handled; [exact history3 | done |].
  eapply legal_handled; [exact history4 | done |].
  eapply legal_handled; [exact history5 | done |].
  eapply legal_handled; [exact history6 | done | apply legal_done].
Qed.
End WholeDemo.

Section witness.
#[local] Existing Instance ParserDemo.scripts.
#[local] Existing Instance WholeDemo.hashing.
Import WholeDemo.

Theorem rows_handled_witness : ∃ s,
  run_events no_pools Some 0 210000 history first_whole = (Done tt, s) ∧
  displays ParserDemo.body ParserDemo.hexes ParserDemo.C last_view s.
Proof.
  destruct (rows_handled ParserDemo.body ParserDemo.hexes ParserDemo.C no_pools Some 0 210000 history last_view
    history_legal ParserDemo.small) as [Hrun|(l1 & db & now & t & l2 & v1 & s1 & _ & _ & _ & _ & Hd)]; [done|].
  by apply ParserDemo.undisturbed in Hd.
Defined.
End witness.
