(* ===== verification/TxLogsFacts.v ===== *)
(** * What the producer thread reads (src/jiexi/src/Parser.cc
      [TxInfoCache::getTxInfo], [tryFetchTxLog2FromDB])

    The cache answers as the database would, and the row fetched is the next
    published one. *)
From S2P Require Import Prelude Tx Bytes Serialize TxState Db ParserTx TxLogs.

(** ** The cache *)
Section cache.
Implicit Types (c : TxInfoCache) (d : database) (h : uint256) (m : gmap uint256 TxInfo).

(** What is cached was read from the database, and used once. *)
Definition coherent d c : Prop := ∀ h i, cache_ c !! h = Some i →
  raw_txs d !! h = Some (ti_txId i, ti_hex i) ∧ ti_count i = 1.

Lemma coherent_grows d d' c : raw_txs d ⊆ raw_txs d' → coherent d c → coherent d' c.
Proof. intros Hd Hc h i Hi. destruct (Hc h i Hi) as [? ?]. split; [|done]. by eapply lookup_weaken. Qed.

Lemma coherent_new d now : coherent d (newTxInfoCache now).
Proof. intros h i Hi. simpl in Hi. by rewrite lookup_empty in Hi. Qed.

(** Clearing while the second use erases its entry reads the erased entry. *)
Definition hazard (now : Z) h c : Prop :=
  lastClearTime_ c + kDay < now ∧ is_Some (cache_ c !! h) ∧ delete h (cache_ c) ≠ ∅.
#[export] Instance hazard_dec now h c : Decision (hazard now h c).
Proof. unfold hazard. apply _. Defined.

Lemma keep_loop_all now i (l : list (uint256 * TxInfo)) m :
  ti_useTime i = now → NoDup l.*1 →
  ∃ m', keep_loop now (Some i) l m = Done m' ∧
    ∀ k x, m' !! k = Some x ↔ (k, x) ∈ l ∨ (k ∉ l.*1 ∧ m !! k = Some x).
Proof.
  intros Hi. revert m. induction l as [|[k x] l IH]; intros m Hnd.
  - exists m. split; [done|]. intros k x. split; [intros; right; split; [by intros ?%elem_of_nil|done]|].
    by intros [?%elem_of_nil|[_ ?]].
  - apply NoDup_cons in Hnd as [Hk Hnd]. cbn [keep_loop]. rewrite Hi.
    replace (now + kDay <? now) with false by (unfold kDay; lia).
    destruct (IH (<[k := x]> m) Hnd) as (m' & Hrun & Hm). exists m'. split; [done|]. intros k' x'.
    rewrite Hm, elem_of_cons, lookup_insert. cbn [fst fmap list_fmap].
    rewrite elem_of_cons. cbn [fst] in Hk. destruct (decide (k = k')) as [<-|Hne].
    + split.
      * intros [Hin|[_ [= ->]]]; [|by left; left]. left. by right.
      * intros [[[= ->]|Hin]|[Hn _]]; [right|by left|].
        { split; [|done]. intros Hin. by apply Hk. }
        exfalso. apply Hn. by left.
    + split.
      * intros [Hin|[Hn Hin]]; [left; by right|]. right. split; [|done]. intros [->|?]; done.
      * intros [[[= -> ->]|Hin]|[Hn Hin]]; [done|by left|]. right. split; [|done]. intros ?. apply Hn. by right.
Qed.

(** Clearing with an entry in use drops nothing. *)
Lemma clear_cache_some now i c : ti_useTime i = now →
  ∃ c', clear_cache now (Some i) c = (Done tt, c') ∧ cache_ c' = cache_ c.
Proof.
  intros Hi. unfold clear_cache. rewrite (bind_Done get _ c c c eq_refl). destruct (_ <? now); [|by exists c].
  rewrite (bind_Done (modify _) _ c tt _ eq_refl).
  destruct (keep_loop_all now i (map_items Z.le (cache_ c)) ∅ Hi (NoDup_map_items _ _)) as (m & -> & Hm).
  rewrite (bind_Done (lift_outcome (Done m)) _ _ m _ eq_refl).
  eexists. split; [done|]. simpl. apply map_eq. intros k. apply option_eq. intros x.
  rewrite Hm, elem_of_map_items, lookup_empty. naive_solver.
Qed.

(** Clearing without an entry in use is undefined unless nothing is cached. *)
Lemma clear_cache_none now c :
  if decide (lastClearTime_ c + kDay < now ∧ cache_ c ≠ ∅)
  then (clear_cache now None c).1 = Raise Undefined
  else ∃ c', clear_cache now None c = (Done tt, c') ∧ cache_ c' = cache_ c.
Proof.
  unfold clear_cache. rewrite (bind_Done get _ c c c eq_refl).
  destruct (Z.ltb_spec (lastClearTime_ c + kDay) now) as [Hlt|Hge].
  - rewrite (bind_Done (modify _) _ c tt _ eq_refl). destruct (map_items Z.le (cache_ c)) as [|x l] eqn:E.
    + assert (cache_ c = ∅) as Hemp.
      { apply map_empty. intros k. destruct (cache_ c !! k) eqn:Ek; [|done].
        apply (elem_of_map_items Z.le) in Ek. rewrite E in Ek. by apply elem_of_nil in Ek. }
      rewrite decide_False by naive_solver. eexists. split; [reflexivity|]. by rewrite Hemp.
    + rewrite decide_True; [reflexivity|]. split; [done|]. intros Hemp. rewrite Hemp in E.
      unfold map_items in E. by rewrite map_to_list_empty in E.
  - rewrite decide_False by lia. by exists c.
Qed.

(** what the cache holds after a use *)
Definition used d now h c : gmap uint256 TxInfo :=
  match cache_ c !! h, raw_txs d !! h with
  | Some _, _ => delete h (cache_ c)
  | None, Some x => <[h := {| ti_txId := x.1; ti_hex := x.2; ti_count := 1; ti_useTime := now |}]> (cache_ c)
  | None, None => cache_ c
  end.

Lemma getTxInfo_run d now h c : coherent d c →
  if decide (hazard now h c) then (getTxInfo d now h c).1 = Raise Undefined
  else ∃ c', getTxInfo d now h c = (raw_info d h, c') ∧ cache_ c' = used d now h c.
Proof.
  intros Hc. unfold getTxInfo, raw_info, used. rewrite (bind_Done get _ c c c eq_refl).
  destruct (cache_ c !! h) as [i|] eqn:E.
  - destruct (Hc h i E) as [Hraw Hcount]. rewrite (bind_Done (mret tt) _ c tt c eq_refl).
    rewrite (bind_Done get _ c c c eq_refl), E. cbv zeta. cbn [ti_count]. rewrite Hcount.
    rewrite (bind_Done (modify _) _ c tt _ eq_refl). change (2 <=? i32 (1 + 1)) with true. cbv iota.
    rewrite bind_assoc, (bind_Done (modify _) _ _ tt _ eq_refl).
    match goal with |- context [clear_cache now None ≫= _] => idtac end.
    set (c1 := with_cached (delete h) _).
    assert (cache_ c1 = delete h (cache_ c)) as E1 by (unfold c1; simpl; by rewrite delete_insert_eq).
    pose proof (clear_cache_none now c1) as Hcl. rewrite E1 in Hcl.
    change (lastClearTime_ c1) with (lastClearTime_ c) in Hcl.
    destruct (decide (lastClearTime_ c + kDay < now ∧ delete h (cache_ c) ≠ ∅)) as [[Hlt Hne]|Hno].
    + rewrite decide_True by (split_and!; [done|by rewrite E|done]).
      destruct (clear_cache now None c1) as [r c2] eqn:Er. simpl in Hcl. subst r.
      by rewrite (bind_Raise _ _ _ _ _ Er).
    + rewrite decide_False by (intros (? & _ & ?); by apply Hno).
      destruct Hcl as (c2 & Hcl & E2). exists c2. rewrite (bind_Done _ _ _ _ _ Hcl). rewrite Hraw. split; [done|by rewrite E2].
  - rewrite decide_False by (intros (_ & [x Hx] & _); by rewrite E in Hx).
    destruct (raw_txs d !! h) as [x|] eqn:Er; simpl; [|eexists; split; [reflexivity|done]].
    rewrite bind_assoc, (bind_Done (lift_outcome (Done x)) _ c x c eq_refl).
    rewrite (bind_Done (modify _) _ c tt _ eq_refl).
    set (c1 := with_cached _ c). rewrite (bind_Done get _ c1 c1 c1 eq_refl).
    unfold c1 at 1. cbn [cache_ with_cached]. rewrite lookup_insert_eq. cbv zeta. cbn [ti_count ti_txId ti_hex].
    rewrite (bind_Done (modify _) _ c1 tt _ eq_refl). change (2 <=? i32 (0 + 1)) with false. cbv iota.
    match goal with |- context [clear_cache now (Some ?i)] => set (i1 := i) end.
    destruct (clear_cache_some now i1 (with_cached (<[h := i1]>) c1) eq_refl) as (c2 & Hcl & E2).
    rewrite (bind_Done _ _ _ _ _ Hcl). exists c2. split; [destruct x; reflexivity|]. rewrite E2. simpl.
    by rewrite insert_insert_eq.
Qed.

Lemma used_coherent d now h c c' : coherent d c → cache_ c' = used d now h c → coherent d c'.
Proof.
  intros Hc E h' i. rewrite E. unfold used. destruct (cache_ c !! h) eqn:Eh.
  - intros [_ Hi]%lookup_delete_Some. by apply Hc.
  - destruct (raw_txs d !! h) as [x|] eqn:Er; [|apply Hc].
    rewrite lookup_insert. case_decide as Hh; [|apply Hc]. subst h'. intros [= <-]. simpl. by destruct x.
Qed.
End cache.

(** ** The next row *)
Section rows.
Implicit Types (e : explorer) (l : list (Z * txlog)) (r : Z * txlog) (f : fetcher).

Definition by_id : relation (Z * txlog) := λ x y, x.1 < y.1.
(** the rows the parser may see *)
Definition visible e : list (Z * txlog) := filter (λ r, batch_id r.2 ≠ -1) (numbered e).

Lemma least_row_sorted l : StronglySorted by_id l → least_row l = head l.
Proof.
  induction 1 as [|x l Hs IH Hx]; [done|]. simpl. rewrite IH. destruct l as [|y l]; [done|]. simpl.
  apply Forall_cons in Hx as [Hy _]. unfold by_id in Hy. by replace (y.1 <? x.1) with false by lia.
Qed.

Lemma next_row_visible last e : StronglySorted by_id (numbered e) →
  next_row last e = head (filter (λ r, last < r.1) (visible e)).
Proof.
  intros Hs. unfold next_row, visible. rewrite least_row_sorted by by apply sorted_filter.
  by rewrite list_filter_filter.
Qed.

Lemma numbered_with l e : numbered (with_numbered l e) = l.
Proof. unfold numbered, with_numbered. simpl. apply zip_fst_snd. Qed.

Definition prunes (id : Z) : bool := (kKeepNum <? id) && (Z.rem id 20000 =? 0).
(** the database after a fetch *)
Definition pruned (id : Z) e : explorer := if prunes id then prune_blocks (prune_rows id e) else e.

Lemma pruned_raw id e : raw_txs (edb (pruned id e)) = raw_txs (edb e).
Proof. unfold pruned. by destruct (prunes id). Qed.

Lemma pruned_numbered id e :
  numbered (pruned id e) = if prunes id then filter (λ r, ¬ r.1 < id - kKeepNum) (numbered e) else numbered e.
Proof.
  unfold pruned. destruct (prunes id); [|done].
  change (numbered (prune_blocks (prune_rows id e))) with (numbered (prune_rows id e)).
  apply numbered_with.
Qed.

(** [t] is the row [r] with the raw transaction the database has for it. *)
Definition reads (d : database) r (t : TxLog2) : Prop := ∃ x tx,
  raw_txs d !! tx_hash r.2 = Some x ∧ DecodeHexTx x.2 = Some tx ∧ t = log_row r.1 r.2 x.2 tx.

Lemma reads_grows d d' r t : raw_txs d ⊆ raw_txs d' → reads d r t → reads d' r t.
Proof. intros Hd (x & tx & Hx & Htx & ->). exists x, tx. split; [by eapply lookup_weaken|done]. Qed.

Lemma tryFetch_run now last f r x tx :
  coherent (edb (source f)) (txInfoCache_ f) → ¬ hazard now (tx_hash r.2) (txInfoCache_ f) →
  next_row last (source f) = Some r → known_type (log_type r.2) = true →
  raw_txs (edb (source f)) !! tx_hash r.2 = Some x → DecodeHexTx x.2 = Some tx →
  ∃ f', tryFetchTxLog2FromDB now last f = (Done (Some (log_row r.1 r.2 x.2 tx)), f').
Proof.
  intros Hc Hh Hr Hk Hx Htx. unfold tryFetchTxLog2FromDB. rewrite (bind_Done get _ f f f eq_refl), Hr.
  destruct r as [id r]. cbn [fst snd] in *. rewrite Hk. cbn [negb].
  pose proof (getTxInfo_run (edb (source f)) now (tx_hash r) _ Hc) as Hg. rewrite decide_False in Hg by done.
  destruct Hg as (c' & Hg & _). unfold raw_info in Hg. rewrite Hx in Hg.
  rewrite (bind_Done _ _ _ _ _ (zoom_Done _ with_txInfoCache _ _ _ _ Hg)), Htx.
  destruct (_ && _); eexists; reflexivity.
Qed.

(** ... or, when the clearing of the cache comes due at a bad time, undefined *)
Lemma tryFetch_either now last f r t :
  coherent (edb (source f)) (txInfoCache_ f) → next_row last (source f) = Some r →
  known_type (log_type r.2) = true → reads (edb (source f)) r t →
  (∃ t' f', tryFetchTxLog2FromDB now last f = (Done (Some t'), f')) ∨
  ∃ f', tryFetchTxLog2FromDB now last f = (Raise Undefined, f').
Proof.
  intros Hc Hr Hk (x & tx & Hx & Htx & _). destruct (decide (hazard now (tx_hash r.2) (txInfoCache_ f))) as [Hh|Hh].
  - right. unfold tryFetchTxLog2FromDB. rewrite (bind_Done get _ f f f eq_refl), Hr.
    destruct r as [id r]. cbn [fst snd] in *. rewrite Hk. cbn [negb].
    pose proof (getTxInfo_run (edb (source f)) now (tx_hash r) _ Hc) as Hg. rewrite decide_True in Hg by done.
    unfold zoom, mbind at 1, M_bind at 1. cbn beta. destruct (getTxInfo _ _ _ _) as [o c']. cbn in Hg. subst o. by eexists.
  - left. destruct (tryFetch_run now last f r x tx Hc Hh Hr Hk Hx Htx) as (f' & E). by eexists _, f'.
Qed.

Lemma tryFetch_inv now last f t f' :
  coherent (edb (source f)) (txInfoCache_ f) → tryFetchTxLog2FromDB now last f = (Done (Some t), f') →
  ∃ r, next_row last (source f) = Some r ∧ known_type (log_type r.2) = true ∧ reads (edb (source f)) r t ∧
    source f' = pruned r.1 (source f) ∧ coherent (edb (source f')) (txInfoCache_ f').
Proof.
  intros Hc Hrun. unfold tryFetchTxLog2FromDB in Hrun. rewrite (bind_Done get _ f f f eq_refl) in Hrun.
  destruct (next_row last (source f)) as [[id r]|] eqn:Er; [|discriminate Hrun].
  destruct (known_type (log_type r)) eqn:Ek; [|discriminate Hrun]. cbn [negb] in Hrun.
  apply bind_inv in Hrun as (x & f1 & Hz & Hrun). apply zoom_inv in Hz as (c1 & Hg & ->).
  pose proof (getTxInfo_run (edb (source f)) now (tx_hash r) _ Hc) as Hspec.
  destruct (decide (hazard now (tx_hash r) (txInfoCache_ f))) as [_|_].
  { rewrite Hg in Hspec. discriminate Hspec. }
  destruct Hspec as (c' & Hg' & Hc'). rewrite Hg in Hg'. injection Hg' as Hx <-.
  pose proof (used_coherent _ _ _ _ _ Hc Hc') as Hco.
  destruct (DecodeHexTx x.2) as [tx|] eqn:Etx; [|discriminate Hrun].
  exists (id, r). cbn [fst snd]. split; [done|]. split; [done|].
  assert (raw_txs (edb (source f)) !! tx_hash r = Some x) as Hraw.
  { unfold raw_info in Hx. destruct (raw_txs (edb (source f)) !! tx_hash r); [by injection Hx as ->|discriminate]. }
  assert (coherent (edb (pruned id (source f))) c1) as Hpr.
  { eapply coherent_grows; [|exact Hco]. by rewrite pruned_raw. }
  unfold pruned, prunes in *. destruct ((kKeepNum <? id) && (Z.rem id 20000 =? 0)).
  - injection Hrun as <- <-. split; [by exists x, tx|]. split; [done|]. exact Hpr.
  - injection Hrun as <- <-. split; [by exists x, tx|]. done.
Qed.
End rows.

(** The cache is invisible: as long as raw transactions are only added,
    [getTxInfo] answers exactly as a query of the database would, and reports a
    missing transaction as the query does.  A hash is cached by its first use and
    forgotten by its second; nothing else ever leaves the cache, the daily clearing
    included.  The one exception is a clearing that comes due at a second use while
    other entries are cached: it reads the entry it has just erased. *)
Theorem getTxInfo_equivalent d d' now h (c : TxInfoCache) :
  coherent d c → raw_txs d ⊆ raw_txs d' →
  if decide (hazard now h c) then (getTxInfo d' now h c).1 = Raise Undefined
  else ∃ c', getTxInfo d' now h c = (raw_info d' h, c') ∧ coherent d' c' ∧
    ∀ k, is_Some (cache_ c' !! k) ↔
      if decide (k = h) then cache_ c !! h = None ∧ is_Some (raw_txs d' !! h) else is_Some (cache_ c !! k).
Proof.
  intros Hc Hd. pose proof (coherent_grows _ _ _ Hd Hc) as Hc'. pose proof (getTxInfo_run d' now h c Hc') as Hrun.
  destruct (decide (hazard now h c)); [done|]. destruct Hrun as (c' & Hrun & E). exists c'. split; [done|].
  split; [by eapply used_coherent|]. intros k. rewrite E. unfold used.
  destruct (cache_ c !! h) eqn:Eh; [|destruct (raw_txs d' !! h) eqn:Er]; rewrite ?lookup_delete, ?lookup_insert;
    repeat case_decide; subst; rewrite ?Eh; naive_solver eauto.
Qed.

(** Two uses of one transaction on a day when the cache is cleared. *)
Module CacheDemo.
Definition d : database :=
  {| txlogs2 := []; memrepo_txs := []; explorer_meta := None; raw_blocks := [];
     raw_txs := {[ 1 := (11, [48; 49]); 2 := (12, [48; 50]) ]} |}.
Definition once : TxInfoCache := snd (getTxInfo d 5 1 (newTxInfoCache 0)).
End CacheDemo.

Theorem getTxInfo_equivalent_witness : ∃ c',
  getTxInfo CacheDemo.d 86401 1 CacheDemo.once = (Done (11, [48; 49]), c') ∧ cache_ c' !! 1 = None.
Proof.
  assert (coherent CacheDemo.d CacheDemo.once) as Hc.
  { pose proof (getTxInfo_run CacheDemo.d 5 1 (newTxInfoCache 0) (coherent_new _ _)) as Hrun.
    rewrite decide_False in Hrun by (intros (_ & [x Hx] & _); discriminate Hx). destruct Hrun as (c' & Hrun & E).
    unfold CacheDemo.once. rewrite Hrun. eapply used_coherent; [apply coherent_new|exact E]. }
  pose proof (getTxInfo_equivalent CacheDemo.d CacheDemo.d 86401 1 CacheDemo.once Hc (reflexivity _)) as Hrun.
  rewrite decide_False in Hrun by (intros (_ & _ & Hne); apply Hne; vm_compute; reflexivity).
  destruct Hrun as (c' & Hrun & _ & Hk). exists c'. split; [exact Hrun|].
  specialize (Hk 1). rewrite decide_True in Hk by done. destruct (cache_ c' !! 1) as [x|]; [|done].
  destruct (proj1 Hk ltac:(by exists x)) as [Hn _]. vm_compute in Hn. discriminate Hn.
Defined.
