(* ===== verification/Pipeline.v ===== *)
(** * From the published rows to the handler (src/jiexi/src/Parser.cc
      [threadProduceTxlogs], [threadHandleTxlogs], [getLastTxLog2Id])

    The specification of the parser's two threads next to log2producer, which
    stages rows, publishes them as a batch or takes them back: here a call of the
    buffer is one step on a queue.  [Threads] has the threads as they are, with the
    statements of the calls as steps, and shows in what runs they implement this.
    A restart of the parser may come between any two steps.  A row that was being
    handled when the process stopped is not covered here: the handler's turn is
    one step. *)
From S2P Require Import Prelude Tx Bytes Serialize TxState Db Ledger ParserTx ParserBlock RecognizeBlock.
From S2P Require Import BoundedBuffer TxLogs TxLogsFacts ParserMain.

Section pipeline.
Context `{Hashing} `{Scripts} {B : Type} `{Q : Queue TxLog2 B}.
Variables (c : pools) (varargs : bytes → option bytes) (begin interval : Z).

(** [log] and [trace] are history: the rows published so far, and what the
    handler thread did. *)
Record system := {
  fet : fetcher;
  last_id : Z;                   (** [lastTxLog2Id] of [threadProduceTxlogs] *)
  pending : option TxLog2;       (** fetched, not yet in the buffer *)
  buf : B;                       (** [txlogsBuffer_] *)
  hand : option TxLog2;          (** popped, not yet handled *)
  par : whole;
  next_id : Z;                   (** the table's AUTO_INCREMENT *)
  log : list (Z * txlog);
  trace : list event }.

(** ** log2producer's side *)

Definition numbered_from (k : Z) (rows : list txlog) : list (Z * txlog) :=
  imap (λ i r, (k + Z.of_nat i, r)) rows.
Definition set_batch (b : Z) (r : Z * txlog) : Z * txlog :=
  if batch_id r.2 =? -1
  then (r.1, {| batch_id := b; log_type := log_type r.2; block_height := block_height r.2;
                block_id := block_id r.2; max_block_timestamp := max_block_timestamp r.2; tx_hash := tx_hash r.2 |})
  else r.
Definition staged (e : explorer) : list (Z * txlog) := filter (λ r, batch_id r.2 = -1) (numbered e).

(** a row the parser can read: its type is one of four, its raw transaction is
    stored and decodes *)
Definition readable (d : database) (r : Z * txlog) : Prop :=
  known_type (log_type r.2) = true ∧ tx_hash r.2 ≠ 0 ∧ ∃ t, reads d r t.
(** The rows the parser may have in flight span less than what the pruning
    keeps; the first place stands for the offset 0. *)
Definition dense (ids : list Z) : Prop := ∀ i j x y, (i ≤ j ≤ i + q_capacity + 2)%nat →
  ids !! i = Some x → ids !! j = Some y → y - x ≤ kKeepNum.

Definition with_explorer (e : explorer) (f : fetcher) : fetcher := with_source (λ _, e) f.
Definition with_environment (f : fetcher) (k : Z) (l : list (Z * txlog)) (y : system) : system :=
  {| fet := f; last_id := last_id y; pending := pending y; buf := buf y; hand := hand y; par := par y;
     next_id := k; log := l; trace := trace y |}.

Inductive environment_step (y : system) : system → Prop :=
| stage rows :
    Forall (λ r, batch_id r = -1) rows → next_id y + Z.of_nat (length rows) < 2 ^ 63 →
    environment_step y (with_environment
      (with_explorer (with_numbered (numbered (source (fet y)) ++ numbered_from (next_id y) rows) (source (fet y))) (fet y))
      (next_id y + Z.of_nat (length rows)) (log y) y)
| publish b l :
    b ≠ -1 → l = log y ++ (set_batch b <$> staged (source (fet y))) →
    Forall (readable (edb (source (fet y)))) l → dense (0 :: l.*1) →
    environment_step y (with_environment
      (with_explorer (with_numbered (set_batch b <$> numbered (source (fet y))) (source (fet y))) (fet y))
      (next_id y) l y)
| take_back :
    environment_step y (with_environment
      (with_explorer (with_numbered (filter (λ r, batch_id r.2 ≠ -1) (numbered (source (fet y)))) (source (fet y))) (fet y))
      (next_id y) (log y) y)
| store_raw d :
    txlogs2 d = txlogs2 (edb (source (fet y))) → raw_txs (edb (source (fet y))) ⊆ raw_txs d →
    environment_step y (with_environment
      (with_explorer {| edb := d; row_ids := row_ids (source (fet y)) |} (fet y)) (next_id y) (log y) y).

(** ** The parser's threads, to who sees a queue *)
Inductive spec_thread_step (y : system) : system → Prop :=
| spec_fetch now t f :
    pending y = None → tryFetchTxLog2FromDB now (last_id y) (fet y) = (Done (Some t), f) →
    spec_thread_step y {| fet := f; last_id := last_id y; pending := Some t; buf := buf y; hand := hand y; par := par y;
                     next_id := next_id y; log := log y; trace := trace y |}
| spec_push t b :
    pending y = Some t → q_push t (buf y) = Some b →
    spec_thread_step y {| fet := fet y; last_id := id_ t; pending := None; buf := b; hand := hand y; par := par y;
                     next_id := next_id y; log := log y; trace := trace y |}
| spec_pop t b :
    hand y = None → q_pop (buf y) = Some (t, b) →
    spec_thread_step y {| fet := fet y; last_id := last_id y; pending := pending y; buf := b; hand := Some t; par := par y;
                     next_id := next_id y; log := log y; trace := trace y |}
| spec_handle now t s :
    hand y = Some t → handleRow c varargs begin interval now (edb (source (fet y))) t (par y) = (Done tt, s) →
    spec_thread_step y {| fet := fet y; last_id := last_id y; pending := pending y; buf := buf y; hand := None; par := s;
                     next_id := next_id y; log := log y;
                     trace := trace y ++ [Handled (edb (source (fet y))) now t] |}.

(** [getLastTxLog2Id] of a new process *)
Definition read_offset : M whole Z := on_core (zoom txs with_txs getLastTxLog2Id).

Inductive spec_step (y : system) : system → Prop :=
| spec_environment y' : environment_step y y' → spec_step y y'
| spec_by_thread y' : spec_thread_step y y' → spec_step y y'
| spec_by_restart now k s :
    read_offset (restart_whole (par y)) = (Done k, s) →
    spec_step y {| fet := with_txInfoCache (newTxInfoCache now) (fet y); last_id := k; pending := None; buf := q_new;
              hand := None; par := s; next_id := next_id y; log := log y; trace := trace y ++ [Restarted] |}.

(** The first start on a fresh store, nothing published yet. *)
Definition started (s : whole) (d : database) (now : Z) : system :=
  {| fet := {| source := {| edb := with_txlogs2 [] d; row_ids := [] |}; txInfoCache_ := newTxInfoCache now |};
     last_id := 0; pending := None; buf := q_new; hand := None; par := s; next_id := 1; log := []; trace := [] |}.

(** ** Order *)

Definition handled_rows (l : list event) : list TxLog2 :=
  omap (λ e, match e with Handled _ _ t => Some t | Restarted => None end) l.
(** what left the producer, and what it read *)
Definition pushed (y : system) : list TxLog2 :=
  handled_rows (trace y) ++ option_list (hand y) ++ q_items (buf y).
Definition flow (y : system) : list TxLog2 := pushed y ++ option_list (pending y).
(** the id of the [k]-th published row, 0 before the first *)
Definition id_at (l : list (Z * txlog)) (k : nat) : Z := default 0 ((0 :: l.*1) !! k).
Definition offset_of (s : whole) : option bytes := kv_meta (tables (txs (core s))) !! offset_key.
End pipeline.
Arguments system B : clear implicits.
