(* ===== verification/PipelineFacts.v ===== *)
(** * What the parser's threads guarantee together

    Every published row reaches the handler, in order and once, whatever the
    interleaving of log2producer, the two threads and restarts of the process. *)
From S2P Require Import Prelude Tx Bytes Serialize TxState Db Ledger ParserTx ParserBlock RecognizeBlock.
From S2P Require Import BoundedBuffer TxLogs TxLogsFacts ParserMain Pipeline.

(** ** Positions in the log *)
Section positions.
Implicit Types (l : list (Z * txlog)) (r : Z * txlog) (k n : nat).

Lemma id_at_S l k r : l !! k = Some r → id_at l (S k) = r.1.
Proof. intros Hr. unfold id_at. simpl. by rewrite list_lookup_fmap, Hr. Qed.

Lemma id_at_app l l' k : (k ≤ length l)%nat → id_at (l ++ l') k = id_at l k.
Proof.
  intros Hk. unfold id_at. rewrite fmap_app. destruct k as [|k]; [done|]. simpl.
  by rewrite lookup_app_l by (rewrite length_fmap; lia).
Qed.

Lemma sorted_lookup {A} (R : relation A) (l : list A) i j x y :
  StronglySorted R l → (i < j)%nat → l !! i = Some x → l !! j = Some y → R x y.
Proof.
  intros Hs. revert i j. induction Hs as [|z l Hs IH Hz]; intros i j Hij Hx Hy; [done|].
  destruct j as [|j]; [lia|]. destruct i as [|i]; simpl in *.
  - injection Hx as ->. rewrite Forall_forall in Hz. by eapply Hz, list_elem_of_lookup_2.
  - by apply (IH i j); [lia| |].
Qed.

Definition log_sorted l : Prop := StronglySorted by_id l ∧ Forall (λ r, 0 < r.1) l.

(** Asking for ids above that of a position gives the rest of the log. *)
Lemma filter_after l n : log_sorted l → (n ≤ length l)%nat →
  filter (λ r, id_at l n < r.1) l = drop n l.
Proof.
  intros [Hs Hp] Hn. trans (filter (λ r, id_at l n < r.1) (take n l ++ drop n l)); [by rewrite take_drop|].
  rewrite filter_app.
  rewrite (filter_nothing _ (take n l)), (filter_everything _ (drop n l)); [done| |].
  - intros r (j & Hj)%list_elem_of_lookup. rewrite lookup_drop in Hj. destruct n as [|m].
    + rewrite Forall_forall in Hp. by eapply Hp, list_elem_of_lookup_2.
    + destruct (lookup_lt_is_Some_2 l m) as [q Hq]; [lia|]. rewrite (id_at_S l m q Hq).
      by apply (sorted_lookup by_id l m (S m + j)%nat); [|lia| |].
  - intros r (j & Hj)%list_elem_of_lookup. apply lookup_take_Some in Hj as [Hj Hlt]. destruct n as [|m]; [lia|].
    destruct (lookup_lt_is_Some_2 l m) as [q Hq]; [lia|]. rewrite (id_at_S l m q Hq).
    destruct (decide (j = m)) as [->|Hne]; [replace q with r by congruence; lia|].
    assert (by_id r q) as Hb by (by apply (sorted_lookup by_id l j m); [|lia| |]). unfold by_id in Hb. lia.
Qed.

Lemma id_at_mono l k n : log_sorted l → (k ≤ n ≤ length l)%nat → id_at l k ≤ id_at l n.
Proof.
  intros [Hs Hp] Hkn. destruct (decide (k = n)) as [->|Hne]; [lia|]. destruct n as [|n]; [lia|].
  destruct (lookup_lt_is_Some_2 l n) as [q Hq]; [lia|]. rewrite (id_at_S l n q Hq). destruct k as [|k].
  - rewrite Forall_forall in Hp. assert (0 < q.1) by (eapply Hp, list_elem_of_lookup_2, Hq). unfold id_at. simpl. lia.
  - destruct (lookup_lt_is_Some_2 l k) as [r Hr]; [lia|]. rewrite (id_at_S l k r Hr).
    assert (by_id r q) as Hb by (by apply (sorted_lookup by_id l k n); [|lia| |]). unfold by_id in Hb. lia.
Qed.

Lemma id_at_range l k : log_sorted l → (k ≤ length l)%nat → k = 0%nat ∨ ∃ r, r ∈ l ∧ id_at l k = r.1.
Proof.
  intros _ Hk. destruct k as [|k]; [by left|]. right. destruct (lookup_lt_is_Some_2 l k) as [r Hr]; [lia|].
  exists r. split; [by eapply list_elem_of_lookup_2|]. by apply id_at_S.
Qed.
End positions.

(** ** The handler's turn *)
Section turn.
Context `{Hashing} `{Scripts}.
Variables (c : pools) (varargs : bytes → option bytes) (begin interval : Z).

Lemma handleRow_offset now db t (s s' : whole) :
  txHash_ t ≠ 0 → handleRow c varargs begin interval now db t s = (Done tt, s') →
  offset_of s' = Some (fmt_d (id_ t)).
Proof.
  intros Hne Hrun. unfold handleRow, isEmpty in Hrun. destruct (Z.eqb_spec (txHash_ t) 0); [done|].
  apply bind_inv in Hrun as (u & s1 & _ & Hrun). unfold on_txs, on_core, zoom in Hrun.
  injection Hrun as <-. apply lookup_insert_eq.
Qed.

Lemma read_offset_run (s : whole) z : in_s 64 z → offset_of s = Some (fmt_d z) →
  read_offset (restart_whole s) = (Done z, restart_whole s).
Proof.
  intros Hz Ho. unfold read_offset, on_core, zoom, getLastTxLog2Id.
  assert (kv_meta (tables (txs (core (restart_whole s)))) !! offset_key = Some (fmt_d z)) as E by exact Ho.
  rewrite (bind_Done get _ _ _ _ eq_refl), E. cbv [mret M_ret]. rewrite atoi64_fmt_d by done.
  by destruct s as [[? ?] ?].
Qed.
End turn.

(** ** The invariant *)
Section invariant.
Context `{Hashing} `{Scripts} {B : Type} `{Q : Queue TxLog2 B} `{!QueueLaws TxLog2 B}.
Variables (c : pools) (varargs : bytes → option bytes) (begin interval : Z) (p0 : whole).
Implicit Types (y : system B) (r q : Z * txlog) (t : TxLog2).
Abbreviation rows y := (numbered (source (fet y))).
Abbreviation base y := (edb (source (fet y))).
Abbreviation count y := (length (handled_rows (trace y))).

Record sys_ok y : Prop := {
  y_sorted : StronglySorted by_id (rows y);
  y_ids : ∀ r, r ∈ rows y → 0 < r.1 < next_id y;
  y_log : log_sorted (log y);
  y_log_ids : ∀ r, r ∈ log y → r.1 < next_id y;
  y_staged : ∀ r q, r ∈ staged (source (fet y)) → q ∈ log y → q.1 < r.1;
  y_cut : ∃ cut, cut ≤ id_at (log y) (count y) + 1 ∧
    visible (source (fet y)) = filter (λ r, cut ≤ r.1) (log y);
  y_good : Forall (readable (base y)) (log y);
  y_dense : dense (B := B) (0 :: (log y).*1);
  y_flow : Forall2 (reads (base y)) (take (length (flow y)) (log y)) (flow y);
  y_last : last_id y = id_at (log y) (length (pushed y));
  y_offset : offset_of (par y) = Some (fmt_d (id_at (log y) (count y)));
  y_coherent : coherent (base y) (txInfoCache_ (fet y));
  y_queue : q_valid (buf y);
  y_next : 0 < next_id y < 2 ^ 63;
  y_run : run_events c varargs begin interval (trace y) p0 = (Done tt, par y) }.

Lemma readable_grows d d' r : raw_txs d ⊆ raw_txs d' → readable d r → readable d' r.
Proof. intros Hd (Hk & Hn & t & Ht). split_and!; [done|done|]. exists t. by eapply reads_grows. Qed.

Lemma flow_length y : sys_ok y → (length (flow y) ≤ length (log y))%nat.
Proof.
  intros Hy. pose proof (Forall2_length _ _ _ (y_flow _ Hy)) as E. rewrite length_take in E. lia.
Qed.
Lemma flow_parts y :
  length (flow y) = (count y + length (option_list (hand y)) + length (q_items (buf y)) + length (option_list (pending y)))%nat ∧
  length (pushed y) = (count y + length (option_list (hand y)) + length (q_items (buf y)))%nat.
Proof. unfold flow, pushed. rewrite !length_app. lia. Qed.

(** *** What log2producer does *)

(** A change of the tables that keeps the log. *)
Lemma environment_ok y e k :
  sys_ok y → StronglySorted by_id (numbered e) → next_id y ≤ k < 2 ^ 63 →
  (∀ r, r ∈ numbered e → 0 < r.1 < k) → visible e = visible (source (fet y)) →
  (∀ r q, r ∈ staged e → q ∈ log y → q.1 < r.1) → raw_txs (base y) ⊆ raw_txs (edb e) →
  sys_ok (with_environment (with_explorer e (fet y)) k (log y) y).
Proof.
  intros Hy Hs Hk Hids Hv Hst Hraw. destruct Hy as [Y1 Y2 Y3 Y4 Y5 Y6 Y7 Y8 Y9 Y10 Y11 Y12 Y13 Y14 Y15].
  split; cbn [fet source with_environment with_explorer with_source next_id log trace par buf txInfoCache_]; try done.
  - intros r Hr. specialize (Y4 r Hr). lia.
  - rewrite Hv. done.
  - eapply Forall_impl; [exact Y7|]. intros r. by apply readable_grows.
  - eapply Forall2_impl; [exact Y9|]. intros r t. by apply reads_grows.
  - by eapply coherent_grows.
  - lia.
Qed.

Lemma elem_numbered_from k l r : r ∈ numbered_from k l → k ≤ r.1 < k + Z.of_nat (length l) ∧ r.2 ∈ l.
Proof.
  unfold numbered_from. rewrite elem_of_lookup_imap. intros (i & x & -> & Hx). simpl.
  split; [apply lookup_lt_Some in Hx; lia|by eapply list_elem_of_lookup_2].
Qed.

Lemma numbered_from_sorted k l : StronglySorted by_id (numbered_from k l).
Proof.
  unfold numbered_from. revert k. induction l as [|x l IH]; intros k; [constructor|]. simpl. constructor.
  - replace (imap ((λ (i : nat) (v : txlog), (k + Z.of_nat i, v)) ∘ S) l)
      with (imap (λ (i : nat) (v : txlog), (k + 1 + Z.of_nat i, v)) l); [apply IH|].
    apply imap_ext. intros i v _. simpl. f_equal. lia.
  - apply Forall_forall. intros r Hr. apply elem_of_lookup_imap in Hr as (i & z & -> & _). unfold by_id. simpl. lia.
Qed.

Lemma stage_ok y (l : list txlog) : sys_ok y → Forall (λ v : txlog, batch_id v = -1) l → next_id y + Z.of_nat (length l) < 2 ^ 63 →
  sys_ok (with_environment
    (with_explorer (with_numbered (rows y ++ numbered_from (next_id y) l) (source (fet y))) (fet y))
    (next_id y + Z.of_nat (length l)) (log y) y).
Proof.
  intros Hy Hl Hk. pose proof (y_next _ Hy) as Hn. rewrite Forall_forall in Hl.
  assert (∀ r, r ∈ numbered_from (next_id y) l → batch_id r.2 = -1) as Hb.
  { intros r [_ Hr]%elem_numbered_from. by apply Hl. }
  apply environment_ok; [done| | lia | | | |done]; rewrite ?numbered_with.
  - apply sorted_app; [apply Hy|apply numbered_from_sorted|]. intros r q Hr Hq.
    apply (y_ids _ Hy) in Hr. apply elem_numbered_from in Hq as [Hq _]. unfold by_id. lia.
  - intros r [Hr|Hr]%elem_of_app; [apply (y_ids _ Hy) in Hr; lia|]. apply elem_numbered_from in Hr as [Hr _]. lia.
  - unfold visible. rewrite numbered_with, filter_app, (filter_nothing _ (numbered_from _ _)), app_nil_r; [done|].
    intros r Hr. rewrite (Hb r Hr). lia.
  - intros r q Hr Hq. unfold staged in Hr. rewrite numbered_with in Hr. apply list_elem_of_filter in Hr as [Hr1 Hr].
    apply elem_of_app in Hr as [Hr|Hr].
    + apply (y_staged _ Hy r q); [|done]. by apply list_elem_of_filter.
    + apply (y_log_ids _ Hy) in Hq. apply elem_numbered_from in Hr as [Hr _]. lia.
Qed.

Lemma take_back_ok y : sys_ok y → sys_ok (with_environment
  (with_explorer (with_numbered (visible (source (fet y))) (source (fet y))) (fet y)) (next_id y) (log y) y).
Proof.
  intros Hy. pose proof (y_next _ Hy). apply environment_ok; [done| |lia| | | |done]; rewrite ?numbered_with.
  - apply sorted_filter, Hy.
  - intros r [_ Hr]%list_elem_of_filter. by apply (y_ids _ Hy).
  - unfold visible. rewrite numbered_with. apply filter_everything. by intros r [? _]%list_elem_of_filter.
  - intros r q Hr. unfold staged in Hr. rewrite numbered_with in Hr. apply list_elem_of_filter in Hr as [Hr1 Hr].
    by apply list_elem_of_filter in Hr as [Hr2 _].
Qed.

Lemma store_raw_ok y d : sys_ok y → txlogs2 d = txlogs2 (base y) → raw_txs (base y) ⊆ raw_txs d →
  sys_ok (with_environment (with_explorer {| edb := d; row_ids := row_ids (source (fet y)) |} (fet y)) (next_id y) (log y) y).
Proof.
  intros Hy Ht Hraw. pose proof (y_next _ Hy).
  assert (numbered {| edb := d; row_ids := row_ids (source (fet y)) |} = rows y) as E.
  { unfold numbered. simpl. by rewrite Ht. }
  apply environment_ok; [done| |lia| | | |done]; unfold visible, staged; rewrite ?E; try done; apply Hy.
Qed.

(** Published rows stand before staged ones. *)
Lemma rows_split y : sys_ok y → rows y = visible (source (fet y)) ++ staged (source (fet y)).
Proof.
  intros Hy. etrans; [apply (sorted_split by_id (λ r, batch_id r.2 ≠ -1)); [apply Hy|]|].
  - intros r q Hr Hq Hrq Hb Hb'. destruct (y_cut _ Hy) as (cut & _ & Hv).
    assert (q ∈ visible (source (fet y))) as Hqv by (by apply list_elem_of_filter).
    rewrite Hv in Hqv. apply list_elem_of_filter in Hqv as [_ Hql].
    assert (q.1 < r.1) by (apply (y_staged _ Hy); [by apply list_elem_of_filter|done]).
    unfold by_id in Hrq. lia.
  - unfold visible, staged. f_equal. apply list_filter_iff. intros r. destruct (decide (batch_id r.2 = -1)); tauto.
Qed.

Lemma set_batch_id b r : (set_batch b r).1 = r.1.
Proof. unfold set_batch. by destruct (_ =? _). Qed.
Lemma set_batch_other b r : batch_id r.2 ≠ -1 → set_batch b r = r.
Proof. unfold set_batch. by destruct (Z.eqb_spec (batch_id r.2) (-1)). Qed.
Lemma set_batch_staged b r : batch_id r.2 = -1 → batch_id (set_batch b r).2 = b.
Proof. unfold set_batch. intros ->. done. Qed.

Lemma fmap_sorted (f : Z * txlog → Z * txlog) (l : list (Z * txlog)) :
  (∀ r, (f r).1 = r.1) → StronglySorted by_id l → StronglySorted by_id (f <$> l).
Proof.
  intros Hf. induction 1 as [|x l Hs IH Hx]; [constructor|]. csimpl. constructor; [done|].
  rewrite Forall_forall in *. intros r (q & -> & Hq)%list_elem_of_fmap. unfold by_id. rewrite !Hf. by apply Hx.
Qed.

Lemma publish_ok y b :
  let new := set_batch b <$> staged (source (fet y)) in
  sys_ok y → b ≠ -1 → Forall (readable (base y)) (log y ++ new) → dense (B := B) (0 :: (log y ++ new).*1) →
  sys_ok (with_environment (with_explorer (with_numbered (set_batch b <$> rows y) (source (fet y))) (fet y))
    (next_id y) (log y ++ new) y).
Proof.
  intros new Hy Hb Hgood Hdense. pose proof (flow_length y Hy) as Hflow. destruct (flow_parts y) as [Ef Ep].
  pose proof (rows_split y Hy) as Hsplit.
  assert (∀ q, q ∈ new → ∃ r, r ∈ staged (source (fet y)) ∧ q.1 = r.1 ∧ batch_id q.2 = b) as Hnew.
  { intros q (r & -> & Hr)%list_elem_of_fmap. exists r. split; [done|]. split; [apply set_batch_id|].
    apply set_batch_staged. by apply list_elem_of_filter in Hr as [? _]. }
  assert (set_batch b <$> rows y = visible (source (fet y)) ++ new) as Erows.
  { rewrite Hsplit at 1. rewrite fmap_app. f_equal. rewrite <-(list_fmap_id (visible _)) at 2.
    apply list_fmap_ext. intros i r Hr. apply set_batch_other. apply list_elem_of_lookup_2 in Hr.
    by apply list_elem_of_filter in Hr as [? _]. }
  assert (∀ q, q ∈ new → 0 < q.1 < next_id y) as Hnewid.
  { intros q (r & Hr & -> & _)%Hnew. apply (y_ids _ Hy). by apply list_elem_of_filter in Hr as [_ ?]. }
  destruct Hy as [Y1 Y2 Y3 Y4 Y5 Y6 Y7 Y8 Y9 Y10 Y11 Y12 Y13 Y14 Y15].
  split; cbn [fet source with_environment with_explorer with_source next_id Pipeline.log trace par buf txInfoCache_];
    rewrite ?numbered_with; try done.
  - apply fmap_sorted; [apply set_batch_id|done].
  - intros q Hq. rewrite Erows in Hq. apply elem_of_app in Hq as [Hq|Hq]; [|by apply Hnewid].
    apply Y2. by apply list_elem_of_filter in Hq as [_ ?].
  - destruct Y3 as [L1 L2]. split.
    + apply sorted_app; [done| |].
      * apply fmap_sorted; [apply set_batch_id|]. by apply sorted_filter.
      * intros q q' Hq (r & Hr & E & _)%Hnew. unfold by_id. rewrite E. by apply Y5.
    + apply Forall_app. split; [done|]. apply Forall_forall. intros q Hq. by apply Hnewid.
  - intros q [Hq|Hq]%elem_of_app; [by apply Y4|]. by apply Hnewid.
  - intros r q Hr _. unfold staged in Hr. rewrite numbered_with in Hr. apply list_elem_of_filter in Hr as [Hr1 Hr].
    rewrite Erows in Hr. apply elem_of_app in Hr as [Hr|Hr].
    + by apply list_elem_of_filter in Hr as [? _].
    + apply Hnew in Hr as (? & _ & _ & Hr). congruence.
  - destruct Y6 as (cut & Hcut & Hv). exists cut. rewrite id_at_app by lia. split; [done|].
    unfold visible. rewrite numbered_with, Erows, !filter_app. f_equal.
    + rewrite <-Hv. apply filter_everything. by intros r [? _]%list_elem_of_filter.
    + rewrite !filter_everything; [done| |].
      * intros q Hq. apply Hnew in Hq as (r & Hr & -> & _).
        destruct (id_at_range (Pipeline.log y) (count y) Y3) as [E|(x & Hx & E)]; [lia| |].
        -- rewrite E in Hcut. unfold id_at in Hcut. simpl in Hcut.
           assert (0 < r.1); [|lia]. apply Y2. by apply list_elem_of_filter in Hr as [_ ?].
        -- specialize (Y5 r x Hr Hx). lia.
      * intros q Hq. apply Hnew in Hq as (r & Hr & _ & ->). done.
  - rewrite take_app_le by done. done.
  - etrans; [exact Y10|]. symmetry. apply id_at_app. lia.
  - etrans; [exact Y11|]. symmetry. do 2 f_equal. apply id_at_app. lia.
Qed.

Lemma environment_step_ok y y' : sys_ok y → environment_step y y' → sys_ok y'.
Proof.
  intros Hy [l Hl Hk | b l Hb -> Hg Hd | | d Ht Hr].
  - by apply stage_ok.
  - by apply publish_ok.
  - by apply take_back_ok.
  - by apply store_raw_ok.
Qed.

(** *** What the threads do *)

Lemma flow_lookup y k t : sys_ok y → flow y !! k = Some t →
  ∃ r, log y !! k = Some r ∧ reads (base y) r t ∧ id_ t = id_at (log y) (S k) ∧ txHash_ t ≠ 0.
Proof.
  intros Hy Hk. destruct (Forall2_lookup_r _ _ _ _ _ (y_flow _ Hy) Hk) as (r & Hr & Hrt).
  apply lookup_take_Some in Hr as [Hr _]. exists r. split; [done|]. split; [done|].
  rewrite (id_at_S _ _ _ Hr). pose proof (y_good _ Hy) as Hg. rewrite Forall_forall in Hg.
  destruct (Hg r (list_elem_of_lookup_2 _ _ _ Hr)) as (_ & Hne & _). by destruct Hrt as (x & tx & _ & _ & ->).
Qed.

(** the row that the next query finds *)
Lemma next_row_ok y : sys_ok y → next_row (last_id y) (source (fet y)) = log y !! length (pushed y).
Proof.
  intros Hy. destruct (flow_parts y) as [Ef Ep]. pose proof (flow_length y Hy).
  destruct (y_cut _ Hy) as (cut & Hcut & Hv). rewrite next_row_visible, Hv, list_filter_filter by apply Hy.
  assert (id_at (log y) (count y) ≤ id_at (log y) (length (pushed y))) by (apply id_at_mono; [apply Hy|lia]).
  rewrite (y_last _ Hy).
  rewrite (list_filter_iff _ (λ r, id_at (log y) (length (pushed y)) < r.1)) by (intros r; lia).
  rewrite filter_after by (apply Hy || lia). rewrite <-(Nat.add_0_r (length (pushed y))), <-lookup_drop.
  rewrite Nat.add_0_r. by destruct (drop _ _).
Qed.

Lemma in_flight y : sys_ok y → pending y = None → (length (pushed y) ≤ count y + q_capacity (B := B) + 1)%nat.
Proof.
  intros Hy Hp. destruct (flow_parts y) as [_ ->].
  pose proof (q_bounded (buf y) (y_queue _ Hy)). destruct (hand y); simpl; lia.
Qed.

Lemma fetch_ok y now t f :
  sys_ok y → pending y = None → tryFetchTxLog2FromDB now (last_id y) (fet y) = (Done (Some t), f) →
  sys_ok {| fet := f; last_id := last_id y; pending := Some t; buf := buf y; hand := hand y; par := par y;
            next_id := next_id y; log := log y; trace := trace y |}.
Proof.
  intros Hy Hp Hrun.
  destruct (tryFetch_inv _ _ _ _ _ (y_coherent _ Hy) Hrun) as (r & Hnext & _ & Hreads & Hsrc & Hco).
  rewrite next_row_ok in Hnext by done. pose proof (in_flight y Hy Hp) as Hfl.
  assert (flow y = pushed y) as Eflow by (unfold flow; rewrite Hp; apply app_nil_r).
  assert (raw_txs (base y) ⊆ raw_txs (edb (source f))) as Hraw by (by rewrite Hsrc, pruned_raw).
  assert (∀ q, q ∈ numbered (source f) → q ∈ rows y) as Hsub.
  { intros q. rewrite Hsrc, pruned_numbered. destruct (prunes r.1); [|done]. by intros [_ ?]%list_elem_of_filter. }
  destruct (flow_parts y) as [_ Ep].
  destruct Hy as [Y1 Y2 Y3 Y4 Y5 Y6 Y7 Y8 Y9 Y10 Y11 Y12 Y13 Y14 Y15].
  split; cbn [fet next_id Pipeline.log trace par buf last_id]; try done.
  - rewrite Hsrc, pruned_numbered. destruct (prunes r.1); [by apply sorted_filter|done].
  - intros q Hq. by apply Y2, Hsub.
  - intros q x Hq. apply Y5. apply list_elem_of_filter in Hq as [Hq1 Hq2]. apply list_elem_of_filter. split; [done|by apply Hsub].
  - destruct Y6 as (cut & Hcut & Hv). unfold visible in *. rewrite Hsrc, pruned_numbered.
    destruct (prunes r.1); [|by exists cut]. exists (Z.max cut (r.1 - kKeepNum)). split.
    + assert (r.1 - id_at (Pipeline.log y) (count y) ≤ kKeepNum); [|lia].
      apply (Y8 (count y) (S (length (pushed y)))); [lia| |].
      * unfold id_at. destruct (lookup_lt_is_Some_2 (0 :: (Pipeline.log y).*1) (count y)) as [x Hx]; [|by rewrite Hx].
        simpl. rewrite length_fmap. apply lookup_lt_Some in Hnext. lia.
      * simpl. by rewrite list_lookup_fmap, Hnext.
    + rewrite list_filter_filter.
      rewrite (list_filter_iff _ (λ q, ¬ q.1 < r.1 - kKeepNum ∧ batch_id q.2 ≠ -1)) by tauto.
      rewrite <-list_filter_filter, Hv, list_filter_filter. apply list_filter_iff. intros q. lia.
  - eapply Forall_impl; [exact Y7|]. intros q. by apply readable_grows.
  - unfold flow, pushed. cbn [trace hand buf pending option_list]. fold (pushed y).
    change (handled_rows (trace y) ++ option_list (hand y) ++ q_items (buf y)) with (pushed y).
    rewrite length_app. simpl length. rewrite Nat.add_1_r, (take_S_r _ _ r) by done. rewrite Eflow in Y9.
    apply Forall2_app; [|by repeat constructor; eapply reads_grows].
    eapply Forall2_impl; [exact Y9|]. intros q x. by apply reads_grows.
Qed.

Lemma push_ok y t b : sys_ok y → pending y = Some t → q_push t (buf y) = Some b →
  sys_ok {| fet := fet y; last_id := id_ t; pending := None; buf := b; hand := hand y; par := par y;
            next_id := next_id y; log := log y; trace := trace y |}.
Proof.
  intros Hy Hp Hb. pose proof (q_push_spec t (buf y) (y_queue _ Hy)) as Hq. rewrite Hb in Hq. destruct Hq as (_ & Hv & Hi).
  match goal with |- sys_ok ?z => set (y' := z) end.
  assert (pushed y' = flow y) as Epush.
  { unfold y', flow, pushed. cbn [trace hand buf]. rewrite Hi, Hp. cbn [option_list]. by rewrite <-!app_assoc. }
  assert (flow y' = flow y) as Eflow by (unfold flow at 1; rewrite Epush; apply app_nil_r).
  assert (flow y !! length (pushed y) = Some t) as Ht.
  { unfold flow. rewrite Hp. cbn [option_list]. by rewrite lookup_app_r, Nat.sub_diag by lia. }
  destruct (flow_lookup y _ t Hy Ht) as (_ & _ & _ & Hid & _).
  destruct Hy as [Y1 Y2 Y3 Y4 Y5 Y6 Y7 Y8 Y9 Y10 Y11 Y12 Y13 Y14 Y15].
  split; try done; [by rewrite Eflow|]. rewrite Epush. cbn [last_id y']. rewrite Hid. unfold flow. rewrite Hp.
  cbn [option_list]. by rewrite length_app, Nat.add_1_r.
Qed.

Lemma pop_ok y t b : sys_ok y → hand y = None → q_pop (buf y) = Some (t, b) →
  sys_ok {| fet := fet y; last_id := last_id y; pending := pending y; buf := b; hand := Some t; par := par y;
            next_id := next_id y; log := log y; trace := trace y |}.
Proof.
  intros Hy Hh Hb. pose proof (q_pop_spec (buf y) (y_queue _ Hy)) as Hq. rewrite Hb in Hq. destruct Hq as [Hv Hi].
  match goal with |- sys_ok ?z => set (y' := z) end.
  assert (pushed y' = pushed y) as Epush by (unfold y', pushed; cbn [trace hand buf]; by rewrite Hh, Hi).
  assert (flow y' = flow y) as Eflow by (unfold flow; by rewrite Epush).
  destruct Hy as [Y1 Y2 Y3 Y4 Y5 Y6 Y7 Y8 Y9 Y10 Y11 Y12 Y13 Y14 Y15].
  split; try done; [by rewrite Eflow|by rewrite Epush].
Qed.

Lemma handled_snoc l e : handled_rows (l ++ [e]) =
  handled_rows l ++ match e with Handled _ _ t => [t] | Restarted => [] end.
Proof. unfold handled_rows. rewrite omap_app. by destruct e. Qed.

Lemma run_snoc l e (s s' : whole) : run_events c varargs begin interval l p0 = (Done tt, s) →
  run_event c varargs begin interval e s = (Done tt, s') →
  run_events c varargs begin interval (l ++ [e]) p0 = (Done tt, s').
Proof.
  intros Hl He. unfold run_events in *. rewrite forM_app, (bind_Done _ _ _ _ _ Hl). cbn [forM].
  by rewrite (bind_Done _ _ _ _ _ He).
Qed.

Lemma handle_ok y now t s : sys_ok y → hand y = Some t →
  handleRow c varargs begin interval now (base y) t (par y) = (Done tt, s) →
  sys_ok {| fet := fet y; last_id := last_id y; pending := pending y; buf := buf y; hand := None; par := s;
            next_id := next_id y; log := log y; trace := trace y ++ [Handled (base y) now t] |}.
Proof.
  intros Hy Hh Hrun. match goal with |- sys_ok ?z => set (y' := z) end.
  assert (pushed y' = pushed y) as Epush.
  { unfold y', pushed. cbn [trace hand buf]. rewrite handled_snoc, Hh. cbn [option_list]. by rewrite <-app_assoc. }
  assert (flow y' = flow y) as Eflow by (unfold flow; by rewrite Epush).
  assert (flow y !! count y = Some t) as Ht.
  { unfold flow, pushed. rewrite Hh, <-app_assoc, lookup_app_r, Nat.sub_diag by lia. done. }
  destruct (flow_lookup y _ t Hy Ht) as (r & Hr & _ & Hid & Hne).
  assert (count y' = S (count y)) as Ecount.
  { unfold y'. cbn [trace]. rewrite handled_snoc, length_app. simpl. lia. }
  assert (id_at (log y) (count y) ≤ id_at (log y) (S (count y))) as Hmono.
  { apply id_at_mono; [apply Hy|]. apply lookup_lt_Some in Hr. lia. }
  pose proof (handleRow_offset c varargs begin interval now _ t _ s Hne Hrun) as Hoff.
  destruct Hy as [Y1 Y2 Y3 Y4 Y5 Y6 Y7 Y8 Y9 Y10 Y11 Y12 Y13 Y14 Y15].
  split; try done; [| by rewrite Eflow | by rewrite Epush | |].
  - destruct Y6 as (cut & Hcut & Hv). exists cut. rewrite Ecount. cbn [Pipeline.log y']. split; [lia|done].
  - rewrite Ecount. cbn [Pipeline.log par y']. by rewrite <-Hid.
  - by eapply run_snoc.
Qed.

Lemma restart_ok y now k s : sys_ok y → read_offset (restart_whole (par y)) = (Done k, s) →
  sys_ok {| fet := with_txInfoCache (newTxInfoCache now) (fet y); last_id := k; pending := None; buf := q_new;
            hand := None; par := s; next_id := next_id y; log := log y; trace := trace y ++ [Restarted] |}.
Proof.
  intros Hy Hrun. match goal with |- sys_ok ?z => set (y' := z) end.
  assert (count y ≤ length (log y))%nat as Hcount.
  { pose proof (flow_length y Hy). destruct (flow_parts y). lia. }
  assert (in_s 64 (id_at (log y) (count y))) as Hrange.
  { pose proof (y_next _ Hy). unfold in_s. destruct (id_at_range (log y) (count y) (y_log _ Hy) Hcount) as [->|(r & Hr & ->)].
    - unfold id_at. simpl. lia.
    - pose proof (y_log_ids _ Hy r Hr). destruct (y_log _ Hy) as [_ Hp]. rewrite Forall_forall in Hp.
      specialize (Hp r Hr). simpl in Hp. lia. }
  rewrite (read_offset_run (par y) _ Hrange (y_offset _ Hy)) in Hrun. injection Hrun as <- <-.
  assert (handled_rows (trace y') = handled_rows (trace y)) as Eh.
  { unfold y'. cbn [trace]. rewrite handled_snoc. apply app_nil_r. }
  assert (pushed y' = handled_rows (trace y)) as Epush.
  { unfold pushed. rewrite Eh. unfold y'. cbn [hand buf option_list]. by rewrite q_new_items, !app_nil_r. }
  assert (flow y' = handled_rows (trace y)) as Eflow by (unfold flow; rewrite Epush; apply app_nil_r).
  destruct Hy as [Y1 Y2 Y3 Y4 Y5 Y6 Y7 Y8 Y9 Y10 Y11 Y12 Y13 Y14 Y15].
  split; try done.
  - rewrite Eh. done.
  - rewrite Eflow. cbn [fet with_txInfoCache source Pipeline.log y']. destruct (flow_parts y) as [Ef _].
    assert (take (count y) (take (length (flow y)) (Pipeline.log y)) = take (count y) (Pipeline.log y)) as Et.
    { rewrite take_take. f_equal. lia. }
    unfold flow at 2, pushed in Y9. rewrite <-!app_assoc in Y9.
    apply Forall2_app_inv_r in Y9 as (l1 & l2 & H1 & _ & E).
    rewrite E, take_app_length' in Et by (symmetry; apply (Forall2_length _ _ _ H1)). by rewrite <-Et.
  - rewrite Epush. done.
  - rewrite Eh. exact Y11.
  - apply q_new_valid.
  - eapply run_snoc; [exact Y15|]. done.
Qed.

Lemma spec_thread_step_ok y y' : sys_ok y → spec_thread_step c varargs begin interval y y' → sys_ok y'.
Proof.
  intros Hy [now t f Hp Hf | t b Hp Hb | t b Hh Hb | now t s Hh Hs].
  - by eapply fetch_ok.
  - by eapply push_ok.
  - by eapply pop_ok.
  - by eapply handle_ok.
Qed.

Lemma spec_step_ok y y' : sys_ok y → spec_step c varargs begin interval y y' → sys_ok y'.
Proof.
  intros Hy [z Hz | z Hz | now k s Hs].
  - by eapply environment_step_ok.
  - by eapply spec_thread_step_ok.
  - by eapply restart_ok.
Qed.

Lemma started_ok d now : offset_of p0 = Some (fmt_d 0) → sys_ok (started p0 d now).
Proof.
  intros Ho. split; cbn [fet source started last_id pending buf hand par next_id log trace]; try done.
  - constructor.
  - by intros r ?%elem_of_nil.
  - split; constructor.
  - by intros r ?%elem_of_nil.
  - by intros r q ?%elem_of_nil.
  - exists 0. split; [unfold id_at; simpl; lia|done].
  - intros i j x y Hij Hx Hy. simpl in Hx, Hy. destruct i; [|done]. destruct j; [|done]. unfold kKeepNum.
    injection Hx as <-. injection Hy as <-. lia.
  - unfold flow, pushed. cbn. rewrite q_new_items. constructor.
  - unfold pushed. cbn. by rewrite q_new_items.
  - apply q_new_valid.
Qed.

Lemma reachable_ok d now y : offset_of p0 = Some (fmt_d 0) → rtc (spec_step c varargs begin interval) (started p0 d now) y → sys_ok y.
Proof.
  intros Ho. apply (rtc_ind_r (λ y, sys_ok y)); [by apply started_ok|]. intros x z _ Hxz Hx. by eapply spec_step_ok.
Qed.
End invariant.
