(* ===== verification/Threads.v ===== *)
(** * The parser's two threads (src/jiexi/src/Parser.cc [threadProduceTxlogs],
      [threadHandleTxlogs]; src/jiexi/src/Util.h [BoundedBuffer])

    The system of [Pipeline] with the buffer as it is: a step of a thread is a
    statement of [pushFront] or [popBack] ([BufferLock]), a fetch from the
    database, at any clock, or the handler's turn.  A fetch or a turn that raises
    ends the process.  The polls of a producer that finds no row are not steps. *)
From S2P Require Import Prelude Tx Bytes Serialize TxState Db Ledger ParserTx ParserBlock RecognizeBlock.
From S2P Require Import BoundedBuffer BufferLock TxLogs TxLogsFacts ParserMain Pipeline PipelineFacts.

Record threads := {
  sys : system (shared TxLog2);
  failed : option fault }.      (** how the process ended *)

(** Changes of the parts *)
Definition with_fetched (f : fetcher) (t : option TxLog2) (y : system (shared TxLog2)) : system (shared TxLog2) :=
  {| fet := f; last_id := last_id y; pending := t; buf := buf y; hand := hand y; par := par y;
     next_id := next_id y; log := log y; trace := trace y |}.
Definition with_calls (m : shared TxLog2) (y : system (shared TxLog2)) : system (shared TxLog2) :=
  {| fet := fet y; last_id := last_id y; pending := pending y; buf := m; hand := hand y; par := par y;
     next_id := next_id y; log := log y; trace := trace y |}.
Definition pushed_one (t : TxLog2) (y : system (shared TxLog2)) : system (shared TxLog2) :=
  {| fet := fet y; last_id := id_ t; pending := None; buf := end_push (buf y); hand := hand y; par := par y;
     next_id := next_id y; log := log y; trace := trace y |}.
Definition popped_one (t : TxLog2) (y : system (shared TxLog2)) : system (shared TxLog2) :=
  {| fet := fet y; last_id := last_id y; pending := pending y; buf := end_pop (buf y); hand := Some t; par := par y;
     next_id := next_id y; log := log y; trace := trace y |}.
Definition handled_one (w : whole) (l : list event) (y : system (shared TxLog2)) : system (shared TxLog2) :=
  {| fet := fet y; last_id := last_id y; pending := pending y; buf := buf y; hand := None; par := w;
     next_id := next_id y; log := log y; trace := l |}.
Definition in_new_process (now k : Z) (w : whole) (y : system (shared TxLog2)) : system (shared TxLog2) :=
  {| fet := with_txInfoCache (newTxInfoCache now) (fet y); last_id := k; pending := None;
     buf := note_both (sh_both (buf y)) newShared; hand := None; par := w;
     next_id := next_id y; log := log y; trace := trace y ++ [Restarted] |}.
Definition runs (y : system (shared TxLog2)) : threads := {| sys := y; failed := None |}.
Definition fails (e : fault) (y : system (shared TxLog2)) : threads := {| sys := y; failed := Some e |}.

Section threads.
Context `{Hashing} `{Scripts}.
Variables (c : pools) (varargs : bytes → option bytes) (begin interval : Z).
Implicit Types (x : threads) (y : system (shared TxLog2)) (t : TxLog2).
Abbreviation base y := (edb (source (fet y))).

Inductive thread_step : threads → threads → Prop :=
(* threadProduceTxlogs *)
| fetch y now t f :
    pending y = None → tryFetchTxLog2FromDB now (last_id y) (fet y) = (Done (Some t), f) →
    thread_step (runs y) (runs (with_fetched f (Some t) y))
| fetch_fails y now e f :
    pending y = None → tryFetchTxLog2FromDB now (last_id y) (fet y) = (Raise e, f) →
    thread_step (runs y) (fails e (with_fetched f None y))
| push_called y t :
    pending y = Some t → sh_prod (buf y) = PIdle →
    thread_step (runs y) (runs (with_calls (start_push t (buf y)) y))
| push_returns y t :
    sh_prod (buf y) = PLeaving t → thread_step (runs y) (runs (pushed_one t y))
(* either, inside its call *)
| in_calls y m :
    call_step txlogs_capacity (buf y) m → thread_step (runs y) (runs (with_calls m y))
(* threadHandleTxlogs *)
| pop_called y :
    hand y = None → sh_cons (buf y) = KIdle → thread_step (runs y) (runs (with_calls (start_pop (buf y)) y))
| pop_returns y t :
    sh_cons (buf y) = KLeaving t → thread_step (runs y) (runs (popped_one t y))
| handle y now t w :
    hand y = Some t → handleRow c varargs begin interval now (base y) t (par y) = (Done tt, w) →
    thread_step (runs y) (runs (handled_one w (trace y ++ [Handled (base y) now t]) y))
| handle_fails y now t e w :
    hand y = Some t → handleRow c varargs begin interval now (base y) t (par y) = (Raise e, w) →
    thread_step (runs y) (fails e (handled_one w (trace y) y)).

(** ** What is seen of it with a queue for the buffer *)
Definition as_queue (y : system (shared TxLog2)) : system (BoundedBuffer TxLog2) :=
  {| fet := fet y;
     last_id := if put (buf y) then from_option id_ (last_id y) (pending y) else last_id y;
     pending := if put (buf y) then None else pending y;
     buf := queue (buf y);
     hand := match hand y with Some t => Some t | None => taken (buf y) end;
     par := par y; next_id := next_id y; log := log y; trace := trace y |}.

Inductive step : threads → threads → Prop :=
| by_environment y z e : (* log2producer does not look at the buffer *)
    environment_step (as_queue y) z →
    step {| sys := y; failed := e |} {| sys := with_environment (fet z) (next_id z) (log z) y; failed := e |}
| by_thread x x' : thread_step x x' → step x x'
| by_waking y m : wakes_up (buf y) m → step (runs y) (runs (with_calls m y))
| by_restart y now k w :
    read_offset (restart_whole (par y)) = (Done k, w) → step (runs y) (runs (in_new_process now k w y)).

Definition starts (w : whole) (d : database) (now : Z) : threads :=
  runs {| fet := {| source := {| edb := with_txlogs2 [] d; row_ids := [] |}; txInfoCache_ := newTxInfoCache now |};
          last_id := 0; pending := None; buf := newShared; hand := None; par := w; next_id := 1; log := []; trace := [] |}.

(** Neither overlapped inside the buffer so far nor ended. *)
Definition calm (x : threads) : Prop := sh_both (buf (sys x)) = false ∧ failed x = None.

Record threads_ok (y : system (shared TxLog2)) : Prop := {
  to_calls : calls_ok txlogs_capacity (buf y);
  to_item t : item_of (sh_prod (buf y)) = Some t → pending y = Some t;
  to_hand : sh_cons (buf y) ≠ KIdle → hand y = None }.

Variable p0 : whole.
Abbreviation sys_ok := (sys_ok (B := BoundedBuffer TxLog2) c varargs begin interval p0).
Abbreviation spec := (spec_thread_step (B := BoundedBuffer TxLog2) c varargs begin interval).

(** ** Steps of the threads are steps of the specification, or nothing *)
Lemma in_calls_spec y m :
  threads_ok y → buffer_ok txlogs_capacity (queue (buf y)) → call_step txlogs_capacity (buf y) m →
  as_queue (with_calls m y) = as_queue y ∨ spec (as_queue y) (as_queue (with_calls m y)).
Proof.
  intros [T1 T2 T3] Hb Hs. destruct (call_step_seen _ _ _ T1 Hb Hs) as [E1 E2 E3|t Et E1 E2 E3 E4|t E1 E2 E3 E4].
  - left. unfold as_queue. cbn [with_calls buf fet last_id pending hand par next_id log trace]. by rewrite E1, E2, E3.
  - right. pose proof (T2 t Et) as Hp.
    pose proof (spec_push c varargs begin interval (as_queue y) t (queue m)) as Hpush.
    unfold as_queue in Hpush |- *. cbn [with_calls buf fet last_id pending hand par next_id log trace] in *.
    rewrite E1, E2, E3, Hp in *. cbn [from_option] in *. by apply Hpush.
  - right. assert (hand y = None) as Hh. { apply T3. intros E. unfold taken in E2.
      pose proof (proj2 (call_step_idle _ _ _ Hs) E) as E'. by rewrite E' in E2. }
    pose proof (spec_pop c varargs begin interval (as_queue y) t (queue m)) as Hpop.
    unfold as_queue in Hpop |- *. cbn [with_calls buf fet last_id pending hand par next_id log trace] in *.
    rewrite E1, E2, E3, Hh in *. by apply Hpop.
Qed.

Lemma queue_ok y : sys_ok (as_queue y) → buffer_ok txlogs_capacity (queue (buf y)).
Proof. intros Hy. apply (y_queue _ _ _ _ _ _ Hy). Qed.

Lemma idle_put y : sh_prod (buf y) = PIdle → put (buf y) = false.
Proof. unfold put. by intros ->. Qed.
Lemma no_item_put y : threads_ok y → pending y = None → put (buf y) = false ∧ sh_prod (buf y) = PIdle.
Proof.
  intros [_ T2 _] Hp. unfold put. destruct (sh_prod (buf y)) as [|t|t|t|t|t|t|t]; try done;
    by rewrite (T2 t eq_refl) in Hp.
Qed.
Lemma taken_idle y t : threads_ok y → hand y = Some t → sh_cons (buf y) = KIdle ∧ taken (buf y) = None.
Proof.
  intros [_ _ T3] Hh. assert (sh_cons (buf y) = KIdle) as E.
  { destruct (sh_cons (buf y)) eqn:E; try done; rewrite T3 in Hh; done. }
  split; [done|]. unfold taken. by rewrite E.
Qed.

Lemma thread_step_spec x x' :
  threads_ok (sys x) → sys_ok (as_queue (sys x)) → thread_step x x' → failed x' = None →
  as_queue (sys x') = as_queue (sys x) ∨ spec (as_queue (sys x)) (as_queue (sys x')).
Proof.
  intros HT Hy Hs Hf. pose proof (queue_ok _ Hy) as Hb.
  destruct Hs as [y now t f Hp Hrun|y now e f Hp Hrun|y t Hp Hi|y t Hl|y m Hm|y Hh Hi|y t Hl|y now t w Hh Hrun|y now t e w Hh Hrun];
    cbn [sys runs failed fails] in *; try done.
  - right. destruct (no_item_put y HT Hp) as [Ht _].
    pose proof (spec_fetch c varargs begin interval (as_queue y) now t f) as Hst. unfold as_queue in Hst |- *.
    cbn [with_fetched buf fet last_id pending hand par next_id log trace] in *. rewrite Ht in *. by apply Hst.
  - left. destruct (start_push_ok _ t _ (to_calls _ HT) Hi) as (_ & E1 & E2 & E3).
    unfold as_queue. cbn [with_calls buf fet last_id pending hand par next_id log trace]. by rewrite E1, E2, E3.
  - left. destruct (end_push_ok _ t _ (to_calls _ HT) Hl) as (_ & E1 & E2).
    assert (pending y = Some t) as Hp by (apply (to_item _ HT); by rewrite Hl).
    assert (put (buf y) = true) as Ht by (unfold put; by rewrite Hl).
    unfold as_queue. cbn [pushed_one buf fet last_id pending hand par next_id log trace]. by rewrite E1, E2, Ht, Hp.
  - by apply in_calls_spec.
  - left. destruct (start_pop_ok _ _ (to_calls _ HT) Hi) as (_ & E1 & E2 & E3).
    unfold as_queue. cbn [with_calls buf fet last_id pending hand par next_id log trace]. by rewrite E1, E2, E3.
  - left. destruct (end_pop_ok _ t _ (to_calls _ HT) Hl) as (_ & E1 & E2 & E3 & _).
    assert (hand y = None) as Hh by (apply (to_hand _ HT); by rewrite Hl).
    unfold as_queue. cbn [popped_one buf fet last_id pending hand par next_id log trace]. by rewrite E1, E2, E3, Hh.
  - right. destruct (taken_idle y t HT Hh) as [_ Ht].
    pose proof (spec_handle c varargs begin interval (as_queue y) now t w) as Hst. unfold as_queue in Hst |- *.
    cbn [handled_one buf fet last_id pending hand par next_id log trace] in *. rewrite Ht, Hh in *. by apply Hst.
Qed.

Lemma thread_step_both x x' : thread_step x x' → calm x' → calm x.
Proof.
  intros Hs [Hb Hf]. destruct Hs; split; try done. by eapply call_step_both.
Qed.

Lemma thread_step_threads x x' :
  threads_ok (sys x) → sys_ok (as_queue (sys x)) → thread_step x x' → calm x' → threads_ok (sys x').
Proof.
  intros HT Hy Hs [Hb Hf]. pose proof (queue_ok _ Hy) as Hq. pose proof (to_calls _ HT) as T1.
  destruct Hs as [y now t f Hp Hrun|y now e f Hp Hrun|y t Hp Hi|y t Hl|y m Hm|y Hh Hi|y t Hl|y now t w Hh Hrun|y now t e w Hh Hrun];
    cbn [sys runs failed fails] in *; try done.
  - destruct (no_item_put y HT Hp) as [_ Ei]. split; [done| |apply HT]. cbn. by rewrite Ei.
  - split; [by apply start_push_ok| |apply HT]. cbn. by intros ? [= <-].
  - split; [by eapply end_push_ok|done|apply HT].
  - split; [by eapply call_step_ok| |]; cbn [with_calls buf pending hand].
    + rewrite (call_step_item _ _ _ Hm). apply HT.
    + rewrite (call_step_idle _ _ _ Hm). apply HT.
  - split; [by apply start_pop_ok|apply HT|done].
  - split; [by eapply end_pop_ok|apply HT|done].
  - split; [done|apply HT|done].
Qed.

Definition good (x : threads) : Prop := calm x → threads_ok (sys x) ∧ sys_ok (as_queue (sys x)).

Lemma environment_frame (y z : system (BoundedBuffer TxLog2)) :
  environment_step y z → z = with_environment (fet z) (next_id z) (log z) y.
Proof. by destruct 1. Qed.

Lemma thread_step_ok x x' : good x → thread_step x x' → good x'.
Proof.
  intros Hg Hs Hc. destruct (Hg (thread_step_both _ _ Hs Hc)) as [HT Hy].
  split; [by eapply thread_step_threads|].
  destruct (thread_step_spec _ _ HT Hy Hs (proj2 Hc)) as [->|Hst]; [done|]. by eapply spec_thread_step_ok.
Qed.

Lemma step_ok x x' : good x → step x x' → good x'.
Proof.
  intros Hg Hs. destruct Hs as [y z e Hz|x1 x2 Hs|y m Hm|y now k w Hrun].
  - intros [Hb Hf]. destruct (Hg (conj Hb Hf)) as [HT Hy]. split; [by destruct HT|].
    apply environment_step_ok with (y' := z) in Hy; [|done]. cbn [sys]. by rewrite (environment_frame _ _ Hz) in Hy.
  - by eapply thread_step_ok.
  - intros [Hb Hf]. cbn [sys runs with_calls buf] in *. rewrite (wakes_up_both _ _ Hm) in Hb.
    destruct (Hg (conj Hb eq_refl)) as [HT Hy]. destruct (wakes_up_ok _ _ _ (to_calls _ HT) Hm) as (Hc & E3 & E4 & E5).
    destruct (wakes_up_item _ _ Hm) as [E1 E2]. split.
    + split; [done| |]; cbn [sys runs with_calls buf pending hand]; [rewrite E1|rewrite E2]; apply HT.
    + assert (as_queue (with_calls m y) = as_queue y) as ->; [|done].
      unfold as_queue. cbn [with_calls buf fet last_id pending hand par next_id log trace]. by rewrite E3, E4, E5.
  - intros [Hb Hf]. cbn [sys runs in_new_process buf note_both newShared sh_both orb] in *.
    destruct (Hg (conj Hb eq_refl)) as [HT Hy]. split; [split; try done; cbn; by constructor|].
    by apply (restart_ok _ _ _ _ _ (as_queue y) now k w Hy).
Qed.

Lemma starts_ok w d now : w = p0 → offset_of p0 = Some (fmt_d 0) → good (starts w d now).
Proof. intros -> Ho _. split; [split; try done; by apply newShared_ok|]. exact (started_ok (B := BoundedBuffer TxLog2) c varargs begin interval p0 d now Ho). Qed.

Lemma reachable_good d now x : offset_of p0 = Some (fmt_d 0) → rtc step (starts p0 d now) x → good x.
Proof.
  intros Ho. apply (rtc_ind_r good); [by apply starts_ok|]. intros y z _ Hs Hy. by eapply step_ok.
Qed.
End threads.
