(* ===== verification/ThreadsClaims.v ===== *)
(** * The parser's promises about the published rows

    The claims about the threads of [Threads], on the specification of
    [Pipeline], and a run of them on a small database. *)
From S2P Require Import Prelude Tx Bytes Serialize TxState Db Ledger ParserTx ParserBlock RecognizeBlock ParserClaims ParserFacts.
From S2P Require Import BoundedBuffer BufferLock TxLogs TxLogsFacts ParserMain MainFacts Pipeline PipelineFacts Threads.

(** [P] will hold whatever the threads do next, and they can go on until it does. *)
Inductive eventually (R : threads → threads → Prop) (P : threads → Prop) (x : threads) : Prop :=
| already : P x → eventually R P x
| after_each : (∃ x', R x x') → (∀ x', R x x' → eventually R P x') → eventually R P x.

Section claims.
Context `{Hashing} `{Scripts}.
Variables (c : pools) (varargs : bytes → option bytes) (begin interval : Z) (p0 : whole).
Implicit Types (y : system (shared TxLog2)) (x : threads) (r q : Z * txlog) (t : TxLog2).
Abbreviation rows y := (numbered (source (fet y))).
Abbreviation base y := (edb (source (fet y))).
Abbreviation count y := (length (handled_rows (trace y))).
Abbreviation step := (step c varargs begin interval).
Abbreviation thread_step := (thread_step c varargs begin interval).
Abbreviation sys_ok := (sys_ok (B := BoundedBuffer TxLog2) c varargs begin interval p0).
Abbreviation good := (good c varargs begin interval p0).

(** ** Order *)

(** What the threads have taken from the log, oldest first: handled, in the hand
    of the handler, on its way out of the buffer, in it, on its way in. *)
Definition in_order y : list TxLog2 :=
  handled_rows (trace y) ++ option_list (hand y) ++ option_list (taken (buf y)) ++ buffered (queue (buf y)) ++
  (if put (buf y) then [] else option_list (pending y)).

Lemma in_order_flow y : threads_ok y → in_order y = flow (as_queue y).
Proof.
  intros HT. unfold in_order, flow, pushed. cbn [as_queue trace hand buf pending]. rewrite <-!app_assoc. f_equal.
  destruct (hand y) as [t|] eqn:Hh; [|by destruct (put _)].
  destruct (taken_idle y t HT Hh) as [_ ->]. by destruct (put _).
Qed.

(** ** The next row *)

Definition measure y : nat :=
  100 * (length (log y) - length (pushed (as_queue y))) + rank (buf y) +
  (match pending y with None => 1 | Some _ => 0 end).

Lemma pushed_bound y : sys_ok (as_queue y) → (length (pushed (as_queue y)) ≤ length (log y))%nat.
Proof.
  intros Hy. pose proof (flow_length _ _ _ _ _ _ Hy). destruct (flow_parts (as_queue y)) as [Ef Ep].
  change (log (as_queue y)) with (log y) in *. lia.
Qed.

Lemma in_calls_pushed y m : threads_ok y → sys_ok (as_queue y) → call_step txlogs_capacity (buf y) m →
  length (pushed (as_queue (with_calls m y))) =
    (length (pushed (as_queue y)) + (if put (buf y) then 0 else if put m then 1 else 0))%nat.
Proof.
  intros HT Hy Hs. pose proof (queue_ok c varargs begin interval p0 y Hy) as Hb.
  unfold pushed. cbn [as_queue with_calls trace hand buf].
  destruct (call_step_seen _ _ _ (to_calls _ HT) Hb Hs) as [E1 E2 E3|t Et E1 E2 E3 E4|t E1 E2 E3 E4].
  - rewrite E1, E2, E3. destruct (put (buf y)); lia.
  - pose proof (pushFront_spec txlogs_capacity t (queue (buf y)) Hb) as Hp. rewrite E4 in Hp.
    destruct Hp as (_ & _ & Hq). rewrite E1, E2, E3. cbn [q_items bounded_buffer]. rewrite Hq, !length_app. simpl. lia.
  - pose proof (popBack_spec txlogs_capacity (queue (buf y)) Hb) as Hp. rewrite E4 in Hp. destruct Hp as [_ Hq].
    assert (hand y = None) as ->.
    { apply HT. intros E. pose proof (proj2 (call_step_idle _ _ _ Hs) E) as E'. unfold taken in E2. by rewrite E' in E2. }
    rewrite E1, E2, E3. cbn [q_items bounded_buffer option_list]. rewrite Hq, !length_app. simpl. destruct (put (buf y)); lia.
Qed.

(** A step that ends neither the process nor the exclusion, before the handler
    has a row, leads nearer to it. *)
Lemma thread_step_measure x x' :
  threads_ok (sys x) → sys_ok (as_queue (sys x)) → hand (sys x) = None → thread_step x x' → calm x' →
  sys_ok (as_queue (sys x')) →
  (measure (sys x') < measure (sys x))%nat ∨ is_Some (hand (sys x')).
Proof.
  intros HT Hy Hn Hs [Hb Hf] Hy'. pose proof (pushed_bound _ Hy') as Hbound.
  destruct Hs as [y now t f Hp Hrun|y now e f Hp Hrun|y t Hp Hi|y t Hl|y m Hm|y Hh Hi|y t Hl|y now t w Hh Hrun|y now t e w Hh Hrun];
    cbn [sys runs failed fails] in *; try done; [left..|right; by eexists|congruence].
  - unfold measure, pushed. cbn [as_queue with_fetched trace hand buf log pending]. rewrite Hp. lia.
  - destruct (start_push_ok _ t _ (to_calls _ HT) Hi) as (_ & E1 & E2 & _).
    unfold measure, pushed. cbn [as_queue with_calls trace hand buf log pending]. rewrite E1, E2.
    unfold rank, start_push. cbn [at_prod sh_prod sh_cons]. rewrite Hi. cbn [p_rank]. lia.
  - destruct (end_push_ok _ t _ (to_calls _ HT) Hl) as (_ & E1 & E2).
    assert (pending y = Some t) as Hp by (apply (to_item _ HT); by rewrite Hl).
    unfold measure, pushed. cbn [as_queue pushed_one trace hand buf log pending]. rewrite E1, E2, Hp.
    unfold rank, end_push. cbn [at_prod sh_prod sh_cons]. rewrite Hl. cbn [p_rank]. lia.
  - pose proof (in_calls_pushed y m HT Hy Hm) as E. pose proof (call_step_rank _ _ _ Hm) as Hr.
    unfold measure. cbn [with_calls buf log pending] in *. rewrite E in *.
    destruct (put (buf y)), (put m); lia.
  - destruct (start_pop_ok _ _ (to_calls _ HT) Hi) as (_ & E1 & E2 & _).
    unfold measure, pushed. cbn [as_queue with_calls trace hand buf log pending]. rewrite E1, E2.
    unfold rank, start_pop. cbn [at_cons sh_prod sh_cons]. rewrite Hi. cbn [k_rank]. lia.
Qed.

(** The producer's next fetch brings the next row, or is undefined. *)
Lemma next_fetch now y r : sys_ok (as_queue y) → put (buf y) = false → log y !! length (pushed (as_queue y)) = Some r →
  (∃ t f, tryFetchTxLog2FromDB now (last_id y) (fet y) = (Done (Some t), f)) ∨
  ∃ f, tryFetchTxLog2FromDB now (last_id y) (fet y) = (Raise Undefined, f).
Proof.
  intros Hy Hput Hr. pose proof (next_row_ok _ _ _ _ _ _ Hy) as Hnext. cbn [as_queue last_id fet log] in Hnext.
  rewrite Hput in Hnext. cbn [as_queue log] in Hr.
  pose proof (y_good _ _ _ _ _ _ Hy) as Hg. rewrite Forall_forall in Hg.
  destruct (Hg r (list_elem_of_lookup_2 _ _ _ Hr)) as (Hk & _ & t & Ht).
  apply (tryFetch_either now (last_id y) (fet y) r t); [apply Hy|by rewrite Hnext|done|done].
Qed.

Lemma can_go_on y r : threads_ok y → sys_ok (as_queue y) → hand y = None →
  log y !! count y = Some r → ∃ x', thread_step (runs y) x'.
Proof.
  intros HT Hy Hn Hr. destruct (decide (sh_cons (buf y) = KIdle)) as [Hk|Hk].
  { eexists. by apply pop_called. }
  assert (0 < txlogs_capacity)%nat as Hcap by (unfold txlogs_capacity; lia).
  destruct (call_progress _ _ Hcap (to_calls _ HT) (queue_ok _ _ _ _ _ _ Hy) Hk)
    as [[m Hm]|[[t Ht]|[[t Ht]|(Hp & Hu & Ht)]]].
  - eexists. by apply in_calls.
  - eexists. by apply push_returns.
  - eexists. by apply pop_returns.
  - pose proof (idle_put _ Hp) as Hput. destruct (pending y) as [t|] eqn:Ep; [eexists; by apply push_called|].
    assert (length (pushed (as_queue y)) = count y) as El.
    { destruct (flow_parts (as_queue y)) as [_ ->]. cbn [as_queue hand buf trace]. rewrite Hn, Ht. cbn [option_list q_items bounded_buffer].
      rewrite (length_buffered txlogs_capacity) by by eapply queue_ok. rewrite Hu. simpl. lia. }
    rewrite <-El in Hr. destruct (next_fetch 0 y r Hy Hput Hr) as [(t & f & Hf)|[f Hf]]; eexists;
      [by eapply fetch|by eapply fetch_fails].
Qed.

(** what the threads do before the handler has a row leaves the log alone *)
Definition same_handler x x' : Prop :=
  par (sys x') = par (sys x) ∧ trace (sys x') = trace (sys x) ∧ log (sys x') = log (sys x).

Lemma before_handler x x' : hand (sys x) = None → thread_step x x' → same_handler x x'.
Proof. intros Hn Hs. destruct Hs; cbn in *; try done; congruence. Qed.

Lemma fails_undefined x x' e : threads_ok (sys x) → sys_ok (as_queue (sys x)) → hand (sys x) = None →
  thread_step x x' → failed x' = Some e → e = Undefined.
Proof.
  intros HT Hy Hn Hs Hf.
  destruct Hs as [y now t f Hp Hrun|y now e' f Hp Hrun|y t Hp Hi|y t Hl|y m Hm|y Hh Hi|y t Hl|y now t w Hh Hrun|y now t e' w Hh Hrun];
    cbn [sys runs failed fails] in *; try done; [|congruence].
  injection Hf as ->. destruct (no_item_put y HT Hp) as [Hput _].
  pose proof (next_row_ok _ _ _ _ _ _ Hy) as Hnext.
  destruct (log (as_queue y) !! length (pushed (as_queue y))) as [r|] eqn:Er.
  - destruct (next_fetch now y r Hy Hput Er) as [(t & f' & E)|[f' E]]; congruence.
  - unfold tryFetchTxLog2FromDB in Hrun. rewrite (bind_Done get _ _ _ _ eq_refl) in Hrun.
    cbn [as_queue last_id fet] in Hnext. rewrite Hput in Hnext. by rewrite Hnext in Hrun.
Qed.

(** The handler has the row [r], next after those handled. *)
Definition at_handler r x : Prop := ∃ t, hand (sys x) = Some t ∧ reads (base (sys x)) r t.
(** Both were inside the buffer at once, or the process ended in a fetch that is
    undefined. *)
Definition astray x : Prop := sh_both (buf (sys x)) = true ∨ failed x = Some Undefined.

Lemma hand_next x r : good x → calm x → is_Some (hand (sys x)) → log (sys x) !! count (sys x) = Some r → at_handler r x.
Proof.
  intros Hg Hc [t Ht] Hr. destruct (Hg Hc) as [HT Hy]. exists t. split; [done|].
  assert (flow (as_queue (sys x)) !! count (sys x) = Some t) as Hf.
  { unfold flow, pushed. cbn [as_queue hand trace]. rewrite Ht, <-app_assoc, lookup_app_r, Nat.sub_diag by lia. done. }
  destruct (flow_lookup _ _ _ _ _ (as_queue (sys x)) _ t Hy Hf) as (q & Hq & Hreads & _). cbn [as_queue log trace] in Hq.
  by assert (q = r) as <- by congruence.
Qed.

Lemma arrives n x0 x r : (measure (sys x) < n)%nat → same_handler x0 x → good x → calm x →
  log (sys x) !! count (sys x) = Some r →
  eventually thread_step (λ x', same_handler x0 x' ∧ at_handler r x' ∨ astray x') x.
Proof.
  revert x. induction n as [|n IH]; intros x Hm Hsame Hg Hc Hr; [lia|].
  destruct (hand (sys x)) as [t|] eqn:Hh.
  { apply already. left. split; [done|]. by apply hand_next; [..|exists t|]. }
  destruct (Hg Hc) as [HT Hy]. apply after_each.
  { destruct x as [y e]. cbn in *. destruct Hc as [_ Hf]. cbn in Hf. subst e. by apply (can_go_on y r). }
  intros x' Hs. pose proof (before_handler x x' Hh Hs) as (E1 & E2 & E3).
  assert (same_handler x0 x') as Hsame'.
  { destruct Hsame as (F1 & F2 & F3). split_and!; congruence. }
  pose proof (thread_step_ok _ _ _ _ _ _ _ Hg Hs) as Hg'.
  destruct (sh_both (buf (sys x'))) eqn:Hb; [by apply already; right; left|].
  destruct (failed x') as [e|] eqn:Hf.
  { apply already. right. right. rewrite Hf. f_equal. by apply (fails_undefined x x'). }
  assert (calm x') as Hc' by done. rewrite <-E3, <-E2 in Hr.
  destruct (Hg' Hc') as [HT' Hy'].
  destruct (thread_step_measure x x' HT Hy Hh Hs Hc' Hy') as [Hlt|Hsome].
  - apply IH; [lia|done..].
  - apply already. left. split; [done|]. by apply hand_next.
Qed.

(** C6 — No published row is left behind: whenever one has not been handled, the
    next one comes to the handler, whichever of the two threads runs at each
    moment, statement by statement, and whatever the clock says at each fetch; the
    threads never get stuck, no wake-up is lost and nothing else is handled first.
    The exceptions, under which nothing is promised: both threads get inside the
    buffer at once, which the second unlock of its calls makes possible (Util.h:92,
    with a mutex whose unlock always frees it), or the clean-up of the cache of raw
    transactions comes due while it reads an erased entry (Parser.cc:253), which is
    undefined.  Spurious wake-ups, restarts and the polls of an idle producer are
    not steps here. *)
Theorem next_row_arrives d now x r :
  offset_of p0 = Some (fmt_d 0) → rtc step (starts p0 d now) x → calm x →
  log (sys x) !! count (sys x) = Some r →
  eventually thread_step (λ x', same_handler x x' ∧ at_handler r x' ∨ astray x') x.
Proof.
  intros Ho Hr Hc Hlog. apply (arrives (S (measure (sys x)))); [lia|done| |done|done]. by eapply reachable_good.
Qed.

(** C5 — Whatever the interleaving of log2producer and of the two threads, whose
    steps are the statements of [pushFront] and [popBack], with spurious wake-ups
    and restarts between rows: the rows handled, in the handler's hand, on their way
    out of the buffer, in it and on their way in are, one after the other, the
    first rows of the log: none is lost, repeated or out of order, and none is
    read before it is published.  The stored offset is the id of the last row
    handled; no row behind it was pruned; and the store is what the handler made of
    the rows, so it shows their view when they are legal, up to a rejection whose
    formatting (line 1661) is not harmless.  This is said of every state up to which
    the two threads were never both inside the buffer and the process did not end
    in an exception: the second unlock of the calls (Util.h:92) frees the mutex
    whoever holds it, and when both are inside an item may be delivered twice and
    another never. *)
Theorem rows_in_order d now x :
  offset_of p0 = Some (fmt_d 0) → rtc step (starts p0 d now) x → calm x →
  let y := sys x in
  Forall2 (reads (base y)) (take (length (in_order y)) (log y)) (in_order y) ∧
  offset_of (par y) = Some (fmt_d (id_at (log y) (count y))) ∧
  (∀ r, r ∈ log y → id_at (log y) (count y) < r.1 → r ∈ rows y) ∧
  run_events c varargs begin interval (trace y) p0 = (Done tt, par y) ∧
  ∀ body hexes C v0 v, displays body hexes C v0 p0 → legal_events body hexes C interval v0 (trace y) v →
    displays body hexes C v (par y) ∨ meets_disturbed body hexes C c varargs begin interval v0 (trace y) p0.
Proof.
  intros Ho Hr Hc y. destruct (reachable_good _ _ _ _ _ d now x Ho Hr Hc) as [HT Hy]. fold y in HT, Hy. split_and!.
  - rewrite (in_order_flow y HT). apply (y_flow _ _ _ _ _ _ Hy).
  - apply (y_offset _ _ _ _ _ _ Hy).
  - intros r Hlog Hid. destruct (y_cut _ _ _ _ _ _ Hy) as (cut & Hcut & Hv).
    assert (r ∈ visible (source (fet y))) as Hin; [|by apply list_elem_of_filter in Hin as [_ ?]].
    cbn [as_queue fet log trace] in Hcut, Hv. rewrite Hv. apply list_elem_of_filter. split; [lia|done].
  - apply (y_run _ _ _ _ _ _ Hy).
  - intros body hexes C v0 v Hd Hl.
    destruct (run_history body hexes C c varargs begin interval v0 _ v p0 Hl Hd) as [(s & Hs & Hds)|Hm]; [left|by right].
    pose proof (y_run _ _ _ _ _ _ Hy) as Hrun. cbn [as_queue trace par] in Hrun. rewrite Hrun in Hs. by injection Hs as <-.
Qed.
End claims.

(** ** One row, published as a batch of its own and handled *)
Module ThreadsDemo.
#[local] Existing Instance ParserDemo.scripts.
#[local] Existing Instance WholeDemo.hashing.
Import ParserDemo.
Definition staged_row : txlog :=
  {| batch_id := -1; log_type := LOG2TYPE_TX_ACCEPT; block_height := -1; block_id := -1; max_block_timestamp := 5; tx_hash := 1 |}.
Definition log_of_one : list (Z * txlog) :=
  [(1, {| batch_id := 7; log_type := LOG2TYPE_TX_ACCEPT; block_height := -1; block_id := -1; max_block_timestamp := 5; tx_hash := 1 |})].
Definition d : database :=
  {| txlogs2 := []; memrepo_txs := []; explorer_meta := None; raw_blocks := []; raw_txs := {[ 1 := (1, EncodeHexTx coinbase) ]} |}.
Definition p0 : whole := snd (read_offset first_whole).
Definition s0 : system (shared TxLog2) := sys (starts p0 d 0).
Definition s1 : system (shared TxLog2) := with_environment
  (with_explorer (with_numbered (numbered (source (fet s0)) ++ numbered_from (next_id s0) [staged_row]) (source (fet s0))) (fet s0))
  (next_id s0 + 1) (log s0) s0.
Definition s2 : system (shared TxLog2) := with_environment
  (with_explorer (with_numbered (set_batch 7 <$> numbered (source (fet s1))) (source (fet s1))) (fet s1)) (next_id s1) log_of_one s1.
Abbreviation step := (step WholeDemo.no_pools Some 0 210000).

Definition arrived : TxLog2 :=
  log_row 1 {| batch_id := 7; log_type := LOG2TYPE_TX_ACCEPT; block_height := -1; block_id := -1; max_block_timestamp := 5; tx_hash := 1 |}
    (EncodeHexTx coinbase) coinbase.
Lemma reads_arrived r : r ∈ log_of_one → reads d r arrived.
Proof.
  intros ->%list_elem_of_singleton. exists (1, EncodeHexTx coinbase), coinbase.
  split; [vm_compute; reflexivity|]. split; [vm_compute; reflexivity|]. reflexivity.
Qed.

Lemma start_offset : offset_of p0 = Some (fmt_d 0).
Proof. vm_compute. reflexivity. Qed.

Lemma reach_s2 : rtc step (starts p0 d 0) (runs s2).
Proof.
  eapply rtc_l; [exact (by_environment _ _ _ _ s0 _ None (stage (as_queue s0) [staged_row] ltac:(by repeat constructor) ltac:(done)))|].
  apply rtc_once. refine (by_environment _ _ _ _ s1 _ None (publish (as_queue s1) 7 log_of_one _ _ _ _)).
  - done.
  - vm_compute. reflexivity.
  - apply Forall_forall. intros r Hr. split_and!; [| |exists arrived; by apply reads_arrived];
      apply list_elem_of_singleton in Hr as ->; done.
  - intros i j x z _ Hx Hz. change (0 :: log_of_one.*1) with [0; 1] in *. unfold kKeepNum.
    destruct i as [|[|]], j as [|[|]]; try done; injection Hx as <-; injection Hz as <-; lia.
Qed.

Lemma handled_once db : ∃ s, handleRow WholeDemo.no_pools Some 0 210000 0 db arrived p0 = (Done tt, s).
Proof.
  assert ((handleRow WholeDemo.no_pools Some 0 210000 0 db arrived p0).1 = Done tt) as E by (vm_compute; reflexivity).
  destruct (handleRow _ _ _ _ _ _ _ _) as [r s]. cbn in E. subst r. by exists s.
Qed.

(** ** One item through the buffer, statement by statement *)
Definition holding (t : TxLog2) (p : producer TxLog2) (k : consumer TxLog2) (n : nat) : shared TxLog2 :=
  {| sh_buf := {| container_ := [t]; unread_ := n |}; sh_lock := None; sh_prod := p; sh_cons := k; sh_both := false |}.

Lemma one_push t : rtc (call_step txlogs_capacity) (start_push t newShared) (holding t (PLeaving t) KIdle 1).
Proof.
  eapply rtc_l; [eapply p_lock; reflexivity|]. eapply rtc_l; [eapply p_insert; reflexivity|].
  eapply rtc_l; [eapply p_count; reflexivity|]. eapply rtc_l; [eapply p_unlock; reflexivity|].
  eapply rtc_l; [eapply (p_notify _ _ t); reflexivity|]. exact (rtc_refl _ (holding t (PLeaving t) KIdle 1)).
Qed.
Lemma one_pop t : rtc (call_step txlogs_capacity) (start_pop (holding t PIdle KIdle 1)) (holding t PIdle (KLeaving t) 0).
Proof.
  eapply rtc_l; [eapply k_lock; reflexivity|]. eapply rtc_l; [eapply (k_count _ _ 0); reflexivity|].
  eapply rtc_l; [eapply (k_copy _ _ 0); reflexivity|]. eapply rtc_l; [eapply k_unlock; reflexivity|].
  eapply rtc_l; [eapply (k_notify _ _ t); reflexivity|]. exact (rtc_refl _ (holding t PIdle (KLeaving t) 0)).
Qed.

Lemma calls_run y m m' : rtc (call_step txlogs_capacity) m m' → rtc step (runs (with_calls m y)) (runs (with_calls m' y)).
Proof.
  induction 1 as [m|m m1 m2 Hs _ IH]; [done|]. eapply rtc_l; [|exact IH]. apply by_thread.
  exact (in_calls _ _ _ _ (with_calls m y) m1 Hs).
Qed.

Lemma through_buffer y t : pending y = Some t → buf y = newShared → hand y = None →
  ∃ y', rtc step (runs y) (runs y') ∧ hand y' = Some t ∧ buf y' = holding t PIdle KIdle 0 ∧
    fet y' = fet y ∧ par y' = par y ∧ trace y' = trace y ∧ log y' = log y.
Proof.
  intros Hp Hb Hh. set (y1 := with_calls (holding t (PLeaving t) KIdle 1) y).
  set (y2 := with_calls (holding t PIdle (KLeaving t) 0) (pushed_one t y1)).
  exists (popped_one t y2). split; [|done].
  eapply rtc_l; [apply by_thread, (push_called _ _ _ _ y t Hp); by rewrite Hb|]. rewrite Hb.
  etrans; [apply calls_run, one_push|]. eapply rtc_l; [apply by_thread, (push_returns _ _ _ _ y1 t); reflexivity|].
  eapply rtc_l; [apply by_thread, (pop_called _ _ _ _ (pushed_one t y1)); [exact Hh|reflexivity]|].
  etrans; [apply calls_run, one_pop|]. apply rtc_once, by_thread, (pop_returns _ _ _ _ y2 t). reflexivity.
Qed.

Definition fetched : system (shared TxLog2) :=
  with_fetched (snd (tryFetchTxLog2FromDB 0 (last_id s2) (fet s2))) (Some arrived) s2.
Lemma fetches : tryFetchTxLog2FromDB 0 (last_id s2) (fet s2) = (Done (Some arrived), fet fetched).
Proof. vm_compute. reflexivity. Qed.

Lemma reach_handled : ∃ x, rtc step (starts p0 d 0) x ∧ calm x ∧ handled_rows (trace (sys x)) = [arrived].
Proof.
  destruct (through_buffer fetched arrived eq_refl eq_refl eq_refl) as (y & Hr & Hh & Hb & _ & Hp & Ht & _).
  destruct (handled_once (edb (source (fet y)))) as (w & Hw). rewrite <-Hp in Hw at 1.
  eexists. split; [|split].
  - etrans; [exact reach_s2|]. eapply rtc_l; [apply by_thread, (fetch _ _ _ _ s2 0 arrived _ eq_refl fetches)|].
    etrans; [exact Hr|]. apply rtc_once, by_thread. exact (handle _ _ _ _ y 0 arrived w Hh Hw).
  - split; [|done]. cbn [sys runs handled_one buf]. by rewrite Hb.
  - cbn [sys runs handled_one trace]. rewrite Ht. reflexivity.
Qed.
End ThreadsDemo.

Section witnesses.
#[local] Existing Instance ParserDemo.scripts.
#[local] Existing Instance WholeDemo.hashing.
Import ThreadsDemo.

Definition row1 : Z * txlog :=
  (1, {| batch_id := 7; log_type := LOG2TYPE_TX_ACCEPT; block_height := -1; block_id := -1; max_block_timestamp := 5; tx_hash := 1 |}).

Theorem next_row_arrives_witness :
  eventually (thread_step WholeDemo.no_pools Some 0 210000)
    (λ x', same_handler (runs s2) x' ∧ at_handler row1 x' ∨ astray x') (runs s2).
Proof.
  exact (next_row_arrives WholeDemo.no_pools Some 0 210000 p0 d 0 (runs s2) row1 start_offset reach_s2
    (conj eq_refl eq_refl) eq_refl).
Defined.

Theorem rows_in_order_witness : ∃ x, handled_rows (trace (sys x)) = [arrived] ∧
  offset_of (par (sys x)) = Some (fmt_d (id_at (log (sys x)) 1)).
Proof.
  destruct reach_handled as (x & Hr & Hc & Hh). exists x. split; [exact Hh|].
  destruct (rows_in_order WholeDemo.no_pools Some 0 210000 p0 d 0 x start_offset Hr Hc) as (_ & Ho & _).
  rewrite Hh in Ho. exact Ho.
Defined.
End witnesses.
