(* ===== verification/Stamps.v ===== *)
(** * The time stamps of the stored blocks (src/jiexi/src/Parser.cc)

    Under key 11 every block keeps the time stamp of its header, whatever else of
    its object changes: [initLog2] relies on it. *)
From S2P Require Import Prelude Tx Bytes Text Serialize Db Notify Ledger ParserTx ParserBlock RecognizeBlock TxLogs ParserMain.

Section stamps.
Context `{Hashing} `{Scripts}.
Variable bbody : uint256 → CBlock.
Implicit Types (m : gmap uint256 BlockObject) (t : TxLog2) (w : whole) (db : database).

Definition stamps_ok m : Prop := ∀ h o, m !! h = Some o → bo_timestamp o = GetBlockTime (bbody h).
Definition stamped w : Prop := stamps_ok (kv_block (blks (core w))).

Definition stays m m' : Prop := stamps_ok m → stamps_ok m'.
#[local] Instance stays_pre : PreOrder stays.
Proof. split; [intros m Hm; exact Hm|]. intros m1 m2 m3 H1 H2 Hm. by apply H2, H1. Qed.

Lemma stays_insert m h o : (stamps_ok m → bo_timestamp o = GetBlockTime (bbody h)) → stays m (<[h := o]> m).
Proof. intros Ho Hm g x. rewrite lookup_insert. case_decide as E; [|apply Hm]. intros [= <-]. subst. by apply Ho. Qed.

Abbreviation table := (λ p : parser, kv_block (blks p)).

Lemma stays_set m h o o' :
  m !! h = Some o → bo_timestamp o' = bo_timestamp o → stays m (<[h := o']> m).
Proof. intros Ho E. apply stays_insert. intros Hm. rewrite E. by apply Hm. Qed.

(** a block read and written back with its time stamp *)
Lemma keeps_update (h : uint256) (k : BlockObject → M parser unit) :
  (∀ p o, kv_block (blks p) !! h = Some o → ∀ r p', k o p = (r, p') → stays (table p) (table p')) →
  Keeps stays table (p ← get; o ← kv_get (kv_block (blks p) !! h); k o).
Proof.
  intros Hk p r p'. rewrite (bind_Done get _ p p p eq_refl). destruct (kv_block (blks p) !! h) as [o|] eqn:E.
  - rewrite (bind_Done (kv_get (Some o)) _ p o p eq_refl). by apply Hk.
  - rewrite (bind_Raise (kv_get None) _ p _ p eq_refl). by intros [= _ <-].
Qed.

Lemma keeps_kv_get {A} (r : option A) : Keeps stays table (kv_get r).
Proof. destruct r; [apply keeps_ret|apply keeps_raise]; apply _. Qed.
Lemma keeps_kv_read {A} (r : option A) : Keeps stays table (kv_read r).
Proof. destruct r; [apply keeps_ret|apply keeps_raise]; apply _. Qed.
Lemma keeps_setBlocks f : (∀ T, kv_block (f T) = kv_block T) → Keeps stays table (setBlocks f).
Proof. intros Hf. apply keeps_modify; [apply _|]. intros p. apply Hf. Qed.
Lemma keeps_height f : Keeps stays table (setBlocks (with_height f)).
Proof. by apply keeps_setBlocks. Qed.
Lemma keeps_orphan f : Keeps stays table (setBlocks (with_orphan f)).
Proof. by apply keeps_setBlocks. Qed.
Lemma keeps_block_txs f : Keeps stays table (setBlocks (with_block_txs f)).
Proof. by apply keeps_setBlocks. Qed.
Lemma keeps_block_time f : Keeps stays table (setBlocks (with_block_time f)).
Proof. by apply keeps_setBlocks. Qed.
#[local] Hint Resolve keeps_kv_get keeps_kv_read keeps_height keeps_orphan keeps_block_txs keeps_block_time : keeps.

Lemma stays_insertBlock interval now blk height size tmax :
  bbody (BlockHash blk) = blk → Keeps stays table (insertBlock interval now blk height size tmax).
Proof.
  intros Hb. unfold insertBlock. repeat (apply keeps_bind; [apply _|by keeps_tac|intros]).
  apply keeps_bind; [apply _| |intros _].
  - apply keeps_modify_rel. intros p. apply stays_insert. intros _. by rewrite Hb.
  - apply keeps_bind; [apply _|by keeps_tac|intros _]. case_match; [|by keeps_tac].
    apply keeps_update. intros p o Ho r p'. cbn beta. destruct (Nat.ltb _ _); intros [= _ <-]; [done|].
    by eapply stays_set.
Qed.

Lemma stays_insertBlockTxs h i value txs : Keeps stays table (insertBlockTxs_loop h i value txs).
Proof.
  revert i value. induction txs as [|tx txs IH]; intros i value; cbn [insertBlockTxs_loop]; [keeps_tac|].
  case_match; [|apply IH]. apply keeps_bind; [apply _|keeps_tac|intros _; apply IH].
Qed.

Lemma stays_removeOrphan h height : Keeps stays table (removeOrphan h height).
Proof. unfold removeOrphan. keeps_tac. Qed.

Lemma stays_acceptBlock interval now db t :
  (∀ blk hex, decodeBlock db (blkId_ t) = Done (blk, hex) → bbody (BlockHash blk) = blk) →
  Keeps stays table (acceptBlock interval now db t).
Proof.
  intros Hb. unfold acceptBlock. intros p r p'. destruct (decodeBlock db (blkId_ t)) as [[blk hex]|e] eqn:E.
  - rewrite (bind_Done (lift_outcome (Done _)) _ p _ p eq_refl). revert p r p'.
    change (Keeps stays table (insertBlock interval now blk (blkHeight_ t) (Z.quot (i32 (Z.of_nat (length hex))) 2) (maxBlkTimestamp_ t) ;;
      insertBlockTxs blk ;; removeOrphan (BlockHash blk) (blkHeight_ t) ;;
      setBlocks (with_block_time (<[(maxBlkTimestamp_ t, blkHeight_ t) := ToString (BlockHash blk)]>)) ;;
      setCurrBlockHeight (blkHeight_ t) ;; notifyBlock now NOTIFY_EVENT_BLOCK_ACCEPT (BlockHash blk) (blkHeight_ t) ;;
      mret (ToString (BlockHash blk)))).
    apply keeps_bind; [apply _|by eapply stays_insertBlock, Hb|intros _].
    apply keeps_bind; [apply _|apply stays_insertBlockTxs|intros _].
    apply keeps_bind; [apply _|apply stays_removeOrphan|intros _]. unfold setCurrBlockHeight, notifyBlock. keeps_tac.
  - rewrite (bind_Raise (lift_outcome (Raise e)) _ p e p eq_refl). by intros [= _ <-].
Qed.

Lemma stays_rejectBlock now db t : Keeps stays table (rejectBlock now db t).
Proof.
  unfold rejectBlock. apply keeps_bind; [apply _|by keeps_tac|intros [blk hex]].
  apply keeps_bind; [apply _|by keeps_tac|intros p]. apply keeps_bind; [apply _|by keeps_tac|intros _].
  apply keeps_bind; [apply _|by keeps_tac|intros _].
  apply keeps_update. intros q o Ho r q'. cbn beta.
  rewrite (bind_Done (setBlocks _) _ q tt (with_blks (with_block (<[BlockHash blk := set_orphan true o]>) (blks q)) q) eq_refl).
  intros Hr. etrans; [by eapply (stays_set (kv_block (blks q)) _ _ (set_orphan true o))|].
  revert Hr. match goal with |- ?m ?s = _ → _ => enough (Keeps stays table m) as Hk by apply Hk end.
  apply keeps_bind; [apply _|by keeps_tac|intros _]. apply keeps_bind; [apply _| |intros _; unfold setCurrBlockHeight, notifyBlock; keeps_tac].
  unfold unlinkBlock. case_match; [|keeps_tac]. apply keeps_update. intros p1 prev Hp r1 p2. cbn beta.
  unfold assertM. case_match; [|by intros [= _ <-]].
  rewrite (bind_Done (mret tt) _ p1 tt p1 eq_refl). intros [= _ <-]. by eapply stays_set.
Qed.

(** ** The whole handler *)

Abbreviation table_of := (λ w : whole, kv_block (blks (core w))).

Lemma keeps_core {A} (m : M parser A) : Keeps stays table m → Keeps stays table_of (on_core m).
Proof.
  intros Hm w r w'. unfold on_core, zoom. destruct (m (core w)) as [r1 p] eqn:E. intros [= _ <-]. by apply (Hm _ _ _ E).
Qed.
Lemma keeps_txs (m : M txs_state unit) : Keeps stays table_of (on_txs m).
Proof.
  intros w r w'. unfold on_txs, on_core, zoom. destruct (m (txs (core w))) as [r1 x]. intros [= _ <-]. done.
Qed.

Lemma keeps_recognize c stop l : Keeps stays table_of (recognize_loop c stop l).
Proof.
  induction l as [|h l IH]; cbn [recognize_loop]; [keeps_tac|]. apply keeps_bind; [apply _|keeps_tac|intros w].
  assert (∀ (A : Type) (r : option A), Keeps stays table_of (kv_get r)) as Hg.
  { intros A [x|]; [apply keeps_ret|apply keeps_raise]; apply _. }
  case_match; [keeps_tac|]. apply keeps_bind; [apply _|apply Hg|intros ?]. apply keeps_bind; [apply _|apply Hg|intros ?].
  apply keeps_bind; [apply _|unfold recordBlock; keeps_tac|done].
Qed.

Lemma stays_handleRow c varargs begin interval now db t :
  (∀ blk hex, decodeBlock db (blkId_ t) = Done (blk, hex) → bbody (BlockHash blk) = blk) →
  Keeps stays table_of (handleRow c varargs begin interval now db t).
Proof.
  intros Hb. unfold handleRow. case_match; [keeps_tac|]. apply keeps_bind; [apply _| |intros _; apply keeps_txs].
  unfold dispatch. case_match; [apply keeps_txs|]. case_match; [|case_match; [apply keeps_txs|case_match; [|keeps_tac]]].
  - apply keeps_bind; [apply _| |intros _; apply keeps_txs]. case_match; [|keeps_tac].
    apply keeps_bind; [apply _|by apply keeps_core, stays_acceptBlock|intros _].
    unfold recognizeBlocks. apply keeps_bind; [apply _|keeps_tac|intros w].
    apply keeps_bind; [apply _|keeps_tac|intros kvs]. apply keeps_recognize.
  - apply keeps_bind; [apply _| |intros _; apply keeps_txs]. case_match; [|keeps_tac].
    apply keeps_core, stays_rejectBlock.
Qed.

(** Every event whose blocks are what their hashes stand for keeps the time
    stamps. *)
Lemma stamped_events c varargs begin interval l w w' :
  (∀ db now t blk hex, Handled db now t ∈ l → decodeBlock db (blkId_ t) = Done (blk, hex) → bbody (BlockHash blk) = blk) →
  run_events c varargs begin interval l w = (Done tt, w') → stamped w → stamped w'.
Proof.
  intros Hl Hr. enough (stays (table_of w) (table_of w')) as Hs by exact Hs. revert Hr.
  enough (Keeps stays table_of (run_events c varargs begin interval l)) as Hk by apply Hk. unfold run_events.
  apply keeps_forM_in; [apply _|]. intros [db now t|] Hin; cbn [run_event].
  - apply stays_handleRow. intros blk hex. by apply (Hl db now).
  - by apply keeps_modify; [apply _|].
Qed.
End stamps.
