(* ===== verification/Log2Init.v ===== *)
(** * The start of log2producer (src/jiexi/src/Log2Producer.cc [init],
      [initLog2])

    log2producer keeps neither the chain nor the time stamps on disk: it drops
    what it had not finished, waits until tparser has handled all it published,
    and reads the last block and the recent time stamps from tparser's store. *)
From S2P Require Import Prelude Tx Bytes Text Serialize LogFiles Log1 BlockTs MemRepo Db Log2 Ledger ParserTx ParserBlock KVDB RecognizeBlock TxLogs.

Section init.
Context `{Hashing}.
Variables (beginHeight : Z) (beginHash : uint256).   (** log2.begin.block.* *)

(** the ids of the rows that are left, and the largest *)
Definition kept_ids (ids : list Z) (rows : list txlog) : list Z :=
  (filter (λ x : Z * txlog, batch_id x.2 ≠ -1) (zip ids rows)).*1.
Definition last_row_id (ids : list Z) : Z := foldr Z.max 0 ids.

(** [90_tparser_txlogs_offset_id] *)
Definition consumed (w : whole) : Z :=
  match kv_meta (tables (txs (core w))) !! offset_key with Some value => atoi64 value | None => 0 end.

(** the block to go on from *)
Definition begin_block (lastTxlogs2Id : Z) (w : whole) : outcome (Z * uint256) :=
  if 0 <? lastTxlogs2Id then
    kvs ← range (height_store (blks (core w))) (lit "10_9999999999") (lit "10_0000000000") 1 0;
    match kvs with
    | [] => Raise Undefined
    | (key, value) :: _ => h ← substr_from key 3; Done (atoi h, SetHex value)
    end
  else Done (beginHeight, beginHash).

(** the time stamps of the last blocks *)
Definition load_stamp (w : whole) (kv : bytes * bytes) : M BlockTimestamp unit :=
  o ← kv_get (kv_block (blks (core w)) !! SetHex kv.2);
  h ← lift_outcome (substr_from kv.1 3);
  pushBlock (atoi h) (bo_timestamp o).
Definition load_stamps (height : Z) (w : whole) : M BlockTimestamp unit :=
  kvs ← lift_outcome (range (height_store (blks (core w))) (height_key (i32 (height - 2016 * 2)))
    (lit "10_9999999999") 10000 0);
  forM kvs (load_stamp w).

(** [ids] are the ids of the rows of 0_txlogs2. *)
Definition initLog2 (ids : list Z) (w : whole) : M Log2Producer unit :=
  s ← get;
  on_db drop_unfinished ;;
  let lastTxlogs2Id := last_row_id (kept_ids ids (txlogs2 (cur (db_ s)))) in
  (if consumed w =? lastTxlogs2Id then mret tt else raise (Throw "please wait util 'tparser' catch up")) ;;
  b ← lift_outcome (begin_block lastTxlogs2Id w);
  (if (b.2 =? 0) || (b.1 <? 0) then raise (Throw "invalid log2 latest block") else mret tt) ;;
  loadMemrepoTxs ;;
  zoom blkTs_ with_blkTs (load_stamps b.1 w) ;;
  modify (with_curr b.1 b.2).

Definition init (ids : list Z) (w : whole) : M Log2Producer unit :=
  on_db checkMeta ;; initLog2 ids w ;; syncLog1.
End init.
