(* ===== verification/Log2InitFacts.v ===== *)
(** * log2producer starts from tparser's store

    What [initLog2] reads: the last height of the store, and the heights of the
    window of time stamps. *)
From S2P Require Import Prelude Tx Bytes Text Serialize Notify LogFiles Log1 BlockTs MemRepo Db Log2 Ledger ParserTx ParserBlock ParserChain KVDB RecognizeBlock RecognizeFacts TxLogs Log2Init.

(** ** Heights as keys *)

Lemma atoi_pad10 z : 0 ≤ z < 2 ^ 31 → atoi (pad10 z) = z.
Proof.
  intros Hz. assert (height_ok z) as Hok by (unfold height_ok; lia).
  destruct (pad10_facts z Hok) as (Hl & Hd & Hv). unfold atoi, strtol.
  destruct (pad10 z) as [|c s] eqn:E; [done|]. apply Forall_cons in Hd as [Hc Hd].
  pose proof (proj1 (isdigit_iff c) Hc) as Hr.
  assert (skip_space (c :: s) = c :: s) as ->.
  { cbn [skip_space]. by replace (isspace c) with false by (unfold isspace; lia). }
  replace (match c :: s with 45 :: s0 => - digits_val 0 s0 | 43 :: s0 => digits_val 0 s0 | s0 => digits_val 0 s0 end)
    with (digits_val 0 (c :: s)).
  - rewrite Hv. unfold clamp64. rewrite wrapS_id; [lia|done|]. unfold in_s. lia.
  - assert (c ≠ 45 ∧ c ≠ 43) as [H1 H2] by lia. repeat case_match; congruence || lia.
Qed.

Lemma substr_height z : substr_from (height_key z) 3 = Done (pad10 z).
Proof. unfold substr_from, height_key. done. Qed.

(** a negative height sorts before all others *)
Lemma height_key_neg a i : a < 0 → height_ok i → text_le (height_key a) (height_key i).
Proof.
  intros Ha Hi. destruct (pad10_facts i Hi) as (Hl & Hd & _). unfold height_key. rewrite text_le_app.
  unfold pad10 at 1. replace (a <? 0) with true by lia.
  destruct (pad10 i) as [|c s]; [done|]. apply Forall_cons in Hd as [Hc%isdigit_iff _].
  rewrite text_le_cons. left. lia.
Qed.

Lemma height_key_neg_plain a : a < 0 → plain (height_key a).
Proof.
  intros Ha. unfold plain, height_key, pad10. replace (a <? 0) with true by lia.
  assert (Forall digit_ok (replicate (9 - length (fmt_u (Z.abs a))) 48 ++ fmt_u (Z.abs a))) as Hd.
  { apply Forall_app. split; [by apply Forall_replicate|apply fmt_u_digits; lia]. }
  rewrite elem_of_app, elem_of_cons. intros [Hin|[Hin|Hin]]; [vm_compute in Hin; set_solver|done|].
  rewrite Forall_forall in Hd. by apply Hd in Hin.
Qed.

Lemma filter_ext_elem {A} (P Q : A → Prop) `{!∀ x, Decision (P x), !∀ x, Decision (Q x)} (l : list A) :
  (∀ x, x ∈ l → P x ↔ Q x) → filter P l = filter Q l.
Proof.
  induction l as [|x l IH]; intros Hl; [done|]. rewrite !filter_cons, IH by (intros y Hy; apply Hl; by right).
  pose proof (Hl x ltac:(left)). repeat case_decide; tauto.
Qed.

Section ranges.
Context `{Hashing} `{Scripts}.
Variables (cs : list (uint256 * Z)) (X : Z → gset bytes) (T : block_tables).
Hypothesis HB : blocks_of cs X T.
Hypothesis Hne : cs ≠ [].
Hypothesis Hlen : Z.of_nat (length cs) < 2 ^ 31.

Let Hlen' : Z.of_nat (length cs) < 10 ^ 10.
Proof. lia. Qed.

Lemma last_key : lit "10_9999999999" = height_key 9999999999.
Proof. by vm_compute. Qed.
Lemma first_key : lit "10_0000000000" = height_key 0.
Proof. by vm_compute. Qed.

(** any lower bound, by the heights at or above it *)
Lemma heights_from (k : bytes) (e b : nat) :
  Z.of_nat b < 10 ^ 10 → (e ≤ b)%nat →
  (∀ i, height_ok (Z.of_nat i) → text_le k (height_key (Z.of_nat i)) ↔ (e ≤ i)%nat) →
  between k (height_key (Z.of_nat b)) (height_store T) = height_items cs e b.
Proof using All.
  intros Hb He Hk. rewrite <-(heights_between cs X T HB Hlen' e b Hb He). unfold between.
  apply filter_ext_elem. intros [k' v] Hx%elem_of_map_items. cbn [fst].
  assert (height_ok (Z.of_nat b) ∧ height_ok (Z.of_nat e)) as [Hob Hoe] by (unfold height_ok; lia).
  assert (text_le k' (height_key (Z.of_nat b)) → text_le k k' ↔ text_le (height_key (Z.of_nat e)) k') as Hiff; [|tauto].
  intros Hle. apply (store_height cs X T HB Hlen' k' (Z.of_nat b) v Hob Hle) in Hx as (i & c & -> & Hc%lookup_lt_Some & _).
  assert (height_ok (Z.of_nat i)) as Hi by (unfold height_ok; lia).
  rewrite Hk, height_key_le by done. lia.
Qed.

Lemma length_height_items e b : (length (height_items cs e b) ≤ length cs - e)%nat.
Proof. unfold height_items, heights_of. rewrite length_imap, length_drop, length_take. lia. Qed.

Lemma all_items b : (length cs ≤ b)%nat → height_items cs 0 b = imap (λ i c, (height_key (Z.of_nat i), ToString c.1)) cs.
Proof. intros Hb. unfold height_items, heights_of. rewrite drop_0, take_ge by lia. done. Qed.

(** the last height, found from above *)
Lemma last_height h tm cs0 :
  cs = cs0 ++ [(h, tm)] →
  range (height_store T) (lit "10_9999999999") (lit "10_0000000000") 1 0 =
    Done [(height_key (Z.of_nat (length cs0)), ToString h)].
Proof using All.
  intros Ecs. destruct (Z_of_nat_complete 9999999999 ltac:(done)) as [b Eb].
  assert (Z.of_nat b < 10 ^ 10 ∧ (length cs ≤ b)%nat) as [Hb Hcb] by lia.
  rewrite last_key, first_key, Eb. change (height_key 0) with (height_key (Z.of_nat 0)).
  assert (between (height_key (Z.of_nat 0)) (height_key (Z.of_nat b)) (height_store T) = height_items cs 0 b) as Ebt
    by (apply (heights_between cs X T HB Hlen'); lia).
  assert (¬ text_le (height_key (Z.of_nat b)) (height_key (Z.of_nat 0))) as Hnle
    by (rewrite height_key_le by (unfold height_ok; lia); lia).
  pose proof (length_height_items 0 b) as Hl.
  rewrite range_run.
  - rewrite decide_False by done. rewrite decide_False, Ebt.
    + rewrite all_items by done. rewrite Ecs, imap_app. cbn [imap]. rewrite reverse_app. f_equal.
      unfold page. change (Z.to_nat (Z.max 0 0)) with 0%nat. change (Z.to_nat (Z.max 1 (u64 1))) with 1%nat.
      rewrite drop_0. cbn. by rewrite Nat.add_0_r.
    + intros Hnil. destruct (bl_object _ _ _ HB (length cs0) (h, tm)) as (o & Ho & _).
      { by rewrite Ecs, list_lookup_middle. }
      assert (height_store T !! (lit "11_" ++ ToString h) ≠ None) as Hk.
      { unfold height_store. intros E. apply lookup_union_None in E as [_ E].
        eapply (kmap_some (λ h, lit "11_" ++ ToString h) ((λ _, ([] : bytes)) <$> kv_block T) h []); [|exact E].
        cbn [fst] in Ho. by rewrite lookup_fmap, Ho. }
      destruct (height_store T !! (lit "11_" ++ ToString h)) as [v|] eqn:E; [|done].
      unfold from in Hnil. apply (filter_nil_not_elem_of _ _ (lit "11_" ++ ToString h, v)) in Hnil.
      * apply Hnil. by apply elem_of_map_items.
      * apply height_below_block.
  - by apply (height_store_plain cs X T HB Hlen').
  - apply height_key_plain. unfold height_ok. lia.
  - by apply height_key_plain.
  - unfold span. rewrite decide_False, Ebt by done. lia.
Qed.

(** the heights of the window *)
Lemma window_heights (a : Z) :
  - 2 ^ 31 ≤ a < Z.of_nat (length cs) → Z.of_nat (length cs) - a ≤ 10000 →
  range (height_store T) (height_key a) (lit "10_9999999999") 10000 0 =
    Done (imap (λ i c, (height_key (Z.of_nat (Z.to_nat a + i)), ToString c.1)) (drop (Z.to_nat a) cs)).
Proof using All.
  intros Ha Hcs. destruct (Z_of_nat_complete 9999999999 ltac:(done)) as [b Eb].
  assert (Z.of_nat b < 10 ^ 10 ∧ (length cs ≤ b)%nat) as [Hb Hcb] by lia.
  assert (height_ok (Z.of_nat b)) as Hob by (unfold height_ok; lia). rewrite last_key, Eb.
  assert (∀ i, height_ok (Z.of_nat i) → text_le (height_key a) (height_key (Z.of_nat i)) ↔ (Z.to_nat a ≤ i)%nat) as Hk.
  { intros i Hi. destruct (Z.ltb_spec a 0).
    - split; [lia|]. intros _. by apply height_key_neg.
    - rewrite height_key_le; [lia|unfold height_ok; lia|done]. }
  assert (between (height_key a) (height_key (Z.of_nat b)) (height_store T) = height_items cs (Z.to_nat a) b) as Ebt
    by (apply heights_from; [done|lia|done]).
  assert (text_le (height_key a) (height_key (Z.of_nat b))) as Hle by (apply Hk; [done|lia]).
  pose proof (length_height_items (Z.to_nat a) b) as Hl.
  rewrite range_run.
  - rewrite decide_True, Ebt by done. f_equal. unfold page. change (Z.to_nat (Z.max 0 0)) with 0%nat. rewrite drop_0.
    rewrite take_ge.
    + unfold height_items, heights_of. by rewrite (take_ge cs) by lia.
    + rewrite wrapU_id by (unfold in_u; lia). lia.
  - by apply (height_store_plain cs X T HB Hlen').
  - destruct (Z.ltb_spec a 0); [by apply height_key_neg_plain|apply height_key_plain; unfold height_ok; lia].
  - by apply height_key_plain.
  - unfold span. rewrite decide_True, Ebt by done. lia.
Qed.
End ranges.

(** ** The start block and the time stamps *)

Section start.
Context `{Hashing} `{Scripts}.
Variables (beginHeight : Z) (beginHash : uint256).
Implicit Types (w : whole) (cs : list (uint256 * Z)) (X : Z → gset bytes) (b : BlockTimestamp).

Lemma begin_block_run w cs X h tm last :
  blocks_of (cs ++ [(h, tm)]) X (blks (core w)) → in_u 256 h → Z.of_nat (length cs) < 2 ^ 31 - 1 → 0 < last →
  begin_block beginHeight beginHash last w = Done (Z.of_nat (length cs), h).
Proof.
  intros HB Hh Hl Hlast. unfold begin_block. replace (0 <? last) with true by lia.
  rewrite (last_height _ _ _ HB) with (h := h) (tm := tm) (cs0 := cs);
    [|by destruct cs|rewrite length_app; cbn; lia|done].
  cbn [mbind outcome_bind]. rewrite substr_height. cbn [mbind outcome_bind].
  rewrite atoi_pad10, SetHex_ToString by (done || lia). done.
Qed.

(** [times] are the time stamps of the heights from [a] on *)
Record stamps_from (a : nat) (times : list Z) (limit : Z) b : Prop := {
  sf_window i t : blkTimestamps_ b !! i = Some t → ∃ j, i = Z.of_nat (a + j) ∧ times !! j = Some t;
  sf_top : times ≠ [] → is_Some (blkTimestamps_ b !! (Z.of_nat (a + length times) - 1));
  sf_limit : ts_limit_ b = limit;
  sf_max : getMaxTimestamp b = foldr Z.max 0 times }.

Lemma stamps_new a limit : stamps_from a [] limit (newBlockTimestamp limit).
Proof.
  constructor; [|done..]. intros i t Hi. cbn in Hi. by rewrite lookup_empty in Hi.
Qed.

Lemma stamps_push a times limit b t :
  stamps_from a times limit b → 0 < limit < 2 ^ 64 →
  ∃ b', pushBlock (Z.of_nat (a + length times)) t b = (Done tt, b') ∧ stamps_from a (times ++ [t]) limit b'.
Proof.
  intros [Hw Htop <- Hmax] Hl. set (h := Z.of_nat (a + length times)).
  assert (∀ k, is_Some (blkTimestamps_ b !! k) → k < h) as Hlt.
  { intros k [x (j & -> & Hj%lookup_lt_Some)%Hw]. unfold h. lia. }
  destruct (push_window h t b Hlt Hl) as (b' & Hrun & Hsub & Ht & El & Em). exists b'. split; [done|]. constructor.
  - intros i x Hi. eapply lookup_weaken in Hi; [|done]. rewrite lookup_insert in Hi. case_decide as E; simplify_eq.
    + exists (length times). by rewrite list_lookup_middle.
    + apply Hw in Hi as (j & -> & Hj). exists j. split; [done|]. by apply lookup_app_l_Some.
  - intros _. rewrite length_app. cbn [length]. replace (Z.of_nat (a + (length times + 1)) - 1) with h by (unfold h; lia). eauto.
  - done.
  - rewrite Em, Hmax, foldr_app. cbn [foldr]. clear. induction times as [|x times IH]; cbn [foldr]; lia.
Qed.

(** what [initLog2] pushes *)
Definition window_start (height : Z) : nat := Z.to_nat (height - 2016 * 2).

Lemma load_stamps_run w cs X (time : uint256 → Z) (height : Z) :
  blocks_of cs X (blks (core w)) → (∀ h, h ∈ cs.*1 → in_u 256 h) →
  (∀ h o, kv_block (blks (core w)) !! h = Some o → bo_timestamp o = time h) →
  height = Z.of_nat (length cs) - 1 → 0 ≤ height < 2 ^ 31 - 1 →
  ∃ b, load_stamps height w (newBlockTimestamp (2016 * 2)) = (Done tt, b) ∧
    stamps_from (window_start height) ((λ c, time c.1) <$> drop (window_start height) cs) (2016 * 2) b.
Proof.
  intros HB Hr Ht Hh Hb. unfold load_stamps. set (a := height - 2016 * 2).
  assert (i32 a = a) as -> by (apply wrapS_id; [done|unfold in_s, a; lia]).
  rewrite (window_heights cs X _ HB) by (unfold a; destruct cs; simpl in *; lia || done).
  fold a. change (Z.to_nat a) with (window_start height). set (n := window_start height).
  rewrite (bind_Done (lift_outcome (Done _)) _ _ _ (newBlockTimestamp (2016 * 2)) eq_refl).
  set (its := imap _ _). set (times := _ <$> drop n cs).
  destruct (forM_ind (λ l1 b, stamps_from n (take (length l1) times) (2016 * 2) b) (load_stamp w) its
    (newBlockTimestamp (2016 * 2))) as (b & Hrun & Hst).
  - apply stamps_new.
  - intros l1 x l2 b El Hst.
    assert (its !! length l1 = Some x) as Hx by by rewrite El, list_lookup_middle.
    unfold its in Hx. rewrite list_lookup_imap in Hx. apply fmap_Some in Hx as (c & Hc & ->).
    assert (times !! length l1 = Some (time c.1)) as Htm by (unfold times; by rewrite list_lookup_fmap, Hc).
    rewrite lookup_drop in Hc. pose proof (lookup_lt_Some _ _ _ Hc) as Hlt.
    destruct (bl_object _ _ _ HB _ _ Hc) as (o & Ho & _).
    assert (length (take (length l1) times) = length l1) as Hl.
    { rewrite length_take. apply lookup_lt_Some in Htm. lia. }
    destruct (stamps_push n _ (2016 * 2) b (time c.1) Hst ltac:(lia)) as (b' & Hp & Hst').
    exists b'. split.
    + unfold load_stamp. cbn [fst snd].
      rewrite SetHex_ToString by (apply Hr, list_elem_of_fmap; exists c; split; [done|by eapply list_elem_of_lookup_2]).
      rewrite Ho, (bind_Done (kv_get (Some o)) _ b o b eq_refl), substr_height,
        (bind_Done (lift_outcome (Done _)) _ b _ b eq_refl), atoi_pad10 by lia.
      rewrite (Ht _ _ Ho). by rewrite Hl in Hp.
    + rewrite length_app. cbn [length]. rewrite Nat.add_1_r. by rewrite (take_S_r _ _ _ Htm).
  - exists b. split; [done|]. rewrite take_ge in Hst; [done|]. unfold its, times.
    by rewrite length_imap, length_fmap.
Qed.
End start.
