(* ===== verification/ComposeRows.v ===== *)
(** * The rows of log2producer as steps of the parser's view

    A list of rows is legal when the parser, whatever it reads for each of them
    from the tables, takes a legal step.  The lists that the handlers of
    log2producer write are legal on worlds that fit them: rejections leaves
    first, the transactions of a block, and a block taken back. *)
From S2P Require Import Prelude Tx Bytes Text Serialize TxState MemRepo Db Log2 Log2Refine Notify Ledger LedgerSpec LedgerRefine ParserTx ParserBlock ParserRefine.
From S2P Require Import Balances Utxo ParserSpec ParserHistory ParserSteps ParserTables ParserClaims ParserFacts ParserChain.
From S2P Require Import KVDB Codec RecognizeBlock RecognizeFacts BoundedBuffer TxLogs TxLogsFacts ParserMain MainFacts Pipeline.

Definition with_world (w : world) (v : view) : view :=
  {| v_world := w; v_chain := v_chain v; v_orphans := v_orphans v |}.

Section rows.
Context `{Hashing} `{Scripts} (body : uint256 → CTransaction) (C : gset bytes).
Variables (interval : Z).
Implicit Types (w : world) (v : view) (d db : database) (r : txlog) (t : TxLog2) (h g : uint256).

(** the raw text of a transaction *)
Definition hexes h : bytes := EncodeHexTx (body h).
Abbreviation row_step := (row_step body hexes C interval).
Abbreviation tx_step := (ParserSpec.tx_step body hexes C).
Abbreviation tx_fine := (tx_fine body C).
Abbreviation world_ok := (world_ok body C).
Abbreviation spent := (spent body).
Abbreviation work_of := (work_of body).
Abbreviation accept_of := (accept_of body).
Abbreviation reject_of := (reject_of body).

(** ** What the parser reads for a row *)
Definition carries r t : Prop := t = log_row (id_ t) r (hexes (tx_hash r)) (body (tx_hash r)).
(** the raw block a row names is still there *)
Definition serves d db r : Prop := ∀ x, x ∈ raw_blocks d → rb_id x = block_id r →
  getBlockRawHexByBlockId db (block_id r) = Done (rb_hex x).
(** its rows can be read back and logged *)
Definition fit_row h : Prop := h ≠ 0 ∧ tx_ok (body h).

Inductive rows_legal d : view → list txlog → view → Prop :=
| no_rows v : rows_legal d v [] v
| one_row v r v1 rows v2 :
    fit_row (tx_hash r) → (∀ t db, carries r t → serves d db r → row_step db v t v1) →
    rows_legal d v1 rows v2 → rows_legal d v (r :: rows) v2.

Lemma rows_legal_app d v rows1 v1 rows2 v2 :
  rows_legal d v rows1 v1 → rows_legal d v1 rows2 v2 → rows_legal d v (rows1 ++ rows2) v2.
Proof. induction 1; [done|]. intros. econstructor; eauto. Qed.

Lemma rows_legal_one d v r v' :
  fit_row (tx_hash r) → (∀ t db, carries r t → serves d db r → row_step db v t v') → rows_legal d v [r] v'.
Proof. intros. econstructor; [done|done|constructor]. Qed.

Lemma serves_grows d d' db r : grows d d' → serves d' db r → serves d db r.
Proof. intros [_ Hb] Hs x (y & Hy & E1 & _ & _ & ->)%Hb Hid. apply Hs; congruence. Qed.

Lemma rows_legal_grows d d' v rows v' : grows d d' → rows_legal d v rows v' → rows_legal d' v rows v'.
Proof.
  intros Hg. induction 1 as [|v r v1 rows v2 Hh Hs _ IH]; [constructor|].
  econstructor; [done| |done]. intros t db Ht Hdb. apply Hs; [done|]. by eapply serves_grows.
Qed.

Lemma carries_batch b r t : carries (in_batch b r) t ↔ carries r t.
Proof. done. Qed.

(** Legal rows make legal histories, restarts in between included. *)
Lemma rows_legal_events d v rows v' evs :
  rows_legal d v rows v' → Forall2 carries rows (handled_rows evs) →
  (∀ db now t, Handled db now t ∈ evs → ∀ r, r ∈ rows → carries r t → serves d db r) →
  legal_events body hexes C interval v evs v'.
Proof.
  intros Hl. revert evs. induction Hl as [v|v r v1 rows v2 (Hne & _) Hs _ IH]; intros evs Hc Hdb.
  - apply Forall2_nil_inv_l in Hc. clear Hdb. induction evs as [|[db now t|] evs IH]; [constructor|done|].
    constructor. by apply IH.
  - revert Hc Hdb. induction evs as [|[db now t|] evs IHe]; intros Hc Hdb; [by apply Forall2_nil_inv_r in Hc| |].
    + apply Forall2_cons in Hc as [Hr Hc]. assert (txHash_ t = tx_hash r) as Eh by (by rewrite Hr).
      eapply legal_handled; [apply Hs; [done|]|by rewrite Eh|apply IH; [done|]].
      * apply (Hdb db now t); [left|left|done].
      * intros db' now' t' Hin r' Hr'. apply (Hdb db' now' t'); by right.
    + constructor. apply IHe; [done|]. intros db' now' t' Hin. apply (Hdb db' now' t'). by right.
Qed.

(** ** Single rows *)
Lemma carried_row r t : carries r t → row_of body hexes t ∧ type_ t = log_type r ∧ txHash_ t = tx_hash r ∧
  tx_ t = body (tx_hash r) ∧ blkHeight_ t = block_height r ∧ blkId_ t = block_id r ∧
  maxBlkTimestamp_ t = if log_type r =? LOG2TYPE_TX_ACCEPT then UNCONFIRM_TX_TIMESTAMP else u32 (max_block_timestamp r).
Proof. by intros ->. Qed.

Lemma accept_legal d v ts h :
  fit_row h → ¬ live (v_world v) h → tx_fine h →
  (∀ k, k ∈ points (body h) → live (v_world v) k.1 ∧ ¬ spent (v_world v) k) →
  Z.of_nat (w_work (v_world v) + work_of h) < 2 ^ 31 →
  rows_legal d v [row LOG2TYPE_TX_ACCEPT (-1) (-1) ts h]
    (with_world (accept_of (v_world v) h UNCONFIRM_TX_TIMESTAMP) v).
Proof.
  intros Hh Hn Hf Hp Hw. apply rows_legal_one; [done|].
  intros t db (Hr & Ht & Eh & Etx & Ehe & _ & Em)%carried_row _. cbn [row log_type tx_hash block_height] in *.
  apply row_tx; [by right; left|].
  pose proof (accepts body hexes C (v_world v) t) as Ha. rewrite Eh, Em in Ha. by apply Ha.
Qed.

Lemma confirm_legal d v height id ts h :
  fit_row h → is_Some (w_pool (v_world v) !! h) → IsCoinBase (body h) = false →
  rows_legal d v [row LOG2TYPE_TX_CONFIRM height id ts h]
    (with_world (confirm_of (v_world v) h (height, u32 ts)) v).
Proof.
  intros Hh Hp Hc. apply rows_legal_one; [done|].
  intros t db (Hr & Ht & Eh & Etx & Ehe & _ & Em)%carried_row _. cbn [row log_type tx_hash block_height] in *.
  apply row_tx; [left; by rewrite Etx|].
  pose proof (confirms body hexes C (v_world v) t) as Ha. rewrite Eh, Em, Ehe in Ha. by apply Ha.
Qed.

Lemma unconfirm_legal d v height id ts h c x :
  fit_row h → w_chain (v_world v) = c ++ [(h, x)] →
  rows_legal d v [row LOG2TYPE_TX_UNCONFIRM height id ts h] (with_world (unconfirm_of (v_world v) h c) v).
Proof.
  intros Hh Hp. apply rows_legal_one; [done|].
  intros t db (Hr & Ht & Eh & Etx & Ehe & _ & Em)%carried_row _. cbn [row log_type tx_hash block_height] in *.
  apply row_tx; [by right; right|].
  pose proof (unconfirms body hexes C (v_world v) t c x) as Ha. rewrite Eh in Ha. by apply Ha.
Qed.

Lemma reject_legal d v h :
  fit_row h → is_Some (w_pool (v_world v) !! h) → IsCoinBase (body h) = false →
  (∀ k, spent (v_world v) k → k.1 ≠ h) → Z.of_nat (w_work (v_world v) + work_of h) < 2 ^ 31 →
  rows_legal d v [Log2.reject_row h] (with_world (reject_of (v_world v) h) v).
Proof.
  intros Hh Hp Hc Hs Hw. apply rows_legal_one; [done|].
  intros t db (Hr & Ht & Eh & Etx & _)%carried_row _. cbn [Log2.reject_row row log_type tx_hash] in *.
  apply row_tx; [left; by rewrite Etx|].
  pose proof (rejects body hexes C (v_world v) t) as Ha. rewrite Eh in Ha. by apply Ha.
Qed.

(** ** Rejections, leaves first *)
Definition list_work (l : list uint256) : nat := sum_list (work_of <$> l).

Lemma list_work_cons h hs : list_work (h :: hs) = (work_of h + list_work hs)%nat.
Proof. done. Qed.

Lemma rejects_legal d v hs :
  world_ok (v_world v) → NoDup hs →
  (∀ h, h ∈ hs → is_Some (w_pool (v_world v) !! h) ∧ fit_row h ∧ IsCoinBase (body h) = false) →
  (∀ i h g k, hs !! i = Some h → live (v_world v) g → k ∈ points (body g) → k.1 = h → g ∈ take i hs) →
  Z.of_nat (w_work (v_world v) + list_work hs) < 2 ^ 31 →
  ∃ w', rows_legal d v (Log2.reject_row <$> hs) (with_world w' v) ∧ world_ok w' ∧
    w_chain w' = w_chain (v_world v) ∧ w_work w' = (w_work (v_world v) + list_work hs)%nat ∧
    ∀ g, w_pool w' !! g = if bool_decide (g ∈ hs) then None else w_pool (v_world v) !! g.
Proof.
  intros Hok Hnd. revert v Hok. induction Hnd as [|h hs Hh Hnd IH]; intros v Hok Hin Hl Hw.
  - exists (v_world v). split_and!; [by destruct v; constructor|done|done|cbn; lia|done].
  - destruct (Hin h) as (Hp & Hhm & Hc); [left|]. rewrite list_work_cons in Hw.
    assert (∀ k, spent (v_world v) k → k.1 ≠ h) as Hs.
    { intros k (g & Hg & Hk) E. specialize (Hl 0%nat h g k eq_refl Hg Hk E). by apply elem_of_nil in Hl. }
    assert (world_ok (reject_of (v_world v) h)) as Hok1 by (apply reject_world; [done..|lia]).
    destruct (IH (with_world (reject_of (v_world v) h) v) Hok1) as (w' & Hrows & Hok' & Hch & Hwk & Hpool).
    + intros g Hg. destruct (Hin g) as (? & ? & ?); [by right|]. split; [|done]. cbn [with_world v_world].
      unfold ParserSteps.reject_of. cbn [w_pool]. rewrite lookup_delete_ne; [done|]. by intros ->.
    + intros i h' g k Hi Hg Hk E. apply (live_reject body C) in Hg as [Hg Hne]; [|done..].
      specialize (Hl (S i) h' g k Hi Hg Hk E). cbn [take] in Hl. by apply elem_of_cons in Hl as [|].
    + cbn [with_world v_world]. unfold ParserSteps.reject_of. cbn [w_work]. lia.
    + exists w'. split_and!; [|done|by rewrite Hch| |].
      * rewrite fmap_cons. apply (rows_legal_app d v [_] (with_world (reject_of (v_world v) h) v)); [|done].
        apply reject_legal; [done..|]. lia.
      * rewrite Hwk, list_work_cons. cbn [with_world v_world].
        unfold ParserSteps.reject_of. cbn [w_work]. lia.
      * intros g. rewrite Hpool. cbn [with_world v_world]. unfold ParserSteps.reject_of. cbn [w_pool].
        rewrite lookup_delete. repeat case_bool_decide; repeat case_decide; try done; set_solver.
Qed.

(** ** The transactions of a block *)

(** The row that lets a transaction appear, when the pool does not have it. *)
Lemma appear_legal d v (known : bool) ts h :
  world_ok (v_world v) → fit_row h → tx_fine h → (known = true ↔ is_Some (w_pool (v_world v) !! h)) →
  (known = false → ¬ live (v_world v) h ∧ ∀ k, k ∈ points (body h) → live (v_world v) k.1 ∧ ¬ spent (v_world v) k) →
  Z.of_nat (w_work (v_world v) + work_of h) < 2 ^ 31 →
  ∃ w', rows_legal d v (if known then [] else [row LOG2TYPE_TX_ACCEPT (-1) (-1) ts h]) (with_world w' v) ∧
    world_ok w' ∧ w_chain w' = w_chain (v_world v) ∧ (w_work w' ≤ w_work (v_world v) + work_of h)%nat ∧
    ∀ g, is_Some (w_pool w' !! g) ↔ is_Some (w_pool (v_world v) !! g) ∨ g = h.
Proof.
  intros Hok Hh Hf Hkn Hnew Hw. destruct known.
  - exists (v_world v). split_and!; [by destruct v; constructor|done|done|lia|].
    intros g. split; [by left|]. intros [?| ->]; [done|by apply Hkn].
  - destruct (Hnew eq_refl) as [Hn Hp]. exists (accept_of (v_world v) h UNCONFIRM_TX_TIMESTAMP).
    split_and!; [by apply accept_legal|by apply accept_world|done|done|].
    intros g. cbn [w_pool ParserSteps.accept_of]. rewrite lookup_insert. case_decide as E; [subst; split; [by right|done]|].
    split; [by left|]. by intros [|E'].
Qed.

Definition confirm_row_of (known : uint256 → bool) (height id ts : Z) h : list txlog :=
  (if known h then [] else [row LOG2TYPE_TX_ACCEPT (-1) (-1) ts h]) ++ [row LOG2TYPE_TX_CONFIRM height id ts h].

(** what a list of transactions of one block needs of the world *)
Record txs_fit w (known : uint256 → bool) (l : list uint256) : Prop := {
  tf_distinct : NoDup l;
  tf_fine h : h ∈ l → fit_row h ∧ tx_fine h ∧ IsCoinBase (body h) = false;
  tf_new h : h ∈ l → ¬ confirmed w h;
  tf_known h : h ∈ l → known h = true ↔ is_Some (w_pool w !! h);
  tf_inputs pre h post k : l = pre ++ h :: post → k ∈ points (body h) → confirmed w k.1 ∨ k.1 ∈ pre;
  tf_single h g k : h ∈ l → k ∈ points (body h) → live w g ∨ g ∈ l → k ∈ points (body g) → g = h }.

Lemma txs_fit_tail w w' known h l :
  txs_fit w known (h :: l) → (∀ g, confirmed w' g ↔ confirmed w g ∨ g = h) →
  (∀ g, is_Some (w_pool w' !! g) ↔ is_Some (w_pool w !! g) ∧ g ≠ h) → txs_fit w' known l.
Proof.
  intros [Hd Hf Hn Hk Hi Hs] Hc Hp. apply NoDup_cons in Hd as [Hh Hd]. constructor.
  - done.
  - intros g Hg. apply Hf. by right.
  - intros g Hg [Hcg| ->]%Hc; [by apply (Hn g); [right|]|done].
  - intros g Hg. rewrite Hp, Hk by by right. split; [|by intros []]. split; [done|]. by intros ->.
  - intros pre g post k -> Hg. destruct (Hi (h :: pre) g post k eq_refl Hg) as [Hx|Hx]; rewrite Hc; [by left; left|].
    apply elem_of_cons in Hx as [Hx|Hx]; [left; by right|by right].
  - intros g g' k Hg Hkg Hl Hkg'. apply (Hs g g' k); [by right|done| |done]. destruct Hl as [[Hl|Hl]|Hl].
    + apply Hc in Hl as [Hl| ->]; [left; by left|right; left].
    + apply Hp in Hl as [Hl _]. left. by right.
    + right. by right.
Qed.

Lemma confirm_of_pool w h x g : is_Some (w_pool (confirm_of w h x) !! g) ↔ is_Some (w_pool w !! g) ∧ g ≠ h.
Proof.
  cbn [w_pool ParserSteps.confirm_of]. rewrite lookup_delete. case_decide as E; split; try done; naive_solver.
Qed.
Lemma confirm_of_chain w h x g : confirmed (confirm_of w h x) g ↔ confirmed w g ∨ g = h.
Proof.
  unfold confirmed. cbn [w_chain ParserSteps.confirm_of]. rewrite fmap_app, elem_of_app. csimpl.
  by rewrite list_elem_of_singleton.
Qed.

Lemma txs_fit_head w known h l :
  world_ok w → txs_fit w known (h :: l) → known h = false →
  ¬ live w h ∧ ∀ k, k ∈ points (body h) → live w k.1 ∧ ¬ spent w k.
Proof.
  intros Hok Hf Hkn. assert (h ∈ h :: l) as Hin by left.
  assert (¬ live w h) as Hl.
  { intros [Hc|Hp]; [by apply (tf_new _ _ _ Hf h)|]. apply (tf_known _ _ _ Hf h Hin) in Hp. congruence. }
  split; [done|]. intros k Hk. destruct (tf_inputs _ _ _ Hf [] h l k eq_refl Hk) as [Hc|Hc]; [|by apply elem_of_nil in Hc].
  split; [by left|]. intros (g & Hg & Hkg). pose proof (tf_single _ _ _ Hf h g k Hin Hk (or_introl Hg) Hkg) as ->. done.
Qed.

Lemma confirms_legal d v known height id ts l :
  world_ok (v_world v) → txs_fit (v_world v) known l →
  Z.of_nat (w_work (v_world v) + list_work l) < 2 ^ 31 →
  ∃ w', rows_legal d v (flat_map (confirm_row_of known height id ts) l) (with_world w' v) ∧ world_ok w' ∧
    w_chain w' = w_chain (v_world v) ++ ((λ h, (h, (height, u32 ts))) <$> l) ∧
    (w_work w' ≤ w_work (v_world v) + list_work l)%nat ∧
    ∀ g, is_Some (w_pool w' !! g) ↔ is_Some (w_pool (v_world v) !! g) ∧ g ∉ l.
Proof.
  revert v. induction l as [|h l IH]; intros v Hok Hf Hw.
  - exists (v_world v). split_and!; [by destruct v; constructor|done|by rewrite app_nil_r|cbn; lia|].
    intros g. split; [|by intros []]. split; [done|]. by intros ?%elem_of_nil.
  - rewrite list_work_cons in *. destruct (tf_fine _ _ _ Hf h) as (Hhm & Hfine & Hc); [left|].
    destruct (appear_legal d v (known h) ts h Hok Hhm Hfine (tf_known _ _ _ Hf h ltac:(left))
      (txs_fit_head _ _ _ _ Hok Hf) ltac:(lia)) as (w1 & Hr1 & Hok1 & Hch1 & Hw1 & Hp1).
    assert (is_Some (w_pool w1 !! h)) as Hp by (apply Hp1; by right).
    set (w2 := confirm_of w1 h (height, u32 ts)).
    assert (world_ok w2) as Hok2 by by apply confirm_world.
    destruct (IH (with_world w2 v)) as (w' & Hr' & Hok' & Hch' & Hw' & Hp').
    + done.
    + apply (txs_fit_tail (v_world v) _ known h l Hf); intros g; cbn [with_world v_world]; unfold w2.
      * rewrite confirm_of_chain. unfold confirmed. by rewrite Hch1.
      * rewrite confirm_of_pool, Hp1. naive_solver.
    + cbn [with_world v_world]. change (w_work w2) with (w_work w1). lia.
    + exists w'. split_and!; [|done| | |].
      * cbn [flat_map]. apply (rows_legal_app d v _ (with_world w2 v)); [|done].
        unfold confirm_row_of. apply (rows_legal_app d v _ (with_world w1 v)); [done|].
        by apply (confirm_legal d (with_world w1 v)).
      * rewrite Hch'. cbn [with_world v_world w2 w_chain ParserSteps.confirm_of]. rewrite Hch1, fmap_cons.
        by rewrite <-app_assoc.
      * cbn [with_world v_world] in Hw'. change (w_work w2) with (w_work w1) in Hw'. lia.
      * intros g. rewrite Hp'. cbn [with_world v_world]. unfold w2. rewrite confirm_of_pool, Hp1, not_elem_of_cons. naive_solver.
Qed.

(** ** The block of a coinbase *)

(** the row [id] holds the block *)
Definition holds_block d (id : Z) (blk : CBlock) : Prop := ∃ y,
  y ∈ raw_blocks d ∧ rb_id y = id ∧ rb_hex y = EncodeHexBlock blk.

Lemma serves_block d db r blk :
  serves d db r → holds_block d (block_id r) blk → block_ok blk →
  decodeBlock db (block_id r) = Done (blk, EncodeHexBlock blk).
Proof.
  intros Hs (y & Hy & Hid & Hhex) Hok. unfold decodeBlock. rewrite (Hs y Hy Hid), Hhex. unfold mbind, outcome_bind.
  by rewrite DecodeHexBlk_EncodeHexBlock.
Qed.

(** a new block on top of the view, whatever row brings it *)
Definition block_on_top v (blk : CBlock) (height value : Z) (cb : CTransaction) : Prop :=
  ∀ t, blkHeight_ t = height → ParserChain.block_fits interval (v_chain v) (v_orphans v) blk t value cb.

Lemma coinbase_points cb : IsCoinBase cb = true → points cb = [].
Proof. intros Hc. unfold points. by rewrite Hc. Qed.

Lemma coinbase_legal d v known blk cb height id ts value :
  world_ok (v_world v) → fit_row (TxHash cb) → tx_fine (TxHash cb) → body (TxHash cb) = cb →
  IsCoinBase cb = true → ¬ live (v_world v) (TxHash cb) → known (TxHash cb) = false →
  holds_block d id blk → block_ok blk → block_on_top v blk height value cb →
  Z.of_nat (length (v_chain v)) < 99999999 → Z.of_nat (w_work (v_world v) + work_of (TxHash cb)) < 2 ^ 31 →
  ∃ w', rows_legal d v (confirm_row_of known height id ts (TxHash cb))
      {| v_world := w'; v_chain := v_chain v ++ [(BlockHash blk, u32 ts)];
         v_orphans := without (BlockHash blk) height (v_orphans v) |} ∧ world_ok w' ∧
    w_chain w' = w_chain (v_world v) ++ [(TxHash cb, (height, u32 ts))] ∧
    (w_work w' ≤ w_work (v_world v) + work_of (TxHash cb))%nat ∧
    ∀ g, is_Some (w_pool w' !! g) ↔ is_Some (w_pool (v_world v) !! g).
Proof.
  intros Hok Hh Hf Hb Hc Hn Hkn Hblk Hbok Hfit Hlen Hw.
  assert (¬ is_Some (w_pool (v_world v) !! TxHash cb)) as Hnp by (intros Hp; apply Hn; by right).
  destruct (appear_legal d v false ts (TxHash cb) Hok Hh Hf) as (w1 & Hr1 & Hok1 & Hch1 & Hw1 & Hp1); [done| |done|].
  { intros _. split; [done|]. rewrite Hb, coinbase_points by done. intros k Hk. by apply elem_of_nil in Hk. }
  assert (is_Some (w_pool w1 !! TxHash cb)) as Hp by (apply Hp1; by right).
  exists (confirm_of w1 (TxHash cb) (height, u32 ts)). split_and!; [|by apply confirm_world| |done|].
  - unfold confirm_row_of. rewrite Hkn. apply (rows_legal_app d v _ (with_world w1 v)); [done|].
    apply rows_legal_one; [done|]. intros t db (Hr & Ht & Eh & Etx & Ehe & Eid & Em)%carried_row Hdb.
    cbn [row log_type tx_hash block_height block_id max_block_timestamp] in *.
    pose proof (serves_block _ _ _ _ Hdb Hblk Hbok) as Hdec. cbn [row block_id] in Hdec.
    pose proof (confirms body hexes C w1 t Ht Hr) as Hstep. rewrite Eh, Ehe, Em in Hstep.
    pose proof (row_block body hexes C interval db (with_world w1 v) t _ blk _ value cb
      ltac:(by rewrite Etx, Hb) Ht (Hstep Hp) ltac:(rewrite Eid; exact Hdec) (Hfit t Ehe) (eq_sym Eh) Hlen) as Hrow.
    rewrite Ehe, Em in Hrow. exact Hrow.
  - cbn [w_chain ParserSteps.confirm_of]. by rewrite Hch1.
  - intros g. rewrite confirm_of_pool, Hp1. split; [|intros Hg; split; [by left|]]; [|by intros ->].
    intros [[Hg|Hg] Hne]; done.
Qed.

(** a block, its coinbase first *)
Lemma block_legal d v known blk cb rest height id ts value :
  world_ok (v_world v) → vtx blk = cb :: rest →
  fit_row (TxHash cb) → tx_fine (TxHash cb) → body (TxHash cb) = cb →
  IsCoinBase cb = true → ¬ live (v_world v) (TxHash cb) → known (TxHash cb) = false →
  holds_block d id blk → block_ok blk → block_on_top v blk height value cb →
  Z.of_nat (length (v_chain v)) < 99999999 →
  (∀ w1, (∀ g, confirmed w1 g ↔ confirmed (v_world v) g ∨ g = TxHash cb) →
     (∀ g, is_Some (w_pool w1 !! g) ↔ is_Some (w_pool (v_world v) !! g)) → txs_fit w1 known (TxHash <$> rest)) →
  Z.of_nat (w_work (v_world v) + list_work (TxHash <$> vtx blk)) < 2 ^ 31 →
  ∃ w', rows_legal d v (flat_map (confirm_row_of known height id ts) (TxHash <$> vtx blk))
      {| v_world := w'; v_chain := v_chain v ++ [(BlockHash blk, u32 ts)];
         v_orphans := without (BlockHash blk) height (v_orphans v) |} ∧ world_ok w' ∧
    w_chain w' = w_chain (v_world v) ++ ((λ h, (h, (height, u32 ts))) <$> (TxHash <$> vtx blk)) ∧
    (w_work w' ≤ w_work (v_world v) + list_work (TxHash <$> vtx blk))%nat ∧
    ∀ g, is_Some (w_pool w' !! g) ↔ is_Some (w_pool (v_world v) !! g) ∧ g ∉ TxHash <$> vtx blk.
Proof.
  intros Hok Hv Hh Hf Hb Hc Hn Hkn Hblk Hbok Hfit Hlen Hrest Hw. rewrite Hv, fmap_cons in *.
  rewrite list_work_cons in *.
  destruct (coinbase_legal d v known blk cb height id ts value) as (w1 & Hr1 & Hok1 & Hch1 & Hw1 & Hp1); [done..|lia|].
  assert (txs_fit w1 known (TxHash <$> rest)) as Hf1.
  { apply Hrest; [|done]. intros g. unfold confirmed. rewrite Hch1, fmap_app, elem_of_app. csimpl.
    by rewrite list_elem_of_singleton. }
  set (v1 := {| v_world := w1; v_chain := _; v_orphans := _ |}) in *.
  destruct (confirms_legal d v1 known height id ts (TxHash <$> rest)) as (w' & Hr' & Hok' & Hch' & Hw' & Hp'); [done|done|cbn [v1 v_world]; lia|].
  exists w'. split_and!; [|done| | |].
  - cbn [flat_map]. by apply (rows_legal_app d v _ v1).
  - rewrite Hch'. cbn [v1 v_world]. by rewrite Hch1, <-app_assoc.
  - cbn [v1 v_world] in Hw'. lia.
  - intros g. rewrite Hp'. cbn [v1 v_world]. rewrite Hp1, not_elem_of_cons. split; [|naive_solver].
    intros [Hg Hr]. split_and!; [done| |done]. intros ->. apply Hn. by right.
Qed.

(** ** A block taken back *)
Lemma unconfirms_legal d v height id ts c (x : Z * Z) l :
  world_ok (v_world v) → (∀ h, h ∈ l → fit_row h) → w_chain (v_world v) = c ++ ((λ h, (h, x)) <$> l) →
  ∃ w', rows_legal d v ((λ h, row LOG2TYPE_TX_UNCONFIRM height id ts h) <$> reverse l) (with_world w' v) ∧
    world_ok w' ∧ w_chain w' = c ∧ w_work w' = w_work (v_world v) ∧
    ∀ g, is_Some (w_pool w' !! g) ↔ is_Some (w_pool (v_world v) !! g) ∨ g ∈ l.
Proof.
  revert v. induction l as [|h l IH] using rev_ind; intros v Hok Hh Hch.
  - exists (v_world v). split_and!; [by destruct v; constructor|done|by rewrite Hch, app_nil_r|done|].
    intros g. split; [by left|]. by intros [?|?%elem_of_nil].
  - rewrite fmap_app, app_assoc in Hch. set (c1 := c ++ _) in Hch. set (w1 := unconfirm_of (v_world v) h c1).
    assert (world_ok w1) as Hok1 by exact (unconfirm_world body C _ h c1 x Hok Hch).
    destruct (IH (with_world w1 v)) as (w' & Hr & Hok' & Hch' & Hw & Hp); [done|intros g Hg; apply Hh, elem_of_app; by left|done|].
    exists w'. split_and!; [|done..|].
    + rewrite reverse_snoc, fmap_cons. apply (rows_legal_app d v [_] (with_world w1 v)); [|done].
      apply (unconfirm_legal d v height id ts h c1 x); [apply Hh, elem_of_app; right; by left|done].
    + intros g. rewrite Hp. cbn [with_world v_world w1 w_pool ParserSteps.unconfirm_of].
      rewrite lookup_insert, elem_of_app, list_elem_of_singleton. case_decide as E.
      * subst. split; [by right; right|]. intros _. by left.
      * split; [intros [?|?]; [by left|by right; left]|intros [?|[?|?]]; [by left|by right|done]].
Qed.

Lemma rollback_legal d v blk cb rest height id ts c (x : Z * Z) cs :
  world_ok (v_world v) → vtx blk = cb :: rest → body (TxHash cb) = cb → IsCoinBase cb = true →
  (∀ tx, tx ∈ vtx blk → fit_row (TxHash tx)) →
  w_chain (v_world v) = c ++ ((λ h, (h, x)) <$> (TxHash <$> vtx blk)) →
  holds_block d id blk → block_ok blk →
  v_chain v = cs ++ [(BlockHash blk, u32 ts)] → height = Z.of_nat (length cs) →
  (∀ p, last cs = Some p → hashPrevBlock (header blk) = p.1) →
  (∀ g k, live (v_world v) g → k ∈ points (body g) → k.1 ≠ TxHash cb) →
  Z.of_nat (w_work (v_world v) + work_of (TxHash cb)) < 2 ^ 31 →
  ∃ w', rows_legal d v (rollback_rows blk cb height id ts)
      {| v_world := w'; v_chain := cs; v_orphans := with_one (BlockHash blk) height (v_orphans v) |} ∧ world_ok w' ∧
    w_chain w' = c ∧ w_work w' = (w_work (v_world v) + work_of (TxHash cb))%nat ∧
    ∀ g, is_Some (w_pool w' !! g) ↔ (is_Some (w_pool (v_world v) !! g) ∨ g ∈ TxHash <$> vtx blk) ∧ g ≠ TxHash cb.
Proof.
  intros Hok Hv Hb Hc Hh Hch Hblk Hbok Hcs Hht Hl Hsp Hw.
  destruct (unconfirms_legal d v height id ts c x (TxHash <$> vtx blk)) as (w1 & Hr1 & Hok1 & Hch1 & Hw1 & Hp1);
    [done| |done|].
  { intros h (tx & -> & Htx)%list_elem_of_fmap. by apply Hh. }
  assert (is_Some (w_pool w1 !! TxHash cb)) as Hp.
  { apply Hp1. right. rewrite Hv. left. }
  assert (∀ k, spent w1 k → k.1 ≠ TxHash cb) as Hs1.
  { intros k (g & Hg & Hk). apply (Hsp g k); [|done]. destruct Hg as [Hg|Hg].
    - left. unfold confirmed in *. rewrite Hch, fmap_app, elem_of_app. left. by rewrite Hch1 in Hg.
    - apply Hp1 in Hg as [Hg|Hg]; [by right|left]. unfold confirmed. rewrite Hch, fmap_app, elem_of_app. right.
      by rewrite <-list_fmap_compose, list_fmap_id. }
  exists (reject_of w1 (TxHash cb)). split_and!.
  - unfold rollback_rows. rewrite <-fmap_reverse, <-list_fmap_compose in Hr1.
    apply (rows_legal_app d v _ (with_world w1 v)); [exact Hr1|]. apply rows_legal_one; [apply Hh; rewrite Hv; left|].
    intros t db (Hr & Ht & Eh & Etx & Ehe & Eid & Em)%carried_row Hdb.
    cbn [row log_type tx_hash block_height block_id max_block_timestamp] in *.
    pose proof (serves_block _ _ _ _ Hdb Hblk Hbok) as Hdec. cbn [row block_id] in Hdec.
    pose proof (rejects body hexes C w1 t Ht Hr) as Hstep. rewrite Eh in Hstep.
    pose proof (row_unblock body hexes C interval db (with_world w1 v) t _ blk _ cs
      ltac:(by rewrite Etx, Hb) Ht (Hstep Hp Hs1 ltac:(by rewrite Hw1)) ltac:(rewrite Eid; exact Hdec)
      ltac:(rewrite Em; exact Hcs) ltac:(rewrite Ehe; exact Hht) Hl) as Hrow.
    rewrite Ehe in Hrow. exact Hrow.
  - apply reject_world; [done..|by rewrite Hw1].
  - done.
  - cbn [w_work ParserSteps.reject_of]. by rewrite Hw1.
  - intros g. cbn [w_pool ParserSteps.reject_of]. rewrite lookup_delete, <-Hp1. case_decide as E; [|naive_solver].
    split; [by intros [? [=]]|naive_solver].
Qed.
End rows.
