(* ===== verification/Compose.v ===== *)
(** * log2producer and tparser together

    [agrees] relates the state of log2producer between two lines of log1 to the
    view its rows give the parser: the chain of blocks, the confirmed
    transactions in its order, the pool, and the raw data behind them.
    [line_step] says what the node owes: which lines of log1 may follow in a
    state.  Both speak of the list [blocks] of the blocks on the chain, each with
    its time stamp (the largest so far); the first [base] of them were there
    before log2producer started (the block named in its configuration and those
    below it). *)
From S2P Require Import Prelude Tx Bytes Text Serialize LogFiles Log1 TxState BlockTs MemRepo Db Log2 Log2Refine Ledger ParserTx ParserBlock ParserRefine.
From S2P Require Import Balances Utxo ParserSpec ParserSteps ParserClaims ParserChain RecognizeBlock ParserMain MainFacts Pipeline ComposeRows.

(** ** The chain as a list of blocks *)
Section blocks.
Context `{Hashing}.
Implicit Types (p : CBlock * Z) (l : list (CBlock * Z)) (h : uint256).

Definition block_entries (i : nat) p : list (uint256 * (Z * Z)) :=
  (λ h, (h, (Z.of_nat i, p.2))) <$> (TxHash <$> vtx p.1).
Definition chain_entries l : list (uint256 * (Z * Z)) := concat (imap block_entries l).
Definition in_chain l h : Prop := ∃ p, p ∈ l ∧ h ∈ TxHash <$> vtx p.1.
(** the largest time stamp of a chain *)
Definition times_max l : Z := foldr (λ p m, Z.max (GetBlockTime p.1) m) 0 l.

Lemma chain_entries_snoc l p : chain_entries (l ++ [p]) = chain_entries l ++ block_entries (length l) p.
Proof. unfold chain_entries. rewrite imap_app, concat_app. cbn. by rewrite app_nil_r, Nat.add_0_r. Qed.

Lemma in_chain_app l1 l2 h : in_chain (l1 ++ l2) h ↔ in_chain l1 h ∨ in_chain l2 h.
Proof. unfold in_chain. setoid_rewrite elem_of_app. naive_solver. Qed.
Lemma in_chain_one p h : in_chain [p] h ↔ h ∈ TxHash <$> vtx p.1.
Proof. unfold in_chain. setoid_rewrite list_elem_of_singleton. naive_solver. Qed.

Lemma chain_entries_hashes l h : h ∈ (chain_entries l).*1 ↔ in_chain l h.
Proof.
  induction l as [|p l IH] using rev_ind; [split; [by intros ?%elem_of_nil|by intros (? & ?%elem_of_nil & _)]|].
  rewrite chain_entries_snoc, fmap_app, elem_of_app, IH, in_chain_app, in_chain_one. unfold block_entries.
  by rewrite <-list_fmap_compose, list_fmap_id.
Qed.

Lemma times_max_snoc l p : times_max (l ++ [p]) = Z.max (times_max l) (Z.max (GetBlockTime p.1) 0).
Proof. unfold times_max. induction l as [|q l IH]; cbn [foldr app]; [lia|]. rewrite IH. lia. Qed.
Lemma times_max_ge l p : p ∈ l → GetBlockTime p.1 ≤ times_max l.
Proof.
  unfold times_max. induction l as [|q l IH]; [by intros ?%elem_of_nil|].
  intros [->|Hp]%elem_of_cons; cbn [foldr]; [lia|]. specialize (IH Hp). lia.
Qed.
Lemma times_max_range l : Forall (λ p, in_u 32 (GetBlockTime p.1)) l → in_u 32 (times_max l).
Proof.
  unfold times_max, in_u. induction 1 as [|p l Hp _ IH]; cbn [foldr]; [lia|]. lia.
Qed.

(** The window of time stamps is that of the last blocks, and its maximum that of
    the whole chain. *)
Record clock_ok l (b : BlockTimestamp) : Prop := {
  ck_window i t : blkTimestamps_ b !! i = Some t → 0 ≤ i ∧ ∃ p, l !! Z.to_nat i = Some p ∧ t = GetBlockTime p.1;
  ck_top : is_Some (blkTimestamps_ b !! (Z.of_nat (length l) - 1));
  ck_limit : 0 < ts_limit_ b < 2 ^ 64;
  ck_max : getMaxTimestamp b = times_max l }.
End blocks.

Section compose.
Context `{Hashing} `{Scripts}.
Variables (body : uint256 → CTransaction) (rank : uint256 → nat) (bbody : uint256 → CBlock) (hgt : uint256 → Z).
Variables (C : gset bytes) (interval : Z) (base : nat).
Implicit Types (s : Log2Producer) (st : states) (v : view) (p : CBlock * Z) (blocks : list (CBlock * Z))
  (h g : uint256) (tx : CTransaction) (blk : CBlock) (item : Log1) (work : nat).
Abbreviation inv := (inv body rank).
Abbreviation good := (good body rank).
Abbreviation fit_row := (fit_row body).
Abbreviation tx_fine := (tx_fine body C).
Abbreviation list_work := (list_work body).
Abbreviation work_of := (work_of body).

(** A transaction that can be written, read and handled. *)
Definition fit_tx h : Prop := fit_row h ∧ tx_fine h.

(** ** Blocks that bitcoind accepts, by themselves *)
Record block_sound blk : Prop := {
  bs_ok : block_ok blk;
  bs_hash : in_u 256 (BlockHash blk) ∧ BlockHash blk ≠ 0;
  bs_body : bbody (BlockHash blk) = blk;
  bs_shape : ∃ cb rest, vtx blk = cb :: rest ∧ IsCoinBase cb = true ∧ Forall (λ tx, IsCoinBase tx = false) rest;
  bs_txs tx : tx ∈ vtx blk → good tx ∧ fit_tx (TxHash tx);
  bs_distinct : NoDup (TxHash <$> vtx blk) }.

(** ** The relation *)
Record agrees s st blocks v work : Prop := {
  ag_inv : inv s st;
  ag_base : (0 < base ≤ length blocks)%nat;
  (* the view *)
  ag_world : world_ok body C (v_world v);
  ag_work : (w_work (v_world v) ≤ work)%nat;
  ag_txs : w_chain (v_world v) = chain_entries blocks;
  ag_chain : v_chain v = (λ p, (BlockHash p.1, p.2)) <$> blocks;
  ag_orphans i g : in_u 256 g → ToString g ∈ v_orphans v i → hgt g = i;
  ag_order i h k : (w_chain (v_world v)).*1 !! i = Some h → k ∈ points (body h) → k.1 ∈ take i (w_chain (v_world v)).*1;
  (* the pool and the history *)
  ag_pool h : is_Some (w_pool (v_world v) !! h) ↔ in_pool (memRepo_ s) h;
  ag_fit h : in_pool (memRepo_ s) h → fit_tx h;
  ag_status h : st !! h = Some Confirmed ↔ in_chain (drop base blocks) h;
  (* the blocks *)
  ag_sound i p : blocks !! i = Some p → (base ≤ i)%nat → block_sound p.1 ∧ hgt (BlockHash p.1) = Z.of_nat i;
  ag_linked i p q : blocks !! i = Some p → blocks !! S i = Some q → hashPrevBlock (header q.1) = BlockHash p.1;
  ag_curr : Log2.currBlockHeight_ s = Z.of_nat (length blocks) - 1 ∧
    Some (currBlockHash_ s) = (λ p, BlockHash p.1) <$> last blocks;
  (* the raw data *)
  ag_blocks p : p ∈ drop base blocks → BlockHash p.1 ∈ rb_hash <$> raw_blocks (cur (db_ s));
  ag_rawtxs h : in_chain (drop base blocks) h → is_Some (raw_txs (cur (db_ s)) !! h);
  ag_rows y : y ∈ raw_blocks (cur (db_ s)) →
    rb_hex y = EncodeHexBlock (bbody (rb_hash y)) ∧ rb_height y = hgt (rb_hash y);
  ag_raw_ok y : y ∈ raw_blocks (cur (db_ s)) → block_ok (bbody (rb_hash y)) ∧ BlockHash (bbody (rb_hash y)) = rb_hash y;
  (* the time stamps *)
  ag_clock : clock_ok blocks (blkTs_ s);
  ag_times p : p ∈ blocks → in_u 32 (GetBlockTime p.1);
  ag_stamps i p : blocks !! i = Some p → p.2 = times_max (take (S i) blocks) }.

(** ** What the node owes *)

(** A transaction that bitcoind takes into its pool: unspent outputs of
    transactions the explorer has seen.  (It may still contend with the pool.) *)
Record accept_rules s blocks tx : Prop := {
  ar_good : good tx;
  ar_ordinary : IsCoinBase tx = false;
  ar_fit : fit_tx (TxHash tx);
  ar_new : ¬ in_chain blocks (TxHash tx);
  ar_inputs k : k ∈ points tx → in_chain blocks k.1 ∨ in_pool (memRepo_ s) k.1;
  ar_unspent k h : k ∈ points tx → in_chain blocks h → k ∉ points (body h) }.

(** A block on top of the chain. *)
Record block_rules blocks blk : Prop := {
  br_sound : block_sound blk;
  br_height : hgt (BlockHash blk) = Z.of_nat (length blocks);
  br_few : Z.of_nat (length blocks) < 99999999;
  br_new p : p ∈ blocks → BlockHash p.1 ≠ BlockHash blk;
  br_prev p : last blocks = Some p → hashPrevBlock (header blk) = BlockHash p.1;
  br_txs tx : tx ∈ vtx blk → ¬ in_chain blocks (TxHash tx);
  br_inputs pre tx post k : vtx blk = pre ++ tx :: post → k ∈ points tx →
    in_chain blocks k.1 ∨ k.1 ∈ TxHash <$> pre;
  br_unspent tx k h : tx ∈ vtx blk → k ∈ points tx → in_chain blocks h → k ∉ points (body h);
  br_once t1 t2 k : t1 ∈ vtx blk → t2 ∈ vtx blk → k ∈ points t1 → k ∈ points t2 → t1 = t2;
  br_reward cb : head (vtx blk) = Some cb → ∃ x, GetValueOut cb = Done x ∧
    0 ≤ i64 (x - GetBlockValue interval (Z.of_nat (length blocks))) }.

(** The last block [q] goes, [p] is the last again.  No transaction spends a
    coinbase that young, and the window still has the largest time stamp. *)
Record back_rules s l p (q : CBlock * Z) : Prop := {
  bk_base : (base ≤ S (length l))%nat;
  bk_mature cb h k : head (vtx q.1) = Some cb → in_chain (l ++ [p; q]) h ∨ in_pool (memRepo_ s) h →
    k ∈ points (body h) → k.1 ≠ TxHash cb;
  bk_window : is_Some (blkTimestamps_ (blkTs_ s) !! Z.of_nat (length l));
  bk_stamp : ∃ i, i ≤ Z.of_nat (length l) ∧ blkTimestamps_ (blkTs_ s) !! i = Some p.2 }.

Definition pool_work s : nat := list_work (map_to_list (txs_ (memRepo_ s))).*1.
Definition block_work blk : nat := list_work (TxHash <$> vtx blk).
Definition room work : Prop := Z.of_nat work < 2 ^ 31.

(** The lines of log1 that may come next, with the chain and the bound on the
    work after them. *)
Inductive line_step s blocks work item : list (CBlock * Z) → nat → Prop :=
| accepted tx :
    isAcceptTx item = true → (getTx item).1 = Done tx → accept_rules s blocks tx → room (work + work_of (TxHash tx)) →
    line_step s blocks work item blocks (work + work_of (TxHash tx))
| removed tx :
    isRemoveTx item = true → (getTx item).1 = Done tx → good tx → room (work + pool_work s) →
    line_step s blocks work item blocks (work + pool_work s)
| pushed_block blk :
    isBlock item = true → (getBlock item).1 = Done blk → blockHeight_ item = Z.of_nat (length blocks) →
    block_rules blocks blk → room (work + pool_work s + 2 * block_work blk) →
    line_step s blocks work item (blocks ++ [(blk, times_max (blocks ++ [(blk, 0)]))])
      (work + pool_work s + 2 * block_work blk)
| popped_block b l p q :
    isBlock item = true → (getBlock item).1 = Done b → blocks = l ++ [p; q] →
    blockHeight_ item = Z.of_nat (length l) → BlockHash b = BlockHash p.1 → back_rules s l p q →
    room (work + S (block_work q.1)) →
    line_step s blocks work item (l ++ [p]) (work + S (block_work q.1))
| cleared :
    isClearMemtxs item = true → room (work + pool_work s) → line_step s blocks work item blocks (work + pool_work s).
End compose.

Arguments ag_inv {_ _ _ _ _ _ _ _ _ _ _ _ _} _.
Arguments ag_base {_ _ _ _ _ _ _ _ _ _ _ _ _} _.
Arguments ag_world {_ _ _ _ _ _ _ _ _ _ _ _ _} _.
Arguments ag_work {_ _ _ _ _ _ _ _ _ _ _ _ _} _.
Arguments ag_txs {_ _ _ _ _ _ _ _ _ _ _ _ _} _.
Arguments ag_chain {_ _ _ _ _ _ _ _ _ _ _ _ _} _.
Arguments ag_orphans {_ _ _ _ _ _ _ _ _ _ _ _ _} _.
Arguments ag_order {_ _ _ _ _ _ _ _ _ _ _ _ _} _.
Arguments ag_pool {_ _ _ _ _ _ _ _ _ _ _ _ _} _.
Arguments ag_fit {_ _ _ _ _ _ _ _ _ _ _ _ _} _.
Arguments ag_status {_ _ _ _ _ _ _ _ _ _ _ _ _} _.
Arguments ag_sound {_ _ _ _ _ _ _ _ _ _ _ _ _} _.
Arguments ag_linked {_ _ _ _ _ _ _ _ _ _ _ _ _} _.
Arguments ag_curr {_ _ _ _ _ _ _ _ _ _ _ _ _} _.
Arguments ag_blocks {_ _ _ _ _ _ _ _ _ _ _ _ _} _.
Arguments ag_rawtxs {_ _ _ _ _ _ _ _ _ _ _ _ _} _.
Arguments ag_rows {_ _ _ _ _ _ _ _ _ _ _ _ _} _.
Arguments ag_raw_ok {_ _ _ _ _ _ _ _ _ _ _ _ _} _.
Arguments ag_clock {_ _ _ _ _ _ _ _ _ _ _ _ _} _.
Arguments ag_times {_ _ _ _ _ _ _ _ _ _ _ _ _} _.
Arguments ag_stamps {_ _ _ _ _ _ _ _ _ _ _ _ _} _.
