(* ===== verification/ComposeFacts.v ===== *)
(** * log2producer feeds tparser

    Every line of log1 that the node may write is handled, the rows it publishes
    are legal for the parser, and the two agree again: the lemmas for each kind of
    line. *)
From S2P Require Import Prelude Tx Bytes Text Serialize LogFiles Log1 TxState BlockTs MemRepo Db Log2 Log2Refine Ledger ParserTx ParserBlock ParserRefine.
From S2P Require Import Balances Utxo ParserSpec ParserSteps ParserClaims ParserChain RecognizeBlock ParserMain MainFacts Pipeline ComposeRows Compose.

Section facts.
Context `{Hashing} `{Scripts}.
Variables (body : uint256 → CTransaction) (rank : uint256 → nat) (bbody : uint256 → CBlock) (hgt : uint256 → Z).
Variables (C : gset bytes) (interval : Z) (base : nat) (now : bytes).
Implicit Types (s : Log2Producer) (st : states) (v : view) (p : CBlock * Z) (blocks : list (CBlock * Z))
  (h g : uint256) (tx : CTransaction) (blk : CBlock) (item : Log1) (work : nat) (r : MemTxRepository) (w : world).
Abbreviation inv := (inv body rank).
Abbreviation good := (good body rank).
Abbreviation fit_row := (fit_row body).
Abbreviation tx_fine := (tx_fine body C).
Abbreviation list_work := (list_work body).
Abbreviation work_of := (work_of body).
Abbreviation fit_tx := (fit_tx body C).
Abbreviation agrees := (agrees body rank bbody hgt C base).
Abbreviation rows_legal := (rows_legal body C interval).

(** The raw transaction of every row is stored. *)
Definition backed (d : database) (rows : list txlog) : Prop := ∀ x, x ∈ rows → is_Some (raw_txs d !! tx_hash x).

(** The handler's rows take the parser from [v] on, and the two agree again. *)
Definition follows s v s' blocks' work' : Prop := ∃ st' v' rows,
  agrees s' st' blocks' v' work' ∧ writes rows s s' ∧
  rows_legal (cur (db_ s')) v rows v' ∧ grows (cur (db_ s)) (cur (db_ s')) ∧ backed (cur (db_ s')) rows.

(** ** Outputs by key and by point *)
Lemma key_point tx k : IsCoinBase tx = false → k ∈ tx_keys tx ↔ (hash_ k, position_ k) ∈ points tx.
Proof.
  intros Hc. unfold tx_keys, points. rewrite Hc, !list_elem_of_fmap. unfold in_key. split.
  - intros (i & -> & Hi). by exists i.
  - intros (i & E & Hi). exists i. split; [|done]. destruct k as [a b]. cbn in *. congruence.
Qed.

Lemma conflict_point r tx c :
  pool_ok body rank r → IsCoinBase tx = false →
  conflicting r tx c ↔ in_pool r c ∧ ∃ k, k ∈ points tx ∧ k ∈ points (body c).
Proof.
  intros Hp Hc. pose proof (p_ok _ _ _ Hp) as Hok. split.
  - intros (k & Hk & (t & Ht & Hkt)%(ok_spent _ Hok)). split; [by exists t|].
    rewrite (p_body _ _ _ Hp _ _ Ht). exists (hash_ k, position_ k).
    split; apply key_point; try done. by apply (ok_input _ Hok _ _ Ht).
  - intros ([t Ht] & [a b] & Hk & Hkc). rewrite (p_body _ _ _ Hp _ _ Ht) in Hkc.
    exists {| hash_ := a; position_ := b |}. split; [by apply key_point|].
    apply (ok_spent _ Hok). exists t. split; [done|]. apply key_point; [|done]. by apply (ok_input _ Hok _ _ Ht).
Qed.

(** what a transaction spends exists *)
Lemma point_range tx k : tx_fine (TxHash tx) → body (TxHash tx) = tx → k ∈ points tx →
  0 ≤ k.2 < Z.of_nat (length (vout (body k.1))).
Proof.
  intros Hf Hb (Hc & i & Hi & ->)%elem_of_points. pose proof (fine_ins _ _ _ Hf) as Hok. rewrite Hb in Hok.
  destruct (ins_prev _ _ Hok) as [prev Hp]. cbn [fst snd].
  rewrite (ins_point _ _ _ Hok Hc Hi). pose proof (ins_range _ _ Hok Hc _ Hi).
  apply list_elem_of_lookup in Hi as (j & Hj). destruct (spent_position _ _ _ _ _ Hp Hc Hj) as (o & Ho).
  unfold prev_of in Hp. rewrite Hc in Hp. apply mapM_Some in Hp.
  pose proof (Forall2_lookup_lr _ _ _ _ _ _ Hp Hj Ho) as E. cbn in E.
  apply lookup_lt_Some in E. unfold made_outputs in E. rewrite length_fmap in E. lia.
Qed.

Lemma pool_child r h g k :
  pool_ok body rank r → in_pool r h → in_pool r g → tx_fine g → k ∈ points (body g) → k.1 = h → child r h g.
Proof.
  intros Hp [t Ht] [u Hu] Hf Hk Hkh. pose proof (p_ok _ _ _ Hp) as Hok.
  pose proof (p_body _ _ _ Hp _ _ Ht) as Eb. pose proof (p_body _ _ _ Hp _ _ Hu) as Ebu.
  pose proof (ok_hash _ Hok _ _ Ht) as Eh. pose proof (ok_hash _ Hok _ _ Hu) as Ehu. subst g.
  rewrite Ebu in Hk. pose proof (point_range u k Hf Ebu Hk) as Hr. rewrite Hkh, Eb in Hr.
  exists t. split; [done|]. exists k.2. split; [done|]. apply (ok_spent _ Hok). exists u. split; [done|].
  apply key_point; [by apply (ok_input _ Hok _ _ Hu)|]. cbn. rewrite Eh, <-Hkh. by destruct k.
Qed.

(** ** What [agrees] gives *)
Section agreement.
Variables (s : Log2Producer) (st : states) (blocks : list (CBlock * Z)) (v : view) (work : nat).
Hypothesis Hag : agrees s st blocks v work.

Lemma ag_confirmed h : confirmed (v_world v) h ↔ in_chain blocks h.
Proof. unfold confirmed. rewrite (ag_txs Hag). apply chain_entries_hashes. Qed.
Lemma ag_live h : live (v_world v) h ↔ in_chain blocks h ∨ in_pool (memRepo_ s) h.
Proof. unfold live. by rewrite ag_confirmed, (ag_pool Hag). Qed.
Lemma ag_pool_ok : pool_ok body rank (memRepo_ s).
Proof. apply (i_pool _ _ _ _ (ag_inv Hag)). Qed.

Lemma ag_apart h : in_chain blocks h → in_pool (memRepo_ s) h → False.
Proof.
  intros Hc%ag_confirmed Hp%(ag_pool Hag).
  rewrite (ok_apart _ _ _ (ag_world Hag) _ Hc) in Hp. by destruct Hp.
Qed.

Lemma ag_pool_tx h : in_pool (memRepo_ s) h → IsCoinBase (body h) = false ∧ TxHash (body h) = h ∧ txs_ (memRepo_ s) !! h = Some (body h).
Proof.
  intros [t Ht]. pose proof (p_ok _ _ _ ag_pool_ok) as Hok.
  rewrite (p_body _ _ _ ag_pool_ok _ _ Ht). split; [by apply (ok_input _ Hok _ _ Ht)|].
  split; [by apply (ok_hash _ Hok)|done].
Qed.

(** A confirmed transaction spends confirmed ones. *)
Lemma ag_spends_confirmed g k : in_chain blocks g → k ∈ points (body g) → in_chain blocks k.1.
Proof.
  intros Hg%ag_confirmed Hk. apply ag_confirmed. unfold confirmed in *. apply list_elem_of_lookup in Hg as (i & Hi).
  pose proof (ag_order Hag i g k Hi Hk) as Ht. by apply elem_of_take in Ht as (j & Hj & _);
    eapply list_elem_of_lookup_2.
Qed.

(** Whatever spends a pool transaction is its child in the pool. *)
Lemma ag_child h g k :
  in_pool (memRepo_ s) h → live (v_world v) g → k ∈ points (body g) → k.1 = h → child (memRepo_ s) h g.
Proof.
  intros Hh Hg Hk E. apply ag_live in Hg as [Hg|Hg].
  { destruct (ag_apart h); [|done]. rewrite <-E. by eapply ag_spends_confirmed. }
  eapply (pool_child _ h g k); [apply ag_pool_ok|done|done| |done|done].
  by apply (ag_fit Hag).
Qed.

(** Rejections of the pool in the order the handlers use. *)
Lemma ag_rejects d hs :
  NoDup hs → (∀ h, h ∈ hs → in_pool (memRepo_ s) h) → leaves_first (memRepo_ s) hs →
  room (work + list_work hs) →
  ∃ w', rows_legal d v (Log2.reject_row <$> hs) (with_world w' v) ∧ world_ok body C w' ∧
    w_chain w' = w_chain (v_world v) ∧ (w_work w' ≤ work + list_work hs)%nat ∧
    ∀ g, is_Some (w_pool w' !! g) ↔ in_pool (memRepo_ s) g ∧ g ∉ hs.
Proof.
  intros Hnd Hin Hl Hr. pose proof (ag_work Hag) as Hwk. unfold room in Hr.
  destruct (rejects_legal body C interval d v hs) as (w' & Hrows & Hok & Hch & Hw & Hp).
  - apply (ag_world Hag).
  - done.
  - intros h Hh. specialize (Hin h Hh). split; [by apply (ag_pool Hag)|].
    split; [by apply (ag_fit Hag)|by apply ag_pool_tx].
  - intros i h g k Hi Hg Hk E. apply (Hl i h g Hi). eapply ag_child; [|done..]. by eapply Hin, list_elem_of_lookup_2.
  - lia.
  - exists w'. split_and!; [done..|lia|]. intros g. rewrite Hp, <-(ag_pool Hag).
    case_bool_decide; [split; [by intros [? [=]]|by intros []]|naive_solver].
Qed.
End agreement.

(** ** Lines about the pool *)

Lemma list_work_perm l1 l2 : l1 ≡ₚ l2 → list_work l1 = list_work l2.
Proof. induction 1; rewrite ?list_work_cons; lia. Qed.

Lemma list_work_sub l1 l2 : NoDup l1 → (∀ h, h ∈ l1 → h ∈ l2) → (list_work l1 ≤ list_work l2)%nat.
Proof.
  intros Hnd. revert l2. induction Hnd as [|h l1 Hh Hnd IH]; intros l2 Hin; [cbn; lia|].
  destruct (list_elem_of_split l2 h) as (a & b & ->); [apply Hin; left|].
  rewrite (list_work_perm (a ++ h :: b) (h :: a ++ b)) by by rewrite Permutation_middle.
  rewrite !list_work_cons. specialize (IH (a ++ b)). apply Nat.add_le_mono_l, IH.
  intros g Hg. specialize (Hin g ltac:(by right)). apply elem_of_app in Hin as [?|[?|?]%elem_of_cons];
    apply elem_of_app; [by left| |by right]. by subst.
Qed.

Lemma pool_work_sub s hs : NoDup hs → (∀ h, h ∈ hs → in_pool (memRepo_ s) h) → (list_work hs ≤ pool_work body s)%nat.
Proof.
  intros Hnd Hin. apply list_work_sub; [done|]. intros h Hh. destruct (Hin h Hh) as [t Ht].
  apply list_elem_of_fmap. exists (h, t). split; [done|]. by apply elem_of_map_to_list.
Qed.

Lemma agrees_work s st blocks v work work' : (work ≤ work')%nat → agrees s st blocks v work → agrees s st blocks v work'.
Proof. intros Hw []. constructor; try done. lia. Qed.

Lemma follows_same s st blocks v work work' :
  (work ≤ work')%nat → agrees s st blocks v work → follows s v s blocks work'.
Proof.
  intros Hw Hag. exists st, v, []. split_and!; [by eapply agrees_work| |constructor|by apply grows_refl|].
  - exists 0. by rewrite app_nil_r.
  - intros x Hx. by apply elem_of_nil in Hx.
Qed.

(** The pool changed, the chain did not. *)
Lemma agrees_pool s st blocks v work s' st' w' work' :
  agrees s st blocks v work → inv s' st' → unmoved s s' → grows (cur (db_ s)) (cur (db_ s')) →
  raw_blocks (cur (db_ s')) = raw_blocks (cur (db_ s)) →
  (∀ h, st' !! h = Some Confirmed ↔ st !! h = Some Confirmed) →
  world_ok body C w' → w_chain w' = w_chain (v_world v) → (w_work w' ≤ work')%nat →
  (∀ h, is_Some (w_pool w' !! h) ↔ in_pool (memRepo_ s') h) → (∀ h, in_pool (memRepo_ s') h → fit_tx h) →
  agrees s' st' blocks (with_world w' v) work'.
Proof.
  intros Hag Hi (Ets & Ehe & Eha) [Hg _] Eb Hst Hw Hch Hwk Hp Hf. destruct Hag.
  constructor; cbn [with_world v_world v_chain v_orphans]; rewrite ?Hch, ?Ets, ?Ehe, ?Eha, ?Eb; try done.
  - intros h. by rewrite Hst.
  - intros h Hh. apply Hg. by apply ag_rawtxs.
Qed.

Lemma accept_follows s st blocks v work item tx :
  agrees s st blocks v work → (getTx item).1 = Done tx → accept_rules body rank C s blocks tx →
  0 ≤ currLog1FileOffset_ s → room (work + work_of (TxHash tx)) →
  ∃ s', handleTxAccept now item s = (Done tt, s') ∧ follows s v s' blocks (work + work_of (TxHash tx)).
Proof.
  intros Hag Hget [Hg Hc Hfit Hn Hin Hun] Hoff Hroom. destruct Hfit as [Hhm Hfine].
  pose proof (ag_apart s st blocks v work Hag) as Hap.
  assert (st !! TxHash tx ≠ Some Confirmed) as Hnc.
  { intros Hx%(ag_status Hag). apply Hn. rewrite <-(take_drop base blocks). apply in_chain_app. by right. }
  destruct (handleTxAccept_run body rank now s st item tx (ag_inv Hag) Hget Hg Hc Hnc Hoff)
    as [[_ Hrun]|(Hr & s' & Hrun & Hi & _ & Hm & Hu & (ts & Hw) & Hgr & Hb)].
  { exists s. split; [done|]. eapply follows_same; [|done]. lia. }
  assert (body (TxHash tx) = tx) as Eb by apply Hg.
  assert (¬ live (v_world v) (TxHash tx)) as Hl.
  { intros [Hx|Hx]%(ag_live s st blocks v work Hag); [done|]. apply Hr. by left. }
  assert (∀ k, k ∈ points (body (TxHash tx)) → live (v_world v) k.1 ∧ ¬ ParserSpec.spent body (v_world v) k) as Hpt.
  { rewrite Eb. intros k Hk. split; [by apply (ag_live s st blocks v work Hag), Hin|].
    intros (g & [Hg'|Hg']%(ag_live s st blocks v work Hag) & Hkg); [by apply (Hun k g)|].
    apply Hr. right. exists g. apply conflict_point; [by eapply ag_pool_ok|done|]. split; [done|by exists k]. }
  pose proof (ag_work Hag) as Hwk. unfold room in Hroom.
  exists s'. split; [done|]. eexists _, _, _. split; [|split; [exact Hw|split; [apply accept_legal; try done; lia|]]].
  2:{ split; [done|]. intros r ->%list_elem_of_singleton. apply (Log2Refine.w_pool _ _ _ (i_raw _ _ _ _ Hi)).
    rewrite Hm. unfold in_pool. cbn [clean with_delete with_insert txs_ repo_add row tx_hash]. by rewrite lookup_insert_eq. }
  eapply agrees_pool; try done.
  - intros h. rewrite lookup_insert. case_decide as E; [subst|done]. split; [done|]. by intros ?%Hnc.
  - apply accept_world; [apply Hag|done..|lia].
  - cbn [w_work ParserSteps.accept_of]. lia.
  - intros h. rewrite Hm. cbn [w_pool ParserSteps.accept_of]. unfold in_pool. cbn [clean with_delete with_insert txs_ repo_add].
    rewrite !lookup_insert. case_decide; [done|]. apply (ag_pool Hag).
  - intros h. rewrite Hm. unfold in_pool. cbn [clean with_delete with_insert txs_ repo_add].
    rewrite lookup_insert. case_decide; [subst; done|]. apply (ag_fit Hag).
Qed.

Lemma ag_pool_backed s st blocks v work d hs :
  agrees s st blocks v work → (∀ h, h ∈ hs → in_pool (memRepo_ s) h) → grows (cur (db_ s)) d →
  backed d (Log2.reject_row <$> hs).
Proof.
  intros Hag Hin Hg r (h & -> & Hh)%list_elem_of_fmap. apply (gr_txs _ _ Hg).
  by apply (Log2Refine.w_pool _ _ _ (i_raw _ _ _ _ (ag_inv Hag))), Hin.
Qed.

(** The pool lost [hs], in the order of their rows. *)
Lemma rejects_follow s st blocks v work s' st' hs :
  agrees s st blocks v work → inv s' st' → unmoved s s' → grows (cur (db_ s)) (cur (db_ s')) →
  raw_blocks (cur (db_ s')) = raw_blocks (cur (db_ s)) → writes (Log2.reject_row <$> hs) s s' →
  (∀ k, st' !! k = if bool_decide (k ∈ hs) then None else st !! k) →
  (∃ r', peel (memRepo_ s) hs r' ∧ memRepo_ s' = clean r') → room (work + pool_work body s) →
  follows s v s' blocks (work + pool_work body s).
Proof.
  intros Hag Hi Hu Hgr Hb Hw Hst (r' & Hpeel & Hm) Hroom.
  pose proof (peel_NoDup _ _ _ Hpeel) as Hnd.
  assert (∀ h, h ∈ hs → in_pool (memRepo_ s) h) as Hin by (intros h Hh; by eapply peel_in_pool).
  pose proof (pool_work_sub s hs Hnd Hin) as Hsub. unfold room in *.
  destruct (ag_rejects s st blocks v work Hag (cur (db_ s')) hs) as (w' & Hrows & Hok & Hch & Hwk & Hp); [done..| |unfold room; lia|].
  { eapply peel_leaves_first; [|done]. by apply (p_ok _ _ _ (ag_pool_ok s st blocks v work Hag)). }
  assert (∀ h, in_pool (memRepo_ s') h ↔ in_pool (memRepo_ s) h ∧ h ∉ hs) as Hin'.
  { intros h. rewrite Hm. exact (peel_in body rank _ _ _ h Hpeel). }
  eexists _, _, _. split; [|split; [exact Hw|split; [exact Hrows|split; [done|by eapply ag_pool_backed]]]].
  eapply agrees_pool; try done.
  - intros h. rewrite Hst. case_bool_decide as E; [|done]. split; [done|]. intros Hc%(ag_status Hag).
    destruct (ag_apart s st blocks v work Hag h); [|by apply Hin].
    rewrite <-(take_drop base blocks). apply in_chain_app. by right.
  - lia.
  - intros h. by rewrite Hp, Hin'.
  - intros h [Hh _]%Hin'. by apply (ag_fit Hag).
Qed.

Lemma repo_small s st blocks v work : agrees s st blocks v work → (repo_size (memRepo_ s) ≤ work)%nat.
Proof.
  intros Hag. pose proof (ag_work Hag). pose proof (ok_count _ _ _ (ag_world Hag)).
  assert (repo_size (memRepo_ s) = size (w_pool (v_world v))) as E; [|lia].
  unfold repo_size. rewrite <-!(size_dom (D := gset uint256)). f_equal. apply set_eq. intros h.
  rewrite !elem_of_dom. symmetry. apply (ag_pool Hag).
Qed.

Lemma remove_follows s st blocks v work item tx :
  agrees s st blocks v work → (getTx item).1 = Done tx → good tx →
  0 ≤ currLog1FileOffset_ s → room (work + pool_work body s) →
  ∃ s', handleTxReject now item s = (Done tt, s') ∧ follows s v s' blocks (work + pool_work body s).
Proof.
  intros Hag Hget Hg Hoff Hroom. pose proof (repo_small _ _ _ _ _ Hag). unfold room in Hroom.
  destruct (handleTxReject_run body rank now s st item tx (ag_inv Hag) Hget Hg Hoff ltac:(lia))
    as [[_ Hrun]|(hs & s' & st' & Hrun & Hi & _ & Hp & _ & Hst & Hu & Hw & Hgr & Hb)].
  - exists s. split; [done|]. eapply follows_same; [|done]. lia.
  - exists s'. split; [done|]. by eapply rejects_follow.
Qed.

Lemma clear_follows s st blocks v work :
  agrees s st blocks v work → 0 ≤ currLog1FileOffset_ s → room (work + pool_work body s) →
  ∃ s', clearMempoolTxs now s = (Done tt, s') ∧ follows s v s' blocks (work + pool_work body s).
Proof.
  intros Hag Hoff Hroom. pose proof (repo_small _ _ _ _ _ Hag). unfold room in Hroom.
  destruct (clearMempoolTxs_run body rank now s st (ag_inv Hag) Hoff ltac:(lia))
    as (hs & s' & st' & Hrun & Hi & _ & _ & Hp & _ & Hst & Hu & Hw & Hx & Hb).
  exists s'. split; [done|]. eapply rejects_follow; try done. by apply grows_refl.
Qed.
End facts.
