(* ===== verification/ComposeBlocks.v ===== *)
(** * Blocks from log2producer to tparser

    A block on top of the chain and the last block taken back: the time stamps,
    the transactions and the rows. *)
From S2P Require Import Prelude Tx Bytes Text Serialize LogFiles Log1 TxState BlockTs MemRepo Db Log2 Log2Refine Ledger ParserTx ParserBlock ParserRefine.
From S2P Require Import Balances Utxo ParserSpec ParserSteps ParserClaims ParserChain RecognizeBlock ParserMain MainFacts Pipeline ComposeRows Compose ComposeFacts.

(** ** The window of time stamps *)
Section clock.
Implicit Types (l : list (CBlock * Z)) (p : CBlock * Z) (b : BlockTimestamp).

Lemma clock_below l b : clock_ok l b → ∀ k, is_Some (blkTimestamps_ b !! k) → k < Z.of_nat (length l).
Proof.
  intros Hc k [t Ht]. apply (ck_window _ _ Hc) in Ht as (H0 & p & Hp & _). apply lookup_lt_Some in Hp. lia.
Qed.

Lemma clock_push l b blk x b' :
  clock_ok l b → (∀ p, p ∈ l → in_u 32 (GetBlockTime p.1)) → in_u 32 (GetBlockTime blk) →
  pushBlock (Z.of_nat (length l)) (GetBlockTime blk) b = (Done tt, b') → clock_ok (l ++ [(blk, x)]) b'.
Proof.
  intros Hc Hl Ht Hp. destruct (push_window (Z.of_nat (length l)) (GetBlockTime blk) b) as (b1 & Hrun & Hsub & Htp & El & Em);
    [by apply clock_below|by destruct Hc|]. rewrite Hrun in Hp. injection Hp as <-. destruct Hc as [Hw Htop Hlim Hmax].
  constructor.
  - intros i t Hi. eapply lookup_weaken in Hi; [|done]. rewrite lookup_insert in Hi. case_decide as E; simplify_eq.
    + split; [lia|]. exists (blk, x). by rewrite Nat2Z.id, list_lookup_middle.
    + destruct (Hw _ _ Hi) as (H0 & p & Hpl & ->). split; [done|]. exists p. split; [|done].
      by apply lookup_app_l_Some.
  - rewrite length_app. cbn [length]. replace (Z.of_nat (length l + 1) - 1) with (Z.of_nat (length l)) by lia. eauto.
  - by rewrite El.
  - rewrite times_max_snoc, Em, Hmax. cbn [fst]. unfold in_u in Ht. lia.
Qed.

Lemma clock_pop l p q b b' :
  clock_ok (l ++ [p; q]) b → popBlock b = (Done tt, b') →
  is_Some (blkTimestamps_ b !! Z.of_nat (length l)) →
  (∃ i, i ≤ Z.of_nat (length l) ∧ blkTimestamps_ b !! i = Some (times_max (l ++ [p]))) →
  clock_ok (l ++ [p]) b'.
Proof.
  intros Hc Hp Hlast (i & Hi & Hst). pose proof (clock_below _ _ Hc) as Hlt. destruct Hc as [Hw [t Ht] Hlim Hmax].
  rewrite length_app in Hlt, Ht. cbn [length] in Hlt, Ht.
  replace (Z.of_nat (length l + 2) - 1) with (Z.of_nat (length l) + 1) in Ht by lia.
  set (top := Z.of_nat (length l) + 1) in *. unfold popBlock in Hp. minv. simpl in *.
  assert (erase_last (blkTimestamps_ b) = delete top (blkTimestamps_ b)) as E.
  { rewrite <-(insert_id (blkTimestamps_ b) top t Ht) at 1. rewrite <-insert_delete_eq.
    apply erase_last_insert_max. intros k Hk. rewrite lookup_delete in Hk. case_decide; [by destruct Hk|].
    apply Hlt in Hk. unfold top in *. lia. }
  assert (∀ k t, delete top (blkTimestamps_ b) !! k = Some t →
    0 ≤ k ∧ ∃ p0, (l ++ [p]) !! Z.to_nat k = Some p0 ∧ t = GetBlockTime p0.1) as Hw'.
  { intros k t' [Hne Hk]%lookup_delete_Some. destruct (Hw _ _ Hk) as (H0 & p0 & Hp0 & ->). split; [done|].
    exists p0. split; [|done]. pose proof (Hlt k (ex_intro _ _ Hk)).
    replace (l ++ [p; q]) with ((l ++ [p]) ++ [q]) in Hp0 by by rewrite <-app_assoc.
    rewrite lookup_app_l in Hp0; [done|]. rewrite length_app. cbn. unfold top in *. lia. }
  constructor; cbn [blkTimestamps_ ts_limit_]; rewrite ?E.
  - done.
  - rewrite length_app. cbn [length]. replace (Z.of_nat (length l + 1) - 1) with (Z.of_nat (length l)) by lia.
    rewrite lookup_delete_ne by (unfold top; lia). done.
  - done.
  - unfold getMaxTimestamp. cbn [currMax_]. fold (window_max (delete top (blkTimestamps_ b))).
    assert (delete top (blkTimestamps_ b) !! i = Some (times_max (l ++ [p]))) as Hst'.
    { rewrite lookup_delete_ne by (unfold top; lia). done. }
    pose proof (window_max_ge _ _ _ Hst') as Hge. apply Z.le_antisymm; [|done].
    destruct (foldl_max_ge (zitems (delete top (blkTimestamps_ b))) 0) as (_ & _ & [E0|Hin]).
    + unfold window_max. rewrite E0. unfold times_max. clear. induction (l ++ [p]); cbn [foldr]; lia.
    + unfold window_max. apply list_elem_of_fmap in Hin as ([k t'] & Ek & Hk). rewrite Ek. cbn.
      apply (elem_of_map_items Z.le) in Hk. apply Hw' in Hk as (_ & p0 & Hp0 & ->).
      by eapply times_max_ge, list_elem_of_lookup_2.
Qed.
End clock.

Section facts.
Context `{Hashing} `{Scripts}.
Variables (body : uint256 → CTransaction) (rank : uint256 → nat) (bbody : uint256 → CBlock) (hgt : uint256 → Z).
Variables (C : gset bytes) (interval : Z) (base : nat) (now : bytes).
Implicit Types (s : Log2Producer) (st : states) (v : view) (p : CBlock * Z) (blocks : list (CBlock * Z))
  (h g : uint256) (tx : CTransaction) (blk : CBlock) (item : Log1) (work : nat) (r : MemTxRepository) (w : world).
Abbreviation inv := (inv body rank).
Abbreviation good := (good body rank).
Abbreviation tx_fine := (tx_fine body C).
Abbreviation list_work := (list_work body).
Abbreviation work_of := (work_of body).
Abbreviation fit_tx := (fit_tx body C).
Abbreviation agrees := (agrees body rank bbody hgt C base).
Abbreviation rows_legal := (rows_legal body C interval).
Abbreviation follows := (follows body rank bbody hgt C interval base).
Abbreviation block_sound := (block_sound body rank bbody C).
Abbreviation block_rules := (block_rules body rank bbody hgt C interval).

(** ** The transactions of a sound block *)
Section sound.
Variables (blk : CBlock) (Hs : block_sound blk).

Lemma sound_body tx : tx ∈ vtx blk → body (TxHash tx) = tx.
Proof. intros Htx. apply (bs_txs _ _ _ _ _ Hs tx Htx). Qed.
Lemma sound_hash h : h ∈ TxHash <$> vtx blk → body h ∈ vtx blk ∧ TxHash (body h) = h.
Proof. intros (tx & -> & Htx)%list_elem_of_fmap. by rewrite sound_body. Qed.
Lemma sound_others h : in_block blk h ↔ h ∈ TxHash <$> vtx blk ∧ IsCoinBase (body h) = false.
Proof.
  unfold in_block, others. rewrite !list_elem_of_fmap. split.
  - intros (tx & -> & [Hc Htx]%list_elem_of_filter). rewrite sound_body by done. split; [by exists tx|done].
  - intros [(tx & -> & Htx) Hc]. exists tx. split; [done|]. rewrite sound_body in Hc by done. by apply list_elem_of_filter.
Qed.
Lemma sound_time : in_u 32 (GetBlockTime blk).
Proof. destruct (bs_ok _ _ _ _ _ Hs) as [Hh _]. apply Hh. Qed.
End sound.

Lemma list_work_length (l : list uint256) : (length l ≤ list_work l)%nat.
Proof. induction l as [|h l IH]; [done|]. rewrite list_work_cons. unfold ParserSpec.work_of. cbn [length]. lia. Qed.

(** ** A block on top *)
Section push.
Variables (s : Log2Producer) (st : states) (blocks : list (CBlock * Z)) (v : view) (work : nat) (blk : CBlock).
Hypothesis (Hag : agrees s st blocks v work) (Hr : block_rules blocks blk).
Let Hs : block_sound blk := br_sound _ _ _ _ _ _ _ _ Hr.
Abbreviation known := (λ h, isExist h (memRepo_ s)).

Lemma push_known h : known h = true ↔ in_pool (memRepo_ s) h.
Proof. unfold isExist. apply bool_decide_eq_true. Qed.

Lemma push_fits : Log2Refine.block_fits body rank st (memRepo_ s) blk.
Proof.
  assert (∀ tx, tx ∈ others blk → IsCoinBase tx = false ∧ tx ∈ vtx blk) as Ho by by intros tx ?%list_elem_of_filter.
  constructor.
  - apply Forall_forall. intros tx Htx. by apply (bs_txs _ _ _ _ _ Hs).
  - apply Hs.
  - intros tx Htx Hc%(ag_status Hag). apply (br_txs _ _ _ _ _ _ _ _ Hr tx Htx).
    rewrite <-(take_drop base blocks). apply in_chain_app. by right.
  - intros t1 t2 k [Hc1 H1]%Ho [Hc2 H2]%Ho Hk1 Hk2. apply (br_once _ _ _ _ _ _ _ _ Hr t1 t2 (hash_ k, position_ k)); [done..| |];
      by apply key_point.
  - intros tx k [Hc Htx]%Ho Hk Hp. apply sound_others; [done|].
    apply list_elem_of_split in Htx as (pre & post & E). apply (key_point _ _ Hc) in Hk.
    destruct (br_inputs _ _ _ _ _ _ _ _ Hr pre tx post _ E Hk) as [Hx|Hx]; cbn in Hx.
    { by destruct (ag_apart body rank bbody hgt C base s st blocks v work Hag (hash_ k)). }
    split; [rewrite E, fmap_app; apply elem_of_app; by left|].
    by apply (ag_pool_tx body rank bbody hgt C base s st blocks v work Hag).
Qed.

Lemma push_on_top w cb x :
  head (vtx blk) = Some cb → GetValueOut cb = Done x → 0 ≤ i64 (x - GetBlockValue interval (Z.of_nat (length blocks))) →
  block_on_top interval (with_world w v) blk (Z.of_nat (length blocks)) x cb.
Proof.
  intros Hcb Hx Hrew t Ht. pose proof (ag_chain Hag) as Ech. cbn [with_world v_chain v_orphans].
  constructor; rewrite ?Ht; [by rewrite Ech, length_fmap|by apply Hs| | | |done|done].
  - rewrite Ech, <-list_fmap_compose. intros (p & E & Hp)%list_elem_of_fmap. cbn in E.
    by apply (br_new _ _ _ _ _ _ _ _ Hr p Hp).
  - intros i Hi Hin. apply Hi. rewrite <-(br_height _ _ _ _ _ _ _ _ Hr). symmetry.
    apply (ag_orphans Hag); [apply Hs|done].
  - intros c. rewrite Ech, fmap_last. destruct (last blocks) as [p|] eqn:El; [|done]. intros [= <-].
    by apply (br_prev _ _ _ _ _ _ _ _ Hr).
Qed.

(** the rest of the block, after its coinbase *)
Lemma push_txs_fit Cs s' st' cb rest w1 w2 :
  block_accepted body rank s st blk (Z.of_nat (length blocks)) s' st' Cs → vtx blk = cb :: rest → IsCoinBase cb = true →
  Forall (λ tx, IsCoinBase tx = false) rest → w_chain w1 = w_chain (v_world v) →
  (∀ g, is_Some (w_pool w1 !! g) ↔ in_pool (memRepo_ s) g ∧ g ∉ Cs) →
  (∀ g, confirmed w2 g ↔ confirmed w1 g ∨ g = TxHash cb) →
  (∀ g, is_Some (w_pool w2 !! g) ↔ is_Some (w_pool w1 !! g)) →
  txs_fit body C w2 known (TxHash <$> rest).
Proof.
  intros Hba Hv Hcb Hrest Hch1 Hp1 Hc2 Hp2. rewrite Forall_forall in Hrest.
  assert (∀ g, confirmed w2 g ↔ in_chain blocks g ∨ g = TxHash cb) as Hc.
  { intros g. rewrite Hc2. unfold confirmed at 1. rewrite Hch1.
    by rewrite <-(ag_confirmed body rank bbody hgt C base s st blocks v work Hag). }
  assert (∀ h, h ∈ TxHash <$> rest → body h ∈ rest ∧ body h ∈ vtx blk ∧ TxHash (body h) = h) as Hin.
  { intros h (tx & -> & Htx)%list_elem_of_fmap. assert (tx ∈ vtx blk) by (rewrite Hv; by right).
    by rewrite (sound_body blk Hs). }
  pose proof (bs_distinct _ _ _ _ _ Hs) as Hnd. rewrite Hv, fmap_cons in Hnd. apply NoDup_cons in Hnd as [Hcbn Hnd].
  constructor.
  - done.
  - intros h (Hh & Hhv & E)%Hin. rewrite <-E. destruct (bs_txs _ _ _ _ _ Hs _ Hhv) as [Hg [? ?]].
    split_and!; [done|done|]. rewrite (g_body _ _ _ Hg). by apply Hrest.
  - intros h Hh [Hx| ->]%Hc; [|done]. apply Hin in Hh as (_ & Hh & E). apply (br_txs _ _ _ _ _ _ _ _ Hr _ Hh).
    by rewrite E.
  - intros h Hh. rewrite push_known, Hp2, Hp1. split; [|by intros []]. intros Hx. split; [done|]. intros HC.
    apply (ba_evicted _ _ _ _ _ _ _ _ _ Hba) in HC as (_ & Hn & _). apply Hn, sound_others; [done|].
    destruct (Hin h Hh) as (Hh1 & Hh2 & E). split; [rewrite <-E; by apply list_elem_of_fmap_2|by apply Hrest].
  - intros pre h post k E Hk. apply fmap_app_inv in E as (pl & ql & -> & E & ->).
    symmetry in E. apply fmap_cons_inv in E as (tx & post' & -> & _ & ->).
    rewrite (sound_body blk Hs) in Hk by (rewrite Hv; set_solver). rewrite Hc.
    destruct (br_inputs _ _ _ _ _ _ _ _ Hr (cb :: pl) tx post' k Hv Hk) as [Hx|Hx]; [by left; left|].
    rewrite fmap_cons in Hx. apply elem_of_cons in Hx as [Hx|Hx]; [left; by right|by right].
  - intros h g k (Hh & Hhv & Eh)%Hin Hk Hl Hkg.
    assert (g ∈ TxHash <$> vtx blk → g = h) as Hsame.
    { intros (Hg & E)%(sound_hash blk Hs). rewrite <-E, <-Eh. f_equal.
      by apply (br_once _ _ _ _ _ _ _ _ Hr (body g) (body h) k). }
    destruct Hl as [[Hl|Hl]|Hl].
    + apply Hc in Hl as [Hl| ->].
      * by destruct (br_unspent _ _ _ _ _ _ _ _ Hr _ k g Hhv Hk Hl).
      * apply Hsame. rewrite Hv. by left.
    + apply Hp2, Hp1 in Hl as [Hp Hn]. destruct (decide (g ∈ TxHash <$> vtx blk)) as [Hb|Hb]; [by apply Hsame|].
      destruct (ba_free _ _ _ _ _ _ _ _ _ Hba (body h) g).
      * apply list_elem_of_filter. split; [by apply Hrest|done].
      * apply (conflict_point body rank (memRepo_ s') (body h) g (i_pool _ _ _ _ (ba_inv _ _ _ _ _ _ _ _ _ Hba)) (Hrest _ Hh)).
        split; [|by exists k]. apply (ba_pool _ _ _ _ _ _ _ _ _ Hba). split_and!; [done..|].
        by intros [? _]%(sound_others blk Hs).
    + apply Hsame. rewrite Hv, fmap_cons. by right.
Qed.

Abbreviation top := (blk, times_max (blocks ++ [(blk, 0)])).

Lemma push_status Cs s' st' k :
  block_accepted body rank s st blk (Z.of_nat (length blocks)) s' st' Cs →
  st' !! k = Some Confirmed ↔ in_chain (drop base (blocks ++ [top])) k.
Proof.
  intros Hba. rewrite drop_app_le by (pose proof (ag_base Hag); lia). rewrite in_chain_app, in_chain_one, <-(ag_status Hag).
  rewrite (ba_status _ _ _ _ _ _ _ _ _ Hba). case_bool_decide as Hk; [split; [by right|done]|].
  case_bool_decide as HC; [|naive_solver]. split; [done|]. intros [Hx|Hx]; [|done].
  apply (ba_evicted _ _ _ _ _ _ _ _ _ Hba) in HC as (Hp & _).
  apply (i_unconfirmed _ _ _ _ (ag_inv Hag)) in Hp. congruence.
Qed.

Lemma push_raw_ok s' id y :
  stores blk (Z.of_nat (length blocks)) id (cur (db_ s)) (cur (db_ s')) → y ∈ raw_blocks (cur (db_ s')) →
  block_ok (bbody (rb_hash y)) ∧ BlockHash (bbody (rb_hash y)) = rb_hash y.
Proof.
  intros [_ Hold _] Hy. destruct (Hold y Hy) as [(x & Hx & (_ & <- & _ & _))|(-> & _ & _)]; [by apply (ag_raw_ok Hag)|].
  rewrite (bs_body _ _ _ _ _ Hs). split; [apply Hs|done].
Qed.

(** the raw data after the handler *)
Lemma push_raw Cs s' st' id :
  block_accepted body rank s st blk (Z.of_nat (length blocks)) s' st' Cs →
  stores blk (Z.of_nat (length blocks)) id (cur (db_ s)) (cur (db_ s')) →
  (∀ y, y ∈ raw_blocks (cur (db_ s')) → rb_hex y = EncodeHexBlock (bbody (rb_hash y)) ∧ rb_height y = hgt (rb_hash y)) ∧
  (∀ p, p ∈ drop base (blocks ++ [top]) → BlockHash p.1 ∈ rb_hash <$> raw_blocks (cur (db_ s'))) ∧
  (∀ h, in_chain (drop base (blocks ++ [top])) h → is_Some (raw_txs (cur (db_ s')) !! h)) ∧
  holds_block (cur (db_ s')) id blk.
Proof.
  intros Hba [[Hgt Hgb] Hold (y & Hy & Hid & Hyh & Hyt)].
  assert (∀ y, y ∈ raw_blocks (cur (db_ s')) → rb_hex y = EncodeHexBlock (bbody (rb_hash y)) ∧ rb_height y = hgt (rb_hash y)) as Hrows.
  { intros z Hz. destruct (Hold z Hz) as [(x & Hx & (_ & <- & <- & <-))|(-> & -> & ->)]; [by apply (ag_rows Hag)|].
    rewrite (bs_body _ _ _ _ _ Hs). split; [done|]. symmetry. by apply Hr. }
  rewrite drop_app_le by (pose proof (ag_base Hag); lia). split_and!.
  - done.
  - intros p [Hp| ->%list_elem_of_singleton]%elem_of_app.
    + apply (ag_blocks Hag) in Hp. apply list_elem_of_fmap in Hp as (x & -> & Hx).
      destruct (Hgb x Hx) as (z & Hz & _ & -> & _). by apply list_elem_of_fmap_2.
    + cbn [fst]. rewrite <-Hyh. by apply list_elem_of_fmap_2.
  - intros h [Hx|Hx]%in_chain_app; [by apply Hgt, (ag_rawtxs Hag)|]. apply in_chain_one in Hx. cbn in Hx.
    apply list_elem_of_fmap in Hx as (tx & -> & Htx). by apply (ba_raw _ _ _ _ _ _ _ _ _ Hba).
  - exists y. split_and!; [done..|]. destruct (Hrows y Hy) as [-> _]. by rewrite Hyh, (bs_body _ _ _ _ _ Hs).
Qed.

Lemma push_order w' :
  w_chain w' = w_chain (v_world v) ++ block_entries (length blocks) top →
  ∀ i h k, (w_chain w').*1 !! i = Some h → k ∈ points (body h) → k.1 ∈ take i (w_chain w').*1.
Proof.
  intros Hch i h k. rewrite Hch, fmap_app. set (old := (w_chain (v_world v)).*1).
  assert ((block_entries (length blocks) top).*1 = TxHash <$> vtx blk) as ->.
  { unfold block_entries. by rewrite <-list_fmap_compose, list_fmap_id. }
  intros [Hi|[Hle Hi]]%lookup_app_Some Hk; rewrite take_app.
  - apply elem_of_app. left. by eapply (ag_order Hag).
  - set (j := (i - length old)%nat) in *. apply list_lookup_fmap_Some_1 in Hi as (tx & -> & Hj).
    rewrite (sound_body blk Hs) in Hk by by eapply list_elem_of_lookup_2.
    apply list_elem_of_split_length in Hj as (pre & post & Hv & Hlen).
    rewrite elem_of_app, (take_ge old) by lia. fold old.
    destruct (br_inputs _ _ _ _ _ _ _ _ Hr pre tx post k Hv Hk) as [Hx|Hx].
    + left. by apply (ag_confirmed body rank bbody hgt C base s st blocks v work Hag).
    + right. by rewrite Hv, fmap_app, take_app_length' by (rewrite length_fmap; lia).
Qed.

Lemma push_agrees Cs s' st' id w' work' :
  block_accepted body rank s st blk (Z.of_nat (length blocks)) s' st' Cs →
  stores blk (Z.of_nat (length blocks)) id (cur (db_ s)) (cur (db_ s')) → world_ok body C w' →
  w_chain w' = w_chain (v_world v) ++ block_entries (length blocks) top → (w_work w' ≤ work')%nat →
  (∀ h, is_Some (w_pool w' !! h) ↔ in_pool (memRepo_ s') h) →
  agrees (with_curr (Z.of_nat (length blocks)) (BlockHash blk) s') st' (blocks ++ [top])
    {| v_world := w'; v_chain := v_chain v ++ [(BlockHash blk, snd top)];
       v_orphans := without (BlockHash blk) (Z.of_nat (length blocks)) (v_orphans v) |} work'.
Proof.
  intros Hba Hsto Hok Hch Hwk Hp. pose proof (ag_base Hag) as Hbase.
  destruct (push_raw _ _ _ _ Hba Hsto) as (Hrows & Hblks & Hraws & _).
  assert (∀ i p, (blocks ++ [top]) !! i = Some p → (blocks !! i = Some p) ∨ (i = length blocks ∧ p = top)) as Hlk.
  { intros i p [?|[? Hi]]%lookup_app_Some; [by left|right]. apply list_lookup_singleton_Some in Hi as [? <-]. split; [lia|done]. }
  constructor; cbn [v_world v_chain v_orphans with_curr memRepo_ db_ blkTs_ Log2.currBlockHeight_ Log2.currBlockHash_].
  - destruct (ba_inv _ _ _ _ _ _ _ _ _ Hba). by constructor.
  - rewrite length_app. lia.
  - done.
  - done.
  - by rewrite Hch, (ag_txs Hag), chain_entries_snoc.
  - by rewrite (ag_chain Hag), fmap_app.
  - intros i g Hg Hin. unfold without in Hin. case_decide; [apply elem_of_difference in Hin as [Hin _]|]; by eapply (ag_orphans Hag).
  - by apply push_order.
  - done.
  - intros h (Hh & _)%(ba_pool _ _ _ _ _ _ _ _ _ Hba). by apply (ag_fit Hag).
  - intros h. by eapply push_status.
  - intros i p [Hi|[-> ->]]%Hlk Hle; [by apply (ag_sound Hag)|]. split; [done|apply Hr].
  - intros i p q Hi Hq. apply Hlk in Hq as [Hq|[Hl ->]].
    + apply Hlk in Hi as [Hi|[-> _]]; [by eapply (ag_linked Hag)|]. apply lookup_lt_Some in Hq. lia.
    + apply Hlk in Hi as [Hi|[-> _]]; [|lia]. cbn [fst]. apply (br_prev _ _ _ _ _ _ _ _ Hr).
      rewrite last_lookup, <-Hl. done.
  - rewrite length_app, last_snoc. cbn [length]. split; [lia|done].
  - done.
  - done.
  - done.
  - intros y Hy. by eapply push_raw_ok.
  - eapply clock_push; [apply (ag_clock Hag)|apply (ag_times Hag)|by apply sound_time|].
    apply (ba_ts _ _ _ _ _ _ _ _ _ Hba).
  - intros p [Hp'| ->%list_elem_of_singleton]%elem_of_app; [by apply (ag_times Hag)|by apply sound_time].
  - intros i p [Hi|[-> ->]]%Hlk.
    + rewrite take_app_le by (apply lookup_lt_Some in Hi; lia). by apply (ag_stamps Hag).
    + rewrite take_ge by (rewrite length_app; cbn; lia). cbn [snd]. by rewrite !times_max_snoc.
Qed.

Lemma block_on_run item :
  (getBlock item).1 = Done blk → blockHeight_ item = Z.of_nat (length blocks) → 0 ≤ currLog1FileOffset_ s →
  room (work + pool_work body s + 2 * block_work body blk) →
  ∃ s', handleBlock now item s = (Done tt, s') ∧
    follows s v s' (blocks ++ [top]) (work + pool_work body s + 2 * block_work body blk).
Proof.
  intros Hget Hheight Hoff Hroom. unfold room, block_work in *.
  destruct (ag_curr Hag) as [Hcurr _]. destruct (bs_shape _ _ _ _ _ Hs) as (cb & rest & Hv & Hcb & Hrest).
  pose proof (repo_small body rank bbody hgt C base _ _ _ _ _ Hag) as Hsm.
  pose proof (list_work_length (TxHash <$> vtx blk)) as Hll. rewrite length_fmap in Hll.
  assert (∀ x, find_raw_block (BlockHash blk) (cur (db_ s)) = Some x → rb_height x = blockHeight_ item) as Hrow.
  { intros x [Hx%list_elem_of_In Ex%Z.eqb_eq]%find_some. destruct (ag_rows Hag x Hx) as [_ ->].
    by rewrite Ex, Hheight, (br_height _ _ _ _ _ _ _ _ Hr). }
  assert (blkTimestamps_ (blkTs_ s) !! blockHeight_ item = None) as Hts.
  { destruct (blkTimestamps_ (blkTs_ s) !! blockHeight_ item) as [t|] eqn:E; [|done].
    pose proof (clock_below _ _ (ag_clock Hag) (blockHeight_ item) (ex_intro _ _ E)). lia. }
  destruct (handleBlockAccept_run body rank now s st item blk (ag_inv Hag) Hget push_fits Hts Hrow Hoff ltac:(lia))
    as (Cs & s' & st' & Hrun & Hba). rewrite Hheight in Hba.
  destruct (ba_rows _ _ _ _ _ _ _ _ _ Hba) as (id & Hsto & Hwr).
  set (ts := getMaxTimestamp (blkTs_ s')) in *.
  assert (clock_ok (blocks ++ [top]) (blkTs_ s')) as Hck.
  { eapply clock_push; [apply (ag_clock Hag)|apply (ag_times Hag)|by apply sound_time|]. apply (ba_ts _ _ _ _ _ _ _ _ _ Hba). }
  assert (u32 ts = times_max (blocks ++ [(blk, 0)])) as Ets.
  { unfold ts. rewrite (ck_max _ _ Hck).
    assert (times_max (blocks ++ [top]) = times_max (blocks ++ [(blk, 0)])) as -> by by rewrite !times_max_snoc.
    apply wrapU_id, times_max_range. apply Forall_forall.
    intros p [Hp| ->%list_elem_of_singleton]%elem_of_app; [by apply (ag_times Hag)|by apply sound_time]. }
  pose proof (pool_work_sub body s Cs (ba_nodup _ _ _ _ _ _ _ _ _ Hba)) as Hsub.
  destruct (ag_rejects body rank bbody hgt C interval base s st blocks v work Hag (cur (db_ s')) Cs)
    as (w1 & Hrows1 & Hok1 & Hch1 & Hw1 & Hp1).
  { apply Hba. }
  { intros h Hh. by apply (ba_evicted _ _ _ _ _ _ _ _ _ Hba). }
  { apply Hba. }
  { unfold room. assert (list_work Cs ≤ pool_work body s)%nat; [|lia]. apply Hsub.
    intros h Hh. by apply (ba_evicted _ _ _ _ _ _ _ _ _ Hba). }
  assert (list_work Cs ≤ pool_work body s)%nat as HCs.
  { apply Hsub. intros h Hh. by apply (ba_evicted _ _ _ _ _ _ _ _ _ Hba). }
  destruct (bs_txs _ _ _ _ _ Hs cb) as (Hgcb & [Hhm Hfine]); [rewrite Hv; left|].
  assert (body (TxHash cb) = cb) as Ecb by apply Hgcb.
  assert (¬ in_pool (memRepo_ s) (TxHash cb)) as Hnp.
  { intros (Hc & _)%(ag_pool_tx body rank bbody hgt C base s st blocks v work Hag). rewrite Ecb in Hc. congruence. }
  destruct (br_reward _ _ _ _ _ _ _ _ Hr cb) as (x & Hx & Hrew); [by rewrite Hv|].
  assert (cb ∈ vtx blk) as Hcbin by (rewrite Hv; left).
  destruct (block_legal body C interval (cur (db_ s')) (with_world w1 v) known blk cb rest
    (Z.of_nat (length blocks)) id ts x) as (w' & Hrows & Hok' & Hch' & Hw' & Hp').
  - done.
  - done.
  - done.
  - done.
  - done.
  - done.
  - cbn [with_world v_world]. intros [Hc|Hc]; [|by apply Hp1 in Hc as [? _]]. unfold confirmed in Hc. rewrite Hch1 in Hc.
    apply (br_txs _ _ _ _ _ _ _ _ Hr cb Hcbin).
    by apply (ag_confirmed body rank bbody hgt C base s st blocks v work Hag).
  - apply not_true_is_false. by rewrite push_known.
  - by eapply push_raw.
  - apply Hs.
  - apply (push_on_top w1 cb x); [by rewrite Hv|done|done].
  - cbn [with_world v_chain]. rewrite (ag_chain Hag), length_fmap. apply Hr.
  - intros w2 Hc2 Hp2. by eapply (push_txs_fit Cs s' st' cb rest w1 w2).
  - cbn [with_world v_world]. lia.
  - cbn [with_world v_world] in Hw'. exists (with_curr (Z.of_nat (length blocks)) (BlockHash blk) s'). split.
    + unfold handleBlock. rewrite (bind_Done get _ s s s eq_refl). rewrite Hheight, Hcurr.
      replace (Z.of_nat (length blocks) - 1 <? Z.of_nat (length blocks)) with true by lia.
      replace (Z.of_nat (length blocks) =? Z.of_nat (length blocks) - 1 + 1) with true by lia.
      rewrite (bind_Done (assertM true ;; handleBlockAccept now item) _ s tt s'); [|exact Hrun].
      rewrite Hget. reflexivity.
    + exists st'. eexists. exists (block_rows Cs (memRepo_ s) blk (Z.of_nat (length blocks)) id ts). split; [|split; [exact Hwr|split]].
      * eapply (push_agrees Cs s' st' id w'); [done|done|done| |lia|].
        -- rewrite Hch', <-Ets. cbn [with_world v_world]. by rewrite Hch1.
        -- intros h. rewrite Hp', (ba_pool _ _ _ _ _ _ _ _ _ Hba). cbn [with_world v_world]. rewrite Hp1.
           rewrite (sound_others blk Hs h). split; [naive_solver|].
           intros (Hh & HC & Hb). split; [done|]. intros Hin. apply Hb. split; [done|].
           by apply (ag_pool_tx body rank bbody hgt C base s st blocks v work Hag).
      * cbn [snd]. rewrite <-Ets. unfold block_rows. eapply rows_legal_app; [exact Hrows1|exact Hrows].
      * split; [apply Hsto|]. intros r [Hr'|Hr']%elem_of_app.
        { eapply (ag_pool_backed body rank bbody hgt C base s st blocks v work _ Cs); [done| |apply Hsto|done].
          intros h Hh. by apply (ba_evicted _ _ _ _ _ _ _ _ _ Hba). }
        apply list_elem_of_In, in_flat_map in Hr' as (h & Hh%list_elem_of_In & Hr').
        assert (tx_hash r = h) as ->; [|by apply list_elem_of_fmap in Hh as (tx & -> & Htx); apply (ba_raw _ _ _ _ _ _ _ _ _ Hba)].
        apply list_elem_of_In in Hr'. by destruct (isExist h (memRepo_ s)); set_solver.
Qed.
End push.

(** ** The last block taken back *)
Section pop.
Variables (s : Log2Producer) (st : states) (l : list (CBlock * Z)) (p q : CBlock * Z) (v : view) (work : nat).
Abbreviation blocks := (l ++ [p; q]).
Hypothesis (Hag : agrees s st blocks v work) (Hbk : back_rules body base s l p q).

Lemma pop_split : blocks = (l ++ [p]) ++ [q].
Proof. by rewrite <-app_assoc. Qed.
Lemma pop_top : blocks !! S (length l) = Some q.
Proof. rewrite lookup_app_r by lia. by replace (S (length l) - length l)%nat with 1%nat by lia. Qed.
Lemma pop_sound : block_sound q.1.
Proof. apply (ag_sound Hag (S (length l)) q pop_top). apply Hbk. Qed.
Lemma pop_height : hgt (BlockHash q.1) = Z.of_nat (S (length l)).
Proof. apply (ag_sound Hag (S (length l)) q pop_top). apply Hbk. Qed.
Lemma pop_drop : drop base blocks = drop base (l ++ [p]) ++ [q].
Proof. rewrite pop_split. apply drop_app_le. rewrite length_app. cbn. pose proof (bk_base _ _ _ _ _ _ Hbk). lia. Qed.
Lemma pop_lookup i x : (l ++ [p]) !! i = Some x → blocks !! i = Some x.
Proof. intros Hi. rewrite pop_split. by apply lookup_app_l_Some. Qed.
Lemma pop_entries : w_chain (v_world v) = chain_entries (l ++ [p]) ++ block_entries (S (length l)) q.
Proof. rewrite (ag_txs Hag), pop_split, chain_entries_snoc, length_app. do 2 f_equal. cbn. lia. Qed.
Lemma pop_in_block h : h ∈ TxHash <$> vtx q.1 → in_chain blocks h.
Proof. intros Hh. exists q. split; [rewrite pop_split; apply elem_of_app; right; by left|done]. Qed.
Lemma pop_apart h : in_chain (l ++ [p]) h → h ∉ TxHash <$> vtx q.1.
Proof.
  intros Hc Hb. pose proof (ok_distinct _ _ _ (ag_world Hag)) as Hnd. rewrite pop_entries, fmap_app in Hnd.
  apply NoDup_app in Hnd as (_ & Hdis & _). apply (Hdis h); [by apply chain_entries_hashes|].
  unfold block_entries. by rewrite <-list_fmap_compose, list_fmap_id.
Qed.

Lemma pop_fits : rollback_fits body rank st (memRepo_ s) (cur (db_ s)) q.1.
Proof.
  pose proof pop_sound as Hs. pose proof (ag_world Hag) as Hok.
  assert (∀ tx, tx ∈ vtx q.1 → live (v_world v) (TxHash tx)) as Hlive.
  { intros tx Htx. apply (ag_live body rank bbody hgt C base s st blocks v work Hag). left.
    by apply pop_in_block, list_elem_of_fmap_2. }
  assert (∀ tx, tx ∈ vtx q.1 → in_chain (drop base blocks) (TxHash tx)) as Hin.
  { intros tx Htx. rewrite pop_drop, in_chain_app. right. by apply in_chain_one, list_elem_of_fmap_2. }
  assert (∀ tx, tx ∈ others q.1 → IsCoinBase tx = false ∧ tx ∈ vtx q.1 ∧ body (TxHash tx) = tx) as Ho.
  { intros tx [? Htx]%list_elem_of_filter. split_and!; [done..|by apply (sound_body q.1 Hs)]. }
  constructor.
  - apply Forall_forall. intros tx Htx. by apply (bs_txs _ _ _ _ _ Hs).
  - apply Hs.
  - apply Hs.
  - intros tx Htx. by apply (ag_status Hag), Hin.
  - intros tx Htx. by apply (ag_rawtxs Hag), Hin.
  - intros t1 t2 k (Hc1 & H1 & E1)%Ho (Hc2 & H2 & E2)%Ho Hk1%(key_point _ _ Hc1) Hk2%(key_point _ _ Hc2).
    rewrite <-E1 in Hk1. rewrite <-E2 in Hk2. rewrite <-E1, <-E2. f_equal.
    by eapply (ok_once _ _ _ Hok); [apply Hlive|apply Hlive|..].
  - intros tx c (Hc & Htx & E)%Ho Hcf.
    apply (conflict_point body rank _ _ _ (ag_pool_ok body rank bbody hgt C base s st blocks v work Hag) Hc) in Hcf
      as (Hp & k & Hk & Hkc). rewrite <-E in Hk.
    assert (TxHash tx = c) as <-.
    { eapply (ok_once _ _ _ Hok); [by apply Hlive| |done|done].
      apply (ag_live body rank bbody hgt C base s st blocks v work Hag). by right. }
    eapply (ag_apart body rank bbody hgt C base s st blocks v work Hag); [|done].
    by apply pop_in_block, list_elem_of_fmap_2.
Qed.

Lemma pop_block_row : ∃ y, find_raw_block (BlockHash q.1) (cur (db_ s)) = Some y ∧ DecodeHexBlk (rb_hex y) = Some q.1 ∧
  rb_height y = Z.of_nat (S (length l)).
Proof.
  assert (BlockHash q.1 ∈ rb_hash <$> raw_blocks (cur (db_ s))) as Hin.
  { apply (ag_blocks Hag). rewrite pop_drop. apply elem_of_app. right. by left. }
  destruct (find_raw_block (BlockHash q.1) (cur (db_ s))) as [y|] eqn:E; [|by apply find_raw_block_None in E].
  exists y. split; [done|]. apply find_some in E as [Hy%list_elem_of_In Eh%Z.eqb_eq].
  destruct (ag_rows Hag y Hy) as [-> ->]. rewrite Eh, (bs_body _ _ _ _ _ pop_sound), pop_height.
  split; [|done]. apply DecodeHexBlk_EncodeHexBlock, pop_sound.
Qed.

Lemma pop_agrees b cb rest s' st' id w' work' :
  vtx q.1 = cb :: rest → IsCoinBase cb = true → BlockHash b = BlockHash p.1 →
  block_rolled_back body rank s st q.1 cb (Z.of_nat (S (length l))) s' st' →
  stores q.1 (Z.of_nat (S (length l))) id (cur (db_ s)) (cur (db_ s')) → world_ok body C w' →
  w_chain w' = chain_entries (l ++ [p]) → (w_work w' ≤ work')%nat →
  (∀ g, is_Some (w_pool w' !! g) ↔ (is_Some (w_pool (v_world v) !! g) ∨ g ∈ TxHash <$> vtx q.1) ∧ g ≠ TxHash cb) →
  agrees (with_curr (Z.of_nat (length l)) (BlockHash b) s') st' (l ++ [p])
    {| v_world := w'; v_chain := (λ p, (BlockHash p.1, p.2)) <$> (l ++ [p]);
       v_orphans := with_one (BlockHash q.1) (Z.of_nat (S (length l))) (v_orphans v) |} work'.
Proof.
  intros Hv Hcb Hb Hrb [[Hgt Hgb] Hold _] Hok Hch Hwk Hp. pose proof pop_sound as Hs. pose proof pop_lookup as Hlk.
  pose proof (sound_body q.1 Hs) as Hbody.
  assert (∀ h, in_chain (drop base (l ++ [p])) h → in_chain (drop base blocks) h) as Hdrop.
  { intros h Hh. rewrite pop_drop, in_chain_app. by left. }
  constructor; cbn [v_world v_chain v_orphans with_curr memRepo_ db_ blkTs_ Log2.currBlockHeight_ Log2.currBlockHash_].
  - destruct (br_inv _ _ _ _ _ _ _ _ _ Hrb). by constructor.
  - pose proof (ag_base Hag). pose proof (bk_base _ _ _ _ _ _ Hbk). rewrite length_app. cbn. lia.
  - done.
  - done.
  - done.
  - done.
  - intros i g Hg Hin. unfold with_one in Hin. case_decide as E; [|by eapply (ag_orphans Hag)].
    apply elem_of_union in Hin as [Hin|Hin].
    + by eapply (ag_orphans Hag).
    + apply elem_of_singleton in Hin. assert (g = BlockHash q.1) as ->.
      { apply ToString_inj64; [done|apply Hs|done]. }
      by rewrite pop_height.
  - intros i h k Hi Hk. rewrite Hch in *.
    assert ((w_chain (v_world v)).*1 !! i = Some h) as Hi'.
    { rewrite pop_entries, fmap_app. by apply lookup_app_l_Some. }
    pose proof (ag_order Hag i h k Hi' Hk) as Ht. rewrite pop_entries, fmap_app in Ht.
    rewrite take_app_le in Ht; [done|]. apply lookup_lt_Some in Hi. lia.
  - intros h. rewrite Hp, (br_pool _ _ _ _ _ _ _ _ _ Hrb), (ag_pool Hag), (sound_others q.1 Hs).
    pose proof (ag_pool_tx body rank bbody hgt C base s st blocks v work Hag h) as Hpt.
    assert (body (TxHash cb) = cb) as Ecb by (apply Hbody; rewrite Hv; left).
    assert (h ∈ TxHash <$> vtx q.1 → h ≠ TxHash cb → IsCoinBase (body h) = false) as Hrest.
    { intros (tx & -> & Htx)%list_elem_of_fmap Hne. rewrite Hbody by done. destruct (bs_shape _ _ _ _ _ Hs) as (cb' & rest' & Hv' & _ & Hf).
      rewrite Hv in Hv'. injection Hv' as <- <-. rewrite Hv in Htx. apply elem_of_cons in Htx as [->|Htx]; [done|].
      rewrite Forall_forall in Hf. by apply Hf. }
    split; [naive_solver|]. intros [Hx|[Hx Hc]]; (split; [tauto|]); intros ->; [destruct (Hpt Hx)|]; congruence.
  - intros h [Hx|Hx]%(br_pool _ _ _ _ _ _ _ _ _ Hrb); [by apply (ag_fit Hag)|].
    apply (sound_others q.1 Hs) in Hx as [(tx & -> & Htx)%list_elem_of_fmap _]. by apply (bs_txs _ _ _ _ _ Hs).
  - intros h. rewrite (br_status _ _ _ _ _ _ _ _ _ Hrb). pose proof (ag_status Hag h) as Hst.
    rewrite pop_drop, in_chain_app, in_chain_one in Hst.
    assert (in_chain (drop base (l ++ [p])) h → h ∉ TxHash <$> vtx q.1) as Hap.
    { intros Hx. apply pop_apart. rewrite <-(take_drop base (l ++ [p])). apply in_chain_app. by right. }
    case_decide as E1; [|case_bool_decide as E2].
    + split; [done|]. intros Hx. destruct (Hap Hx). rewrite E1, Hv. by left.
    + split; [done|]. intros Hx. by destruct (Hap Hx).
    + rewrite Hst. naive_solver.
  - intros i x Hi. apply (ag_sound Hag). by apply Hlk.
  - intros i x y Hi Hj. eapply (ag_linked Hag); by apply Hlk.
  - rewrite length_app, last_snoc. cbn. split; [lia|by rewrite Hb].
  - intros x Hx. assert (BlockHash x.1 ∈ rb_hash <$> raw_blocks (cur (db_ s))) as Hin.
    { apply (ag_blocks Hag). rewrite pop_drop. apply elem_of_app. by left. }
    apply list_elem_of_fmap in Hin as (z & -> & Hz). destruct (Hgb z Hz) as (y & Hy & _ & -> & _). by apply list_elem_of_fmap_2.
  - intros h Hh. by apply Hgt, (ag_rawtxs Hag), Hdrop.
  - intros z Hz. destruct (Hold z Hz) as [(x & Hx & (_ & <- & <- & <-))|(-> & -> & ->)]; [by apply (ag_rows Hag)|].
    by rewrite (bs_body _ _ _ _ _ Hs), pop_height.
  - intros z Hz. destruct (Hold z Hz) as [(x & Hx & (_ & <- & _ & _))|(-> & _ & _)]; [by apply (ag_raw_ok Hag)|].
    rewrite (bs_body _ _ _ _ _ Hs). split; [apply Hs|done].
  - eapply clock_pop; [apply (ag_clock Hag)|apply (br_ts _ _ _ _ _ _ _ _ _ Hrb)|apply Hbk|].
    destruct (bk_stamp _ _ _ _ _ _ Hbk) as (i & Hi & Hst). exists i. split; [done|]. rewrite Hst. f_equal.
    rewrite (ag_stamps Hag (length l) p) by (rewrite lookup_app_r by lia; by rewrite Nat.sub_diag).
    rewrite pop_split, take_app_le by (rewrite length_app; cbn; lia). by rewrite take_ge by (rewrite length_app; cbn; lia).
  - intros x Hx. apply (ag_times Hag). rewrite pop_split. apply elem_of_app. by left.
  - intros i x Hi. rewrite (ag_stamps Hag i x) by by apply Hlk.
    by rewrite pop_split, take_app_le by (apply lookup_lt_Some in Hi; lia).
Qed.

Lemma block_back_run item b :
  (getBlock item).1 = Done b → blockHeight_ item = Z.of_nat (length l) → BlockHash b = BlockHash p.1 →
  0 ≤ currLog1FileOffset_ s → room (work + S (block_work body q.1)) →
  ∃ s', handleBlock now item s = (Done tt, s') ∧ follows s v s' (l ++ [p]) (work + S (block_work body q.1)).
Proof.
  intros Hget Hheight Hb Hoff Hroom. unfold room, block_work in *. pose proof pop_sound as Hs.
  destruct (ag_curr Hag) as [Hcurr Hhash]. rewrite pop_split, last_snoc in Hhash. injection Hhash as Hhash.
  rewrite length_app in Hcurr. cbn [length] in Hcurr.
  destruct pop_block_row as (y & Hy & Hdec & Hyh).
  pose proof (list_work_length (TxHash <$> vtx q.1)) as Hll. rewrite length_fmap in Hll.
  assert (Z.of_nat (length l + 2) - 1 = Z.of_nat (S (length l))) as Ecur by lia. rewrite Ecur in Hcurr.
  destruct (handleBlockRollback_run body rank now s st (Z.of_nat (S (length l))) q.1 (ag_inv Hag) pop_fits)
    as (cb & s' & st' & Hhd & Hrun & Hrb); [|intros x Hx; congruence|done|lia|].
  { intros E. destruct (ck_top _ _ (ag_clock Hag)) as [t Ht]. by rewrite E, lookup_empty in Ht. }
  destruct (bs_shape _ _ _ _ _ Hs) as (cb' & rest & Hv & Hcb & _). rewrite Hv in Hhd. injection Hhd as ->.
  destruct (br_rows _ _ _ _ _ _ _ _ _ Hrb) as (id & Hsto & Hwr).
  assert (cb ∈ vtx q.1) as Hcbin by (rewrite Hv; left).
  assert (holds_block (cur (db_ s')) id q.1) as Hhold.
  { destruct (so_row _ _ _ _ _ Hsto) as (z & Hz & Hid & Hzh & _). exists z. split_and!; [done..|].
    destruct (so_old _ _ _ _ _ Hsto z Hz) as [(x & Hx & (_ & E & _ & <-))|(_ & _ & E)]; [|done].
    destruct (ag_rows Hag x Hx) as [-> _]. by rewrite E, Hzh, (bs_body _ _ _ _ _ Hs). }
  assert (u32 (getMaxTimestamp (blkTs_ s)) = q.2) as Ets.
  { rewrite (ck_max _ _ (ag_clock Hag)), (ag_stamps Hag _ _ pop_top).
    rewrite take_ge by (rewrite length_app; cbn; lia). apply wrapU_id, times_max_range.
    apply Forall_forall, (ag_times Hag). }
  pose proof (ag_work Hag) as Hwk. rewrite Hv, fmap_cons, list_work_cons in Hroom.
  destruct (rollback_legal body C interval (cur (db_ s')) v q.1 cb rest (Z.of_nat (S (length l))) id
    (getMaxTimestamp (blkTs_ s)) (chain_entries (l ++ [p])) (Z.of_nat (S (length l)), q.2)
    ((λ p, (BlockHash p.1, p.2)) <$> (l ++ [p]))) as (w' & Hrows & Hok' & Hch' & Hw' & Hp').
  - apply (ag_world Hag).
  - done.
  - by apply (sound_body q.1 Hs).
  - done.
  - intros tx Htx. by apply (bs_txs _ _ _ _ _ Hs).
  - apply pop_entries.
  - done.
  - apply Hs.
  - by rewrite Ets, (ag_chain Hag), pop_split, fmap_app.
  - rewrite length_fmap, length_app. cbn. lia.
  - intros x. rewrite fmap_app. csimpl. rewrite last_snoc. intros [= <-]. cbn. eapply (ag_linked Hag (length l)); [|apply pop_top].
    rewrite lookup_app_r by lia. by rewrite Nat.sub_diag.
  - intros g k Hg. apply (bk_mature _ _ _ _ _ _ Hbk); [by rewrite Hv|].
    by apply (ag_live body rank bbody hgt C base s st blocks v work Hag).
  - lia.
  - exists (with_curr (Z.of_nat (length l)) (BlockHash b) s'). split.
    + unfold handleBlock. rewrite (bind_Done get _ s s s eq_refl). rewrite Hheight, Hcurr.
      rewrite (proj2 (Z.ltb_ge (Z.of_nat (S (length l))) (Z.of_nat (length l)))) by lia.
      rewrite (proj2 (Z.ltb_lt (Z.of_nat (length l)) (Z.of_nat (S (length l))))) by lia.
      rewrite (proj2 (Z.eqb_eq (Z.of_nat (length l) + 1) (Z.of_nat (S (length l))))) by lia.
      assert (getBlockByHash (Log2.currBlockHash_ s) s = (Done q.1, s)) as Hgb.
      { unfold getBlockByHash. rewrite (bind_Done get _ s s s eq_refl). cbn. by rewrite Hhash, Hy, Hdec. }
      rewrite (bind_Done _ _ s tt s').
      * rewrite Hget. reflexivity.
      * rewrite (bind_Done (assertM true) _ s tt s eq_refl), (bind_Done _ _ _ _ _ Hgb), Hget.
        rewrite (bind_Done (lift_outcome (Done b)) _ s b s eq_refl).
        replace (hashPrevBlock (header q.1) =? BlockHash b) with true.
        -- rewrite (bind_Done (assertM true) _ s tt s eq_refl). exact Hrun.
        -- symmetry. apply Z.eqb_eq. rewrite Hb. eapply (ag_linked Hag (length l)); [|apply pop_top].
           rewrite lookup_app_r by lia. by rewrite Nat.sub_diag.
    + exists st'. eexists. exists (rollback_rows q.1 cb (Z.of_nat (S (length l))) id (getMaxTimestamp (blkTs_ s))).
      split; [|split; [exact Hwr|split; [exact Hrows|split; [apply Hsto|]]]].
      2:{ intros r Hr. assert (tx_hash r ∈ TxHash <$> vtx q.1) as Hh.
          { apply elem_of_app in Hr as [(tx & -> & Htx)%list_elem_of_fmap| ->%list_elem_of_singleton].
            - cbn. apply list_elem_of_fmap_2. by rewrite elem_of_reverse in Htx.
            - cbn. by apply list_elem_of_fmap_2. }
          apply (gr_txs _ _ (so_grows _ _ _ _ _ Hsto)), (ag_rawtxs Hag). rewrite pop_drop, in_chain_app. right.
          by apply in_chain_one. }
      eapply pop_agrees; try done. rewrite Hv, fmap_cons, list_work_cons. lia.
Qed.
End pop.
End facts.
