(* ===== verification/ComposeRun.v ===== *)
(** * Runs of log2producer, and what the parser makes of them

    Any one line that the node may write, whatever its type; a run over many; and
    the events of the parser that handle their rows. *)
From S2P Require Import Prelude Tx Bytes Text Serialize LogFiles Log1 TxState BlockTs MemRepo Db Log2 Log2Refine Ledger ParserTx ParserBlock ParserRefine.
From S2P Require Import Balances Utxo ParserSpec ParserSteps ParserClaims ParserChain RecognizeBlock TxLogs TxLogsFacts ParserMain MainFacts Pipeline.
From S2P Require Import ComposeRows Compose ComposeFacts ComposeBlocks.

Section claims.
Context `{Hashing} `{Scripts}.
Variables (body : uint256 → CTransaction) (rank : uint256 → nat) (bbody : uint256 → CBlock) (hgt : uint256 → Z).
Variables (C : gset bytes) (interval : Z) (base : nat) (now : bytes).
Implicit Types (s : Log2Producer) (st : states) (v : view) (blocks : list (CBlock * Z)) (work : nat)
  (item : Log1) (line : bytes * Z) (d : database) (r : txlog) (t : TxLog2).
Abbreviation agrees := (agrees body rank bbody hgt C base).
Abbreviation follows := (follows body rank bbody hgt C interval base).
Abbreviation rows_legal := (rows_legal body C interval).
Abbreviation line_step := (line_step body rank bbody hgt C interval base).
Abbreviation displays := (displays body (hexes body) C).

(** ** One line *)

Lemma agrees_offset s st blocks v work off :
  agrees s st blocks v work → agrees (with_offset off s) st blocks v work.
Proof. intros [[] ? ? ? ? ? ? ? ? ? ? ? ? ? ? ? ? ? ? ? ?]. by repeat (constructor; try done). Qed.

Lemma follows_offset s v off s' blocks' work' :
  follows (with_offset off s) v s' blocks' work' → follows s v s' blocks' work'.
Proof. done. Qed.

Lemma line_step_offset s blocks work item blocks' work' off :
  line_step s blocks work item blocks' work' → line_step (with_offset off s) blocks work item blocks' work'.
Proof.
  intros [tx ? ? [] ?|tx ? ? ? ?|blk ? ? ? ? ?|b l p q ? ? ? ? ? [] ?|? ?].
  - by eapply accepted.
  - change (pool_work body s) with (pool_work body (with_offset off s)). by eapply removed.
  - change (pool_work body s) with (pool_work body (with_offset off s)). by eapply pushed_block.
  - by eapply popped_block.
  - change (pool_work body s) with (pool_work body (with_offset off s)). by eapply cleared.
Qed.

Lemma handle_log1_follows s st blocks v work line u item blocks' work' :
  agrees s st blocks v work → parse line.1 newLog1 = (Done u, item) → 0 ≤ line.2 →
  line_step s blocks work item blocks' work' →
  ∃ s', handle_log1 now line s = (Done tt, s') ∧ follows s v s' blocks' work'.
Proof.
  intros Hag%(λ x, agrees_offset _ _ _ _ _ line.2 x) Hparse Hoff Hstep%(λ x, line_step_offset _ _ _ _ _ _ line.2 x).
  unfold handle_log1. rewrite (bind_Done (modify (with_offset line.2)) _ s tt (with_offset line.2 s) eq_refl).
  rewrite Hparse. cbn [fst snd]. rewrite (bind_Done (lift_outcome (Done u)) _ _ u (with_offset line.2 s) eq_refl).
  set (s0 := with_offset line.2 s) in *. change (follows s v) with (follows s0 v).
  inversion Hstep as [tx Ht Hget Hr Hroom|tx Ht Hget Hg Hroom|blk Ht Hget Hhe Hr Hroom
    |b l p q Ht Hget -> Hhe Hb Hbk Hroom|Ht Hroom]; subst;
    unfold isAcceptTx, isRemoveTx, isBlock, isClearMemtxs in *; pose proof (proj1 (Z.eqb_eq _ _) Ht) as ->; cbn [Z.eqb].
  - by eapply accept_follows.
  - by eapply remove_follows.
  - by eapply block_on_run.
  - by eapply block_back_run.
  - by eapply clear_follows.
Qed.

(** ** A run of log2producer *)

(** The lines the node wrote next, each with the offset behind it: each is one
    that may come in the state the handler left. *)
Inductive node_lines s blocks work : list (bytes * Z) → list (CBlock * Z) → nat → Prop :=
| no_lines : node_lines s blocks work [] blocks work
| next_line line u item b1 w1 lines b2 w2 :
    parse line.1 newLog1 = (Done u, item) → 0 ≤ line.2 → line_step s blocks work item b1 w1 →
    (∀ s', handle_log1 now line s = (Done tt, s') → node_lines s' b1 w1 lines b2 w2) →
    node_lines s blocks work (line :: lines) b2 w2.

(** the rows of several batches *)
Definition batches (rows rows' : list txlog) : Prop := Forall2 (λ r r', ∃ b, r' = in_batch b r) rows rows'.

Lemma batches_one b rows : batches rows (in_batch b <$> rows).
Proof. unfold batches. induction rows as [|r rows IH]; constructor; [by exists b|done]. Qed.

Lemma rows_legal_batches d v rows v' rows' : rows_legal d v rows v' → batches rows rows' → rows_legal d v rows' v'.
Proof.
  intros Hl. revert rows'. induction Hl as [|v r v1 rows v2 Hf Hs _ IH]; intros rows' Hb.
  - apply Forall2_nil_inv_l in Hb as ->. constructor.
  - apply Forall2_cons_inv_l in Hb as (r' & l & [b ->] & Hb & ->). econstructor; [done| |by apply IH].
    intros t db Ht Hdb. by apply Hs.
Qed.

Lemma lines_follow s st blocks v work lines blocks' work' :
  agrees s st blocks v work → node_lines s blocks work lines blocks' work' →
  ∃ s' st' v' rows, forM lines (handle_log1 now) s = (Done tt, s') ∧ agrees s' st' blocks' v' work' ∧
    txlogs2 (cur (db_ s')) = txlogs2 (cur (db_ s)) ++ rows ∧
    rows_legal (cur (db_ s')) v rows v' ∧ grows (cur (db_ s)) (cur (db_ s')) ∧ backed (cur (db_ s')) rows.
Proof.
  intros Hag Hl. revert st v Hag.
  induction Hl as [s blocks work|s blocks work line u item b1 w1 lines b2 w2 Hp Ho Hs _ IH]; intros st v Hag.
  - exists s, st, v, []. split_and!; [done|done|by rewrite app_nil_r|constructor|by apply grows_refl|].
    intros x Hx. by apply elem_of_nil in Hx.
  - destruct (handle_log1_follows s st blocks v work line u item b1 w1 Hag Hp Ho Hs)
      as (s1 & Hrun & st1 & v1 & rows1 & Hag1 & (b & Hw1) & Hl1 & Hg1 & Hb1).
    destruct (IH s1 Hrun st1 v1 Hag1) as (s2 & st2 & v2 & rows2 & Hrun2 & Hag2 & Hw2 & Hl2 & Hg2 & Hb2).
    exists s2, st2, v2, ((in_batch b <$> rows1) ++ rows2). split_and!.
    + cbn [forM]. by rewrite (bind_Done _ _ _ _ _ Hrun).
    + done.
    + by rewrite Hw2, Hw1, app_assoc.
    + eapply rows_legal_app; [|done]. eapply rows_legal_grows; [done|].
      eapply rows_legal_batches; [done|]. apply batches_one.
    + by eapply grows_trans.
    + intros r [(x & -> & Hx)%list_elem_of_fmap|Hr]%elem_of_app; [|by apply Hb2].
      by apply (gr_txs _ _ Hg2), (Hb1 x Hx).
Qed.

(** ** The parser behind it *)

(** [db] holds no other raw data than [d]. *)
Definition snapshot d db : Prop :=
  raw_txs db ⊆ raw_txs d ∧ ∀ y, y ∈ raw_blocks db → ∃ x, x ∈ raw_blocks d ∧ same_block x y.

(** The parser's events handle the rows, each read from a database that holds no
    other raw data than [d] and still has the block the row names; it may be
    restarted at any time. *)
Inductive handles d : list txlog → list event → Prop :=
| handles_none : handles d [] []
| handles_row r rows db at_ t l :
    reads db (id_ t, r) t → snapshot d db → serves d db r →
    handles d rows l → handles d (r :: rows) (Handled db at_ t :: l)
| handles_restart rows l : handles d rows l → handles d rows (Restarted :: l).

Lemma read_carries d db r t m :
  raw_ok body m d → fit_row body (tx_hash r) → reads db (id_ t, r) t → raw_txs db ⊆ raw_txs d →
  carries body r t.
Proof.
  intros Hraw (_ & Hok) (x & tx & Hx & Hdec & Ht) Hsub.
  rewrite (w_body _ _ _ Hraw _ _ (lookup_weaken _ _ _ _ Hx Hsub)) in *. unfold carries, hexes.
  cbn [snd] in *. rewrite DecodeHexTx_EncodeHexTx in Hdec by done. injection Hdec as <-. exact Ht.
Qed.

(** The database as log2producer leaves it serves its own rows. *)
Lemma serves_self s st blocks v work r : agrees s st blocks v work → serves (cur (db_ s)) (cur (db_ s)) r.
Proof.
  intros Hag x Hx Hid. pose proof (wf_id _ (w_blocks _ _ _ (i_raw _ _ _ _ (ag_inv Hag)))) as Hnd.
  unfold getBlockRawHexByBlockId. destruct (List.find _ _) as [y|] eqn:E.
  - apply find_some in E as [Hy%list_elem_of_In Ey%Z.eqb_eq].
    assert (y = x) as -> by (eapply (NoDup_fmap_inj rb_id); [done..|congruence]).
    destruct (ag_rows Hag x Hx) as [-> _]. unfold EncodeHexBlock. rewrite length_HexStr, Nat2Z.inj_mul, Z.mul_comm.
    by rewrite Z_mod_mult.
  - apply find_none with (x := x) in E; [|by apply list_elem_of_In]. by apply Z.eqb_neq in E.
Qed.

Lemma read_self s st blocks v work r k :
  agrees s st blocks v work → fit_row body (tx_hash r) → is_Some (raw_txs (cur (db_ s)) !! tx_hash r) →
  reads (cur (db_ s)) (k, r) (log_row k r (hexes body (tx_hash r)) (body (tx_hash r))).
Proof.
  intros Hag (_ & Hok) [x Hx]. pose proof (w_body _ _ _ (i_raw _ _ _ _ (ag_inv Hag)) _ _ Hx) as E.
  exists x, (body (tx_hash r)). cbn [fst snd]. rewrite E, DecodeHexTx_EncodeHexTx by done. done.
Qed.

Lemma handled_somehow s st blocks v work v0 rows v1 :
  agrees s st blocks v work → rows_legal (cur (db_ s)) v0 rows v1 → backed (cur (db_ s)) rows →
  ∃ evs, handles (cur (db_ s)) rows evs.
Proof.
  intros Hag. induction 1 as [v0|v0 r v1 rows v2 Hf _ _ IH]; intros Hb; [exists []; constructor|].
  destruct IH as [evs He]; [intros x Hx; apply Hb; by right|].
  exists (Handled (cur (db_ s)) 0 (log_row 0 r (hexes body (tx_hash r)) (body (tx_hash r))) :: evs).
  constructor; [| |by eapply serves_self|done]; [|by split; [done|intros y Hy; exists y]]. cbn [log_row id_].
  eapply read_self; [done..|]. apply Hb. left.
Qed.

Lemma legal_readable s st blocks v work v0 rows v1 :
  agrees s st blocks v work → rows_legal (cur (db_ s)) v0 rows v1 → backed (cur (db_ s)) rows →
  ∀ k r, r ∈ rows → readable (cur (db_ s)) (k, r).
Proof.
  intros Hag. induction 1 as [v0|v0 r v1 rows v2 Hf Hs _ IH]; intros Hb k x Hx; [by apply elem_of_nil in Hx|].
  apply elem_of_cons in Hx as [->|Hx]; [|apply IH; [|done]; intros y Hy; apply Hb; by right].
  assert (reads (cur (db_ s)) (k, r) (log_row k r (hexes body (tx_hash r)) (body (tx_hash r)))) as Hr.
  { eapply read_self; [done..|]. apply Hb. left. }
  split_and!; [|apply Hf|by eexists].
  specialize (Hs _ (cur (db_ s)) (ltac:(done) : carries body r (log_row k r (hexes body (tx_hash r)) (body (tx_hash r))))
    (serves_self _ _ _ _ _ _ Hag)).
  assert (∃ w, ParserSpec.tx_step body (hexes body) C (v_world v0) (log_row k r (hexes body (tx_hash r)) (body (tx_hash r))) w) as [w Hw]
    by (inversion Hs; eauto).
  unfold known_type. inversion Hw as [E|E|? ? E|E]; cbn [log_row ParserTx.type_ snd] in *; by rewrite E.
Qed.

Lemma handles_legal d m v rows v' evs :
  raw_ok body m d → rows_legal d v rows v' → handles d rows evs →
  legal_events body (hexes body) C interval v evs v'.
Proof.
  intros Hraw Hl. revert evs. induction Hl as [v|v r v1 rows v2 Hf Hs _ IH]; intros evs Hh.
  - remember [] as rows eqn:E in Hh. induction Hh; [constructor|done|constructor; by apply IHHh].
  - remember (r :: rows) as rows0 eqn:E in Hh. induction Hh as [|r' rows' db at_ t l Hr Hsub Hsv Hh _|rows' l Hh IHh]; [done| |].
    + injection E as -> ->. pose proof (read_carries _ _ _ _ _ Hraw Hf Hr (proj1 Hsub)) as Hc.
      assert (txHash_ t = tx_hash r) as Eh by (by rewrite Hc). destruct Hf as (Hne & _).
      eapply legal_handled; [by apply Hs|by rewrite Eh|by apply IH].
    + constructor. by apply IHh.
Qed.

(** The blocks the parser reads are those their hashes stand for. *)
Lemma handled_blocks s st blocks v work rows evs db at_ t blk hex :
  agrees s st blocks v work → handles (cur (db_ s)) rows evs → Handled db at_ t ∈ evs →
  decodeBlock db (blkId_ t) = Done (blk, hex) → bbody (BlockHash blk) = blk.
Proof.
  intros Hag Hh. induction Hh as [|r rows db' at' t' l _ [_ Hsub] _ _ IH|rows l _ IH].
  - by intros ?%elem_of_nil.
  - intros [[= -> _ ->]|Hin]%elem_of_cons; [|by apply IH]. unfold decodeBlock, getBlockRawHexByBlockId.
    destruct (List.find _ _) as [y|] eqn:E; [|done]. apply find_some in E as [Hy%list_elem_of_In _].
    destruct (Hsub y Hy) as (x & Hx & (_ & Eh & _ & Ehex)). destruct (ag_rows Hag x Hx) as [Ex _].
    destruct (ag_raw_ok Hag x Hx) as [Hok Eb].
    case_match; [|done]. cbn [mbind outcome_bind]. rewrite <-Ehex, Ex, DecodeHexBlk_EncodeHexBlock by done.
    intros [= <- _]. by rewrite Eb.
  - intros [?|Hin]%elem_of_cons; [done|by apply IH].
Qed.
End claims.
