(* ===== verification/ComposeRestart.v ===== *)
(** * log2producer restarts from what tparser has stored

    After a crash log2producer knows neither the chain nor the time stamps.  When
    tparser has handled all that was published, [init] reads them from its store
    and the two programs agree as before. *)
From S2P Require Import Prelude Tx Bytes Text Serialize LogFiles Log1 TxState BlockTs MemRepo Db Log2 Crash Log2Refine Log2Claims Ledger ParserTx ParserBlock ParserRefine.
From S2P Require Import Balances Utxo ParserSpec ParserSteps ParserClaims ParserChain RecognizeBlock TxLogs TxLogsFacts ParserMain MainFacts Pipeline.
From S2P Require Import Stamps Log2Init Log2InitFacts ComposeRows Compose ComposeFacts ComposeBlocks ComposeRun.

Section restart.
Context `{Hashing} `{Scripts}.
Variables (body : uint256 → CTransaction) (rank : uint256 → nat) (bbody : uint256 → CBlock) (hgt : uint256 → Z).
Variables (C : gset bytes) (interval : Z) (base : nat) (now : bytes).
Variables (beginHeight : Z) (beginHash : uint256).
Implicit Types (s : Log2Producer) (st : states) (v : view) (blocks : list (CBlock * Z)) (work : nat) (d : database) (w : whole).
Abbreviation agrees := (agrees body rank bbody hgt C base).
Abbreviation displays := (displays body (hexes body) C).

(** What a crash of [s] leaves on disk: the published part, and of the raw data
    at least what it had. *)
Record recovered s d : Prop := {
  rec_core : Crash.core d = Crash.core (cur (db_ s));
  rec_raw : raw_ok body (memRepo_ s) d;
  rec_grows : grows (cur (db_ s)) d;
  rec_rows y : y ∈ raw_blocks d → rb_hex y = EncodeHexBlock (bbody (rb_hash y)) ∧ rb_height y = hgt (rb_hash y);
  rec_ok y : y ∈ raw_blocks d → block_ok (bbody (rb_hash y)) ∧ BlockHash (bbody (rb_hash y)) = rb_hash y }.

(** a new process on the database [d] *)
Record fresh s d : Prop := {
  fr_db : cur (db_ s) = d;
  fr_tx : in_tx (db_ s) = false;
  fr_repo : memRepo_ s = emptyRepo;
  fr_ts : blkTs_ s = newBlockTimestamp (2016 * 2);
  fr_index : static_log1FileIndex s = -1;
  fr_offset : static_currLog1FileOffset s = -1 }.

(** The largest time stamp of the chain is among those that a restart reads. *)
Definition recent blocks : Prop := times_max (drop (window_start (Z.of_nat (length blocks) - 1)) blocks) = times_max blocks.

Lemma stamps_clock blocks b :
  (∀ p, p ∈ blocks → bbody (BlockHash p.1) = p.1) → recent blocks → (0 < length blocks)%nat →
  stamps_from (window_start (Z.of_nat (length blocks) - 1))
    ((λ c : uint256 * Z, GetBlockTime (bbody c.1)) <$> drop (window_start (Z.of_nat (length blocks) - 1))
      ((λ p, (BlockHash p.1, p.2)) <$> blocks)) (2016 * 2) b → clock_ok blocks b.
Proof.
  intros Hb Hrec Hlen Hst. set (a := window_start _) in *.
  assert ((λ c : uint256 * Z, GetBlockTime (bbody c.1)) <$> drop a ((λ p, (BlockHash p.1, p.2)) <$> blocks) =
    (λ p, GetBlockTime p.1) <$> drop a blocks) as E.
  { rewrite <-fmap_drop, <-list_fmap_compose. apply list_fmap_ext. intros i p Hp. cbn.
    rewrite Hb; [done|]. rewrite lookup_drop in Hp. by eapply list_elem_of_lookup_2. }
  rewrite E in Hst. destruct Hst as [Hw Htop Hlim Hmax].
  assert (a < length blocks)%nat as Ha by (unfold a, window_start; lia).
  constructor.
  - intros i t (j & -> & Hj)%Hw. split; [lia|]. rewrite list_lookup_fmap, lookup_drop in Hj.
    apply fmap_Some in Hj as (p & Hp & ->). exists p. by rewrite Nat2Z.id.
  - rewrite length_fmap, length_drop in Htop. replace (a + (length blocks - a))%nat with (length blocks) in Htop by lia.
    apply Htop. intros En%(f_equal length). rewrite length_fmap, length_drop in En. cbn in En. lia.
  - rewrite Hlim. lia.
  - rewrite Hmax, <-Hrec. fold a. unfold times_max. clear. induction (drop a blocks) as [|p l IH]; [done|].
    rewrite fmap_cons. cbn [foldr]. by rewrite IH.
Qed.

Section resume.
Context (s : Log2Producer) (st : states) (blocks : list (CBlock * Z)) (v : view) (work : nat) (d : database).
Hypothesis (Hag : agrees s st blocks v work) (Hrec : recovered s d).

Lemma meta_kept : ∃ i o, explorer_meta (cur (db_ s)) = Some (i, o) ∧ explorer_meta d = Some (i, o).
Proof.
  destruct (i_meta _ _ _ _ (ag_inv Hag)) as (i & o & Hm & _). exists i, o. split; [done|].
  pose proof (rec_core _ _ Hrec) as Hc. unfold Crash.core in Hc. injection Hc. congruence.
Qed.

Lemma check_kept s0 : fresh s0 d → on_db checkMeta s0 = (Done tt, s0).
Proof.
  intros Hf. destruct meta_kept as (i & o & _ & Hd). unfold zoom, checkMeta.
  rewrite (bind_Done get _ (db_ s0) (db_ s0) (db_ s0) eq_refl), (fr_db _ _ Hf), Hd. by destruct s0.
Qed.

(** the last block is the current one *)
Lemma last_block : ∃ l q, blocks = l ++ [q] ∧ currBlockHash_ s = BlockHash q.1 ∧ Log2.currBlockHeight_ s = Z.of_nat (length l).
Proof.
  destruct (ag_curr Hag) as [Hh Hhash]. pose proof (ag_base Hag).
  destruct (last blocks) as [q|] eqn:El; [|apply last_None in El; subst; cbn in *; lia].
  apply last_Some in El as [l ->]. exists l, q. injection Hhash as ->. rewrite length_app in Hh. cbn in Hh. split_and!; [done..|lia].
Qed.

(** the state that [init] builds agrees *)
Lemma resumed s1 :
  cur (db_ s1) = with_txlogs2 (txlogs2 (cur (db_ s))) d → in_tx (db_ s1) = false → memRepo_ s1 = memRepo_ s →
  static_log1FileIndex s1 = -1 → static_currLog1FileOffset s1 = -1 →
  explorer_meta d = Some (f_idx (log1_ s1), f_off (log1_ s1)) → clock_ok blocks (blkTs_ s1) →
  Log2.currBlockHeight_ s1 = Log2.currBlockHeight_ s → currBlockHash_ s1 = currBlockHash_ s → agrees s1 st blocks v work.
Proof.
  intros Hc Htx Hm Hi Ho Hmeta Hclock Eh Eb. destruct Hrec as [Hcore Hraw Hgr Hrows Hrok].
  pose proof (reloaded_inv body rank s st d s1 (ag_inv Hag) Hcore Hraw Hc Htx Hm Hi Ho Hmeta) as Hinv.
  destruct Hag. constructor; rewrite ?Hc, ?Hm, ?Eh, ?Eb; cbn [with_txlogs2 raw_txs raw_blocks]; try done.
  - intros p Hp. apply ag_blocks in Hp. apply list_elem_of_fmap in Hp as (x & -> & Hx).
    destruct (gr_blocks _ _ Hgr x Hx) as (y & Hy & _ & -> & _). by apply list_elem_of_fmap_2.
  - intros h Hin. by apply (gr_txs _ _ Hgr), ag_rawtxs.
Qed.

(** tparser is behind *)
Lemma init_refuses s0 w ids :
  fresh s0 d → consumed w ≠ last_row_id (kept_ids ids (txlogs2 d)) →
  ∃ s', init beginHeight beginHash ids w s0 = (Raise (Throw "please wait util 'tparser' catch up"), s').
Proof.
  intros Hf Hne. unfold init. rewrite (bind_Done _ _ _ _ _ (check_kept s0 Hf)).
  destruct (statement_run (λ d, with_txlogs2 (filter (λ x, batch_id x ≠ -1) (txlogs2 d)) d) (db_ s0)) as (D & Hr1 & _).
  exists (with_db D s0). apply bind_Raise. unfold initLog2. rewrite (bind_Done get _ s0 s0 s0 eq_refl), (fr_db _ _ Hf).
  rewrite (bind_Done _ _ _ _ _ (zoom_Done db_ with_db drop_unfinished s0 _ _ Hr1)).
  rewrite (proj2 (Z.eqb_neq _ _) Hne). reflexivity.
Qed.

(** what [initLog2] computes *)
Lemma initLog2_run s0 w ids :
  displays v w → stamped bbody w → Z.of_nat (length blocks) < 2 ^ 31 → fresh s0 d → currBlockHash_ s ≠ 0 →
  consumed w = last_row_id (kept_ids ids (txlogs2 d)) → 0 < consumed w →
  ∃ D b, initLog2 beginHeight beginHash ids w s0 =
      (Done tt, with_curr (Log2.currBlockHeight_ s) (currBlockHash_ s) (with_blkTs b (with_memRepo (memRepo_ s) (with_db D s0)))) ∧
    cur D = with_txlogs2 (txlogs2 (cur (db_ s))) d ∧ in_tx D = false ∧
    stamps_from (window_start (Z.of_nat (length blocks) - 1))
      ((λ c : uint256 * Z, GetBlockTime (bbody c.1)) <$> drop (window_start (Z.of_nat (length blocks) - 1))
        ((λ p, (BlockHash p.1, p.2)) <$> blocks)) (2016 * 2) b.
Proof.
  intros Hd Hst Hlen Hf Hq0 Hcons Hpos. destruct last_block as (l & q & El & Ehash & Eheight).
  assert (∀ h tx, txs_ (memRepo_ s) !! h = Some tx → tx_ok tx) as Htxok.
  { intros h tx Ht. destruct (ag_fit Hag h ltac:(by exists tx)) as [[_ Hok] _].
    by rewrite (p_body _ _ _ (i_pool _ _ _ _ (ag_inv Hag)) _ _ Ht) in Hok. }
  destruct (reload_run body rank s st d s0 (ag_inv Hag) Htxok (rec_core _ _ Hrec) (rec_raw _ _ Hrec) (fr_db _ _ Hf)
    (fr_tx _ _ Hf) (fr_repo _ _ Hf)) as (D & Hr1 & Hr2 & Hc & Ht). exists D.
  pose proof (d_chain _ _ _ _ _ Hd) as Hck. pose proof (d_blocks _ _ _ _ _ Hd) as HB. rewrite (ag_chain Hag) in Hck, HB.
  assert (in_u 256 (BlockHash q.1)) as Hq.
  { apply (cs_range _ _ Hck). rewrite <-list_fmap_compose. apply list_elem_of_fmap. exists q. split; [done|].
    rewrite El. apply elem_of_app. right. by left. }
  assert (Z.of_nat (length blocks) - 1 = Z.of_nat (length l)) as Ebl by (rewrite El, length_app; cbn; lia). rewrite Ebl.
  assert (begin_block beginHeight beginHash (consumed w) w = Done (Z.of_nat (length l), BlockHash q.1)) as Hbegin.
  { clear Hck Hq0. rewrite El, fmap_app in HB. cbn in HB.
    rewrite (begin_block_run _ _ _ _ _ _ _ _ HB); [by rewrite length_fmap|done|rewrite length_fmap; lia|done]. }
  destruct (load_stamps_run w _ _ (λ h, GetBlockTime (bbody h)) (Z.of_nat (length l)) HB (cs_range _ _ Hck) Hst)
    as (b & Hload & Hsf); [rewrite length_fmap; lia|lia|]. exists b. split; [|done].
  unfold initLog2. rewrite (bind_Done get _ s0 s0 s0 eq_refl), (bind_Done _ _ _ _ _ Hr1), (fr_db _ _ Hf), <-Hcons, Z.eqb_refl.
  rewrite (bind_Done (mret tt) _ _ tt (with_db D s0) eq_refl), Hbegin.
  rewrite (bind_Done (lift_outcome (Done _)) _ _ _ (with_db D s0) eq_refl). cbn [fst snd].
  rewrite Ehash in Hq0. replace ((BlockHash q.1 =? 0) || (Z.of_nat (length l) <? 0)) with false by lia.
  rewrite (bind_Done (mret tt) _ _ tt (with_db D s0) eq_refl), (bind_Done _ _ _ _ _ Hr2).
  set (sb := with_memRepo (memRepo_ s) (with_db D s0)) in *.
  assert (zoom blkTs_ with_blkTs (load_stamps (Z.of_nat (length l)) w) sb = (Done tt, with_blkTs b sb)) as Hz.
  { apply zoom_Done. cbn [sb with_memRepo with_db blkTs_]. by rewrite (fr_ts _ _ Hf). }
  rewrite (bind_Done _ _ _ _ _ Hz), Ehash, Eheight. reflexivity.
Qed.

Lemma init_run s0 w ids :
  displays v w → stamped bbody w → (∀ p, p ∈ blocks → bbody (BlockHash p.1) = p.1) → recent blocks →
  Z.of_nat (length blocks) < 2 ^ 31 → fresh s0 d → currBlockHash_ s ≠ 0 →
  consumed w = last_row_id (kept_ids ids (txlogs2 d)) → 0 < consumed w →
  ∃ s1, init beginHeight beginHash ids w s0 = (Done tt, s1) ∧ agrees s1 st blocks v work ∧
    txlogs2 (cur (db_ s1)) = txlogs2 (cur (db_ s)) ∧ memRepo_ s1 = memRepo_ s ∧
    explorer_meta (cur (db_ s)) = Some (f_idx (log1_ s1), f_off (log1_ s1)).
Proof.
  intros Hd Hst Hbb Hr Hlen Hf Hq0 Hcons Hpos.
  destruct (initLog2_run s0 w ids Hd Hst Hlen Hf Hq0 Hcons Hpos) as (D & b & Hinit & Hc & Ht & Hsf).
  destruct meta_kept as (i & o & Hm & Hmd). eexists. split.
  { unfold init. rewrite (bind_Done _ _ _ _ _ (check_kept s0 Hf)), (bind_Done _ _ _ _ _ Hinit). reflexivity. }
  cbn [with_log1 memRepo_ db_ log1_ f_idx f_off with_curr with_blkTs with_memRepo with_db].
  rewrite Hc. cbn [with_txlogs2 explorer_meta txlogs2]. rewrite Hmd. split; [|done].
  apply resumed; try done; [apply (fr_index _ _ Hf)|apply (fr_offset _ _ Hf)|].
  apply stamps_clock; [done|done| |exact Hsf]. pose proof (ag_base Hag). lia.
Qed.
End resume.
End restart.
