(* ===== verification/ComposeDemo.v ===== *)
(** * Two programs and four lines

    A chain of one block.  The node reports a payment, puts a block with it on
    top, takes that block back and clears the pool. *)
From S2P Require Import Prelude Tx Bytes Text Serialize LogFiles Log1 TxState BlockTs MemRepo Db Log2 Log2Refine Ledger ParserTx ParserBlock ParserRefine.
From S2P Require Import Balances Utxo ParserSpec ParserSteps ParserClaims ParserFacts ParserChain RecognizeBlock TxLogs TxLogsFacts ParserMain MainFacts Pipeline.
From S2P Require Import Stamps Log2Init ComposeRows Compose ComposeFacts ComposeBlocks ComposeRun ComposeRestart.

Module ComposeDemo.
#[local] Existing Instance ParserDemo.scripts.
#[local] Existing Instance WholeDemo.hashing.

(** transactions are told apart by the number of their outputs, blocks by their
    nonce *)
Definition out (v : Z) : CTxOut := {| nValue := v; scriptPubKey := [97] |}.
Definition coinbase2 : CTransaction :=
  {| nVersion := 1; vin := [ {| prevout := {| hash := 0; n := u32 (-1) |}; scriptSig := [1]; nSequence := 0 |} ];
     vout := [out 5000000000; out 9999; out 1]; nLockTime := 0 |}.
Definition body (h : uint256) : CTransaction := if h =? 3 then coinbase2 else ParserDemo.body h.
Definition block5 : CBlock := Demo.block 5 0 100 [ParserDemo.coinbase].
Definition block6 : CBlock := Demo.block 6 5 90 [coinbase2; ParserDemo.payment].
Definition bbody (h : uint256) : CBlock := if h =? 6 then block6 else block5.
Definition hgt (h : uint256) : Z := h - 5.
Abbreviation C := ParserDemo.C.
Abbreviation pools := WholeDemo.no_pools.
Abbreviation rank := Z.to_nat.
Ltac by_compute := ParserDemo.by_compute.

Definition first_block : CBlock * Z := (block5, 100).
Definition second_block : CBlock * Z := (block6, 100).

Lemma cases h : h = 1 ∨ h = 2 ∨ h = 3 → TxHash (body h) = h ∧ body h ≠ nullTx.
Proof. by intros [->|[->| ->]]. Qed.

Lemma txs_ok h : h = 1 ∨ h = 2 ∨ h = 3 → tx_ok (body h).
Proof.
  intros [->|[->| ->]];
    unfold tx_ok, vec_ok, txin_ok, txout_ok, outpoint_ok, blob_ok, byte_ok, in_u, in_s, MAX_SIZE;
    simpl; repeat (split || constructor || simpl); first [lia | by vm_compute].
Qed.

Lemma all_outs h : h = 1 ∨ h = 2 ∨ h = 3 → outs_ok (body h).
Proof.
  intros [->|[->| ->]]; constructor; [by_compute | apply Forall_forall; by_compute | apply Forall_forall; by_compute
    | by_compute | apply Forall_forall; by_compute | apply Forall_forall; by_compute
    | by_compute | apply Forall_forall; by_compute | apply Forall_forall; by_compute].
Qed.

Lemma all_fine h : h = 1 ∨ h = 2 ∨ h = 3 → tx_fine body C h.
Proof.
  intros Hh. constructor; [destruct Hh as [->|[->| ->]]; by_compute | by apply all_outs | |
    destruct Hh as [->|[->| ->]]; eexists; vm_compute; reflexivity | destruct Hh as [->|[->| ->]]; by_compute].
  constructor.
  - destruct Hh as [->|[->| ->]]; by_compute.
  - destruct Hh as [->|[->| ->]]; [done| |done]. intros _. apply Forall_forall. by_compute.
  - destruct Hh as [->|[->| ->]]; by_compute.
  - destruct Hh as [->|[->| ->]]; by_compute.
  - intros k Hk. assert (k = (1, 0)) as ->; [|by apply all_outs; left].
    revert k Hk. apply Forall_forall. destruct Hh as [->|[->| ->]]; by_compute.
Qed.

Lemma fit h : h = 1 ∨ h = 2 ∨ h = 3 → fit_tx body C h.
Proof.
  intros Hh. split; [|by apply all_fine].
  split; [destruct Hh as [->|[->| ->]]; done|by apply txs_ok].
Qed.

Lemma all_good h : h = 1 ∨ h = 2 ∨ h = 3 → good body rank (body h).
Proof.
  intros Hh. constructor.
  - by rewrite (proj1 (cases h Hh)).
  - destruct Hh as [->|[->| ->]]; by_compute.
  - intros Hc k Hk. destruct Hh as [->|[->| ->]]; [done| |done].
    assert (k = {| hash_ := 1; position_ := 0 |}) as ->; [|vm_compute; lia].
    revert k Hk. apply Forall_forall. by_compute.
Qed.

(** ** The store that shows the first block *)

Definition db5 : database :=
  {| txlogs2 := []; memrepo_txs := []; explorer_meta := None;
     raw_blocks := [ {| rb_id := 0; rb_hash := 5; rb_height := 0; rb_chain_id := 0; rb_hex := EncodeHexBlock block5 |} ];
     raw_txs := ∅ |}.

Lemma block5_ok : block_ok block5.
Proof.
  split; [unfold header_ok, in_u, in_s; simpl; lia|].
  split; [repeat constructor; by apply (txs_ok 1); left | unfold MAX_SIZE; simpl; lia].
Qed.
Lemma block6_ok : block_ok block6.
Proof.
  split; [unfold header_ok, in_u, in_s; simpl; lia|].
  split; [constructor; [by apply (txs_ok 3); right; right|constructor; [by apply (txs_ok 2); right; left|constructor]]
    | unfold MAX_SIZE; simpl; lia].
Qed.

(** [Some] formats every hash as its text *)
Lemma undisturbed_run c v evs w : ¬ meets_disturbed body (hexes body) C c Some 0 210000 v evs w.
Proof.
  intros (l1 & db & now & t & l2 & v1 & s1 & _ & _ & _ & _ & _ & _ & Hn). apply Hn, ParserDemo.harmless.
Qed.

Lemma nothing_live h : ¬ live emptyWorld h.
Proof. intros [Hc|[? Hx]]; [by apply elem_of_nil in Hc|]. cbn in Hx. by rewrite lookup_empty in Hx. Qed.

Lemma first_rows : ∃ w', rows_legal body C 210000 db5 empty_view
    [row LOG2TYPE_TX_ACCEPT (-1) (-1) 100 1; row LOG2TYPE_TX_CONFIRM 0 0 100 1]
    {| v_world := w'; v_chain := [(5, 100)]; v_orphans := without 5 0 (λ _, ∅) |} ∧
  world_ok body C w' ∧ w_chain w' = [(1, (0, 100))] ∧ (w_work w' ≤ 2)%nat ∧ w_pool w' = ∅.
Proof.
  destruct (block_legal body C 210000 db5 empty_view (λ _, false) block5 ParserDemo.coinbase [] 0 0 100 5000000000)
    as (w' & Hr & Hok & Hch & Hw & Hp).
  - apply empty_world_ok.
  - done.
  - by apply (fit 1); left.
  - by apply (fit 1); left.
  - done.
  - done.
  - apply nothing_live.
  - done.
  - exists {| rb_id := 0; rb_hash := 5; rb_height := 0; rb_chain_id := 0; rb_hex := EncodeHexBlock block5 |}.
    split; [by left|done].
  - apply block5_ok.
  - intros t Ht. constructor; rewrite ?Ht; try done.
    cbn. by intros ?%elem_of_nil.
  - done.
  - intros w1 _ _. constructor; try (by intros ? ?%elem_of_nil); [constructor| |by intros ? ? ? ?%elem_of_nil].
    by intros [] ? ? ?.
  - by_compute.
  - exists w'. split_and!; [exact Hr|done|exact Hch|exact Hw|]. apply map_eq. intros h. rewrite lookup_empty.
    destruct (w_pool w' !! h) as [x|] eqn:E; [|done]. destruct (proj1 (Hp h)) as [[y Hy] _]; [by eexists|].
    cbn in Hy. by rewrite lookup_empty in Hy.
Qed.

(** the row [r] as the parser reads it, under the id [k] *)
Definition carried (k : Z) (r : txlog) : TxLog2 := log_row k r (hexes body (tx_hash r)) (body (tx_hash r)).
Definition first_events : list event :=
  Handled db5 0 <$> (carried 0 <$> [row LOG2TYPE_TX_ACCEPT (-1) (-1) 100 1; row LOG2TYPE_TX_CONFIRM 0 0 100 1]).
Definition store1 : whole := snd (run_events pools Some 0 210000 first_events first_whole).

Lemma first_store_runs : ∃ w', run_events pools Some 0 210000 first_events first_whole = (Done tt, store1) ∧
  displays body (hexes body) C {| v_world := w'; v_chain := [(5, 100)]; v_orphans := without 5 0 (λ _, ∅) |} store1 ∧
  world_ok body C w' ∧ w_chain w' = [(1, (0, 100))] ∧ (w_work w' ≤ 2)%nat ∧ w_pool w' = ∅.
Proof.
  destruct first_rows as (w' & Hr & Hok & Hch & Hw & Hp). exists w'.
  destruct (run_history body (hexes body) C pools Some 0 210000 empty_view first_events
    {| v_world := w'; v_chain := [(5, 100)]; v_orphans := without 5 0 (λ _, ∅) |} first_whole) as [(store & Hrun & Hd)|Hm].
  - eapply rows_legal_events; [exact Hr|by repeat constructor|].
    intros d' now' t' (y & [= -> _ _] & _)%list_elem_of_fmap r _ _ x ->%list_elem_of_singleton <-.
    by vm_compute.
  - apply first_displays. vm_compute. discriminate.
  - unfold store1. rewrite Hrun. exact (conj eq_refl (conj Hd (conj Hok (conj Hch (conj Hw Hp))))).
  - by apply undisturbed_run in Hm.
Qed.

Lemma first_store : ∃ w',
  displays body (hexes body) C {| v_world := w'; v_chain := [(5, 100)]; v_orphans := without 5 0 (λ _, ∅) |} store1 ∧
  world_ok body C w' ∧ w_chain w' = [(1, (0, 100))] ∧ (w_work w' ≤ 2)%nat ∧ w_pool w' = ∅.
Proof. destruct first_store_runs as (w' & _ & Hrest). by exists w'. Qed.

(** ** log2producer on that chain *)

Definition db0 : database :=
  {| txlogs2 := []; memrepo_txs := []; explorer_meta := Some (0, 0); raw_blocks := []; raw_txs := ∅ |}.
Definition s0 : Log2Producer :=
  {| memRepo_ := emptyRepo; blkTs_ := snd (pushBlock 0 100 (newBlockTimestamp 4032));
     Log2.currBlockHeight_ := 0; currBlockHash_ := 5; log1_ := {| f_files := ∅; f_idx := 0; f_off := 0 |};
     currLog1FileOffset_ := 0; static_log1FileIndex := 0; static_currLog1FileOffset := 0;
     db_ := {| cur := db0; in_tx := false; durable := [db0] |} |}.
Abbreviation agrees := (agrees body rank bbody hgt C 1).

Lemma no_pool h : ¬ in_pool emptyRepo h.
Proof. intros [? Hx]. cbn in Hx. by rewrite lookup_empty in Hx. Qed.

Lemma s0_inv : inv body rank s0 ∅.
Proof.
  constructor; try done.
  - intros h. rewrite lookup_empty. split; [done|]. by intros ?%no_pool.
  - constructor.
  - intros h. split; [by intros ?%elem_of_nil|by intros ?%no_pool].
  - constructor; [apply emptyRepo_ok| |]; intros h tx Hx; cbn in Hx; by rewrite lookup_empty in Hx.
  - constructor; [intros h x Hx; cbn in Hx; by rewrite lookup_empty in Hx|by intros h ?%no_pool|].
    constructor; constructor.
  - exists 0, 0. split_and!; [done|by left..|done].
Qed.

Lemma s0_clock : clock_ok [first_block] (blkTs_ s0).
Proof.
  constructor; [|by eexists; vm_compute|done|done].
  intros i t Hi. change (blkTimestamps_ (blkTs_ s0)) with (<[0:=100]> (∅ : gmap Z Z)) in Hi.
  rewrite lookup_insert in Hi. case_decide as E; [|by rewrite lookup_empty in Hi]. subst. injection Hi as <-.
  split; [done|]. by exists first_block.
Qed.

Lemma nothing_above h : ¬ in_chain (drop 1 [first_block]) h.
Proof. intros (p & Hp & _). by apply elem_of_nil in Hp. Qed.

Lemma s0_agrees w' :
  world_ok body C w' → w_chain w' = [(1, (0, 100))] → (w_work w' ≤ 2)%nat → w_pool w' = ∅ →
  agrees s0 ∅ [first_block] {| v_world := w'; v_chain := [(5, 100)]; v_orphans := without 5 0 (λ _, ∅) |} 2.
Proof.
  intros Hok Hch Hw Hp. constructor; cbn [v_world v_chain v_orphans]; try done.
  - apply s0_inv.
  - cbn. lia.
  - intros i g _ Hg. unfold without in Hg. case_decide; set_solver.
  - rewrite Hch. intros [|i] h k Hi Hk; [|done]. cbn in Hi. injection Hi as <-. by apply elem_of_nil in Hk.
  - intros h. rewrite Hp, lookup_empty. split; [by intros []|by intros ?%no_pool].
  - by intros h ?%no_pool.
  - intros h. rewrite lookup_empty. split; [done|]. by intros ?%nothing_above.
  - intros [|i] p Hi; [lia|done].
  - by intros p ?%elem_of_nil.
  - by intros h ?%nothing_above.
  - by intros y ?%elem_of_nil.
  - by intros y ?%elem_of_nil.
  - apply s0_clock.
  - intros p ->%list_elem_of_singleton. done.
  - intros [|i] p Hi; [|done]. injection Hi as <-. done.
Qed.

(** ** The lines *)

Definition line1 : bytes * Z := (log_line (lit "2015") TYPE_ACCEPT_TX (tx_payload ParserDemo.payment), 10).
Definition line2 : bytes * Z := (log_line (lit "2015") TYPE_BLOCK (block_payload 1 block6), 20).
Definition line3 : bytes * Z := (log_line (lit "2015") TYPE_BLOCK (block_payload 0 block5), 30).
Definition line4 : bytes * Z := (log_line (lit "2015") TYPE_CLEAR_MEMTXS [], 40).
Definition item (line : bytes * Z) : Log1 := snd (parse line.1 newLog1).
Definition after (line : bytes * Z) (s : Log2Producer) : Log2Producer := snd (handle_log1 [] line s).
Definition s1 := after line1 s0.
Definition s2 := after line2 s1.
Definition s3 := after line3 s2.
Abbreviation line_step := (line_step body rank bbody hgt C 210000 1).
Abbreviation node_lines := (node_lines body rank bbody hgt C 210000 1 []).
Abbreviation work_of := (work_of body).
Abbreviation pool_work := (pool_work body).

Lemma in_first h : in_chain [first_block] h ↔ h = 1.
Proof.
  rewrite in_chain_one. change (TxHash <$> vtx first_block.1) with [1]. by rewrite list_elem_of_singleton.
Qed.
Lemma in_second h : in_chain [second_block] h ↔ h = 3 ∨ h = 2.
Proof.
  rewrite in_chain_one. change (TxHash <$> vtx second_block.1) with [3; 2].
  by rewrite elem_of_cons, list_elem_of_singleton.
Qed.
Lemma points2 k : k ∈ points ParserDemo.payment → k = (1, 0).
Proof. revert k. apply Forall_forall. by_compute. Qed.

Lemma payment_comes : accept_rules body rank C s0 [first_block] ParserDemo.payment.
Proof.
  constructor.
  - by apply (all_good 2); right; left.
  - done.
  - by apply (fit 2); right; left.
  - by intros ?%in_first.
  - intros k ->%points2. left. by apply in_first.
  - intros k h _ ->%in_first. by intros ?%elem_of_nil.
Qed.

Lemma block6_sound : block_sound body rank bbody C block6.
Proof.
  constructor.
  - apply block6_ok.
  - split; [by vm_compute|done].
  - done.
  - exists coinbase2, [ParserDemo.payment]. split_and!; [done..|]. by repeat constructor.
  - intros tx [->|[->|[]%elem_of_nil]%elem_of_cons]%elem_of_cons.
    + split; [apply (all_good 3)|apply (fit 3)]; tauto.
    + split; [apply (all_good 2)|apply (fit 2)]; tauto.
  - by_compute.
Qed.

Lemma block6_comes : block_rules body rank bbody hgt C 210000 [first_block] block6.
Proof.
  constructor; try done.
  - apply block6_sound.
  - by intros p ->%list_elem_of_singleton.
  - by intros p [= <-].
  - by intros tx [->|[->|[]%elem_of_nil]%elem_of_cons]%elem_of_cons ?%in_first.
  - intros [|t1 [|t2 [|t3 pre]]] tx post k E Hk; injection E; try done.
    + intros _ <-. by apply elem_of_nil in Hk.
    + intros _ <- _. apply points2 in Hk as ->. left. by apply in_first.
  - intros tx k h [->|[->|[]%elem_of_nil]%elem_of_cons]%elem_of_cons _ ->%in_first; by intros ?%elem_of_nil.
  - intros t1 t2 k [->|[->|[]%elem_of_nil]%elem_of_cons]%elem_of_cons [->|[->|[]%elem_of_nil]%elem_of_cons]%elem_of_cons;
      try done; intros H1 H2; [by apply elem_of_nil in H1|by apply elem_of_nil in H2].
  - intros cb [= <-]. eexists. split; [by vm_compute|by vm_compute].
Qed.

Lemma block6_goes : back_rules body 1 s2 [] first_block second_block.
Proof.
  constructor.
  - cbn. lia.
  - intros cb h k [= <-] Hh Hk. assert (h = 1 ∨ h = 3 ∨ h = 2) as Hc.
    { destruct Hh as [[Hc|Hc]%(in_chain_app [first_block] [second_block])|[x Hx]].
      - left. by apply in_first. - right. by apply in_second.
      - replace (txs_ (memRepo_ s2)) with (∅ : gmap uint256 CTransaction) in Hx by (symmetry; by vm_compute).
        by rewrite lookup_empty in Hx. }
    destruct Hc as [->|[->| ->]]; [by apply elem_of_nil in Hk|by apply elem_of_nil in Hk|].
    apply points2 in Hk as ->. done.
  - eexists. by vm_compute.
  - exists 0. split; [done|]. by vm_compute.
Qed.

Definition work1 : nat := 2 + work_of (TxHash ParserDemo.payment).
Definition work2 : nat := work1 + pool_work s1 + 2 * block_work body block6.
Definition work3 : nat := work2 + S (block_work body block6).
Definition work4 : nat := work3 + pool_work s3.

Lemma one_line line s blocks work lines b1 w1 b2 w2 :
  (parse line.1 newLog1).1 = Done tt → 0 ≤ line.2 → line_step s blocks work (item line) b1 w1 →
  node_lines (after line s) b1 w1 lines b2 w2 → node_lines s blocks work (line :: lines) b2 w2.
Proof.
  intros Hp Ho Hs Hn. eapply next_line with (u := tt) (item := item line); [|done|exact Hs|].
  - unfold item. destruct (parse line.1 newLog1). cbn in *. by subst.
  - intros s' E. unfold after in Hn. by rewrite E in Hn.
Qed.

Lemma four_lines : node_lines s0 [first_block] 2 [line1; line2; line3; line4] [first_block] work4.
Proof.
  apply (one_line _ _ _ _ _ [first_block] work1); [by vm_compute|done| |].
  { apply (accepted body rank bbody hgt C 210000 1 s0 [first_block] 2 (item line1) ParserDemo.payment);
      [by vm_compute|by vm_compute|apply payment_comes|by vm_compute]. }
  apply (one_line _ _ _ _ _ [first_block; second_block] work2); [by vm_compute|done|fold s1|fold s1 s2].
  { apply (pushed_block body rank bbody hgt C 210000 1 s1 [first_block] work1 (item line2) block6);
      [by vm_compute|by vm_compute|by vm_compute|apply block6_comes|by vm_compute]. }
  apply (one_line _ _ _ _ _ [first_block] work3); [by vm_compute|done| |fold s3].
  { apply (popped_block body rank bbody hgt C 210000 1 s2 [first_block; second_block] work2 (item line3) block5 [] first_block second_block);
      [by vm_compute|by vm_compute|done|by vm_compute|done|apply block6_goes|by vm_compute]. }
  apply (one_line _ _ _ _ _ [first_block] work4); [by vm_compute|done| |constructor]. unfold work4.
  apply (cleared body rank bbody hgt C 210000 1 s3 [first_block] work3 (item line4)); by vm_compute.
Qed.

(** ** A restart after the first line, with a row left unfinished *)

Definition row1 : txlog := default (row 0 0 0 0 0) (head (txlogs2 (cur (db_ s1)))).
Definition second_events : list event := [Handled (cur (db_ s1)) 0 (carried 1 row1)].
Definition store2 : whole := snd (run_events pools Some 0 210000 second_events store1).
Definition crashed : database :=
  with_txlogs2 (txlogs2 (cur (db_ s1)) ++ [Log2.reject_row 2]) (cur (db_ s1)).
Definition restarted : Log2Producer :=
  {| memRepo_ := emptyRepo; blkTs_ := newBlockTimestamp (2016 * 2); Log2.currBlockHeight_ := -1; currBlockHash_ := 0;
     log1_ := {| f_files := ∅; f_idx := 0; f_off := 0 |}; currLog1FileOffset_ := -1;
     static_log1FileIndex := -1; static_currLog1FileOffset := -1;
     db_ := {| cur := crashed; in_tx := false; durable := [crashed] |} |}.

Lemma store2_eq r x : run_events pools Some 0 210000 second_events store1 = (r, x) → store2 = x.
Proof. intros E. unfold store2. rewrite E. reflexivity. Qed.

#[local] Opaque s1 store1 store2.

Lemma line1_runs : forM [line1] (handle_log1 []) s0 = (Done tt, s1).
Proof. vm_compute. reflexivity. Qed.

Lemma one_row : txlogs2 (cur (db_ s1)) = [row1].
Proof. vm_compute. reflexivity. Qed.

Lemma line1_only : node_lines s0 [first_block] 2 [line1] [first_block] work1.
Proof.
  apply (one_line _ _ _ _ _ [first_block] work1); [by vm_compute|done| |constructor].
  apply (accepted body rank bbody hgt C 210000 1 s0 [first_block] 2 (item line1) ParserDemo.payment);
    [by vm_compute|by vm_compute|apply payment_comes|by vm_compute].
Qed.

Lemma decode_row5 : decodeBlock db5 0 = Done (block5, EncodeHexBlock block5).
Proof. vm_compute. reflexivity. Qed.
Lemma decode_none : decodeBlock db5 (-1) = Raise (Throw "can't find block by blkID from DB").
Proof. vm_compute. reflexivity. Qed.

Lemma first_run : run_events pools Some 0 210000 first_events first_whole = (Done tt, store1).
Proof. destruct first_store_runs as (w' & Hrun & _). exact Hrun. Qed.

Lemma first_stamped : stamped bbody store1.
Proof.
  pose proof first_run as Hrun.
  apply (stamped_events bbody pools Some 0 210000 first_events first_whole store1); [|exact Hrun|].
  - intros db at_ t blk hex (t' & [= -> _ ->] & (r & -> & Hr)%list_elem_of_fmap)%list_elem_of_fmap.
    apply elem_of_cons in Hr as [->| ->%list_elem_of_singleton].
    + change (blkId_ (carried 0 (row LOG2TYPE_TX_ACCEPT (-1) (-1) 100 1))) with (-1). by rewrite decode_none.
    + change (blkId_ (carried 0 (row LOG2TYPE_TX_CONFIRM 0 0 100 1))) with 0. rewrite decode_row5. by intros [= <- _].
  - intros h o Ho. cbn in Ho. by rewrite lookup_empty in Ho.
Qed.

Lemma row1_hash : tx_hash row1 = 2.
Proof. vm_compute. reflexivity. Qed.

Lemma second_store : ∃ st v work, agrees s1 st [first_block] v work ∧
  displays body (hexes body) C v store2 ∧ stamped bbody store2.
Proof.
  destruct first_store as (w' & Hd & Hok & Hch & Hw & Hp).
  destruct (lines_follow body rank bbody hgt C 210000 1 [] _ _ _ _ _ _ _ _ (s0_agrees w' Hok Hch Hw Hp) line1_only)
    as (s' & st' & v' & rows & Hrun & Hag & Hrows & Hlegal & _ & Hb).
  pose proof (f_equal snd (eq_trans (eq_sym Hrun) line1_runs) : s' = s1) as E1. clear Hrun. subst s'. rewrite one_row in Hrows. change (txlogs2 (cur (db_ s0)) ++ rows) with rows in Hrows.
  rewrite <-Hrows in *. exists st', v', work1. split; [exact Hag|].
  assert (handles (cur (db_ s1)) [row1] second_events) as Hh.
  { constructor; [| |by eapply serves_self|constructor].
    - apply (read_self body rank bbody hgt C 1 s1 st' [first_block] v' work1 row1 1 Hag).
      + rewrite row1_hash. apply (fit 2). by right; left.
      + apply Hb. by left.
    - split; [done|]. intros y Hy. by exists y. }
  destruct (run_history body (hexes body) C pools Some 0 210000 _ second_events v' store1
    (handles_legal _ _ _ _ _ _ _ _ _ (i_raw _ _ _ _ (ag_inv Hag)) Hlegal Hh) Hd) as [(store & Hr & Hd')|Hm]; [|by apply undisturbed_run in Hm].
  rewrite (store2_eq _ _ Hr). split; [exact Hd'|].
  eapply stamped_events; [|exact Hr|apply first_stamped]. intros db at_ t blk hex. by eapply handled_blocks.
Qed.

Lemma crash_recovered st v work : agrees s1 st [first_block] v work → recovered body bbody hgt s1 crashed.
Proof.
  intros Hag. constructor.
  - vm_compute. reflexivity.
  - destruct (i_raw _ _ _ _ (ag_inv Hag)) as [W1 W2 W3]. constructor; [exact W1|exact W2|exact W3].
  - by apply grows_refl.
  - exact (ag_rows Hag).
  - exact (ag_raw_ok Hag).
Qed.

Lemma restarted_fresh : fresh restarted crashed.
Proof. by constructor. Qed.

Lemma first_recent : recent [first_block].
Proof. vm_compute. reflexivity. Qed.

Lemma row1_consumed : consumed store2 = last_row_id (kept_ids [1; 2] (txlogs2 crashed)) ∧ consumed store2 = 1.
Proof. split; vm_compute; reflexivity. Qed.
End ComposeDemo.
