(* ===== verification/ComposeClaims.v ===== *)
(** * From the lines of log1 to the parser's tables

    What the two programs promise together: the lines a node may write are
    handled by log2producer, and once the parser has handled the rows they led
    to, its tables show the chain and the pool after the last line. *)
From S2P Require Import Prelude Tx Bytes Text Serialize LogFiles Log1 TxState BlockTs MemRepo Db Log2 Log2Refine Ledger ParserTx ParserBlock ParserRefine.
From S2P Require Import Balances Utxo ParserSpec ParserSteps ParserClaims ParserFacts ParserChain RecognizeBlock TxLogs TxLogsFacts ParserMain MainFacts Pipeline.
From S2P Require Import Stamps Log2Init ComposeRows Compose ComposeFacts ComposeBlocks ComposeRun ComposeRestart ComposeDemo.

Section claims.
Context `{Hashing} `{Scripts}.
Variables (body : uint256 → CTransaction) (rank : uint256 → nat) (bbody : uint256 → CBlock) (hgt : uint256 → Z).
Variables (C : gset bytes) (c : pools) (varargs : bytes → option bytes) (begin interval : Z) (base : nat) (now : bytes).
Implicit Types (s : Log2Producer) (st : states) (v : view) (blocks : list (CBlock * Z)) (work : nat).
Abbreviation agrees := (agrees body rank bbody hgt C base).
Abbreviation displays := (displays body (hexes body) C).
Abbreviation node_lines := (node_lines body rank bbody hgt C interval base now).

(** C1 — From the lines of log1 to the parser's tables: when log2producer and the
    parser's store agree on a chain and a pool, and the node writes lines that a
    node may write (transactions accepted and removed, blocks put on top and taken
    back, the pool cleared), log2producer handles every one of them; and however
    the parser then handles the rows this published, with restarts in between, it
    handles them all, after which its tables show the chain of blocks the lines
    left, with every transaction of it confirmed in its block and order, and as
    unconfirmed exactly the pool of log2producer.  The one exception is a rejection
    of a transaction with an address for which the formatting of line 1661, which
    is undefined, does not come back or prints another transaction's hash; what
    came before it is handled and displayed.  The two agree again, the rows can be
    handled, and the time stamps under key 11 stay those of the blocks. *)
Theorem log1_reaches_tables s st blocks v work lines blocks' work' store :
  agrees s st blocks v work → displays v store → node_lines s blocks work lines blocks' work' →
  ∃ s' st' v' rows, forM lines (handle_log1 now) s = (Done tt, s') ∧
    txlogs2 (cur (db_ s')) = txlogs2 (cur (db_ s)) ++ rows ∧
    agrees s' st' blocks' v' work' ∧
    v_chain v' = (λ p, (BlockHash p.1, p.2)) <$> blocks' ∧ w_chain (v_world v') = chain_entries blocks' ∧
    (∀ h, is_Some (w_pool (v_world v') !! h) ↔ in_pool (memRepo_ s') h) ∧
    (∃ evs, handles (cur (db_ s')) rows evs) ∧
    ∀ evs, handles (cur (db_ s')) rows evs →
      (∃ store', run_events c varargs begin interval evs store = (Done tt, store') ∧ displays v' store' ∧
        (stamped bbody store → stamped bbody store')) ∨
      meets_disturbed body (hexes body) C c varargs begin interval v evs store.
Proof.
  intros Hag Hd Hl.
  destruct (lines_follow body rank bbody hgt C interval base now _ _ _ _ _ _ _ _ Hag Hl)
    as (s' & st' & v' & rows & Hrun & Hag' & Hw & Hlegal & _ & Hb).
  exists s', st', v', rows. split_and!; try done; [by apply (ag_chain Hag')|by apply (ag_txs Hag')|by apply (ag_pool Hag')| |].
  - by eapply handled_somehow.
  - intros evs He. destruct (run_history body (hexes body) C c varargs begin interval v evs v' store) as [(store' & Hr & Hd')|Hm]; [|done| |by right].
    { eapply handles_legal; [apply (i_raw _ _ _ _ (ag_inv Hag'))|done..]. }
    left. exists store'. split; [done|]. split; [done|]. eapply stamped_events; [|done].
    intros db at_ t blk hex. by eapply handled_blocks.
Qed.

(** C7 — Every row that log2producer publishes for such lines is one the parser's
    producer thread can read from the database it is published in: of a known
    type, with its raw transaction stored in a form that decodes, and if it names
    a block that is stored, then with that block. *)
Theorem published_rows_readable s st blocks v work lines blocks' work' :
  agrees s st blocks v work → node_lines s blocks work lines blocks' work' →
  ∃ s' rows, forM lines (handle_log1 now) s = (Done tt, s') ∧
    txlogs2 (cur (db_ s')) = txlogs2 (cur (db_ s)) ++ rows ∧
    ∀ r, r ∈ rows → serves (cur (db_ s')) (cur (db_ s')) r ∧ ∀ k, readable (cur (db_ s')) (k, r).
Proof.
  intros Hag Hl.
  destruct (lines_follow body rank bbody hgt C interval base now _ _ _ _ _ _ _ _ Hag Hl)
    as (s' & st' & v' & rows & Hrun & Hag' & Hw & Hlegal & _ & Hb).
  exists s', rows. split_and!; [done..|]. intros r Hr. split; [by eapply serves_self|].
  intros k. by eapply legal_readable.
Qed.

(** C22 — A restart of log2producer resumes where it was: from whatever a crash left
    of a state that agrees with the parser, once the parser has handled all that
    was published, a new process drops the unfinished rows, reloads the pool and
    the cursor from MySQL, reads the last block and the window of time stamps from
    the parser's store, and agrees with the parser as before.  While the parser is
    behind, it refuses to start. *)
Theorem restart_resumes beginHeight beginHash s st blocks v work d s0 w ids :
  agrees s st blocks v work → displays v w → stamped bbody w →
  (∀ p, p ∈ blocks → bbody (BlockHash p.1) = p.1) → recent blocks → Z.of_nat (length blocks) < 2 ^ 31 →
  recovered body bbody hgt s d → fresh s0 d → currBlockHash_ s ≠ 0 →
  consumed w = last_row_id (kept_ids ids (txlogs2 d)) → 0 < consumed w →
  (∃ s1, init beginHeight beginHash ids w s0 = (Done tt, s1) ∧ agrees s1 st blocks v work ∧
    txlogs2 (cur (db_ s1)) = txlogs2 (cur (db_ s)) ∧ memRepo_ s1 = memRepo_ s ∧
    explorer_meta (cur (db_ s)) = Some (f_idx (log1_ s1), f_off (log1_ s1))) ∧
  ∀ w', consumed w' ≠ consumed w → ∃ s', init beginHeight beginHash ids w' s0 =
    (Raise (Throw "please wait util 'tparser' catch up"), s').
Proof.
  intros Hag Hd Hst Hb Hrec Hlen Hr Hf Hq Hc Hp. split; [by eapply init_run|]. rewrite Hc. intros w' Hne.
  by eapply init_refuses.
Qed.
End claims.

Section witnesses.
#[local] Existing Instance ParserDemo.scripts.
#[local] Existing Instance WholeDemo.hashing.
Import ComposeDemo.
Abbreviation lines := [line1; line2; line3; line4].

Theorem log1_reaches_tables_witness : ∃ s' rows evs (store store' : whole) v',
  forM lines (handle_log1 []) s0 = (Done tt, s') ∧ handles (cur (db_ s')) rows evs ∧
  run_events pools Some 0 210000 evs store = (Done tt, store') ∧
  displays body (hexes body) C v' store' ∧ v_chain v' = [(5, 100)].
Proof.
  destruct first_store as (w' & Hd & Hok & Hch & Hw & Hp).
  destruct (log1_reaches_tables body rank bbody hgt C pools Some 0 210000 1 [] s0 ∅ [first_block] _ 2 lines [first_block]
    work4 store1 (s0_agrees w' Hok Hch Hw Hp) Hd four_lines)
    as (s' & st' & v' & rows & Hrun & _ & _ & Hc & _ & _ & [evs He] & Hall).
  destruct (Hall evs He) as [(store' & Hr & Hd' & _)|Hm]; [|destruct (undisturbed_run _ _ _ _ Hm)]. exists s', rows, evs, store1, store', v'.
  split; [exact Hrun|]. split; [exact He|]. split; [exact Hr|]. split; [exact Hd'|exact Hc].
Defined.

Theorem published_rows_readable_witness : ∃ s' rows,
  forM lines (handle_log1 []) s0 = (Done tt, s') ∧ txlogs2 (cur (db_ s')) = rows ∧
  (log_type <$> rows) = [LOG2TYPE_TX_ACCEPT; LOG2TYPE_TX_ACCEPT; LOG2TYPE_TX_CONFIRM; LOG2TYPE_TX_CONFIRM;
    LOG2TYPE_TX_UNCONFIRM; LOG2TYPE_TX_UNCONFIRM; LOG2TYPE_TX_REJECT; LOG2TYPE_TX_REJECT] ∧
  ∀ r, r ∈ rows → readable (cur (db_ s')) (1, r).
Proof.
  destruct first_store as (w' & Hd & Hok & Hch & Hw & Hp).
  destruct (published_rows_readable body rank bbody hgt C 210000 1 [] s0 ∅ [first_block] _ 2 lines [first_block]
    work4 (s0_agrees w' Hok Hch Hw Hp) four_lines) as (s' & rows & Hrun & Hrows & Hall).
  exists s', rows. split; [exact Hrun|]. split; [exact Hrows|]. split; [|intros r Hr; apply Hall, Hr].
  assert (s' = snd (forM lines (handle_log1 []) s0)) as E by (rewrite Hrun; reflexivity).
  change (txlogs2 (cur (db_ s0)) ++ rows) with rows in Hrows. rewrite <-Hrows, E. vm_compute. reflexivity.
Defined.

Theorem restart_resumes_witness : ∃ s' st v work, init 0 5 [1; 2] store2 restarted = (Done tt, s') ∧
  agrees s' st [first_block] v work ∧ memRepo_ s' = memRepo_ s1.
Proof.
  destruct second_store as (st & v & work & Hag & Hd & Hs).
  destruct (restart_resumes body rank bbody hgt C 1 0 5 s1 st [first_block] v work crashed restarted store2 [1; 2]
    Hag Hd Hs) as [(s' & Hrun & Hag' & _ & Hm & _) _].
  - intros p Hp. apply list_elem_of_singleton in Hp as ->. reflexivity.
  - apply first_recent.
  - vm_compute. reflexivity.
  - exact (crash_recovered st v work Hag).
  - apply restarted_fresh.
  - vm_compute. discriminate.
  - apply row1_consumed.
  - rewrite (proj2 row1_consumed). reflexivity.
  - exists s', st, v, work. split; [exact Hrun|]. split; [exact Hag'|exact Hm].
Defined.
End witnesses.
